(* ===== verification/_CoqProject ===== *)
-Q . S2P
Prelude.v
GoStrings.v
NetIP.v
NetSet.v
Sip.v
Wafs.v
Composition.v
Mirror.v
Protocol.v
Overload.v
Policy.v
Sha256.v
Files.v
Mirrors.v
Live.v
Store.v
Events.v
Decide.v
Queue.v
Tree.v
Pack.v
Carry.v
Apply.v
Layout.v
Watch.v
Config.v
Handler.v
Sink.v
Program.v
Served.v
Delivered.v
Node.v
Reloads.v
System.v
Startup.v
