(* ===== verification/Prelude.v ===== *)
(** * Placitum ip: a verification library

    Placitum ip is the address inspector of a web application firewall. A
    module of the firewall asks, over NATS, whether the client behind an
    address may pass; the inspector answers allow or deny, may ask neighbour
    inspectors for more, and may put the address into a live set that other
    nodes share. This library models the program (Go, under [src/]) and proves
    what makes it correct.

    ** The program, and the files that model it

    A request travels through these parts:

    - [Handler] ([cmd/ip/handler.go], [lists.go]): [receive] parses a message
      and submits a task; [evaluate] and [inspect] answer it, write the list
      writes and the audit record.
    - [Protocol] ([internal/protocol]) is the request and the replies.
    - [Queue] ([internal/queue]) is the bounded pool between receiving and
      evaluating: [Submit], the workers, the time limit, [Close].
    - [Decide] ([internal/decide]) turns an address and a profile into rows,
      a verdict, a public reason, requests and writes; [Overload]
      ([internal/overload]) is the threshold at which outcomes fire when
      the queue is full.
    - [Store] ([internal/store]) compiles a directory of policy files into a
      snapshot and answers what a decision asks: does this set match this
      address. [Policy] ([internal/policy]) reads and checks the files.
    - [NetSet] ([internal/netset]) is the table of intervals behind every
      fixed list.
    - [Mirror], [Composition], [Wafs], [Sip] ([internal/dyn]) keep a live set
      in step with its keeper: frames on the bus, packages and snapshots in
      Redis, a running SipHash of the contents. [Live] is the interface through
      which [Store] sees the mirror; [Live.mirror_live] implements it.
    - [Events] and [Sink] ([internal/audit]) build an audit event and ship
      events in batches.
    - [Pack], [Carry], [Apply], [Watch] ([internal/desired]) take the desired
      state the console publishes: check it, translate it, write it beside
      the live tree, swap the trees, fall back when it does not load.
    - [Config] ([internal/config]) reads the environment and
      [inspector.conf]; [Program] ([cmd/ip/main.go], [cmd/probe/main.go])
      is the policy at the start, the presence frame, the signals and the
      message of the health check; [Startup] is the order in which [run] opens
      and closes what it needs, with [audit.Ensure] and [run] of the probe.

    Seven files put the parts together.
    - [Served] reads a decision off the policy files, through [Store],
      [NetSet], [Decide] and [Handler]. [Layout] is the tree of files that
      [Apply] writes, exactly, and [Delivered] the path from a pack to the
      verdict of a reply.
    - [Node] is the running program: the handler, the pool and the audit
      sink, as [run] joins them, with the effects of an action of the handler
      interleaved with the threads of the pool and of the sink, up to the
      shutdown. [Reloads] is the policy store under reloads that run at once,
      [Mirrors] the live sets of a node while frames arrive and sets come and
      go, and [System] the three of them at once.
    - [Watch] runs the applying of generations over a file system that may
      fail at any call.

    Under them lies what the source uses of Go's standard library:
    [GoStrings] ([strings], [strconv], [fmt]), [NetIP] ([net/netip]),
    [Sha256] ([crypto/sha256], [encoding/hex]), [Files] (reading [os] and
    [path/filepath]) and [Tree] (writing them). This file, the prelude, holds
    the results of fallible code, 64-bit integers, Go's slices and sorting,
    [for_each], and the tactics and hints the other files share.

    ** How code becomes definitions

    A definition has the name of the function, type or constant it models;
    where a Go package has several types with the same field, a field [F] of a
    struct [S] is the projection [s_F] or has the name alone. A function
    that returns [(T, error)] returns [result E T]; the error is the data
    the caller can see of it. A run-time panic is a value of its own
    ([Panic]), so that a theorem can exclude it.
    Go's [int], [int64] and [uint64] are [Z] with the wrap-around written
    out where the source can reach it. Maps are [gmap]. A map that is ranged
    over is [map_to_list] of it; where the order could matter beyond the
    choice among several errors, the theorem says so.

    State is passed explicitly. What runs concurrently is a step relation at
    the granularity of the critical sections: [Queue.step] (threads, mutex,
    condition variable), [Sink.step] (adders against the flush loop),
    [Node.step] (both, with the handler between them), [Reloads.step] (the
    accesses to the atomic variables of the store), [Mirrors.step] (the frames,
    packages and snapshots of each live set) and [System.step] (the last three
    side by side: a call of the handler reads the others when it begins). What
    talks to the outside runs against an environment that may answer
    anything: [Mirror.Env] (NATS and Redis), [Watch.env] (Redis, the bus, the
    clock), [Tree.world] (a file system any of whose calls may fail). An
    action of the handler is the list of its effects in order.

    ** What the theorems show

    - End to end: [Served.answer_from_files] says what the answer to a
      request is in terms of the lines of the list files and of the sets and
      rules as they were decoded, with no table, search or compiled row left
      in the statement. [Delivered.pack_decides] says it in terms of the pack
      that was applied and of its blobs: no file is left in the statement.
      [System.answers_justified] says it of every answer that a run of the
      whole program sends, with reloads and live sets changing meanwhile.
    - Decisions: [Decide.verdict_by_rows] (the verdict), [rows_exact],
      [writes_resolved], [deny_names_the_address], [errors_exact],
      [overload_exact]; and [Handler.inspect_exact] says the handler answers
      with that decision. [Decide.unready_list_closes] and [reply_shape] are
      about single consequences.
    - Service: [Handler.every_message_answered] for one message,
      [Queue.handled_once], [no_lost_wakeup], [queue_in_order] and
      [close_terminates] for the pool, [Sink.sink_delivers] for the sink; and
      for the node they make up, [Node.every_request_answered] (a ledger of
      who is owed an answer that holds at every moment, and is settled once
      the pool is closed) and [Node.audit_survives] (what was audited before
      the shutdown leaves the sink).
    - Start: [Config.load_usable], [Startup.run_exact] (which failures end the
      start, and that exactly what was opened is closed) and
      [Program.boot_serves]; [Program.probe_taken] says the health check is a
      request like any other.
    - Live sets: [Composition.apply_all_exact] and [contains_spec] (the
      contents), [Mirror.mirror_refines_keeper] (the mirror is a state of its
      keeper), [mirror_consistent], [frame_catches_up], [sync_exact];
      [Wafs.unpack_encode] (the format) and [Sip.siphash_reference] (the
      hash).
    - Membership: [NetSet.list_file_membership] and [build_canonical],
      [Store.explain_spec] (a set as a formula over its parts).
    - Policy: [Policy.profile_accepted], [ttl_product],
      [Overload.overload_threshold], [Store.snapshot_resolved] and
      [reload_keeps]; [Reloads.reloads_concurrent] for reloads that overlap.
    - Desired state: [Pack.pack_accepted], [Carry.pack_carries],
      [Apply.apply_failure_keeps], [Watch.desired_applied] and
      [watch_report].
    - Input languages: [Protocol.parse_accepts],
      [Config.queue_file_exact].

    Some theorems say where the code departs from its intent:
    [NetSet.mapped_network_collapses], [NetSet.zoned_address_missed],
    [Composition.bad_length_panics], [Policy.ttl_product],
    [Carry.pack_carries], [Decide.unready_list_closes],
    [Overload.overload_threshold], [Reloads.stale_swap].

    ** Bounds and fuel

    Recursion that is not structural has fuel computed from its argument, and
    a theorem shows it is enough: [catch_up_loop] has the distance between two
    serial numbers, each package raises the number, and [mirror_refines_keeper]
    and [mirror_consistent] exclude running out; [read_records] has the length
    of the data; [digits], [v6_loop] and [string6_go] have at least the
    number of digits or groups there can be; the binary search
    has the length of its interval; a reload that runs alone has seven
    sections ([Reloads.alone_reload]). The constants of the source are kept:
    256 packages per read ([packagesPerRead]), 256 events or 512 KiB per
    batch ([maxItems], [maxSize]), 50000 waiting events ([maxPending]), 25 to
    100 percent for a threshold. The depth of the queue, the number of workers
    and the length of a run are arbitrary.

    ** Not modelled, and why

    - Encoders and decoders of JSON and YAML belong to libraries: they are
      arguments, and so are [net/url.Parse], [time.ParseDuration],
      [filepath.Abs], and the letters, digits and lower case of Unicode beyond
      ASCII.
    - [placitum-shared] is not part of this repository: the network
      directory ([netinfo]) and [loglevel.Parse] are arguments; the traffic
      counter ([flow]), the log sink ([logkit]) and the presence envelope
      ([pulse]) are left out.
    - Pure input and output: the calls to NATS and Redis ([OpenBlobs],
      [nats.Connect], subscribing, creating streams) are arguments of
      [Startup.run], only their results matter; log lines
      ([LogInternalRedis], [redactURL]), the ticker of the heartbeat, flags of
      the probe, exit codes and [version.go] are left out.
    - Memory is unbounded: the capacity a slice is made with is left out.
    - Within [Store] and [Apply] the disk does not change while one snapshot
      is read from it. [Reloads] is where it does: each look at the disk of
      each reload sees an arbitrary tree, so one that is being swapped, or half
      of it, is among them.
    - In [Node] a record is built and added to the sink in one step, and a
      call of the handler finds the policy, the live sets and the network
      directory as they are when it begins. The program reads the policy once
      per call too; the live sets it asks row by row.
    - In [System] an applied generation is the reload and the attaching of
      live sets that it causes, with any view of the disk; how [Watch] gets
      there, its retries and its report, are proved about [Watch] alone.

    ** Plan

    What the plan named is modelled. Two refinements would be next: a decision
    whose rows see the live sets at different moments, as a relation between
    the moment a call begins and the moment it ends; and the loop of [Watch]
    as a fourth part of [System], over one file system shared with [Reloads],
    so that its report is tied to the snapshot that is current. *)

From stdpp Require Export base tactics gmap strings list numbers option.
From stdpp Require Export sorting.
From Stdlib Require Export ZArith Lia.

#[export] Set Default Goal Selector "!".
#[export] Set Warnings "-clear-no-such-hyp,-register-all".

(** ** Results of fallible Go code *)

(** [(T, error)] of the source: a value, or the error that was returned
    instead of it. *)
Inductive result (E A : Type) : Type :=
| Ok (a : A)
| Err (e : E).
Arguments Ok {E A} a.
Arguments Err {E A} e.

#[export] Instance result_ret {E} : MRet (result E) := fun A a => Ok a.
#[export] Instance result_bind {E} : MBind (result E) := fun A B f r =>
  match r with
  | Ok a => f a
  | Err e => Err e
  end.
#[export] Instance result_eq_dec {E A} `{EqDecision E, EqDecision A} :
  EqDecision (result E A).
Proof. solve_decision. Defined.

Lemma result_bind_ok {E A B} (r : result E A) (f : A -> result E B) b :
  mbind (M := result E) f r = Ok b -> exists a, r = Ok a /\ f a = Ok b.
Proof. destruct r; simpl; intros; try done. eauto. Qed.

Definition is_ok {E A} (r : result E A) : bool :=
  match r with Ok _ => true | Err _ => false end.

Definition map_err {E F A} (f : E -> F) (r : result E A) : result F A :=
  match r with Ok a => Ok a | Err e => Err (f e) end.

Lemma map_err_ok {E F A} (f : E -> F) (r : result E A) a : map_err f r = Ok a -> r = Ok a.
Proof. destruct r; simpl; congruence. Qed.

(** [if cond { return err }] followed by the rest of the function. *)
Definition reject_if {E} (cond : bool) (e : E) : result E unit :=
  if cond then Err e else Ok tt.

Lemma reject_if_ok {E} (c : bool) (e : E) : reject_if c e = Ok tt <-> c = false.
Proof. unfold reject_if. by destruct c. Qed.

Lemma reject_bind {E A} (c : bool) (e : E) (k : result E A) a :
  mbind (M := result E) (fun _ => k) (reject_if c e) = Ok a <-> c = false /\ k = Ok a.
Proof. unfold reject_if. destruct c; simpl; naive_solver. Qed.

(** [for _, a := range l { if err := f(a); err != nil { return err } }] *)
Fixpoint for_each {E A} (f : A -> result E unit) (l : list A) : result E unit :=
  match l with
  | [] => Ok tt
  | a :: l => mbind (M := result E) (fun _ => for_each f l) (f a)
  end.

Lemma for_each_ok {E A} (f : A -> result E unit) l :
  for_each f l = Ok tt <-> Forall (fun a => f a = Ok tt) l.
Proof.
  induction l as [|a l IH]; cbn [for_each]; [by split|].
  rewrite Forall_cons. destruct (f a) as [[]|e]; simpl; naive_solver.
Qed.

Lemma check_bind {E A} (r : result E unit) (k : result E A) a :
  mbind (M := result E) (fun _ => k) r = Ok a <-> r = Ok tt /\ k = Ok a.
Proof. destruct r as [[]|e]; simpl; naive_solver. Qed.

Lemma bool_decide_ext_if {A} (P Q : Prop) `{Decision P, Decision Q} (x y : A) :
  P <-> Q -> (if bool_decide P then x else y) = if bool_decide Q then x else y.
Proof. intros HPQ. by rewrite (bool_decide_ext P Q). Qed.

Declare Scope go_scope.
Delimit Scope go_scope with go.
Open Scope go_scope.

Notation "'let*' x := r 'in' k" := (mbind (M := result _) (fun x => k) r)
  (at level 10, x name, r at level 100, k at level 200) : go_scope.
Notation "'let*' ' p := r 'in' k" := (mbind (M := result _) (fun x => match x with p => k end) r)
  (at level 10, p pattern, r at level 100, k at level 200) : go_scope.
Notation "'check' r ';;' k" := (mbind (M := result _) (fun _ => k) r)
  (at level 10, r at level 99, k at level 200) : go_scope.

(** Code that may also panic: a run-time panic, a returned error, a value. *)
Inductive run (E A : Type) : Type :=
| Panic
| Throw (e : E)
| Ret (a : A).
Arguments Panic {E A}.
Arguments Throw {E A} e.
Arguments Ret {E A} a.

#[export] Instance run_ret {E} : MRet (run E) := fun A a => Ret a.
#[export] Instance run_bind {E} : MBind (run E) := fun A B f r =>
  match r with
  | Panic => Panic
  | Throw e => Throw e
  | Ret a => f a
  end.
#[export] Instance run_eq_dec {E A} `{EqDecision E, EqDecision A} : EqDecision (run E A).
Proof. solve_decision. Defined.

Lemma run_bind_ret {E A B} (r : run E A) (f : A -> run E B) b :
  mbind (M := run E) f r = Ret b -> exists a, r = Ret a /\ f a = Ret b.
Proof. destruct r; simpl; intros; try done. eauto. Qed.

Notation "'let!' x := r 'in' k" := (mbind (M := run _) (fun x => k) r)
  (at level 10, x name, r at level 100, k at level 200) : go_scope.
Notation "'let!' ' p := r 'in' k" := (mbind (M := run _) (fun x => match x with p => k end) r)
  (at level 10, p pattern, r at level 100, k at level 200) : go_scope.

(** Partial code: [None] is a run-time panic. *)
Notation "'let?' x := r 'in' k" := (mbind (M := option) (fun x => k) r)
  (at level 10, x name, r at level 100, k at level 200) : go_scope.
Notation "'let?' ' p := r 'in' k" := (mbind (M := option) (fun x => match x with p => k end) r)
  (at level 10, p pattern, r at level 100, k at level 200) : go_scope.

(** ** Automation *)

Create HintDb go.
Create Rewrite HintDb go.

(** Case analysis on the match or the [if] that blocks the goal. *)
Ltac go_case :=
  match goal with
  | |- context [match ?x with _ => _ end] =>
      lazymatch x with
      | context [match _ with _ => _ end] => fail
      | _ => let E := fresh "E" in destruct x eqn:E
      end
  end.
Ltac go_case_in H :=
  match type of H with
  | context [match ?x with _ => _ end] =>
      lazymatch x with
      | context [match _ with _ => _ end] => fail
      | _ => let E := fresh "E" in destruct x eqn:E
      end
  end.
Ltac go_cases := repeat (go_case; simplify_eq/=).
Ltac go_cases_in H := repeat (go_case_in H; simplify_eq/=).

(** ** Machine integers *)

Definition wrap (w z : Z) : Z := z mod 2 ^ w.
Abbreviation u8 := (wrap 8).
Abbreviation u32 := (wrap 32).
Abbreviation u64 := (wrap 64).

(** Conversion to a signed 64-bit integer, as Go's [int] and [int64]. *)
Definition i64 (z : Z) : Z := (z + 2 ^ 63) mod 2 ^ 64 - 2 ^ 63.

(** [^uint32(0)] and [^uint64(0)]. *)
Definition max_uint (w : Z) : Z := Z.ones w.

Lemma wrap_range w z : (0 <= w)%Z -> (0 <= wrap w z < 2 ^ w)%Z.
Proof. intros. apply Z.mod_pos_bound. lia. Qed.

Lemma wrap_small w z : (0 <= z < 2 ^ w)%Z -> wrap w z = z.
Proof. apply Z.mod_small. Qed.

Lemma i64_small z : (- 2 ^ 63 <= z < 2 ^ 63)%Z -> i64 z = z.
Proof. intros. unfold i64. rewrite Z.mod_small; lia. Qed.

Lemma i64_range z : (- 2 ^ 63 <= i64 z < 2 ^ 63)%Z.
Proof. unfold i64. pose proof (Z.mod_pos_bound (z + 2 ^ 63) (2 ^ 64)). lia. Qed.

#[export] Hint Resolve wrap_range i64_range : go.

(** A [w]-bit number is one that its own mask leaves alone. *)
Lemma bits_range w a : (0 <= w)%Z -> (0 <= a < 2 ^ w)%Z <-> Z.land a (Z.ones w) = a.
Proof.
  intros Hw. rewrite Z.land_ones by done. split; [apply Z.mod_small|].
  intros <-. apply Z.mod_pos_bound. lia.
Qed.

Lemma lor_range w a b :
  (0 <= w)%Z -> (0 <= a < 2 ^ w)%Z -> (0 <= b < 2 ^ w)%Z -> (0 <= Z.lor a b < 2 ^ w)%Z.
Proof.
  intros Hw. rewrite !bits_range by done. intros Ha Hb.
  by rewrite Z.land_lor_distr_l, Ha, Hb.
Qed.

Lemma lxor_range w a b :
  (0 <= w)%Z -> (0 <= a < 2 ^ w)%Z -> (0 <= b < 2 ^ w)%Z -> (0 <= Z.lxor a b < 2 ^ w)%Z.
Proof.
  intros Hw. rewrite !bits_range by done. intros Ha Hb.
  rewrite <- Ha, <- Hb at 2. apply Z.bits_inj'. intros n Hn.
  rewrite !Z.land_spec, !Z.lxor_spec, !Z.land_spec.
  destruct (Z.testbit a n), (Z.testbit b n), (Z.testbit (Z.ones w) n); done.
Qed.

#[export] Hint Resolve lor_range lxor_range : go.

(** Disjoint bit ranges add: the or of a multiple of [2 ^ k] and a number
    below it is their sum. *)
Lemma lor_shift_add k a b :
  (0 <= k)%Z -> (0 <= b < 2 ^ k)%Z -> Z.lor (a * 2 ^ k) b = (a * 2 ^ k + b)%Z.
Proof.
  intros Hk Hb. rewrite <- Z.shiftl_mul_pow2 by done.
  rewrite <- Z.lxor_lor, <- Z.add_nocarry_lxor; [done| |].
  all: apply Z.bits_inj'; intros n Hn; rewrite Z.land_spec, Z.bits_0.
  all: destruct (decide (n < k)%Z); [rewrite Z.shiftl_spec_low by lia; done|].
  all: apply andb_false_iff; right.
  all: rewrite <- (Z.mod_small b (2 ^ k)) by done.
  all: apply Z.mod_pow2_bits_high; lia.
Qed.

(** Clearing the low [k] bits. *)
Lemma ldiff_ones k a : (0 <= k)%Z -> Z.ldiff a (Z.ones k) = (a - a mod 2 ^ k)%Z.
Proof.
  intros Hk. rewrite Z.ldiff_ones_r by done.
  rewrite Z.shiftl_mul_pow2, Z.shiftr_div_pow2 by done.
  pose proof (Z.div_mod a (2 ^ k)). lia.
Qed.

(** ** [sort.Search] *)

(** Go's binary search, with the number of elements as fuel: every probe
    shrinks the interval. *)
Fixpoint search_go (fuel i j : nat) (f : nat -> bool) : nat :=
  match fuel with
  | O => i
  | S fuel =>
      if i <? j then
        let h := Nat.div2 (i + j) in
        if f h then search_go fuel i h f else search_go fuel (S h) j f
      else i
  end.
Definition sort_search (n : nat) (f : nat -> bool) : nat := search_go n 0 n f.

Lemma search_go_spec f n : forall fuel i j,
  (j - i <= fuel) -> (i <= j <= n) ->
  (forall a b, a <= b < n -> f a = true -> f b = true) ->
  (forall k, k < i -> f k = false) -> (forall k, j <= k < n -> f k = true) ->
  let r := search_go fuel i j f in
  r <= n /\ (forall k, k < r -> f k = false) /\ (forall k, r <= k < n -> f k = true).
Proof.
  induction fuel as [|fuel IH]; intros i j Hfuel Hij Hmono Hlo Hhi; simpl.
  { split_and!; [lia|done|]. intros. apply Hhi. lia. }
  destruct (Nat.ltb_spec i j).
  2: { split_and!; [lia|done|]. intros. apply Hhi. lia. }
  pose proof (Nat.div2_div (i + j)) as Hdiv.
  assert (i <= Nat.div2 (i + j) < j) as Hh.
  { rewrite Hdiv. split; [apply Nat.div_le_lower_bound|apply Nat.Div0.div_lt_upper_bound]; lia. }
  destruct (f (Nat.div2 (i + j))) eqn:E; apply IH; try done; try lia.
  - intros k Hk. apply (Hmono (Nat.div2 (i + j))); [lia|done].
  - intros k Hk. destruct (f k) eqn:Ek; [|done].
    rewrite (Hmono k (Nat.div2 (i + j))) in E; [done|lia|done].
Qed.

(** On a monotone predicate the search returns the first index where it
    holds, or the length when there is none. *)
Lemma sort_search_spec n f :
  (forall a b, a <= b < n -> f a = true -> f b = true) ->
  sort_search n f <= n
  /\ (forall k, k < sort_search n f -> f k = false)
  /\ (forall k, sort_search n f <= k < n -> f k = true).
Proof. intros. apply search_go_spec; [lia|lia|done|lia|lia]. Qed.

(** ** [sort.Slice] *)

(** The order that a [less] function induces; [sort.Slice] returns a
    permutation sorted by it. *)
Definition not_less {A} (less : A -> A -> bool) : relation A :=
  fun a b => less b a = false.
#[export] Instance not_less_dec {A} (less : A -> A -> bool) a b :
  Decision (not_less less a b).
Proof. unfold not_less. apply _. Defined.

Definition sort_slice {A} (less : A -> A -> bool) (l : list A) : list A :=
  merge_sort (not_less less) l.

Lemma sort_slice_perm {A} (less : A -> A -> bool) l : sort_slice less l ≡ₚ l.
Proof. apply merge_sort_Permutation. Qed.

(** Related lists stay related when one is permuted. *)
Lemma forall2_perm {A B} (R : A -> B -> Prop) l l' k :
  Forall2 R l k -> l ≡ₚ l' -> exists k', k ≡ₚ k' /\ Forall2 R l' k'.
Proof.
  intros H Hp. revert k H. induction Hp as [|x l l' Hp IH|x y l|l l2 l3 _ IH1 _ IH2]; intros k H.
  - by exists k.
  - apply Forall2_cons_inv_l in H as (b & k' & Hb & H & ->). destruct (IH _ H) as (k2 & ? & ?).
    exists (b :: k2). split; [by constructor|by constructor].
  - apply Forall2_cons_inv_l in H as (b & k' & Hb & H & ->).
    apply Forall2_cons_inv_l in H as (c & k2 & Hc & H & ->).
    exists (c :: b :: k2). split; [constructor|by repeat constructor].
  - destruct (IH1 _ H) as (k2 & ? & H2). destruct (IH2 _ H2) as (k3 & ? & ?).
    exists k3. split; [by transitivity k2|done].
Qed.

(** ** Byte sequences *)

Abbreviation bytes := (list Z).

Definition byte_ok (b : Z) : Prop := (0 <= b < 256)%Z.
#[export] Instance byte_ok_dec b : Decision (byte_ok b).
Proof. unfold byte_ok. apply _. Defined.

(** [data[from:to]], which panics outside the slice. *)
Definition slice {A} (data : list A) (from to : nat) : option (list A) :=
  if (from <=? to) && (to <=? length data) then Some (take (to - from) (drop from data))
  else None.

(** [binary.LittleEndian.Uint16/32/64] read the first bytes of a slice. *)
Fixpoint le_combine (bs : bytes) : Z :=
  match bs with
  | [] => 0
  | b :: bs => b + 256 * le_combine bs
  end.
Fixpoint le_split (n : nat) (z : Z) : bytes :=
  match n with
  | O => []
  | S n => z mod 256 :: le_split n (z / 256)
  end%Z.

Lemma le_split_length n z : length (le_split n z) = n.
Proof. revert z. induction n as [|n IH]; intros z; simpl; [done|]. by rewrite IH. Qed.

Lemma le_split_ok n z : Forall byte_ok (le_split n z).
Proof.
  revert z. induction n as [|n IH]; intros z; simpl; constructor; [|done].
  apply Z.mod_pos_bound. lia.
Qed.

Lemma le_combine_split n z :
  (0 <= z < 256 ^ Z.of_nat n)%Z -> le_combine (le_split n z) = z.
Proof.
  revert z. induction n as [|n IH]; intros z Hz; [simpl in *; lia|].
  cbn [le_split le_combine].
  rewrite Nat2Z.inj_succ, Z.pow_succ_r in Hz by lia.
  rewrite IH; [|split; [apply Z.div_pos|apply Z.div_lt_upper_bound]; lia].
  pose proof (Z.div_mod z 256). lia.
Qed.

Lemma le_combine_range bs :
  Forall byte_ok bs -> (0 <= le_combine bs < 256 ^ Z.of_nat (length bs))%Z.
Proof.
  unfold byte_ok. induction 1 as [|b bs Hb Hbs IH]; [simpl; lia|].
  cbn [le_combine length]. rewrite Nat2Z.inj_succ, Z.pow_succ_r by lia. lia.
Qed.

#[export] Hint Resolve le_split_ok le_combine_range : go.
#[export] Hint Rewrite le_split_length : go.
