(* ===== verification/GoStrings.v ===== *)
(** * Go strings

    What the program uses of the packages [strings], [strconv] and [fmt]: a
    Go string is its sequence of bytes, here a [string] of [ascii].
    White space follows [unicode.IsSpace] on UTF-8, every code point of it.
    [strings.ToLower] is exact on ASCII; its Unicode table is the class
    [UnicodeLower], which the definitions that lower a string take. *)

From S2P Require Import Prelude.
From Stdlib Require Export Ascii.

Definition code (c : ascii) : Z := Z.of_N (N_of_ascii c).
Definition chr (z : Z) : ascii := ascii_of_N (Z.to_N z).

Definition in_range (lo hi : ascii) (c : ascii) : bool :=
  ((code lo <=? code c) && (code c <=? code hi))%Z.
Definition is_digit : ascii -> bool := in_range "0" "9".
Definition is_lower : ascii -> bool := in_range "a" "z".
Definition is_upper : ascii -> bool := in_range "A" "Z".

Fixpoint string_forallb (f : ascii -> bool) (s : string) : bool :=
  match s with
  | EmptyString => true
  | String c s => f c && string_forallb f s
  end.
Fixpoint string_map (f : ascii -> ascii) (s : string) : string :=
  match s with
  | EmptyString => EmptyString
  | String c s => String (f c) (string_map f s)
  end.

(** ** Case *)

Definition is_ascii (s : string) : bool := string_forallb (fun c => code c <? 128)%Z s.
Definition lower_char (c : ascii) : ascii := if is_upper c then chr (code c + 32) else c.

(** [unicode.ToLower] over a string that is not ASCII. *)
Class UnicodeLower := unicode_lower : string -> string.

(** The table of an ASCII-only program, for examples. *)
Definition ascii_only : UnicodeLower := fun s => s.

Definition ToLower `{UnicodeLower} (s : string) : string :=
  if is_ascii s then string_map lower_char s else unicode_lower s.

(** ** White space *)

Definition space1 (c : ascii) : bool :=
  ((code c =? 32) || ((9 <=? code c) && (code c <=? 13)))%Z.
(** U+0085 and U+00A0. *)
Definition space2 (a b : ascii) : bool :=
  ((code a =? 194) && ((code b =? 133) || (code b =? 160)))%Z.
(** U+1680, U+2000 to U+200A, U+2028, U+2029, U+202F, U+205F, U+3000. *)
Definition space3 (a b c : ascii) : bool :=
  (((code a =? 225) && (code b =? 154) && (code c =? 128)) ||
   ((code a =? 226) && (code b =? 128) &&
      (((128 <=? code c) && (code c <=? 138)) || (code c =? 168) || (code c =? 169)
       || (code c =? 175))) ||
   ((code a =? 226) && (code b =? 129) && (code c =? 159)) ||
   ((code a =? 227) && (code b =? 128) && (code c =? 128)))%Z.

Fixpoint trim_left (s : string) : string :=
  match s with
  | EmptyString => s
  | String a s1 =>
      if space1 a then trim_left s1 else
      match s1 with
      | EmptyString => s
      | String b s2 =>
          if space2 a b then trim_left s2 else
          match s2 with
          | EmptyString => s
          | String c s3 => if space3 a b c then trim_left s3 else s
          end
      end
  end.

(** The same from the end, on the reversed string. *)
Fixpoint trim_left_rev (s : string) : string :=
  match s with
  | EmptyString => s
  | String c s1 =>
      if space1 c then trim_left_rev s1 else
      match s1 with
      | EmptyString => s
      | String b s2 =>
          if space2 b c then trim_left_rev s2 else
          match s2 with
          | EmptyString => s
          | String a s3 => if space3 a b c then trim_left_rev s3 else s
          end
      end
  end.

Fixpoint rev_append (s acc : string) : string :=
  match s with
  | EmptyString => acc
  | String c s => rev_append s (String c acc)
  end.
Definition rev_string (s : string) : string := rev_append s "".

Definition trim_right (s : string) : string := rev_string (trim_left_rev (rev_string s)).
Definition TrimSpace (s : string) : string := trim_right (trim_left s).

(** [strings.Fields]: the maximal runs without white space. [cur] is the
    reversed field being read. *)
Definition close_field (cur : string) (rest : list string) : list string :=
  match cur with EmptyString => rest | _ => rev_string cur :: rest end.
Fixpoint fields_go (cur s : string) : list string :=
  match s with
  | EmptyString => close_field cur []
  | String a s1 =>
      if space1 a then close_field cur (fields_go "" s1) else
      match s1 with
      | String b s2 =>
          if space2 a b then close_field cur (fields_go "" s2) else
          match s2 with
          | String c s3 =>
              if space3 a b c then close_field cur (fields_go "" s3)
              else fields_go (String a cur) s1
          | EmptyString => fields_go (String a cur) s1
          end
      | EmptyString => fields_go (String a cur) s1
      end
  end.
Definition Fields (s : string) : list string := fields_go "" s.

(** ** Searching and cutting *)

Fixpoint HasPrefix (s prefix : string) : bool :=
  match prefix, s with
  | EmptyString, _ => true
  | String p prefix, String c s => bool_decide (p = c) && HasPrefix s prefix
  | String _ _, EmptyString => false
  end.
Definition HasSuffix (s suffix : string) : bool :=
  HasPrefix (rev_string s) (rev_string suffix).

(** [strings.Cut] at a one-byte separator: the text before its first
    occurrence, and what follows it when there is one. *)
Fixpoint Cut (s : string) (sep : ascii) : string * option string :=
  match s with
  | EmptyString => (EmptyString, None)
  | String c s =>
      if bool_decide (c = sep) then (EmptyString, Some s)
      else let '(before, after) := Cut s sep in (String c before, after)
  end.

(** [strings.Split] at a one-byte separator. *)
Fixpoint Split (s : string) (sep : ascii) : list string :=
  match s with
  | EmptyString => [""]
  | String c s =>
      if bool_decide (c = sep) then "" :: Split s sep
      else match Split s sep with
           | [] => [String c ""]
           | w :: ws => String c w :: ws
           end
  end.
(** [strings.CutSuffix]: what comes before the suffix, when it is there. *)
Definition CutSuffix (s suffix : string) : option string :=
  if HasSuffix s suffix
  then Some (String.substring 0 (String.length s - String.length suffix) s) else None.

(** The text before and after the last occurrence of a byte. *)
Definition CutLast (s : string) (sep : ascii) : option (string * string) :=
  match Cut (rev_string s) sep with
  | (_, None) => None
  | (after, Some before) => Some (rev_string before, rev_string after)
  end.

Fixpoint contains_char (c : ascii) (s : string) : bool :=
  match s with
  | EmptyString => false
  | String d s => bool_decide (c = d) || contains_char c s
  end.

Definition last_char (s : string) : option ascii :=
  match rev_string s with EmptyString => None | String c _ => Some c end.
Definition drop_last (s : string) : string :=
  match rev_string s with EmptyString => EmptyString | String _ s => rev_string s end.

(** ** Numbers *)

#[local] Open Scope Z_scope.

Definition digit_value (base : Z) (c : ascii) : option Z :=
  let v := if is_digit c then Some (code c - 48)
           else if is_lower c then Some (code c - 87)
           else if is_upper c then Some (code c - 55)
           else None in
  match v with
  | Some v => if v <? base then Some v else None
  | None => None
  end.

Fixpoint digits_value (base acc : Z) (s : string) : option Z :=
  match s with
  | EmptyString => Some acc
  | String c s =>
      match digit_value base c with
      | Some v => digits_value base (acc * base + v) s
      | None => None
      end
  end.

(** [strconv.ParseUint(s, base, bits)]; [None] is its error. *)
Definition ParseUint (s : string) (base bits : Z) : option Z :=
  match s with
  | EmptyString => None
  | _ =>
      match digits_value base 0 s with
      | Some v => if v <? 2 ^ bits then Some v else None
      | None => None
      end
  end.

(** [strconv.Atoi] on a 64-bit platform. *)
Definition Atoi (s : string) : option Z :=
  let magnitude s := match s with EmptyString => None | _ => digits_value 10 0 s end in
  match s with
  | String "-" s' =>
      match magnitude s' with
      | Some v => if v <=? 2 ^ 63 then Some (- v) else None
      | None => None
      end
  | _ =>
      match magnitude (match s with String "+" s' => s' | _ => s end) with
      | Some v => if v <? 2 ^ 63 then Some v else None
      | None => None
      end
  end.

Definition digit_char (v : Z) : ascii := if (v <? 10) then chr (v + 48) else chr (v + 87).

(** The digits of [n] in a base, lower case, at most [fuel] of them. *)
Fixpoint digits (fuel : nat) (base n : Z) (acc : string) : string :=
  match fuel with
  | O => acc
  | S fuel =>
      if n <? base then String (digit_char n) acc
      else digits fuel base (n / base) (String (digit_char (n mod base)) acc)
  end.

(** [strconv.FormatUint(n, 10)] and [%d] of a 64-bit value. *)
Definition FormatUint (n : Z) : string := digits 20 10 n "".
(** [strconv.FormatInt(n, 10)], Go's [%d] of an [int]. *)
Definition FormatInt (n : Z) : string :=
  if (n <? 0) then String "-" (FormatUint (- n)) else FormatUint n.
(** [%x] of a value below 2^64. *)
Definition FormatHex (n : Z) : string := digits 16 16 n "".

Fixpoint zeros (n : nat) (s : string) : string :=
  match n with O => s | S n => String "0" (zeros n s) end.
(** [%016x]. *)
Definition hex016 (n : Z) : string :=
  let s := FormatHex n in zeros (16 - String.length s)%nat s.

(** ** The parts of a text that was put together *)

Lemma app_nil_string s : s +:+ "" = s.
Proof. induction s as [|c s IH]; [done|]. change (String c (s +:+ "") = String c s). by rewrite IH. Qed.
Lemma app_assoc_string a b c : (a +:+ b) +:+ c = a +:+ (b +:+ c).
Proof.
  induction a as [|x a IH]; [done|].
  change (String x ((a +:+ b) +:+ c) = String x (a +:+ (b +:+ c))). by rewrite IH.
Qed.

Lemma rev_append_app s acc : rev_append s acc = rev_string s +:+ acc.
Proof.
  unfold rev_string. revert acc. induction s as [|c s IH]; intros acc; [done|]. cbn [rev_append].
  rewrite IH, (IH (String c "")), app_assoc_string. done.
Qed.
Lemma rev_string_cons c s : rev_string (String c s) = rev_string s +:+ String c "".
Proof. unfold rev_string at 1. cbn [rev_append]. apply rev_append_app. Qed.
Lemma rev_string_app a b : rev_string (a +:+ b) = rev_string b +:+ rev_string a.
Proof.
  induction a as [|c a IH]; [by rewrite app_nil_string|]. change (String c a +:+ b) with (String c (a +:+ b)).
  by rewrite !rev_string_cons, IH, app_assoc_string.
Qed.
Lemma rev_string_twice s : rev_string (rev_string s) = s.
Proof.
  induction s as [|c s IH]; [done|]. by rewrite rev_string_cons, rev_string_app, IH.
Qed.

Lemma contains_app x a b : contains_char x (a +:+ b) = contains_char x a || contains_char x b.
Proof.
  induction a as [|y a IH]; [done|]. change (String y a +:+ b) with (String y (a +:+ b)).
  cbn [contains_char]. by rewrite IH, orb_assoc.
Qed.
Lemma contains_rev x s : contains_char x (rev_string s) = contains_char x s.
Proof.
  induction s as [|c s IH]; [done|]. rewrite rev_string_cons, contains_app, IH. cbn [contains_char].
  by rewrite orb_false_r, orb_comm.
Qed.

Lemma Cut_app a sep b : contains_char sep a = false -> Cut (a +:+ String sep b) sep = (a, Some b).
Proof.
  induction a as [|c a IH]; intros Ha.
  - change ((if bool_decide (sep = sep) then ("", Some b) else let (x, y) := Cut b sep in (String sep x, y)) = ("", Some b)).
    by rewrite bool_decide_eq_true_2.
  - change (String c a +:+ String sep b) with (String c (a +:+ String sep b)). cbn [contains_char Cut] in *.
    apply orb_false_iff in Ha as [Hc Ha]. rewrite bool_decide_eq_false in Hc.
    rewrite bool_decide_eq_false_2 by congruence. by rewrite IH.
Qed.
Lemma CutLast_app a sep b : contains_char sep b = false -> CutLast (a +:+ String sep b) sep = Some (a, b).
Proof.
  intros Hb. unfold CutLast. rewrite rev_string_app, rev_string_cons, app_assoc_string.
  change (String sep "" +:+ rev_string a) with (String sep (rev_string a)).
  rewrite Cut_app by (by rewrite contains_rev). by rewrite !rev_string_twice.
Qed.

Lemma substring_prefix a b : String.substring 0 (String.length a) (a +:+ b) = a.
Proof.
  induction a as [|c a IH]; [by destruct b|]. change (String c a +:+ b) with (String c (a +:+ b)).
  cbn [String.length String.substring]. by rewrite IH.
Qed.
Lemma length_app_string a b : String.length (a +:+ b) = (String.length a + String.length b)%nat.
Proof.
  induction a as [|y a IH]; [done|].
  change (String.length (String y a +:+ b)) with (S (String.length (a +:+ b))). cbn. lia.
Qed.
