(* ===== verification/NetIP.v ===== *)
(** * Package [net/netip]

    What the program uses of Go's standard address types: [Addr], [Prefix],
    their text forms and the order on addresses. An address is invalid (the
    zero [Addr]), an IPv4 address, or an IPv6 address with its zone; the
    value of the address is an unsigned 32-bit or 128-bit integer. *)

From S2P Require Import Prelude GoStrings.

#[local] Open Scope Z_scope.

Inductive Addr : Type :=
| AddrZero
| Addr4 (n : Z)
| Addr6 (n : Z) (zone : string).

#[export] Instance Addr_eq_dec : EqDecision Addr.
Proof. solve_decision. Defined.
#[export] Instance Addr_countable : Countable Addr.
Proof.
  apply (inj_countable'
    (fun a => match a with
              | AddrZero => inl ()
              | Addr4 n => inr (inl n)
              | Addr6 n z => inr (inr (n, z)) end)
    (fun x => match x with
              | inl _ => AddrZero
              | inr (inl n) => Addr4 n
              | inr (inr (n, z)) => Addr6 n z end)).
  by intros [].
Defined.

(** ** Addresses *)

Definition IsValid (a : Addr) : bool := match a with AddrZero => false | _ => true end.
Definition Is4 (a : Addr) : bool := match a with Addr4 _ => true | _ => false end.
Definition Is6 (a : Addr) : bool := match a with Addr6 _ _ => true | _ => false end.
Definition Zone (a : Addr) : string := match a with Addr6 _ z => z | _ => "" end.
Definition BitLen (a : Addr) : Z :=
  match a with AddrZero => 0 | Addr4 _ => 32 | Addr6 _ _ => 128 end.
(** The integer the address denotes in its family. *)
Definition addr_val (a : Addr) : Z :=
  match a with AddrZero => 0 | Addr4 n => n | Addr6 n _ => n end.

(** [::ffff:0:0/96], the IPv4-mapped addresses. *)
Definition Is4In6 (a : Addr) : bool :=
  match a with Addr6 n _ => Z.shiftr n 32 =? 65535 | _ => false end.

Definition Unmap (a : Addr) : Addr :=
  match a with
  | Addr6 n _ => if Is4In6 a then Addr4 (n mod 2 ^ 32) else a
  | _ => a
  end.

Definition withoutZone (a : Addr) : Addr :=
  match a with Addr6 n _ => Addr6 n "" | _ => a end.

Definition cmpZ (x y : Z) : Z := if x <? y then -1 else if y <? x then 1 else 0.
Definition cmp_string (s t : string) : Z :=
  match String.compare s t with Lt => -1 | Eq => 0 | Gt => 1 end.

Definition Compare (a b : Addr) : Z :=
  let c := cmpZ (BitLen a) (BitLen b) in
  if negb (c =? 0) then c else
  let c := cmpZ (addr_val a) (addr_val b) in
  if negb (c =? 0) then c else
  if Is6 a then cmp_string (Zone a) (Zone b) else 0.

(** Big-endian bytes of an address. [As4] is only called on IPv4 addresses. *)
Fixpoint be_split (n : nat) (z : Z) : bytes :=
  match n with
  | O => []
  | S n => (z / 256 ^ Z.of_nat n) mod 256 :: be_split n z
  end.
Definition be_combine (bs : bytes) : Z := fold_left (fun acc b => acc * 256 + b) bs 0.

Definition As4 (a : Addr) : bytes := be_split 4 (addr_val a).
Definition As16 (a : Addr) : bytes :=
  be_split 16 (match a with Addr4 n => 65535 * 2 ^ 32 + n | _ => addr_val a end).
Definition AddrFrom4 (b : bytes) : Addr := Addr4 (be_combine b).
Definition AddrFrom16 (b : bytes) : Addr := Addr6 (be_combine b) "".

(** ** Prefixes *)

(** [pbits] is [Bits()], -1 on an invalid prefix. *)
Record Prefix : Type := MkPrefix { pip : Addr; pbits : Z }.

#[export] Instance Prefix_eq_dec : EqDecision Prefix.
Proof. solve_decision. Defined.
#[export] Instance Prefix_countable : Countable Prefix.
Proof.
  apply (inj_countable' (fun p => (pip p, pbits p)) (fun x => MkPrefix x.1 x.2)).
  by intros [].
Defined.

Definition PrefixZero : Prefix := MkPrefix AddrZero (-1).

Definition PrefixFrom (ip : Addr) (bits : Z) : Prefix :=
  MkPrefix (withoutZone ip)
    (if IsValid ip && (0 <=? bits) && (bits <=? BitLen ip) then bits else -1).

(** The address with the bits after the first [b] cleared. *)
Definition mask_addr (a : Addr) (b : Z) : Addr :=
  match a with
  | AddrZero => AddrZero
  | Addr4 n => Addr4 (Z.ldiff n (Z.ones (32 - b)))
  | Addr6 n z => Addr6 (Z.ldiff n (Z.ones (128 - b))) z
  end.

Definition Masked (p : Prefix) : Prefix :=
  if (pbits p <? 0) || negb (IsValid (pip p)) then PrefixZero
  else PrefixFrom (mask_addr (pip p) (pbits p)) (pbits p).

(** ** Well-formed values *)

Definition addr_ok (a : Addr) : Prop :=
  match a with
  | AddrZero => True
  | Addr4 n => 0 <= n < 2 ^ 32
  | Addr6 n _ => 0 <= n < 2 ^ 128
  end.

(** What [netip.ParsePrefix] and [netip.PrefixFrom] return on a valid length. *)
Definition prefix_ok (p : Prefix) : Prop :=
  addr_ok (pip p) /\ IsValid (pip p) = true /\ Zone (pip p) = ""
  /\ 0 <= pbits p <= BitLen (pip p).

(** ** Text *)

Definition int_char (v : Z) : string := FormatUint v.

Fixpoint v4_fields (s : string) (first prev_dot : bool) (val digLen : Z) (acc : list Z)
  : option (list Z) :=
  match s with
  | EmptyString => if (length acc <? 3)%nat then None else Some (acc ++ [val])
  | String c s' =>
      if is_digit c then
        if (digLen =? 1) && (val =? 0) then None else
        let val := val * 10 + (code c - 48) in
        if 255 <? val then None else v4_fields s' false false val (digLen + 1) acc
      else if bool_decide (c = "."%char) then
        if first || bool_decide (s' = "") || prev_dot then None else
        if (length acc =? 3)%nat then None else
        v4_fields s' false true 0 0 (acc ++ [val])
      else None
  end.
Definition parseIPv4Fields (s : string) : option (list Z) := v4_fields s true false 0 0 [].

(** One hexadecimal group: its value, how many digits it has, the rest. *)
Fixpoint hex_group (s : string) (off acc : Z) : option (Z * Z * string) :=
  match s with
  | EmptyString => Some (acc, off, s)
  | String c s' =>
      match digit_value 16 c with
      | Some d =>
          let acc := acc * 16 + d in
          if (3 <? off) || (65535 <? acc) then None else hex_group s' (off + 1) acc
      | None => Some (acc, off, s)
      end
  end.

(** The loop of [parseIPv6]: the bytes read so far, and the position of the
    ellipsis. Eight groups are the most an address has. *)
Fixpoint v6_loop (fuel : nat) (s : string) (ip : bytes) (ellipsis : option nat)
  : option (string * bytes * option nat) :=
  match fuel with
  | O => Some (s, ip, ellipsis)
  | S fuel =>
      match hex_group s 0 0 with
      | None => None
      | Some (acc, off, rest) =>
          if off =? 0 then None else
          match rest with
          | EmptyString => Some ("", ip ++ [acc / 256; acc mod 256], ellipsis)
          | String c s1 =>
              if bool_decide (c = "."%char) then
                if bool_decide (ellipsis = None) && negb (length ip =? 12)%nat then None else
                if (16 <? length ip + 4)%nat then None else
                match parseIPv4Fields s with
                | Some f => Some ("", ip ++ f, ellipsis)
                | None => None
                end
              else
                let ip := ip ++ [acc / 256; acc mod 256] in
                if negb (bool_decide (c = ":"%char)) then None else
                match s1 with
                | EmptyString => None
                | String d s2 =>
                    if bool_decide (d = ":"%char) then
                      if bool_decide (is_Some ellipsis) then None else
                      match s2 with
                      | EmptyString => Some ("", ip, Some (length ip))
                      | _ => v6_loop fuel s2 ip (Some (length ip))
                      end
                    else v6_loop fuel s1 ip ellipsis
                end
          end
      end
  end.

Definition parseIPv6 (s : string) : option Addr :=
  let '(s, zone) := Cut s "%" in
  if bool_decide (zone = Some "") then None else
  let zone := default "" zone in
  let finish r :=
    match r with
    | Some ("", ip, e) =>
        if (length ip <? 16)%nat then
          match e with
          | None => None
          | Some e => Some (Addr6 (be_combine (take e ip ++ replicate (16 - length ip)%nat 0
                                               ++ drop e ip)) zone)
          end
        else match e with
             | Some _ => None
             | None => Some (Addr6 (be_combine ip) zone)
             end
    | _ => None
    end in
  match s with
  | String a (String b s') =>
      if bool_decide (a = ":"%char) && bool_decide (b = ":"%char) then
        match s' with
        | EmptyString => Some (Addr6 0 zone)
        | _ => finish (v6_loop 8 s' [] (Some O))
        end
      else finish (v6_loop 8 s [] None)
  | _ => finish (v6_loop 8 s [] None)
  end.

(** The first of [.], [:] and [%] decides the family. *)
Fixpoint addr_kind (s : string) : option ascii :=
  match s with
  | EmptyString => None
  | String c s =>
      if bool_decide (c = "."%char) || bool_decide (c = ":"%char) || bool_decide (c = "%"%char)
      then Some c else addr_kind s
  end.

Definition ParseAddr (s : string) : option Addr :=
  match addr_kind s with
  | Some c =>
      if bool_decide (c = "."%char) then AddrFrom4 <$> parseIPv4Fields s
      else if bool_decide (c = ":"%char) then parseIPv6 s
      else None
  | None => None
  end.

(** [netip.ParsePrefix]: no zone, no sign and no leading zero in the length. *)
Definition ParsePrefixText (s : string) : option Prefix :=
  match CutLast s "/" with
  | None => None
  | Some (addr, bits) =>
      match ParseAddr addr with
      | None => None
      | Some ip =>
          if negb (bool_decide (Zone ip = "")) then None else
          if match bits with
             | String c (String _ _) => negb (in_range "1" "9" c)
             | _ => false
             end then None else
          match Atoi bits with
          | None => None
          | Some n => if (n <? 0) || (BitLen ip <? n) then None else Some (PrefixFrom ip n)
          end
      end
  end.

Definition string4 (n : Z) : string :=
  match be_split 4 n with
  | [a; b; c; d] =>
      (FormatUint a +:+ "." +:+ FormatUint b +:+ "." +:+ FormatUint c +:+ "."
       +:+ FormatUint d)
  | _ => ""
  end.

Definition v6u16 (n : Z) (i : nat) : Z := (n / 65536 ^ Z.of_nat (7 - i)) mod 65536.

(** How many zero groups start at group [i]. *)
Fixpoint zero_run (fuel : nat) (n : Z) (i : nat) : nat :=
  match fuel with
  | O => O
  | S fuel => if (i <? 8)%nat && (v6u16 n i =? 0) then S (zero_run fuel n (S i)) else O
  end.
(** The first longest run of at least two zero groups, as [start, end). *)
Definition zero_span (n : Z) : option (nat * nat) :=
  fold_left (fun best i =>
    let l := zero_run 8 n i in
    let cur := match best with Some (s, e) => (e - s)%nat | None => O end in
    if ((2 <=? l) && (cur <? l))%nat then Some (i, (i + l)%nat) else best)
    (seq 0 8) None.

Fixpoint string6_go (fuel : nat) (n : Z) (span : option (nat * nat)) (i : nat) : string :=
  match fuel with
  | O => ""
  | S fuel =>
      if (8 <=? i)%nat then "" else
      match span with
      | Some (s, e) =>
          if (i =? s)%nat then
            "::" +:+ (if (8 <=? e)%nat then ""
                      else FormatHex (v6u16 n e) +:+ string6_go fuel n span (S e))
          else (if (0 <? i)%nat then ":" else "") +:+ FormatHex (v6u16 n i)
               +:+ string6_go fuel n span (S i)
      | None => (if (0 <? i)%nat then ":" else "") +:+ FormatHex (v6u16 n i)
                +:+ string6_go fuel n span (S i)
      end
  end.

Definition zone_suffix (z : string) : string := match z with "" => "" | _ => "%" +:+ z end.

Definition AddrString (a : Addr) : string :=
  match a with
  | AddrZero => "invalid IP"
  | Addr4 n => string4 n
  | Addr6 n z =>
      if Is4In6 a then "::ffff:" +:+ string4 (n mod 2 ^ 32) +:+ zone_suffix z
      else string6_go 9 n (zero_span n) 0 +:+ zone_suffix z
  end.
Definition PrefixString (p : Prefix) : string :=
  if pbits p <? 0 then "invalid Prefix"
  else AddrString (pip p) +:+ "/" +:+ FormatUint (pbits p).

Example parse_examples :
  map (fun s => AddrString <$> ParseAddr s)
    ["192.0.2.1"; "1.2.3.256"; "01.2.3.4"; "2001:DB8::1"; "::"; "1:0:0:2:0:0:0:3";
     "::ffff:10.0.0.1"; "fe80::1%eth0"; "1::2::3"; "1:2:3:4:5:6:7:8:9"; "1:2:3:4:5:6:7::"]
  = [Some "192.0.2.1"; None; None; Some "2001:db8::1"; Some "::"; Some "1:0:0:2::3";
     Some "::ffff:10.0.0.1"; Some "fe80::1%eth0"; None; None; Some "1:2:3:4:5:6:7:0"].
Proof. vm_compute. reflexivity. Qed.

Example parse_prefix_examples :
  map (fun s => PrefixString <$> ParsePrefixText s)
    ["10.1.2.3/8"; "10.0.0.0/33"; "10.0.0.0/08"; "2001:db8::/32"; "fe80::%e/64"; "10.0.0.0"]
  = [Some "10.1.2.3/8"; None; None; Some "2001:db8::/32"; None; None].
Proof. vm_compute. reflexivity. Qed.

(** ** Facts *)

Lemma be_split_length n z : length (be_split n z) = n.
Proof. induction n as [|n IH]; simpl; [done|]. by rewrite IH. Qed.

Lemma be_split_ok n z : Forall byte_ok (be_split n z).
Proof. induction n; simpl; constructor; [apply Z.mod_pos_bound; lia|done]. Qed.

Lemma be_fold_split n : forall z acc,
  fold_left (fun acc b => acc * 256 + b) (be_split n z) acc
  = acc * 256 ^ Z.of_nat n + z mod 256 ^ Z.of_nat n.
Proof.
  induction n as [|n IH]; intros z acc.
  { simpl. rewrite Z.mod_1_r. lia. }
  cbn [be_split fold_left]. rewrite IH.
  rewrite Nat2Z.inj_succ, Z.pow_succ_r by lia.
  rewrite (Z.mul_comm 256), Z.rem_mul_r by lia. lia.
Qed.

Lemma be_combine_split n z : 0 <= z < 256 ^ Z.of_nat n -> be_combine (be_split n z) = z.
Proof. intros. unfold be_combine. rewrite be_fold_split, Z.mod_small; lia. Qed.

Lemma be_combine_app_split l n z :
  0 <= z < 256 ^ Z.of_nat n ->
  be_combine (l ++ be_split n z) = be_combine l * 256 ^ Z.of_nat n + z.
Proof.
  intros. unfold be_combine. rewrite fold_left_app, be_fold_split, Z.mod_small; lia.
Qed.

Lemma be_split_snoc n : forall z, be_split (S n) z = be_split n (z / 256) ++ [z mod 256].
Proof.
  induction n as [|n IH]; intros z.
  { simpl. by rewrite Z.div_1_r. }
  transitivity ((z / 256 ^ Z.of_nat (S n)) mod 256 :: be_split (S n) z); [done|].
  rewrite IH. cbn [be_split app]. f_equal.
  rewrite Nat2Z.inj_succ, Z.pow_succ_r by lia.
  by rewrite Z.div_div by lia.
Qed.

(** The bytes of a value split like its quotient and remainder. *)
Lemma be_split_app n m : forall z,
  be_split (n + m) z = be_split n (z / 256 ^ Z.of_nat m) ++ be_split m (z mod 256 ^ Z.of_nat m).
Proof.
  induction m as [|m IH]; intros z.
  { rewrite Nat.add_0_r. cbn [be_split]. rewrite app_nil_r, Z.div_1_r. done. }
  rewrite Nat.add_succ_r, be_split_snoc, IH, be_split_snoc, app_assoc.
  rewrite Nat2Z.inj_succ, Z.pow_succ_r, <- Z.div_div by lia.
  assert (z mod (256 * 256 ^ Z.of_nat m)
          = (z / 256) mod 256 ^ Z.of_nat m * 256 + z mod 256) as ->.
  { rewrite Z.rem_mul_r by lia. lia. }
  rewrite Z.div_add_l, (Z.div_small (z mod 256)), Z.add_0_r by (try apply Z.mod_pos_bound; lia).
  by rewrite Z.add_comm, Z.mod_add, Z.mod_mod by lia.
Qed.

Lemma mask_addr_val a b :
  0 <= b <= BitLen a ->
  addr_val (mask_addr a b) = addr_val a - addr_val a mod 2 ^ (BitLen a - b).
Proof.
  destruct a as [|n|n z]; simpl; intros Hb; [by rewrite Z.mod_0_l by (apply Z.pow_nonzero; lia)| |].
  all: by rewrite ldiff_ones by lia.
Qed.

Lemma mod_sub_pow n k w :
  0 <= k <= w -> 0 <= n < 2 ^ w -> 0 <= n - n mod 2 ^ k /\ n - n mod 2 ^ k + 2 ^ k - 1 < 2 ^ w.
Proof.
  intros Hk Hn. pose proof (Z.mod_pos_bound n (2 ^ k)). pose proof (Z.mod_le n (2 ^ k)).
  split; [lia|].
  assert (2 ^ w = 2 ^ (w - k) * 2 ^ k) as Hw by (rewrite <- Z.pow_add_r by lia; f_equal; lia).
  pose proof (Z.div_mod n (2 ^ k)).
  assert (n / 2 ^ k < 2 ^ (w - k)) by (apply Z.div_lt_upper_bound; lia).
  nia.
Qed.

Lemma mask_addr_ok a b : addr_ok a -> 0 <= b <= BitLen a -> addr_ok (mask_addr a b).
Proof.
  destruct a as [|n|n z]; simpl; intros Ha Hb; [done| |].
  - rewrite ldiff_ones by lia. pose proof (mod_sub_pow n (32 - b) 32). lia.
  - rewrite ldiff_ones by lia. pose proof (mod_sub_pow n (128 - b) 128). lia.
Qed.

Lemma mask_addr_bitlen a b : BitLen (mask_addr a b) = BitLen a.
Proof. by destruct a. Qed.

Lemma mask_addr_idem a b : mask_addr (mask_addr a b) b = mask_addr a b.
Proof.
  destruct a as [|n|n z]; simpl; [done| |]; f_equal.
  all: apply Z.bits_inj'; intros k Hk; rewrite !Z.ldiff_spec.
  all: destruct (Z.testbit n k), (Z.testbit _ k); done.
Qed.

Lemma masked_eq p :
  prefix_ok p -> Masked p = MkPrefix (mask_addr (pip p) (pbits p)) (pbits p).
Proof.
  destruct p as [a b]. unfold prefix_ok, Masked, PrefixFrom. simpl. intros (Ha & Hv & Hz & Hb).
  destruct (Z.ltb_spec b 0); [lia|]. rewrite Hv. simpl.
  rewrite mask_addr_bitlen.
  destruct (Z.leb_spec 0 b); [|lia]. destruct (Z.leb_spec b (BitLen a)); [|lia].
  destruct a; simplify_eq/=; done.
Qed.

Lemma masked_ok p : prefix_ok p -> prefix_ok (Masked p).
Proof.
  intros Hp. rewrite masked_eq by done. destruct Hp as (Ha & Hv & Hz & Hb).
  unfold prefix_ok. cbn [pip pbits]. rewrite mask_addr_bitlen.
  split_and!; [by apply mask_addr_ok| | |lia|lia].
  all: destruct (pip p); done.
Qed.

Lemma masked_idem p : prefix_ok p -> Masked (Masked p) = Masked p.
Proof.
  intros Hp. rewrite (masked_eq (Masked p)) by (by apply masked_ok).
  rewrite masked_eq by done. cbn [pip pbits]. by rewrite mask_addr_idem.
Qed.

Lemma prefix_from_ok a b :
  addr_ok a -> IsValid a = true -> 0 <= b <= BitLen a -> prefix_ok (PrefixFrom a b).
Proof.
  intros Ha Hv Hb. unfold prefix_ok, PrefixFrom. cbn [pip pbits]. rewrite Hv.
  destruct (Z.leb_spec 0 b); [|lia]. destruct (Z.leb_spec b (BitLen a)); [|lia]. simpl.
  destruct a; simpl in *; auto.
Qed.

Lemma mask_addr_zone a b : Zone (mask_addr a b) = Zone a.
Proof. by destruct a. Qed.

Lemma prefix_from_ip a b : Zone a = "" -> pip (PrefixFrom a b) = a.
Proof. destruct a as [|n|n z]; [done|done|]. simpl. by intros ->. Qed.

Lemma prefix_from_bits a b :
  IsValid a = true -> 0 <= b <= BitLen a -> pbits (PrefixFrom a b) = b.
Proof.
  intros Hv Hb. unfold PrefixFrom. cbn [pbits]. rewrite Hv.
  destruct (Z.leb_spec 0 b); [|lia]. by destruct (Z.leb_spec b (BitLen a)); [|lia].
Qed.

Lemma prefix_from_self q : prefix_ok q -> PrefixFrom (pip q) (pbits q) = q.
Proof.
  destruct q as [a b]. intros (_ & Hv & Hz & Hb). cbn [pip pbits] in *.
  pose proof (prefix_from_ip a b Hz) as E1. pose proof (prefix_from_bits a b Hv Hb) as E2.
  destruct (PrefixFrom a b). by simplify_eq/=.
Qed.

Lemma mask_addr_full a : mask_addr a (BitLen a) = a.
Proof. destruct a as [|n|n z]; [done| |]; simpl; by rewrite Z.ldiff_0_r. Qed.

(** A single address is its own network. *)
Lemma masked_full a :
  prefix_ok (PrefixFrom a (BitLen a)) -> Masked (PrefixFrom a (BitLen a)) = PrefixFrom a (BitLen a).
Proof.
  intros Hp. rewrite masked_eq by done.
  assert (pbits (PrefixFrom a (BitLen a)) = BitLen (pip (PrefixFrom a (BitLen a)))) as E.
  { destruct Hp as (_ & _ & _ & Hb). revert Hb. unfold PrefixFrom. cbn [pip pbits].
    destruct a; simpl; [lia|done|done]. }
  rewrite E at 1. rewrite mask_addr_full. by destruct (PrefixFrom a (BitLen a)).
Qed.

Lemma unmap_ok a : addr_ok a -> addr_ok (Unmap a).
Proof.
  destruct a as [|n|n z]; [done|done|]. intros Ha. cbn [Unmap].
  destruct (Is4In6 _); [|exact Ha]. cbn [addr_ok]. apply Z.mod_pos_bound. lia.
Qed.

Lemma unmap_not_mapped a : Is4In6 (Unmap a) = false.
Proof.
  destruct a as [|n|n z]; [done|done|]. cbn [Unmap]. by destruct (Is4In6 (Addr6 n z)) eqn:E.
Qed.

Lemma unmap_id a : Is4In6 a = false -> Unmap a = a.
Proof. destruct a; [done|done|]. cbn [Unmap]. by intros ->. Qed.

Lemma unmap_idem a : Unmap (Unmap a) = Unmap a.
Proof. apply unmap_id, unmap_not_mapped. Qed.

Lemma unmap_valid a : IsValid (Unmap a) = IsValid a.
Proof. destruct a; [done|done|]. cbn [Unmap]. by destruct (Is4In6 _). Qed.

Lemma unmap_zone a : Zone a = "" -> Zone (Unmap a) = "".
Proof. destruct a; [done|done|]. cbn [Unmap]. by destruct (Is4In6 _). Qed.

(** Two addresses of one family and without a zone compare as their values. *)
Definition same_family (a b : Addr) : Prop :=
  BitLen a = BitLen b /\ Zone a = "" /\ Zone b = "".

Lemma cmpZ_spec x y : (cmpZ x y < 0 <-> x < y) /\ (cmpZ x y = 0 <-> x = y) /\ (0 < cmpZ x y <-> y < x).
Proof.
  unfold cmpZ. destruct (Z.ltb_spec x y); [lia|]. destruct (Z.ltb_spec y x); lia.
Qed.

Lemma compare_val a b : same_family a b -> Compare a b = cmpZ (addr_val a) (addr_val b).
Proof.
  intros (Hl & Ha & Hb). unfold Compare. rewrite Hl.
  assert (cmpZ (BitLen b) (BitLen b) = 0) as -> by (by apply cmpZ_spec). simpl.
  destruct (Z.eqb_spec (cmpZ (addr_val a) (addr_val b)) 0) as [->|]; simpl; [|done].
  rewrite Ha, Hb. by destruct (Is6 a).
Qed.

Lemma addr_eq_val a b : same_family a b -> addr_val a = addr_val b -> a = b.
Proof. destruct a, b; intros (? & ? & ?); simpl in *; naive_solver. Qed.

Lemma addr_val_range a : addr_ok a -> 0 <= addr_val a < 2 ^ BitLen a.
Proof. destruct a as [|n|n z]; [split; [done|reflexivity]|exact id|exact id]. Qed.

#[export] Hint Resolve be_split_ok masked_ok unmap_ok addr_val_range : go.

(** ** Parsed addresses are in range *)

Lemma be_combine_range bs :
  Forall byte_ok bs -> 0 <= be_combine bs < 256 ^ Z.of_nat (length bs).
Proof.
  unfold be_combine.
  assert (forall acc n, Forall byte_ok bs -> 0 <= acc < 256 ^ Z.of_nat n ->
    0 <= fold_left (fun acc b => acc * 256 + b) bs acc < 256 ^ Z.of_nat (n + length bs)) as H.
  { induction bs as [|b bs IH]; intros acc n Hok Hacc; [by rewrite Nat.add_0_r|].
    inversion Hok as [|? ? Hb Hbs]; subst. unfold byte_ok in Hb. cbn [fold_left length].
    rewrite Nat.add_succ_r, <- Nat.add_succ_l. apply IH; [done|].
    rewrite Nat2Z.inj_succ, Z.pow_succ_r by lia. lia. }
  intros Hok. apply (H 0 O Hok). simpl. lia.
Qed.

Lemma digit_range c : is_digit c = true -> 0 <= code c - 48 <= 9.
Proof.
  unfold is_digit, in_range. rewrite andb_true_iff, !Z.leb_le.
  change (code "0") with 48. change (code "9") with 57. lia.
Qed.

Lemma v4_fields_ok s : forall first prev val dl acc r,
  v4_fields s first prev val dl acc = Some r ->
  Forall byte_ok acc -> byte_ok val -> (length acc <= 3)%nat ->
  Forall byte_ok r /\ length r = 4%nat.
Proof.
  induction s as [|c s IH]; intros first prev val dl acc r H Hacc Hval Hlen; cbn [v4_fields] in H.
  - destruct (Nat.ltb_spec (length acc) 3); [done|]. injection H as <-.
    rewrite length_app. simpl. split; [|lia]. apply Forall_app_2; [done|by apply Forall_singleton].
  - destruct (is_digit c) eqn:Ed.
    + destruct ((dl =? 1) && (val =? 0)); [done|].
      destruct (Z.ltb_spec 255 (val * 10 + (code c - 48))); [done|].
      apply digit_range in Ed. unfold byte_ok in *. eapply IH; [exact H|done|lia|done].
    + destruct (bool_decide (c = "."%char)); [|done].
      destruct (first || _ || _); [done|].
      destruct (Nat.eqb_spec (length acc) 3); [done|].
      eapply IH; [exact H| |by split|rewrite length_app; simpl; lia].
      apply Forall_app_2; [done|by apply Forall_singleton].
Qed.

Lemma parse_v4_ok s r : parseIPv4Fields s = Some r -> Forall byte_ok r /\ length r = 4%nat.
Proof. intros H. eapply v4_fields_ok; [exact H|constructor|by split|simpl; lia]. Qed.

Lemma hex_group_ok s : forall off acc acc' off' rest,
  hex_group s off acc = Some (acc', off', rest) -> 0 <= acc <= 65535 -> 0 <= acc' <= 65535.
Proof.
  induction s as [|c s IH]; intros off acc acc' off' rest H Hacc; cbn [hex_group] in H.
  { by simplify_eq. }
  destruct (digit_value 16 c) as [d|] eqn:Ed; [|by simplify_eq].
  destruct ((3 <? off) || _) eqn:E; [done|]. apply orb_false_iff in E as [_ E%Z.ltb_ge].
  eapply IH; [exact H|]. unfold digit_value in Ed.
  assert (0 <= d); [|lia].
  destruct (is_digit c) eqn:E1; [apply digit_range in E1|destruct (is_lower c) eqn:E2;
    [|destruct (is_upper c) eqn:E3; [|done]]].
  all: cbn in Ed; case_match; simplify_eq; try lia.
  all: unfold is_lower, is_upper, in_range in *.
  all: rewrite andb_true_iff, !Z.leb_le in *.
  - change (code "a") with 97 in *. lia.
  - change (code "A") with 65 in *. lia.
Qed.

Lemma v6_loop_ok fuel : forall s ip e s' ip' e',
  v6_loop fuel s ip e = Some (s', ip', e') ->
  Forall byte_ok ip -> (length ip + 2 * fuel <= 16)%nat ->
  Forall byte_ok ip' /\ (length ip' <= 16)%nat.
Proof.
  induction fuel as [|fuel IH]; intros s ip e s' ip' e' H Hip Hlen; cbn [v6_loop] in H.
  { simplify_eq. split; [done|lia]. }
  destruct (hex_group s 0 0) as [[[acc off] rest]|] eqn:Eg; [|done].
  apply hex_group_ok in Eg; [|lia].
  destruct (off =? 0); [done|].
  assert (Forall byte_ok (ip ++ [acc / 256; acc mod 256])
          /\ length (ip ++ [acc / 256; acc mod 256]) = (length ip + 2)%nat) as [Hb Hl].
  { rewrite length_app. simpl. split; [|lia]. apply Forall_app_2; [done|].
    constructor; [|apply Forall_singleton; apply Z.mod_pos_bound; lia].
    split; [apply Z.div_pos|apply Z.div_lt_upper_bound]; lia. }
  assert (forall s e, v6_loop fuel s (ip ++ [acc / 256; acc mod 256]) e = Some (s', ip', e') ->
    Forall byte_ok ip' /\ (length ip' <= 16)%nat) as Hrec.
  { intros s0 e0 H0. eapply IH; [exact H0|done|lia]. }
  clear IH. revert Hrec Hb Hl H.
  generalize (ip ++ [acc / 256; acc mod 256]) as ip2. intros ip2 Hrec Hb Hl H.
  destruct rest as [|c s1]; [simplify_eq; split; [done|lia]|].
  destruct (bool_decide (c = "."%char)).
  - destruct (_ && _); [done|]. destruct (Nat.ltb_spec 16 (length ip + 4)); [done|].
    destruct (parseIPv4Fields s) as [f|] eqn:Ef; [|done]. simplify_eq.
    apply parse_v4_ok in Ef as [? Hf].
    rewrite length_app, Hf. split; [by apply Forall_app_2|lia].
  - destruct (negb _); [done|]. destruct s1 as [|d s2]; [done|].
    destruct (bool_decide (d = ":"%char)); [|by eauto].
    destruct (bool_decide _); [done|].
    destruct s2; [simplify_eq; split; [done|lia]|by eauto].
Qed.

Lemma addr6_of_bytes bs z :
  Forall byte_ok bs -> length bs = 16%nat -> addr_ok (Addr6 (be_combine bs) z).
Proof.
  intros Hok Hl. pose proof (be_combine_range bs Hok) as H. rewrite Hl in H. exact H.
Qed.

Lemma parse_v6_ok s a : parseIPv6 s = Some a -> addr_ok a /\ IsValid a = true.
Proof.
  unfold parseIPv6. destruct (Cut s "%") as [s0 zone].
  destruct (bool_decide _); [done|].
  assert (forall s e, match v6_loop 8 s [] e with
    | Some ("", ip, e) =>
        if (length ip <? 16)%nat then
          match e with
          | None => None
          | Some e => Some (Addr6 (be_combine (take e ip ++ replicate (16 - length ip)%nat 0
                                               ++ drop e ip)) (default "" zone))
          end
        else match e with
             | Some _ => None
             | None => Some (Addr6 (be_combine ip) (default "" zone))
             end
    | _ => None
    end = Some a -> addr_ok a /\ IsValid a = true) as Hfin.
  { intros s1 e1 H. destruct (v6_loop 8 s1 [] e1) as [[[[|] ip] e]|] eqn:E; try done.
    apply v6_loop_ok in E as [Hok Hl]; [|constructor|simpl; lia].
    destruct (Nat.ltb_spec (length ip) 16), e as [e|]; simplify_eq; (split; [|done]).
    - apply addr6_of_bytes.
      + rewrite !Forall_app. split_and!.
        * by apply Forall_take.
        * apply Forall_replicate. by split.
        * by apply Forall_drop.
      + rewrite !length_app, length_replicate, length_take, length_drop. lia.
    - apply addr6_of_bytes; [done|lia]. }
  intros H. cbv zeta in H.
  destruct s0 as [|c0 [|c1 s0]]; [by eapply Hfin..|].
  destruct (_ && _); [|by eapply Hfin]. destruct s0; [by simplify_eq|by eapply Hfin].
Qed.

Lemma parse_addr_ok s a : ParseAddr s = Some a -> addr_ok a /\ IsValid a = true.
Proof.
  unfold ParseAddr. intros H. destruct (addr_kind s) as [c|]; [|done].
  destruct (bool_decide (c = "."%char)).
  2: { destruct (bool_decide (c = ":"%char)); [by eapply parse_v6_ok|done]. }
  apply fmap_Some in H as (bs & [Hok Hl]%parse_v4_ok & ->). split; [|done].
  pose proof (be_combine_range bs Hok) as H. rewrite Hl in H. exact H.
Qed.

Lemma parse_prefix_text_ok s p : ParsePrefixText s = Some p -> prefix_ok p.
Proof.
  unfold ParsePrefixText. destruct (CutLast s "/") as [[addr bits]|]; [|done].
  destruct (ParseAddr addr) as [ip|] eqn:Ea; [|done].
  apply parse_addr_ok in Ea as [Oa Va]. destruct (negb _); [done|].
  destruct (match bits with EmptyString => _ | _ => _ end); [done|].
  destruct (Atoi bits) as [n|]; [|done].
  destruct ((n <? 0) || (BitLen ip <? n)) eqn:E; [done|]. intros [= <-].
  apply orb_false_iff in E as [?%Z.ltb_ge ?%Z.ltb_ge]. by apply prefix_from_ok.
Qed.
