(* ===== verification/NetSet.v ===== *)
(** * Package [netset]: sorted interval tables over addresses

    Models [internal/netset/netset.go]: the construction of a table from
    prefixes, the merge of touching intervals, the binary search, the reverse
    direction from an interval to its prefix, and the reader of list files.
    A nil [*Table] is [None]; [Locate] returns [None] for a miss. *)

From S2P Require Import Prelude GoStrings NetIP.

#[local] Open Scope Z_scope.

(** ** Data *)

Record Interval : Type := MkInterval { Start : Addr; End_ : Addr }.
Record Table : Type := MkTable { v4 : list Interval; v6 : list Interval }.

#[export] Instance Interval_eq_dec : EqDecision Interval.
Proof. solve_decision. Defined.

Definition Len (t : option Table) : nat :=
  match t with
  | None => O
  | Some t => (length (v4 t) + length (v6 t))%nat
  end.

(** ** Words and bytes *)

Definition uint32From4 (a : bytes) : Z :=
  match a with
  | [a0; a1; a2; a3] =>
      Z.lor (Z.lor (Z.lor (u32 (Z.shiftl a0 24)) (u32 (Z.shiftl a1 16)))
                   (u32 (Z.shiftl a2 8))) a3
  | _ => 0
  end.

Definition uint32To4 (n : Z) : bytes :=
  [u8 (Z.shiftr n 24); u8 (Z.shiftr n 16); u8 (Z.shiftr n 8); u8 n].

Definition uint128From16 (a : bytes) : Z * Z :=
  fold_left (fun '(hi, lo) i =>
    (Z.lor (u64 (Z.shiftl hi 8)) (nth i a 0),
     Z.lor (u64 (Z.shiftl lo 8)) (nth (i + 8) a 0))) (seq 0 8) (0, 0).

(** The loop runs from the last byte of each half to its first. *)
Fixpoint word_bytes (n : nat) (w : Z) (out : bytes) : bytes :=
  match n with
  | O => out
  | S n => word_bytes n (Z.shiftr w 8) (u8 w :: out)
  end.
Definition uint128To16 (hi lo : Z) : bytes := word_bytes 8 hi [] ++ word_bytes 8 lo [].

(** ** First, last and next address *)

Definition lastAddr (p : Prefix) : Addr :=
  let p := Masked p in
  let addr := Unmap (pip p) in
  let bits := pbits p in
  if Is4 addr then
    let n := uint32From4 (As4 addr) in
    let n := if bits <? 32
             then Z.lor n (u32 (u32 (Z.shiftl 1 (32 - bits)) - 1))
             else n in
    AddrFrom4 (uint32To4 n)
  else
    let '(hi, lo) := uint128From16 (As16 addr) in
    let host := 128 - bits in
    let '(hi, lo) :=
      if host <=? 0 then (hi, lo)
      else if host <? 64 then (hi, Z.lor lo (u64 (u64 (Z.shiftl 1 host) - 1)))
      else if host =? 64 then (hi, max_uint 64)
      else if host <? 128 then
        (Z.lor hi (u64 (u64 (Z.shiftl 1 (host - 64)) - 1)), max_uint 64)
      else (max_uint 64, max_uint 64) in
    AddrFrom16 (uint128To16 hi lo).

Definition nextAddr (a : Addr) : option Addr :=
  let a := Unmap a in
  if Is4 a then
    let n := uint32From4 (As4 a) in
    if n =? max_uint 32 then None else Some (AddrFrom4 (uint32To4 (u32 (n + 1))))
  else
    let '(hi, lo) := uint128From16 (As16 a) in
    if lo =? max_uint 64 then
      if hi =? max_uint 64 then None
      else Some (AddrFrom16 (uint128To16 (u64 (hi + 1)) 0))
    else Some (AddrFrom16 (uint128To16 hi (u64 (lo + 1)))).

(** ** Merging *)

Definition overlapsOrTouches (a b : Interval) : bool :=
  if 0 <=? Compare (End_ a) (Start b) then true
  else match nextAddr (End_ a) with
       | Some n => bool_decide (n = Start b)
       | None => false
       end.

Definition interval_less (a b : Interval) : bool :=
  let c := Compare (Start a) (Start b) in
  if negb (c =? 0) then c <? 0 else Compare (End_ a) (End_ b) <? 0.

Fixpoint merge_go (cur : Interval) (rest : list Interval) : list Interval :=
  match rest with
  | [] => [cur]
  | next :: rest =>
      if overlapsOrTouches cur next then
        merge_go (if 0 <? Compare (End_ next) (End_ cur)
                  then MkInterval (Start cur) (End_ next) else cur) rest
      else cur :: merge_go next rest
  end.

Definition merge (l : list Interval) : list Interval :=
  match sort_slice interval_less l with
  | [] => []
  | cur :: rest => merge_go cur rest
  end.

Definition build_step (t : Table) (p : Prefix) : Table :=
  let p := Masked p in
  let iv := MkInterval (Unmap (pip p)) (lastAddr p) in
  if Is4 (Start iv) then MkTable (v4 t ++ [iv]) (v6 t) else MkTable (v4 t) (v6 t ++ [iv]).

Definition Build (prefixes : list Prefix) : Table :=
  let t := fold_left build_step prefixes (MkTable [] []) in
  MkTable (merge (v4 t)) (merge (v6 t)).

(** ** Search *)

Definition locate (s : list Interval) (ip : Addr) : option Interval :=
  let i := sort_search (length s) (fun i =>
    match s !! i with Some iv => 0 <? Compare (Start iv) ip | None => false end) in
  match i with
  | O => None
  | S i =>
      match s !! i with
      | Some iv => if 0 <? Compare ip (End_ iv) then None else Some iv
      | None => None
      end
  end.

Definition contains (s : list Interval) (ip : Addr) : bool :=
  match locate s ip with Some _ => true | None => false end.

Definition Contains (t : option Table) (ip : Addr) : bool :=
  match t with
  | None => false
  | Some t =>
      let ip := Unmap ip in
      if Is4 ip then contains (v4 t) ip
      else if Is6 ip then contains (v6 t) ip
      else false
  end.

Definition Locate (t : option Table) (ip : Addr) : option Interval :=
  match t with
  | None => None
  | Some t =>
      let ip := Unmap ip in
      if Is4 ip then locate (v4 t) ip
      else if Is6 ip then locate (v6 t) ip
      else None
  end.

(** [Interval.Prefix]: the prefix lengths from the longest to [/0]. *)
Fixpoint prefix_go (iv : Interval) (bits : nat) : option Prefix :=
  let p := PrefixFrom (Start iv) (Z.of_nat bits) in
  if bool_decide (pip (Masked p) = Start iv) && bool_decide (lastAddr p = End_ iv) then Some p
  else match bits with
       | O => None
       | S bits => prefix_go iv bits
       end.
Definition IntervalPrefix (iv : Interval) : option Prefix :=
  if negb (IsValid (Start iv)) || negb (Bool.eqb (Is4 (Start iv)) (Is4 (End_ iv))) then None
  else prefix_go iv (Z.to_nat (BitLen (Start iv))).

(** ** List files *)

Inductive prefix_error : Type :=
| ErrSkip
| ErrNotPrefix (tok : string).

#[export] Instance prefix_error_eq_dec : EqDecision prefix_error.
Proof. solve_decision. Defined.

Definition ParsePrefix (s : string) : result prefix_error Prefix :=
  let s := TrimSpace s in
  if bool_decide (s = "") || HasPrefix s "#" then Err ErrSkip else
  let s := match Cut s "#" with (before, Some _) => TrimSpace before | (_, None) => s end in
  match Fields s with
  | [] => Err ErrSkip
  | tok :: _ =>
      match ParsePrefixText tok with
      | Some p => Ok (Masked p)
      | None =>
          match ParseAddr tok with
          | Some a => Ok (PrefixFrom (Unmap a) (BitLen (Unmap a)))
          | None => Err (ErrNotPrefix tok)
          end
      end
  end.

Definition IsSkip (e : prefix_error) : bool := bool_decide (e = ErrSkip).

(** The lines of a [bufio.Scanner] with a buffer of [max_line] bytes: split at
    line feeds, a trailing carriage return dropped, no empty last line. *)
Definition max_line : Z := 1024 * 1024.

Fixpoint split_lines (fuel : nat) (s : string) : list string :=
  match fuel with
  | O => []
  | S fuel =>
      match s with
      | EmptyString => []
      | _ => let '(line, rest) := Cut s "010" in
             line :: match rest with Some rest => split_lines fuel rest | None => [] end
      end
  end.
Definition drop_cr (s : string) : string :=
  match last_char s with Some "013"%char => drop_last s | _ => s end.

(** The scanner stops with an error at a line that does not fit its buffer. *)
Record read_state : Type := MkRead { rd_prefixes : list Prefix; rd_skipped : Z; rd_err : bool }.

Fixpoint read_lines (lines : list string) (prefixes : list Prefix) (skipped : Z) : read_state :=
  match lines with
  | [] => MkRead prefixes skipped false
  | line :: lines =>
      if max_line <=? Z.of_nat (String.length line) then MkRead prefixes skipped true else
      match ParsePrefix (drop_cr line) with
      | Ok p => read_lines lines (prefixes ++ [p]) skipped
      | Err e => read_lines lines prefixes (if IsSkip e then skipped else skipped + 1)
      end
  end.

Definition ReadPrefixes (content : string) : read_state :=
  read_lines (split_lines (S (String.length content)) content) [] 0.

(** ** Words and bytes: the conversions are exact *)

Lemma shl8_or w k b :
  0 <= w < 2 ^ k -> 0 <= k <= 56 -> byte_ok b -> Z.lor (u64 (Z.shiftl w 8)) b = w * 256 + b.
Proof.
  unfold byte_ok. intros Hw Hk Hb.
  assert (2 ^ k <= 2 ^ 56) by (apply Z.pow_le_mono_r; lia).
  rewrite Z.shiftl_mul_pow2 by lia. rewrite wrap_small by lia.
  by rewrite (lor_shift_add 8) by lia.
Qed.

Lemma uint32_from_bytes a :
  Forall byte_ok a -> length a = 4%nat -> uint32From4 a = be_combine a.
Proof.
  destruct a as [|a0 [|a1 [|a2 [|a3 [|]]]]]; try done. intros H _.
  repeat match goal with H : Forall _ (_ :: _) |- _ => inversion_clear H end.
  unfold byte_ok in *. cbn [uint32From4 be_combine fold_left].
  rewrite !Z.shiftl_mul_pow2 by lia. rewrite !wrap_small by lia.
  rewrite (lor_shift_add 24 a0) by lia.
  replace (a0 * 2 ^ 24 + a1 * 2 ^ 16) with ((a0 * 256 + a1) * 2 ^ 16) by lia.
  rewrite lor_shift_add by lia.
  replace ((a0 * 256 + a1) * 2 ^ 16 + a2 * 2 ^ 8)
    with (((a0 * 256 + a1) * 256 + a2) * 2 ^ 8) by lia.
  rewrite lor_shift_add by lia. lia.
Qed.

Lemma uint32_to_bytes n : uint32To4 n = be_split 4 n.
Proof. unfold uint32To4. rewrite !Z.shiftr_div_pow2 by lia. cbn -[Z.div Z.modulo]. by rewrite Z.div_1_r. Qed.

Lemma word_bytes_split n : forall w out, word_bytes n w out = be_split n w ++ out.
Proof.
  induction n as [|n IH]; intros w out; [done|].
  cbn [word_bytes]. rewrite IH, be_split_snoc, <- app_assoc.
  by rewrite Z.shiftr_div_pow2 by lia.
Qed.

Lemma uint128_to_bytes hi lo : uint128To16 hi lo = be_split 8 hi ++ be_split 8 lo.
Proof. unfold uint128To16. by rewrite !word_bytes_split, !app_nil_r. Qed.

Lemma uint128_to_addr hi lo :
  0 <= hi < 2 ^ 64 -> 0 <= lo < 2 ^ 64 ->
  AddrFrom16 (uint128To16 hi lo) = Addr6 (hi * 2 ^ 64 + lo) "".
Proof.
  intros Hhi Hlo. unfold AddrFrom16. rewrite uint128_to_bytes.
  by rewrite be_combine_app_split, be_combine_split by (simpl; lia).
Qed.

(** The loop reads the two halves of the array at once. *)
Lemma uint128_from_loop h l i n hi lo :
  length h = 8%nat -> length l = 8%nat -> Forall byte_ok h -> Forall byte_ok l ->
  (i + n = 8)%nat -> 0 <= hi < 256 ^ Z.of_nat i -> 0 <= lo < 256 ^ Z.of_nat i ->
  fold_left (fun '(hi, lo) i =>
    (Z.lor (u64 (Z.shiftl hi 8)) (nth i (h ++ l) 0),
     Z.lor (u64 (Z.shiftl lo 8)) (nth (i + 8) (h ++ l) 0))) (seq i n) (hi, lo)
  = (fold_left (fun acc b => acc * 256 + b) (drop i h) hi,
     fold_left (fun acc b => acc * 256 + b) (drop i l) lo).
Proof.
  intros Lh Ll Hh Hl. revert i hi lo. induction n as [|n IH]; intros i hi lo Hn Hhi Hlo.
  { rewrite !drop_ge by lia. done. }
  assert (is_Some (h !! i)) as [bh Ebh] by (apply lookup_lt_is_Some; lia).
  assert (is_Some (l !! i)) as [bl Ebl] by (apply lookup_lt_is_Some; lia).
  pose proof (proj1 (Forall_lookup _ _) Hh _ _ Ebh) as Bh.
  pose proof (proj1 (Forall_lookup _ _) Hl _ _ Ebl) as Bl.
  assert (256 ^ Z.of_nat i = 2 ^ (8 * Z.of_nat i)) as Ep by (by rewrite Z.pow_mul_r by lia).
  cbn [seq fold_left]. rewrite app_nth1, app_nth2 by lia.
  replace (i + 8 - length h)%nat with i by lia.
  rewrite (nth_lookup_Some h i 0 bh), (nth_lookup_Some l i 0 bl) by done.
  rewrite !(shl8_or _ (8 * Z.of_nat i)) by (done || lia).
  unfold byte_ok in *.
  rewrite IH by (try rewrite Nat2Z.inj_succ, Z.pow_succ_r by lia; lia).
  by rewrite (drop_S h bh i), (drop_S l bl i) by done.
Qed.

Lemma uint128_from_split n :
  0 <= n < 2 ^ 128 -> uint128From16 (be_split 16 n) = (n / 2 ^ 64, n mod 2 ^ 64).
Proof.
  intros Hn. change 16%nat with (8 + 8)%nat. rewrite be_split_app.
  unfold uint128From16. rewrite uint128_from_loop; auto using be_split_length, be_split_ok; try lia.
  rewrite !drop_0. change (256 ^ Z.of_nat 8) with (2 ^ 64).
  f_equal; apply be_combine_split.
  - change (256 ^ Z.of_nat 8) with (2 ^ 64).
    split; [apply Z.div_pos|apply Z.div_lt_upper_bound]; lia.
  - apply Z.mod_pos_bound. lia.
Qed.

(** [1 << host - 1] at width [w]: the low [host] bits, also when the shift
    wraps to zero. *)
Lemma host_ones w host :
  0 <= host <= w -> wrap w (wrap w (Z.shiftl 1 host) - 1) = 2 ^ host - 1.
Proof.
  intros Hh. rewrite Z.shiftl_mul_pow2, Z.mul_1_l by lia. unfold wrap.
  assert (0 < 2 ^ host) by (apply Z.pow_pos_nonneg; lia).
  assert (2 ^ host <= 2 ^ w) by (apply Z.pow_le_mono_r; lia).
  destruct (decide (host = w)) as [->|].
  - rewrite Z.mod_same by lia. change (0 - 1) with (-1).
    symmetry. apply (Z.mod_unique _ _ (-1)); lia.
  - assert (2 ^ host < 2 ^ w) by (apply Z.pow_lt_mono_r; lia).
    rewrite (Z.mod_small (2 ^ host)), Z.mod_small; lia.
Qed.

(** Setting the low bits of a multiple of [2 ^ k]. *)
Lemma lor_low_ones n k : 0 <= k -> Z.lor (n - n mod 2 ^ k) (2 ^ k - 1) = n - n mod 2 ^ k + 2 ^ k - 1.
Proof.
  intros Hk. assert (0 < 2 ^ k) as Hpos by (apply Z.pow_pos_nonneg; lia).
  pose proof (Z.div_mod n (2 ^ k)).
  replace (n - n mod 2 ^ k) with (n / 2 ^ k * 2 ^ k) by lia.
  rewrite lor_shift_add; lia.
Qed.

(** The last address of a prefix: every host bit set, at either width, on
    every length from the whole family to a single host. *)
Lemma last_v4 n b :
  0 <= n < 2 ^ 32 -> 0 <= b <= 32 ->
  lastAddr (MkPrefix (Addr4 n) b) = Addr4 (n - n mod 2 ^ (32 - b) + 2 ^ (32 - b) - 1).
Proof.
  intros Hn Hb. unfold lastAddr. rewrite masked_eq.
  2: { unfold prefix_ok. simpl. split_and!; done || lia. }
  cbn [pip pbits mask_addr Unmap Is4 As4 addr_val].
  pose proof (mod_sub_pow n (32 - b) 32 ltac:(lia) Hn) as Hm.
  assert (0 < 2 ^ (32 - b)) as Hpos by (apply Z.pow_pos_nonneg; lia).
  pose proof (Z.mod_pos_bound n _ Hpos).
  unfold As4. cbn [addr_val]. rewrite ldiff_ones by lia.
  rewrite uint32_from_bytes by (apply be_split_ok || apply be_split_length).
  change (2 ^ 32) with (256 ^ Z.of_nat 4) in Hm, Hn.
  rewrite be_combine_split by lia.
  unfold AddrFrom4. rewrite uint32_to_bytes. f_equal.
  destruct (Z.ltb_spec b 32).
  - rewrite host_ones, lor_low_ones, be_combine_split; lia.
  - replace (32 - b) with 0 by lia. rewrite Z.mod_1_r, be_combine_split; lia.
Qed.

(** The two words of a multiple of [2 ^ k]. *)
Lemma low_word q k : 0 <= k < 64 ->
  (q * 2 ^ k) mod 2 ^ 64 = (q mod 2 ^ (64 - k)) * 2 ^ k /\ ((q * 2 ^ k) mod 2 ^ 64) mod 2 ^ k = 0.
Proof.
  intros Hk. assert (0 < 2 ^ k) by (apply Z.pow_pos_nonneg; lia).
  assert ((q * 2 ^ k) mod 2 ^ 64 = (q mod 2 ^ (64 - k)) * 2 ^ k) as ->.
  { replace (2 ^ 64) with (2 ^ (64 - k) * 2 ^ k) by (rewrite <- Z.pow_add_r by lia; f_equal; lia).
    rewrite Z.mul_mod_distr_r; lia. }
  split; [done|]. apply Z.mod_mul. lia.
Qed.
Lemma high_word q k : 64 <= k -> (q * 2 ^ k) mod 2 ^ 64 = 0 /\ (q * 2 ^ k) / 2 ^ 64 = q * 2 ^ (k - 64).
Proof.
  intros Hk. replace (2 ^ k) with (2 ^ (k - 64) * 2 ^ 64) by (rewrite <- Z.pow_add_r by lia; f_equal; lia).
  rewrite Z.mul_assoc, Z.mod_mul, Z.div_mul by lia. done.
Qed.

Lemma last_v6 n z b :
  0 <= n < 2 ^ 128 -> 0 <= b <= 128 ->
  Is4In6 (pip (Masked (MkPrefix (Addr6 n "") b))) = false ->
  z = "" -> lastAddr (MkPrefix (Addr6 n z) b) = Addr6 (n - n mod 2 ^ (128 - b) + 2 ^ (128 - b) - 1) "".
Proof.
  intros Hn Hb Hmap ->.
  assert (prefix_ok (MkPrefix (Addr6 n "") b)) as Hp.
  { unfold prefix_ok. simpl. split_and!; done || lia. }
  unfold lastAddr. rewrite unmap_id by done. rewrite masked_eq by done.
  cbn [pip pbits mask_addr Is4 addr_val]. unfold As16. cbn [addr_val].
  rewrite ldiff_ones by lia. pose proof (mod_sub_pow n (128 - b) 128 ltac:(lia) Hn) as Hm.
  set (m := n - n mod 2 ^ (128 - b)) in *.
  assert (0 < 2 ^ (128 - b)) as Hpos by (apply Z.pow_pos_nonneg; lia).
  assert (m = n / 2 ^ (128 - b) * 2 ^ (128 - b)) as Hq.
  { subst m. pose proof (Z.div_mod n (2 ^ (128 - b))). lia. }
  clearbody m. set (q := n / 2 ^ (128 - b)) in *. clearbody q.
  rewrite uint128_from_split by lia.
  pose proof (Z.div_mod m (2 ^ 64)). pose proof (Z.mod_pos_bound m (2 ^ 64)).
  assert (0 <= m / 2 ^ 64 < 2 ^ 64) by
    (split; [apply Z.div_pos|apply Z.div_lt_upper_bound]; lia).
  destruct (Z.leb_spec (128 - b) 0).
  { replace (128 - b) with 0 by lia. rewrite uint128_to_addr by lia. f_equal. lia. }
  destruct (Z.ltb_spec (128 - b) 64).
  { destruct (low_word q (128 - b) ltac:(lia)) as [Hlo Hz]. rewrite <- Hq in Hlo, Hz.
    pose proof (mod_sub_pow (m mod 2 ^ 64) (128 - b) 64) as Hw.
    rewrite Hz in Hw.
    rewrite host_ones, Hlo, lor_shift_add, <- Hlo by lia.
    rewrite uint128_to_addr by lia. f_equal. lia. }
  destruct (high_word q (128 - b) ltac:(lia)) as [Hlo Hhi]. rewrite <- Hq in Hlo, Hhi.
  unfold max_uint. rewrite Z.ones_equiv.
  destruct (Z.eqb_spec (128 - b) 64) as [->|].
  { rewrite uint128_to_addr by lia. f_equal. lia. }
  destruct (Z.ltb_spec (128 - b) 128).
  - assert (2 ^ (128 - b) = 2 ^ (128 - b - 64) * 2 ^ 64) as Hsplit
      by (rewrite <- Z.pow_add_r by lia; f_equal; lia).
    assert (0 < 2 ^ (128 - b - 64)) by (apply Z.pow_pos_nonneg; lia).
    rewrite host_ones, Hhi, lor_shift_add, <- Hhi by lia.
    rewrite uint128_to_addr by lia. f_equal. lia.
  - assert (b = 0) as -> by lia. rewrite uint128_to_addr by lia. f_equal.
    change (2 ^ (128 - 0)) with (2 ^ 128) in *. lia.
Qed.

Definition succ_addr (a : Addr) : Addr :=
  match a with
  | AddrZero => AddrZero
  | Addr4 n => Addr4 (n + 1)
  | Addr6 n z => Addr6 (n + 1) z
  end.

Lemma succ_addr_val a : IsValid a = true -> addr_val (succ_addr a) = addr_val a + 1.
Proof. by destruct a. Qed.
Lemma succ_addr_family a : BitLen (succ_addr a) = BitLen a.
Proof. by destruct a. Qed.
Lemma succ_addr_zone a : Zone (succ_addr a) = Zone a.
Proof. by destruct a. Qed.

Lemma next_addr_spec a :
  addr_ok a -> IsValid a = true -> Zone a = "" -> Is4In6 a = false ->
  nextAddr a = if addr_val a =? 2 ^ BitLen a - 1 then None else Some (succ_addr a).
Proof.
  intros Ha Hv Hz Hm. unfold nextAddr. rewrite unmap_id by done.
  destruct a as [|n|n z]; [done| |].
  - cbn [Is4 addr_val BitLen succ_addr addr_ok] in *. unfold As4. cbn [addr_val].
    rewrite uint32_from_bytes by (apply be_split_ok || apply be_split_length).
    rewrite be_combine_split by (change (256 ^ Z.of_nat 4) with (2 ^ 32); lia).
    unfold max_uint. rewrite Z.ones_equiv.
    destruct (Z.eqb_spec n (Z.pred (2 ^ 32))), (Z.eqb_spec n (2 ^ 32 - 1)); try lia; [done|].
    rewrite wrap_small by lia. unfold AddrFrom4. rewrite uint32_to_bytes, be_combine_split;
      [done|change (256 ^ Z.of_nat 4) with (2 ^ 32); lia].
  - cbn [Is4 addr_val BitLen succ_addr addr_ok Zone] in *. subst z. unfold As16. cbn [addr_val].
    rewrite uint128_from_split by lia. unfold max_uint. rewrite Z.ones_equiv.
    pose proof (Z.div_mod n (2 ^ 64)). pose proof (Z.mod_pos_bound n (2 ^ 64)).
    assert (0 <= n / 2 ^ 64 < 2 ^ 64) by
      (split; [apply Z.div_pos|apply Z.div_lt_upper_bound]; lia).
    destruct (Z.eqb_spec (n mod 2 ^ 64) (Z.pred (2 ^ 64))).
    + destruct (Z.eqb_spec (n / 2 ^ 64) (Z.pred (2 ^ 64))), (Z.eqb_spec n (2 ^ 128 - 1));
        try lia; [done|].
      rewrite wrap_small, uint128_to_addr by lia. do 2 f_equal. lia.
    + destruct (Z.eqb_spec n (2 ^ 128 - 1)).
      { exfalso. assert (n / 2 ^ 64 <= 2 ^ 64 - 1) by lia. nia. }
      rewrite wrap_small, uint128_to_addr by lia. do 2 f_equal. lia.
Qed.

(** ** Intervals of one family *)

Definition lo (iv : Interval) : Z := addr_val (Start iv).
Definition hi (iv : Interval) : Z := addr_val (End_ iv).

(** [f] tells an IPv4 interval from an IPv6 one. *)
Definition endpoint_ok (f : bool) (a : Addr) : Prop :=
  addr_ok a /\ IsValid a = true /\ Zone a = "" /\ Is4 a = f.
Definition interval_ok (f : bool) (iv : Interval) : Prop :=
  endpoint_ok f (Start iv) /\ endpoint_ok f (End_ iv) /\ lo iv <= hi iv.

Definition in_interval (x : Z) (iv : Interval) : Prop := lo iv <= x <= hi iv.

Lemma endpoint4 n : 0 <= n < 2 ^ 32 -> endpoint_ok true (Addr4 n).
Proof. intros [? ?]. unfold endpoint_ok. by split_and!. Qed.
Lemma endpoint6 n : 0 <= n < 2 ^ 128 -> endpoint_ok false (Addr6 n "").
Proof. intros [? ?]. unfold endpoint_ok. by split_and!. Qed.
#[local] Hint Resolve endpoint4 endpoint6 : core.

Lemma endpoint_family f a b : endpoint_ok f a -> endpoint_ok f b -> same_family a b.
Proof.
  intros (_ & Va & Za & Fa) (_ & Vb & Zb & Fb). split_and!; [|done|done].
  destruct a, b; simplify_eq/=; done.
Qed.

Lemma endpoint_compare f a b :
  endpoint_ok f a -> endpoint_ok f b -> Compare a b = cmpZ (addr_val a) (addr_val b).
Proof. intros. apply compare_val. by eapply endpoint_family. Qed.

Lemma touches_spec f a b :
  interval_ok f a -> interval_ok f b ->
  overlapsOrTouches a b = true <->
  lo b <= hi a + (if Is4In6 (End_ a) then 0 else 1).
Proof.
  intros (_ & Ha & _) (Hb & _ & _). unfold overlapsOrTouches, hi, lo.
  rewrite (endpoint_compare f) by done.
  pose proof (cmpZ_spec (addr_val (End_ a)) (addr_val (Start b))) as Hc.
  destruct (Z.leb_spec 0 (cmpZ (addr_val (End_ a)) (addr_val (Start b)))).
  { split; [|done]. destruct (Is4In6 _); lia. }
  pose proof (endpoint_family f _ _ Ha Hb) as Hf.
  destruct Ha as (Oa & Va & Za & Fa), Hb as (Ob & Vb & Zb & Fb).
  destruct (Is4In6 (End_ a)) eqn:Em.
  - split; [|lia]. destruct (End_ a) as [|n|n z]; [done|done|]. unfold nextAddr.
    cbn [Unmap]. rewrite Em. cbn [Is4].
    destruct (_ =? _); [done|]. intros E%bool_decide_eq_true. rewrite <- E in Fb.
    by simpl in Fa, Fb; subst.
  - rewrite next_addr_spec by done.
    pose proof (addr_val_range (Start b) Ob) as Hmax.
    destruct Hf as (Hl & _ & _). rewrite Hl.
    destruct (Z.eqb_spec (addr_val (End_ a)) (2 ^ BitLen (Start b) - 1)); [split; [done|lia]|].
    rewrite bool_decide_eq_true. split.
    + intros <-. rewrite succ_addr_val by done. lia.
    + intros. apply addr_eq_val; [|rewrite succ_addr_val by done; lia].
      split_and!; [by rewrite succ_addr_family|by rewrite succ_addr_zone|done].
Qed.

Lemma compare_antisym a b : Compare b a = - Compare a b.
Proof.
  unfold Compare.
  assert (forall x y, cmpZ y x = - cmpZ x y) as Hc.
  { intros x y. unfold cmpZ. destruct (Z.ltb_spec x y), (Z.ltb_spec y x); lia. }
  rewrite (Hc (BitLen a)), (Hc (addr_val a)).
  destruct (Z.eqb_spec (cmpZ (BitLen a) (BitLen b)) 0) as [E|];
    destruct (Z.eqb_spec (- cmpZ (BitLen a) (BitLen b)) 0); try lia; simpl; [|done].
  destruct (Z.eqb_spec (cmpZ (addr_val a) (addr_val b)) 0);
    destruct (Z.eqb_spec (- cmpZ (addr_val a) (addr_val b)) 0); try lia; simpl; [|done].
  apply cmpZ_spec in E. assert (Is6 a = Is6 b) as -> by (by destruct a, b).
  destruct (Is6 b); [|done]. unfold cmp_string. rewrite String.compare_antisym.
  by destruct (String.compare (Zone a) (Zone b)).
Qed.

#[export] Instance interval_total : Total (not_less interval_less).
Proof.
  intros a b. unfold not_less, interval_less.
  rewrite (compare_antisym (Start a)), (compare_antisym (End_ a)).
  destruct (Z.eqb_spec (Compare (Start a) (Start b)) 0);
    destruct (Z.eqb_spec (- Compare (Start a) (Start b)) 0); simpl; try lia.
Qed.

(** ** Merging keeps the union and separates the intervals *)

Definition before (a b : Interval) : Prop := hi a < lo b.
Definition starts_le (a b : Interval) : Prop := lo a <= lo b.

(** The interval that takes in one it touches. *)
Lemma extend_spec f cur next : interval_ok f cur -> interval_ok f next ->
  let cur' := if 0 <? Compare (End_ next) (End_ cur) then MkInterval (Start cur) (End_ next) else cur in
  lo cur' = lo cur /\ hi cur' = Z.max (hi cur) (hi next) /\ interval_ok f cur'.
Proof.
  intros (Cs & Ce & Cl) (Ns & Ne & Nl). cbv zeta. rewrite (endpoint_compare f) by done.
  pose proof (cmpZ_spec (addr_val (End_ next)) (addr_val (End_ cur))) as Hc. unfold hi, lo in *.
  destruct (Z.ltb_spec 0 (cmpZ (addr_val (End_ next)) (addr_val (End_ cur)))).
  - split_and!; [done|cbn; lia|].
    split_and!; cbn [Start End_]; [done|done|unfold lo, hi; cbn; lia].
  - split_and!; [done|lia|by split_and!].
Qed.

Lemma merge_go_spec f : forall rest cur,
  Forall (interval_ok f) (cur :: rest) -> Sorted starts_le (cur :: rest) ->
  let out := merge_go cur rest in
  Forall (interval_ok f) out /\ StronglySorted before out
  /\ Forall (starts_le cur) out
  /\ (forall x, Exists (in_interval x) out <-> Exists (in_interval x) (cur :: rest)).
Proof.
  induction rest as [|next rest IH]; intros cur Hok Hs; simpl.
  { split_and!; [done|by repeat constructor| |done].
    constructor; [unfold starts_le; lia|constructor]. }
  inversion Hok as [|? ? Hcur Hrest]; subst. inversion Hrest as [|? ? Hnext Hrest']; subst.
  inversion Hs as [|? ? Hs' Hhd]; subst. inversion Hhd as [|? ? Hle]; subst.
  unfold starts_le in Hle.
  pose proof (touches_spec f cur next Hcur Hnext) as Ht.
  destruct (overlapsOrTouches cur next) eqn:E.
  - assert (lo next <= hi cur + 1) as Hnear by (destruct (Is4In6 _); pose proof (proj1 Ht eq_refl); lia).
    destruct (extend_spec f cur next Hcur Hnext) as (Hlo & Hhi & Hok').
    set (cur' := if 0 <? Compare (End_ next) (End_ cur)
                 then MkInterval (Start cur) (End_ next) else cur) in *.
    destruct (IH cur') as (O1 & O2 & O3 & O4).
    { by constructor. }
    { inversion Hs' as [|? ? Hs'' Hhd']; subst. constructor; [done|].
      destruct rest as [|r rest]; constructor. inversion Hhd'; subst.
      unfold starts_le in *. lia. }
    split_and!; [done|done| |].
    + eapply Forall_impl; [apply O3|]. unfold starts_le. intros. lia.
    + intros x. rewrite O4, !Exists_cons. unfold in_interval. rewrite Hlo, Hhi.
      destruct Hnext as (_ & _ & Nl), Hcur as (_ & _ & Cl).
      split; [intros [?|?]|intros [?|[?|?]]]; try tauto; try (left; lia).
      destruct (decide (x <= hi cur)); [left; lia|right; left; lia].
  - destruct (IH next) as (O1 & O2 & O3 & O4); [done|done|].
    assert (hi cur < lo next) as Hgap.
    { destruct (decide (lo next <= hi cur)); [|lia].
      assert (false = true); [|done]. apply Ht. destruct (Is4In6 _); lia. }
    split_and!.
    + by constructor.
    + constructor; [done|]. eapply Forall_impl; [apply O3|].
      unfold starts_le, before. intros. lia.
    + constructor; [unfold starts_le; lia|].
      eapply Forall_impl; [apply O3|]. unfold starts_le. intros. lia.
    + intros x. rewrite Exists_cons, O4, !Exists_cons. tauto.
Qed.

Lemma interval_less_starts f a b :
  interval_ok f a -> interval_ok f b -> not_less interval_less a b -> starts_le a b.
Proof.
  intros (Ha & _) (Hb & _). unfold not_less, interval_less, starts_le, lo.
  rewrite (endpoint_compare f (Start b) (Start a)) by done.
  pose proof (cmpZ_spec (addr_val (Start b)) (addr_val (Start a))).
  destruct (Z.eqb_spec (cmpZ (addr_val (Start b)) (addr_val (Start a))) 0); simpl; [lia|].
  intros ?%Z.ltb_ge. lia.
Qed.

Lemma sort_starts f l :
  Forall (interval_ok f) l -> Sorted starts_le (sort_slice interval_less l).
Proof.
  intros Hok. pose proof (Sorted_merge_sort (not_less interval_less) l) as Hs.
  rewrite <- (sort_slice_perm interval_less l) in Hok. unfold sort_slice in *.
  induction Hs as [|a l' Hs IH Hd]; [constructor|]. inversion Hok; subst.
  constructor; [by apply IH|]. destruct Hd; constructor.
  eapply (interval_less_starts f); [done| |done]. by inversion H2.
Qed.

Lemma merge_spec f l :
  Forall (interval_ok f) l ->
  Forall (interval_ok f) (merge l) /\ StronglySorted before (merge l)
  /\ (forall x, Exists (in_interval x) (merge l) <-> Exists (in_interval x) l).
Proof.
  intros Hok. pose proof (sort_starts f l Hok) as Hs.
  pose proof (sort_slice_perm interval_less l) as Hp. rewrite <- Hp in Hok.
  unfold merge. destruct (sort_slice interval_less l) as [|cur rest] eqn:E.
  - pose proof (Permutation_nil Hp); subst l. split_and!; [constructor|constructor|done].
  - destruct (merge_go_spec f rest cur Hok Hs) as (O1 & O2 & _ & O4).
    split_and!; [done|done|]. intros x. by rewrite O4, Hp.
Qed.

(** ** The binary search finds the interval of an address *)

(** An address with a zone compares above the same address without one, so it
    is past the last address of an interval. *)
Definition reaches (ip : Addr) (iv : Interval) : Prop :=
  lo iv <= addr_val ip <= hi iv /\ (addr_val ip = hi iv -> Zone ip = "").

Definition query_ok (f : bool) (ip : Addr) : Prop :=
  addr_ok ip /\ IsValid ip = true /\ Is4 ip = f.

Lemma cmp_string_empty s : cmp_string "" s <= 0 /\ (0 < cmp_string s "" <-> s <> "").
Proof.
  unfold cmp_string. split; [destruct s; simpl; lia|].
  destruct s; simpl; split; intros; try lia; done.
Qed.

Lemma query_start f iv ip :
  interval_ok f iv -> query_ok f ip -> 0 < Compare (Start iv) ip <-> addr_val ip < lo iv.
Proof.
  intros ((Os & Vs & Zs & Fs) & _) (_ & Vq & Fq). unfold Compare, lo.
  assert (BitLen (Start iv) = BitLen ip) as -> by (destruct (Start iv), ip; simplify_eq/=; done).
  rewrite (proj2 (proj1 (proj2 (cmpZ_spec (BitLen ip) (BitLen ip)))) eq_refl). simpl.
  pose proof (cmpZ_spec (addr_val (Start iv)) (addr_val ip)).
  destruct (Z.eqb_spec (cmpZ (addr_val (Start iv)) (addr_val ip)) 0); simpl; [|lia].
  rewrite Zs. pose proof (cmp_string_empty (Zone ip)). destruct (Is6 _); lia.
Qed.

Lemma query_end f iv ip :
  interval_ok f iv -> query_ok f ip -> Compare ip (End_ iv) <= 0 <->
  addr_val ip <= hi iv /\ (addr_val ip = hi iv -> Zone ip = "").
Proof.
  intros (_ & (Oe & Ve & Ze & Fe) & _) (_ & Vq & Fq). unfold Compare, hi.
  assert (BitLen ip = BitLen (End_ iv)) as -> by (destruct (End_ iv), ip; simplify_eq/=; done).
  rewrite (proj2 (proj1 (proj2 (cmpZ_spec (BitLen (End_ iv)) (BitLen (End_ iv))))) eq_refl). simpl.
  pose proof (cmpZ_spec (addr_val ip) (addr_val (End_ iv))).
  destruct (Z.eqb_spec (cmpZ (addr_val ip) (addr_val (End_ iv))) 0); simpl.
  2: { split; [intros; split; lia|lia]. }
  rewrite Ze. pose proof (cmp_string_empty (Zone ip)) as [_ Hz].
  assert (addr_val ip = addr_val (End_ iv)) as Heq by lia.
  destruct ip as [|n|n z]; simpl in *; [split; [split; [lia|done]|lia]..|].
  split.
  - intros. split; [lia|]. intros _. destruct (decide (z = "")); [done|]. apply Hz in n0. lia.
  - intros [_ E]. rewrite (E Heq). done.
Qed.

Lemma before_lookup s i j a b :
  StronglySorted before s -> s !! i = Some a -> s !! j = Some b -> (i < j)%nat -> hi a < lo b.
Proof.
  intros Hs. revert i j. induction Hs as [|x s Hs IH Hx]; [done|].
  intros [|i] [|j] Ha Hb Hij; simplify_eq/=; try lia.
  - rewrite Forall_lookup in Hx. by apply (Hx j).
  - apply (IH i j); [done|done|lia].
Qed.

(** The predicate of the search is monotone on a separated list. *)
Lemma probe_mono f s ip i j :
  Forall (interval_ok f) s -> StronglySorted before s -> query_ok f ip ->
  (i <= j < length s)%nat ->
  match s !! i with Some iv => 0 <? Compare (Start iv) ip | None => false end = true ->
  match s !! j with Some iv => 0 <? Compare (Start iv) ip | None => false end = true.
Proof.
  intros Hok Hs Hq Hij. destruct (s !! i) as [a|] eqn:Ea; [|done].
  destruct (lookup_lt_is_Some_2 s j) as [b Eb]; [lia|]. rewrite Eb.
  pose proof (Forall_lookup_1 _ _ _ _ Hok Ea) as Oa.
  pose proof (Forall_lookup_1 _ _ _ _ Hok Eb) as Ob.
  rewrite !Z.ltb_lt, !(query_start f) by done.
  destruct (decide (i = j)) as [->|]; [by simplify_eq|].
  pose proof (before_lookup s i j a b Hs Ea Eb ltac:(lia)).
  destruct Oa as (_ & _ & ?). lia.
Qed.

Lemma locate_spec f s ip :
  Forall (interval_ok f) s -> StronglySorted before s -> query_ok f ip ->
  match locate s ip with
  | Some iv => iv ∈ s /\ reaches ip iv
  | None => Forall (fun iv => ~ reaches ip iv) s
  end.
Proof.
  intros Hok Hs Hq. unfold locate.
  destruct (sort_search_spec (length s)
    (fun i => match s !! i with Some iv => 0 <? Compare (Start iv) ip | None => false end))
    as (Hle & Hlow & Hhigh).
  { intros a b Hab. by apply (probe_mono f). }
  destruct (sort_search _ _) as [|i].
  { apply Forall_lookup. intros k iv Ek. pose proof (Hhigh k) as Hk. rewrite Ek in Hk.
    pose proof (lookup_lt_Some _ _ _ Ek).
    rewrite Z.ltb_lt, (query_start f) in Hk by (try done; by eapply Forall_lookup_1).
    unfold reaches. lia. }
  destruct (lookup_lt_is_Some_2 s i) as [iv Ei]; [lia|]. rewrite Ei.
  pose proof (Forall_lookup_1 _ _ _ _ Hok Ei) as Oi.
  specialize (Hlow i ltac:(lia)). rewrite Ei, Z.ltb_ge in Hlow.
  pose proof (query_start f iv ip Oi Hq). pose proof (query_end f iv ip Oi Hq) as He.
  destruct (Z.ltb_spec 0 (Compare ip (End_ iv))) as [Hc|Hc].
  - apply Forall_lookup. intros k iv' Ek [[Hl Hh] Hz].
    pose proof (Forall_lookup_1 _ _ _ _ Hok Ek) as Ok'.
    destruct (decide (k = i)) as [->|].
    { simplify_eq. assert (Compare ip (End_ iv) <= 0) by (by apply He). lia. }
    destruct (decide (k < i)%nat).
    + pose proof (before_lookup s k i iv' iv Hs Ek Ei ltac:(lia)). lia.
    + pose proof (lookup_lt_Some _ _ _ Ek). specialize (Hhigh k ltac:(lia)).
      rewrite Ek, Z.ltb_lt, (query_start f) in Hhigh by done. lia.
  - split; [by eapply list_elem_of_lookup_2|]. split; [lia|]. apply He. lia.
Qed.

Lemma contains_list_spec f s ip :
  Forall (interval_ok f) s -> StronglySorted before s -> query_ok f ip ->
  contains s ip = true <-> Exists (reaches ip) s.
Proof.
  intros Hok Hs Hq. pose proof (locate_spec f s ip Hok Hs Hq) as H. unfold contains.
  destruct (locate s ip) as [iv|].
  - split; [|done]. intros _. apply Exists_exists. by exists iv.
  - split; [done|]. intros HE. apply Exists_exists in HE as (iv & Hin & Hr).
    rewrite Forall_forall in H. by edestruct H.
Qed.

(** ** What a prefix contributes to a table *)

Definition span (p : Prefix) : Interval :=
  let p := Masked p in MkInterval (Unmap (pip p)) (lastAddr p).

(** The network a prefix denotes, an IPv4-mapped one read as its IPv4 network. *)
Definition net_base (p : Prefix) : Addr := Unmap (pip (Masked p)).
Definition host_bits (p : Prefix) : Z :=
  BitLen (net_base p) - (if Is4In6 (pip (Masked p)) then pbits p - 96 else pbits p).
Definition in_cidr (p : Prefix) (a : Addr) : bool :=
  Bool.eqb (Is4 (net_base p)) (Is4 a)
  && (addr_val a / 2 ^ host_bits p =? addr_val (net_base p) / 2 ^ host_bits p).

(** A prefix whose table interval is its network: any but an IPv4-mapped one
    shorter than a host. *)
Definition regular (p : Prefix) : Prop := Is4In6 (pip (Masked p)) = true -> pbits p = 128.

Lemma div_eq_range x n k :
  0 <= k -> x / 2 ^ k = n / 2 ^ k <-> n - n mod 2 ^ k <= x <= n - n mod 2 ^ k + 2 ^ k - 1.
Proof.
  intros Hk. assert (0 < 2 ^ k) as Hp by (apply Z.pow_pos_nonneg; lia).
  pose proof (Z.div_mod n (2 ^ k)). pose proof (Z.div_mod x (2 ^ k)).
  pose proof (Z.mod_pos_bound x (2 ^ k) Hp).
  split; [intros E; rewrite E in *; lia|]. intros. symmetry.
  apply (Z.div_unique x (2 ^ k) (n / 2 ^ k) (x - (n - n mod 2 ^ k))); lia.
Qed.

Lemma masked_mapped n b :
  0 <= n < 2 ^ 128 -> 0 <= b <= 128 -> Z.shiftr (n - n mod 2 ^ (128 - b)) 32 = 65535 -> 32 <= b.
Proof.
  intros Hn Hb. rewrite Z.shiftr_div_pow2 by lia. intros Hs.
  destruct (decide (32 <= b)); [done|exfalso].
  pose proof (Z.div_mod n (2 ^ (128 - b))).
  assert (n - n mod 2 ^ (128 - b) = n / 2 ^ (128 - b) * 2 ^ (96 - b) * 2 ^ 32) as E.
  { rewrite <- Z.mul_assoc, <- Z.pow_add_r by lia. replace (96 - b + 32) with (128 - b) by lia. lia. }
  rewrite E, Z.div_mul in Hs by lia.
  assert (2 ^ (96 - b) = 2 ^ (80 - b) * 2 ^ 16) as E2 by
    (rewrite <- Z.pow_add_r by lia; f_equal; lia).
  rewrite E2, Z.mul_assoc in Hs.
  assert ((n / 2 ^ (128 - b) * 2 ^ (80 - b) * 2 ^ 16) mod 2 ^ 16 = 0) as Hz by
    (apply Z.mod_mul; lia).
  rewrite Hs in Hz. by vm_compute in Hz.
Qed.

Lemma last_mapped p :
  prefix_ok p -> Is4In6 (pip (Masked p)) = true -> lastAddr p = Unmap (pip (Masked p)).
Proof.
  intros Hp. destruct p as [[|n|n z] b]; rewrite masked_eq by done.
  1-2: done.
  destruct Hp as (Hn & _ & Hz & Hb). cbn [pip pbits addr_ok Zone BitLen] in *. subst z.
  intros Hm. unfold lastAddr. rewrite masked_eq.
  2: { unfold prefix_ok. cbn [pip pbits addr_ok Zone BitLen IsValid]. split_and!; done || lia. }
  cbn [pip pbits mask_addr] in *. rewrite ldiff_ones in * by lia.
  unfold Unmap. rewrite Hm. cbn [Is4].
  unfold Is4In6 in Hm. apply Z.eqb_eq, masked_mapped in Hm; [|done|done].
  destruct (Z.ltb_spec b 32); [lia|]. unfold As4. cbn [addr_val].
  rewrite uint32_from_bytes by (apply be_split_ok || apply be_split_length).
  pose proof (Z.mod_pos_bound (n - n mod 2 ^ (128 - b)) (2 ^ 32)).
  unfold AddrFrom4. rewrite uint32_to_bytes.
  by rewrite !be_combine_split by (rewrite ?be_combine_split; change (256 ^ Z.of_nat 4) with (2 ^ 32); lia).
Qed.

Lemma span_of p :
  prefix_ok p -> span p = MkInterval (net_base p) (lastAddr p).
Proof.
  intros Hp. unfold span, net_base. f_equal. unfold lastAddr. by rewrite masked_idem.
Qed.

(** The values of the interval: the network of the prefix, or the single
    base address of an IPv4-mapped prefix. *)
Lemma span_values p :
  prefix_ok p ->
  interval_ok (Is4 (net_base p)) (span p)
  /\ lo (span p) = addr_val (net_base p)
  /\ hi (span p) = if Is4In6 (pip (Masked p)) then addr_val (net_base p)
                   else addr_val (net_base p) + 2 ^ host_bits p - 1.
Proof.
  intros Hp. rewrite span_of by done. unfold interval_ok, lo, hi. cbn [Start End_].
  pose proof (masked_ok p Hp) as (Om & Vm & Zm & Bm).
  assert (endpoint_ok (Is4 (net_base p)) (net_base p)) as Hb.
  { unfold net_base. split_and!; [by apply unmap_ok|by rewrite unmap_valid|by apply unmap_zone|done]. }
  destruct (Is4In6 (pip (Masked p))) eqn:Em.
  { rewrite last_mapped by done. split_and!; try done; lia. }
  unfold host_bits, net_base in *. rewrite Em. rewrite unmap_id in * by done.
  rewrite masked_eq in * by done. destruct p as [[|n|n z] b].
  { by destruct Hp as (_ & ? & _). }
  all: destruct Hp as (Hn & _ & Hz & Hbits); cbn [pip pbits addr_ok Zone BitLen mask_addr] in *.
  - rewrite last_v4 by done. rewrite ldiff_ones in * by lia. cbn [addr_val Is4].
    pose proof (mod_sub_pow n (32 - b) 32 ltac:(lia) Hn).
    assert (0 < 2 ^ (32 - b)) by (apply Z.pow_pos_nonneg; lia).
    split_and!; first [apply endpoint4; lia | lia].
  - subst z. rewrite last_v6; [|done|done| |done].
    2: { rewrite masked_eq; [done|]. split_and!; cbn [pip pbits addr_ok Zone BitLen IsValid]; done || lia. }
    rewrite ldiff_ones in * by lia. cbn [addr_val Is4].
    pose proof (mod_sub_pow n (128 - b) 128 ltac:(lia) Hn).
    assert (0 < 2 ^ (128 - b)) by (apply Z.pow_pos_nonneg; lia).
    split_and!; first [apply endpoint6; lia | lia].
Qed.

(** The base has no bit in the host part. *)
Lemma base_aligned p :
  prefix_ok p -> Is4In6 (pip (Masked p)) = false ->
  0 <= host_bits p /\ addr_val (net_base p) mod 2 ^ host_bits p = 0.
Proof.
  intros Hp Em. unfold host_bits, net_base. rewrite Em, unmap_id by done.
  rewrite masked_eq by done. cbn [pip pbits]. rewrite mask_addr_bitlen.
  destruct Hp as (_ & _ & _ & Hb). split; [lia|].
  rewrite mask_addr_val by done. rewrite Zminus_mod_idemp_r, Z.sub_diag.
  apply Z.mod_0_l. assert (0 < 2 ^ (BitLen (pip p) - pbits p)) by (apply Z.pow_pos_nonneg; lia). lia.
Qed.

Lemma in_cidr_span p a :
  prefix_ok p -> regular p ->
  in_cidr p a = true <-> Is4 (net_base p) = Is4 a /\ in_interval (addr_val a) (span p).
Proof.
  intros Hp Hr. destruct (span_values p Hp) as (_ & Hlo & Hhi).
  unfold in_cidr, in_interval. rewrite Hlo, Hhi, andb_true_iff, Bool.eqb_true_iff, Z.eqb_eq.
  destruct (Is4In6 (pip (Masked p))) eqn:Em.
  - assert (host_bits p = 0) as ->.
    { unfold host_bits. rewrite Em, (Hr Em). unfold net_base.
      destruct (pip (Masked p)); [done|done|]. cbn [Unmap]. by rewrite Em. }
    rewrite !Z.div_1_r. split; intros [? ?]; (split; [done|lia]).
  - destruct (base_aligned p Hp Em) as [Hk Hm]. rewrite (div_eq_range _ _ _ Hk), Hm, Z.sub_0_r. done.
Qed.

(** ** Building a table *)

Lemma build_fold ps : forall t,
  Forall prefix_ok ps ->
  fold_left build_step ps t =
  MkTable (v4 t ++ filter (fun iv => Is4 (Start iv) = true) (map span ps))
          (v6 t ++ filter (fun iv => Is4 (Start iv) = false) (map span ps)).
Proof.
  induction ps as [|p ps IH]; intros t Hok.
  { simpl. rewrite !app_nil_r. by destruct t. }
  inversion Hok; subst. cbn [fold_left map]. rewrite IH by done. unfold build_step.
  change (MkInterval (Unmap (pip (Masked p))) (lastAddr (Masked p))) with (span p).
  rewrite !filter_cons. destruct (Is4 (Start (span p))) eqn:E; simpl.
  all: rewrite ?E; repeat case_decide; try done; by rewrite <- app_assoc.
Qed.

Definition family_spans (f : bool) (ps : list Prefix) : list Interval :=
  filter (fun iv => Is4 (Start iv) = f) (map span ps).

Lemma build_eq ps :
  Forall prefix_ok ps ->
  Build ps = MkTable (merge (family_spans true ps)) (merge (family_spans false ps)).
Proof. intros. unfold Build. by rewrite build_fold. Qed.

Lemma family_spans_ok f ps : Forall prefix_ok ps -> Forall (interval_ok f) (family_spans f ps).
Proof.
  intros Hok. apply Forall_forall. intros iv (Hf & Hin)%list_elem_of_filter.
  apply list_elem_of_fmap in Hin as (p & -> & Hp).
  rewrite Forall_forall in Hok. specialize (Hok p Hp).
  destruct (span_values p Hok) as (Hi & _). rewrite span_of in * by done. simpl in Hf.
  by rewrite Hf in Hi.
Qed.

(** The intervals of one family of a built table. *)
Lemma build_family f ps :
  Forall prefix_ok ps ->
  let s := merge (family_spans f ps) in
  Forall (interval_ok f) s /\ StronglySorted before s
  /\ forall x, Exists (in_interval x) s <->
       exists p, p ∈ ps /\ Is4 (net_base p) = f /\ in_interval x (span p).
Proof.
  intros Hok. destruct (merge_spec f _ (family_spans_ok f ps Hok)) as (H1 & H2 & H3).
  split_and!; [done|done|]. intros x. rewrite H3. unfold family_spans.
  rewrite Exists_exists. split.
  - intros (iv & (Hf & (p & -> & Hp)%list_elem_of_fmap)%list_elem_of_filter & Hx).
    exists p. rewrite Forall_forall in Hok. rewrite span_of in Hf by auto. done.
  - intros (p & Hp & Hf & Hx). exists (span p). split; [|done].
    apply list_elem_of_filter. split; [|by apply list_elem_of_fmap_2].
    rewrite Forall_forall in Hok. by rewrite span_of by auto.
Qed.

Lemma reaches_no_zone ip iv : Zone ip = "" -> reaches ip iv <-> in_interval (addr_val ip) iv.
Proof. unfold reaches, in_interval. tauto. Qed.

Lemma query_of ip :
  addr_ok ip -> IsValid ip = true -> query_ok (Is4 (Unmap ip)) (Unmap ip).
Proof. intros. split_and!; [by apply unmap_ok|by rewrite unmap_valid|done]. Qed.

Lemma contains_family ps ip :
  IsValid ip = true ->
  Forall prefix_ok ps ->
  Contains (Some (Build ps)) ip = contains (merge (family_spans (Is4 (Unmap ip)) ps)) (Unmap ip)
  /\ Locate (Some (Build ps)) ip = locate (merge (family_spans (Is4 (Unmap ip)) ps)) (Unmap ip).
Proof.
  intros Hv Hok. rewrite build_eq by done. rewrite <- unmap_valid in Hv. unfold Contains, Locate.
  by destruct (Unmap ip).
Qed.

Lemma build_contains_spans ps ip :
  Forall prefix_ok ps -> addr_ok ip -> IsValid ip = true -> Zone ip = "" ->
  Contains (Some (Build ps)) ip = true <->
  exists p, p ∈ ps /\ Is4 (net_base p) = Is4 (Unmap ip) /\ in_interval (addr_val (Unmap ip)) (span p).
Proof.
  intros Hok Ha Hv Hz. destruct (build_family (Is4 (Unmap ip)) ps Hok) as (H1 & H2 & H3).
  rewrite (proj1 (contains_family ps ip Hv Hok)).
  rewrite (contains_list_spec (Is4 (Unmap ip))) by auto using query_of.
  rewrite <- H3, !Exists_exists.
  setoid_rewrite reaches_no_zone; [done|by apply unmap_zone].
Qed.

(** [Contains] and [Locate] answer alike, on nil tables too. *)
Lemma contains_locate t ip : Contains t ip = bool_decide (is_Some (Locate t ip)).
Proof.
  destruct t as [t|]; [|done]. unfold Contains, Locate, contains.
  destruct (Is4 (Unmap ip)), (Is6 (Unmap ip)); try done.
  all: destruct (locate _ _); [by rewrite bool_decide_eq_true_2 by eauto|done].
Qed.

Definition starts_lex (a b : Interval) : Prop :=
  lo a < lo b \/ (lo a = lo b /\ hi a <= hi b).

#[local] Instance starts_lex_trans : Transitive starts_lex.
Proof. unfold starts_lex. intros a b c. lia. Qed.

Lemma interval_less_lex f a b :
  interval_ok f a -> interval_ok f b -> not_less interval_less a b -> starts_lex a b.
Proof.
  intros (As & Ae & _) (Bs & Be & _). unfold not_less, interval_less, starts_lex, lo, hi.
  rewrite (endpoint_compare f (Start b)), (endpoint_compare f (End_ b)) by done.
  pose proof (cmpZ_spec (addr_val (Start b)) (addr_val (Start a))).
  pose proof (cmpZ_spec (addr_val (End_ b)) (addr_val (End_ a))).
  destruct (Z.eqb_spec (cmpZ (addr_val (Start b)) (addr_val (Start a))) 0); simpl.
  all: intros ?%Z.ltb_ge; lia.
Qed.

(** The sort has one result whatever the order of its input: the order of the
    lines of a list file does not change its table. *)
Lemma merge_perm f l l' : Forall (interval_ok f) l -> l ≡ₚ l' -> merge l = merge l'.
Proof.
  intros Hok Hp. unfold merge.
  assert (sort_slice interval_less l = sort_slice interval_less l') as ->; [|done].
  assert (Forall (interval_ok f) l') as Hok' by (by rewrite <- Hp).
  assert (forall l, Forall (interval_ok f) l -> Sorted starts_lex (sort_slice interval_less l)) as Hs.
  { clear. intros l Hok. pose proof (Sorted_merge_sort (not_less interval_less) l) as Hs.
    rewrite <- (sort_slice_perm interval_less l) in Hok. unfold sort_slice in *.
    induction Hs as [|a l' Hs IH Hd]; [constructor|]. inversion Hok; subst.
    constructor; [by apply IH|]. destruct Hd; constructor.
    eapply (interval_less_lex f); [done| |done]. by inversion H2. }
  apply (Sorted_unique_strong starts_lex); [|auto|auto|].
  - intros a b Ha Hb Hab Hba. rewrite !sort_slice_perm in *.
    rewrite Forall_forall in Hok, Hok'. destruct (Hok a Ha) as (As & Ae & _), (Hok' b Hb) as (Bs & Be & _).
    unfold starts_lex, lo, hi in *. destruct a as [sa ea], b as [sb eb]. cbn [Start End_] in *.
    f_equal; (apply addr_eq_val; [by eapply endpoint_family|lia]).
  - by rewrite !sort_slice_perm.
Qed.

(** ** From an interval back to its prefix *)

Lemma prefix_go_sound iv : forall bits p,
  prefix_go iv bits = Some p ->
  pip (Masked p) = Start iv /\ lastAddr p = End_ iv
  /\ exists k, (k <= bits)%nat /\ p = PrefixFrom (Start iv) (Z.of_nat k).
Proof.
  induction bits as [|bits IH]; intros p; cbn [prefix_go].
  all: destruct (bool_decide _ && bool_decide _) eqn:E.
  1,3: intros [= <-]; apply andb_true_iff in E as [E1%bool_decide_eq_true E2%bool_decide_eq_true];
    eauto.
  - done.
  - intros H. destruct (IH p H) as (? & ? & k & ? & ?). split_and!; [done|done|].
    exists k. split; [lia|done].
Qed.

(** The search from the longest length reaches the length [k] when no longer
    one ends at the last address. *)
Lemma prefix_go_reaches iv k : forall bits,
  (k <= bits)%nat ->
  (forall j, (k < j <= bits)%nat -> lastAddr (PrefixFrom (Start iv) (Z.of_nat j)) <> End_ iv) ->
  pip (Masked (PrefixFrom (Start iv) (Z.of_nat k))) = Start iv ->
  lastAddr (PrefixFrom (Start iv) (Z.of_nat k)) = End_ iv ->
  prefix_go iv bits = Some (PrefixFrom (Start iv) (Z.of_nat k)).
Proof.
  induction bits as [|bits IH]; intros Hk Hno Hs He.
  { assert (k = 0)%nat as -> by lia. cbn [prefix_go].
    by rewrite !bool_decide_eq_true_2 by done. }
  destruct (decide (k = S bits)) as [->|].
  - cbn [prefix_go]. by rewrite !bool_decide_eq_true_2 by done.
  - cbn [prefix_go]. rewrite (bool_decide_eq_false_2 (lastAddr _ = _)) by (apply Hno; lia).
    rewrite andb_false_r. apply IH; [lia| |done|done]. intros j Hj. apply Hno. lia.
Qed.

Lemma last_value p :
  prefix_ok p -> Is4In6 (pip (Masked p)) = false ->
  addr_val (lastAddr p) = addr_val (pip (Masked p)) + 2 ^ (BitLen (pip p) - pbits p) - 1.
Proof.
  intros Hp Em. destruct (span_values p Hp) as (_ & _ & Hhi).
  rewrite span_of, Em in Hhi by done. unfold hi in Hhi. cbn [End_] in Hhi. rewrite Hhi.
  unfold host_bits, net_base. rewrite Em, unmap_id by done.
  rewrite masked_eq by done. cbn [pip pbits]. by rewrite mask_addr_bitlen.
Qed.

(** Masking at another length keeps a zone-free address of the family. *)
Lemma prefix_from_last q j :
  prefix_ok q -> Is4In6 (pip q) = false -> Masked q = q -> pbits q <= j <= BitLen (pip q) ->
  pip (Masked (PrefixFrom (pip q) j)) = pip q
  /\ addr_val (lastAddr (PrefixFrom (pip q) j)) = addr_val (pip q) + 2 ^ (BitLen (pip q) - j) - 1.
Proof.
  intros Hq Em Hm Hj. pose proof Hq as (Oq & Vq & Zq & Bq).
  assert (prefix_ok (PrefixFrom (pip q) j)) as Hp by (apply prefix_from_ok; done || lia).
  pose proof (prefix_from_ip (pip q) j Zq) as Ep.
  pose proof (prefix_from_bits (pip q) j Vq ltac:(lia)) as Eb.
  assert (pip (Masked (PrefixFrom (pip q) j)) = pip q) as Hbase.
  { rewrite masked_eq by done. cbn [pip]. rewrite Ep, Eb. rewrite masked_eq in Hm by done.
    apply (f_equal pip) in Hm. cbn [pip] in Hm.
    apply addr_eq_val.
    { split_and!; [apply mask_addr_bitlen|by rewrite mask_addr_zone|done]. }
    rewrite mask_addr_val by lia. apply (f_equal addr_val) in Hm.
    rewrite mask_addr_val in Hm by lia.
    assert (addr_val (pip q) mod 2 ^ (BitLen (pip q) - pbits q) = 0) as Hz by lia.
    apply Z.mod_divide in Hz as [c Hc]; [|apply Z.pow_nonzero; lia].
    replace (2 ^ (BitLen (pip q) - pbits q))
      with (2 ^ (j - pbits q) * 2 ^ (BitLen (pip q) - j)) in Hc
      by (rewrite <- Z.pow_add_r by lia; f_equal; lia).
    rewrite Hc at 2. rewrite Z.mul_assoc, Z.mod_mul by (apply Z.pow_nonzero; lia). lia. }
  split; [done|]. rewrite last_value by (done || by rewrite Hbase). by rewrite Hbase, Ep, Eb.
Qed.

Lemma interval_prefix_masked q :
  prefix_ok q -> Is4In6 (pip q) = false -> Masked q = q ->
  IntervalPrefix (MkInterval (pip q) (lastAddr q)) = Some q.
Proof.
  intros Hq Em Hm. unfold IntervalPrefix. cbn [Start End_].
  pose proof (span_values q Hq) as ((Hs & He & _) & _). rewrite span_of in Hs, He by done.
  cbn [Start End_] in Hs, He. unfold net_base in *. rewrite Hm, unmap_id in * by done.
  destruct Hs as (_ & Vs & _ & Fs), He as (_ & _ & _ & Fe). rewrite Vs, Fe, eqb_reflx. simpl.
  pose proof Hq as (_ & _ & _ & Bq).
  rewrite (prefix_go_reaches _ (Z.to_nat (pbits q))); cbn [Start End_].
  all: rewrite ?Z2Nat.id by lia; rewrite ?prefix_from_self by done; rewrite ?Hm; try done.
  { lia. }
  intros j Hj E. apply (f_equal addr_val) in E.
  rewrite (proj2 (prefix_from_last q (Z.of_nat j) Hq Em Hm ltac:(lia))) in E.
  rewrite last_value, Hm in E by (done || by rewrite Hm).
  assert (2 ^ (BitLen (pip q) - Z.of_nat j) < 2 ^ (BitLen (pip q) - pbits q))
    by (apply Z.pow_lt_mono_r; lia).
  lia.
Qed.

(** ** Reading a list file *)

Lemma parse_prefix_ok s p : ParsePrefix s = Ok p -> prefix_ok p /\ Masked p = p.
Proof.
  unfold ParsePrefix. cbv zeta. destruct (_ || _); [done|].
  destruct (Fields _) as [|tok ?]; [done|].
  destruct (ParsePrefixText tok) as [q|] eqn:Eq.
  { intros [= <-]. apply parse_prefix_text_ok in Eq. auto using masked_ok, masked_idem. }
  destruct (ParseAddr tok) as [a|] eqn:Ea; [|done]. intros [= <-].
  apply parse_addr_ok in Ea as [Oa Va].
  rewrite <- unmap_valid in Va. apply unmap_ok in Oa. revert Oa Va.
  generalize (Unmap a) as u. intros u Oa Va.
  assert (0 <= BitLen u) by (by destruct u).
  assert (prefix_ok (PrefixFrom u (BitLen u))) as Hp by (apply prefix_from_ok; done || lia).
  split; [done|]. by apply masked_full.
Qed.

Definition lines_of (content : string) : list string :=
  split_lines (S (String.length content)) content.
(** What one line contributes, and whether it is counted as malformed. *)
Definition line_prefix (line : string) : option Prefix :=
  match ParsePrefix (drop_cr line) with Ok p => Some p | Err _ => None end.
Definition line_malformed (line : string) : bool :=
  match ParsePrefix (drop_cr line) with Ok _ => false | Err e => negb (IsSkip e) end.
Definition line_fits (line : string) : Prop := Z.of_nat (String.length line) < max_line.

(** Both side conditions of a list file, decided. *)
Definition lines_fit (lines : list string) : bool :=
  forallb (fun l => Z.of_nat (String.length l) <? max_line) lines.
Definition prefixes_regular (ps : list Prefix) : bool :=
  forallb (fun p => negb (Is4In6 (pip (Masked p))) || (pbits p =? 128)) ps.

Lemma lines_fit_spec lines : lines_fit lines = true -> Forall line_fits lines.
Proof.
  intros H. apply Forall_forall. intros l Hl. unfold lines_fit in H.
  rewrite forallb_forall in H. apply Z.ltb_lt, H. by apply list_elem_of_In.
Qed.
Lemma prefixes_regular_spec ps : prefixes_regular ps = true -> Forall regular ps.
Proof.
  intros H. apply Forall_forall. intros p Hp Em. unfold prefixes_regular in H.
  rewrite forallb_forall in H. apply list_elem_of_In, H in Hp. rewrite Em in Hp.
  by apply Z.eqb_eq.
Qed.

Lemma read_lines_fit lines : forall ps n,
  Forall line_fits lines ->
  read_lines lines ps n
  = MkRead (ps ++ omap line_prefix lines)
           (n + Z.of_nat (length (filter (fun l => line_malformed l = true) lines))) false.
Proof.
  induction lines as [|line lines IH]; intros ps n Hfit; cbn [read_lines omap list_omap].
  { simpl. by rewrite app_nil_r, Z.add_0_r. }
  inversion Hfit as [|? ? Hl Hr]; subst. unfold line_fits in Hl.
  destruct (Z.leb_spec max_line (Z.of_nat (String.length line))); [lia|].
  rewrite filter_cons. destruct (ParsePrefix (drop_cr line)) as [p|e] eqn:E.
  - assert (line_prefix line = Some p) as -> by (unfold line_prefix; by rewrite E).
    assert (line_malformed line = false) as -> by (unfold line_malformed; by rewrite E).
    rewrite IH, <- app_assoc by done. by destruct (decide (false = true)).
  - assert (line_prefix line = None) as -> by (unfold line_prefix; by rewrite E).
    assert (line_malformed line = negb (IsSkip e)) as -> by (unfold line_malformed; by rewrite E).
    rewrite IH by done. f_equal. destruct (IsSkip e); simpl.
    + by destruct (decide (false = true)).
    + destruct (decide (true = true)); [|done]. cbn [length]. lia.
Qed.

Lemma line_prefixes_ok lines : Forall prefix_ok (omap line_prefix lines).
Proof.
  apply Forall_forall. intros p (l & _ & Hp)%list_elem_of_omap. unfold line_prefix in Hp.
  destruct (ParsePrefix _) eqn:E; simplify_eq. by apply parse_prefix_ok in E as [? _].
Qed.

(** ** The interval that is named is inside the list *)

Lemma merge_go_starts : forall rest cur iv,
  iv ∈ merge_go cur rest -> Start iv ∈ map Start (cur :: rest).
Proof.
  induction rest as [|next rest IH]; intros cur iv Hiv; cbn [merge_go] in Hiv.
  { apply list_elem_of_singleton in Hiv as ->. by left. }
  destruct (overlapsOrTouches cur next).
  - apply IH in Hiv. destruct (0 <? _); cbn [map Start] in *;
      (apply elem_of_cons in Hiv as [->|]; [by left|by right; right]).
  - apply elem_of_cons in Hiv as [->|Hiv]; [by left|]. right. by apply IH.
Qed.

Lemma merge_starts l iv : iv ∈ merge l -> Start iv ∈ map Start l.
Proof.
  unfold merge. pose proof (sort_slice_perm interval_less l) as Hp.
  destruct (sort_slice interval_less l) as [|cur rest]; [by intros ?%elem_of_nil|].
  intros Hiv%merge_go_starts. by rewrite <- Hp.
Qed.

Lemma locate_sound ps ip iv :
  Forall prefix_ok ps -> addr_ok ip -> IsValid ip = true ->
  Locate (Some (Build ps)) ip = Some iv ->
  interval_ok (Is4 (Unmap ip)) iv /\ reaches (Unmap ip) iv /\ Is4In6 (Start iv) = false
  /\ (forall x, in_interval x iv ->
        exists p, p ∈ ps /\ Is4 (net_base p) = Is4 (Unmap ip) /\ in_interval x (span p)).
Proof.
  intros Hok Ha Hv. rewrite (proj2 (contains_family ps ip Hv Hok)). intros E.
  destruct (build_family (Is4 (Unmap ip)) ps Hok) as (H1 & H2 & H3).
  pose proof (locate_spec _ _ _ H1 H2 (query_of ip Ha Hv)) as Hl. rewrite E in Hl.
  destruct Hl as [Hin Hr]. rewrite Forall_forall in H1.
  split_and!; [by apply H1|done| |].
  - apply merge_starts, list_elem_of_fmap in Hin as (iv' & -> & Hin).
    apply list_elem_of_filter in Hin as [_ Hin]. apply list_elem_of_fmap in Hin as (p & -> & _).
    apply unmap_not_mapped.
  - intros x Hx. apply H3, Exists_exists. by exists iv.
Qed.

(** The network that such an interval converts to. *)
Lemma located_network ps ip iv p :
  Forall prefix_ok ps -> addr_ok ip -> IsValid ip = true ->
  Locate (Some (Build ps)) ip = Some iv -> IntervalPrefix iv = Some p ->
  in_cidr p (Unmap ip) = true
  /\ (pbits p = BitLen (Unmap ip) -> pip p = Unmap ip)
  /\ (forall a, addr_ok a -> IsValid a = true -> Zone a = "" -> in_cidr p (Unmap a) = true ->
        Contains (Some (Build ps)) a = true).
Proof.
  intros Hok Ha Hv Hl Hp. destruct (locate_sound _ _ _ Hok Ha Hv Hl) as (Hi & [Hr Hz] & Hm & Hin).
  unfold IntervalPrefix in Hp. destruct (_ || _); [done|].
  destruct (prefix_go_sound _ _ _ Hp) as (E1 & E2 & k & Hk & Ep).
  destruct Hi as ((Os & Vs & Zs & Fs) & (Oe & Ve & Ze & Fe) & Hle).
  assert (prefix_ok p) as Hpo.
  { rewrite Ep. apply prefix_from_ok; [done|done|]. destruct (Start iv); cbn in Hk |- *; lia. }
  assert (net_base p = Start iv) as Hb by (unfold net_base; by rewrite E1, unmap_id).
  assert (span p = iv) as Hs by (rewrite span_of, Hb, E2 by done; by destruct iv).
  assert (regular p) as Hreg by (intros Hx; by rewrite E1, Hm in Hx).
  assert (in_cidr p (Unmap ip) = true) as Hc by (apply in_cidr_span; [done..|]; by rewrite Hb, Hs).
  split_and!; [done| |].
  - intros Hb128. destruct (span_values p Hpo) as (_ & Hlo & Hhi). rewrite E1, Hm, Hb in Hhi.
    rewrite Hb in Hlo. unfold host_bits in Hhi. rewrite E1, Hm, Hb, Hb128 in Hhi.
    assert (BitLen (Start iv) = BitLen (Unmap ip)) as Hbl.
    { destruct (Start iv), (Unmap ip) eqn:Eu; try done. by rewrite <- unmap_valid, Eu in Hv. }
    rewrite Hs, Hbl, Z.sub_diag in Hhi. rewrite Hs in Hlo. unfold lo, hi in *.
    assert (addr_val (Unmap ip) = addr_val (End_ iv)) as Hv' by (change (2 ^ 0) with 1 in Hhi; lia).
    rewrite Ep, prefix_from_ip by done. apply addr_eq_val; [|lia].
    split_and!; [done|done|by apply Hz].
  - intros a Oa Va Za Hca. apply build_contains_spans; [done..|].
    apply in_cidr_span in Hca as [Hf Hx]; [|done|done]. rewrite Hb, Fs in Hf. rewrite Hs in Hx.
    destruct (Hin _ Hx) as (q & Hq & Hqf & Hqx). exists q. split_and!; [done|congruence|done].
Qed.

Lemma read_lines_ok : forall lines ps n,
  Forall prefix_ok ps -> Forall prefix_ok (rd_prefixes (read_lines lines ps n)).
Proof.
  induction lines as [|line lines IH]; intros ps n Hps; cbn [read_lines]; [done|].
  destruct (max_line <=? _); [done|]. destruct (ParsePrefix _) as [p|e] eqn:E; [|by apply IH].
  apply IH, Forall_app_2; [done|]. by apply Forall_singleton, (parse_prefix_ok _ _ E).
Qed.

(** Membership in a table, prefix by prefix. *)
Lemma build_contains_cidr ps ip :
  Forall prefix_ok ps -> Forall regular ps -> addr_ok ip -> IsValid ip = true -> Zone ip = "" ->
  Contains (Some (Build ps)) ip = true <-> exists p, p ∈ ps /\ in_cidr p (Unmap ip) = true.
Proof.
  intros Hok Hreg Ha Hv Hz. rewrite build_contains_spans by done. rewrite Forall_forall in Hok, Hreg.
  split; intros (p & Hp & Hc); exists p; (split; [done|]); apply in_cidr_span; auto.
Qed.

Lemma line_prefix_in (p : Prefix) (lines : list string) :
  p ∈ omap line_prefix lines <-> exists line, line ∈ lines /\ ParsePrefix (drop_cr line) = Ok p.
Proof.
  rewrite list_elem_of_omap. unfold line_prefix.
  split; intros (line & Hl & Hp); exists line; (split; [done|]).
  - by destruct (ParsePrefix _); simplify_eq.
  - by rewrite Hp.
Qed.

Lemma read_prefixes_fit content :
  Forall line_fits (lines_of content) -> rd_prefixes (ReadPrefixes content) = omap line_prefix (lines_of content).
Proof. intros Hfit. unfold ReadPrefixes. by rewrite (read_lines_fit (lines_of content)). Qed.

(** A file that was read to its end has only lines that fit. *)
Lemma read_lines_fits : forall lines ps n, rd_err (read_lines lines ps n) = false -> Forall line_fits lines.
Proof.
  induction lines as [|line lines IH]; intros ps n; cbn [read_lines]; [intros _; apply Forall_nil_2|].
  destruct (Z.leb_spec max_line (Z.of_nat (String.length line))); [done|].
  intros Hr. constructor; [by unfold line_fits|]. destruct (ParsePrefix _); by eapply IH.
Qed.

(** ** Properties *)



(** C25: a table is canonical: both families are sorted, their intervals are
    disjoint, and the table depends on the prefixes only as a multiset, so
    neither the order of the lines nor that of the files changes it. *)
Theorem build_canonical ps ps' :
  Forall prefix_ok ps -> ps ≡ₚ ps' ->
  Build ps = Build ps'
  /\ StronglySorted before (v4 (Build ps)) /\ StronglySorted before (v6 (Build ps))
  /\ Forall (interval_ok true) (v4 (Build ps)) /\ Forall (interval_ok false) (v6 (Build ps)).
Proof.
  intros Hok Hp. assert (Forall prefix_ok ps') as Hok' by (by rewrite <- Hp).
  rewrite !build_eq by done. cbn [v4 v6].
  destruct (build_family true ps Hok) as (? & ? & _), (build_family false ps Hok) as (? & ? & _).
  split_and!; try done.
  assert (forall f, merge (family_spans f ps) = merge (family_spans f ps')) as Hm.
  { intros f. apply (merge_perm f); [by apply family_spans_ok|].
    unfold family_spans. by rewrite Hp. }
  by rewrite !Hm.
Qed.

Lemma build_canonical_witness :
  Build [MkPrefix (Addr4 0) 1; MkPrefix (Addr4 7) 32] = Build [MkPrefix (Addr4 7) 32; MkPrefix (Addr4 0) 1]
  /\ StronglySorted before (v4 (Build [MkPrefix (Addr4 0) 1; MkPrefix (Addr4 7) 32]))
  /\ StronglySorted before (v6 (Build [MkPrefix (Addr4 0) 1; MkPrefix (Addr4 7) 32]))
  /\ Forall (interval_ok true) (v4 (Build [MkPrefix (Addr4 0) 1; MkPrefix (Addr4 7) 32]))
  /\ Forall (interval_ok false) (v6 (Build [MkPrefix (Addr4 0) 1; MkPrefix (Addr4 7) 32])).
Proof.
  apply build_canonical; [|apply perm_swap].
  repeat constructor; vm_compute; discriminate || reflexivity.
Defined.

(** The interval [Locate] reports, which the deny page names to the
    client, holds the client address, and every address of that interval is
    in the list. *)
Theorem locate_interval_sound ps ip iv :
  Forall prefix_ok ps -> addr_ok ip -> IsValid ip = true ->
  Locate (Some (Build ps)) ip = Some iv ->
  in_interval (addr_val (Unmap ip)) iv /\ Is4 (Start iv) = Is4 (Unmap ip)
  /\ (forall x, in_interval x iv ->
        exists p, p ∈ ps /\ Is4 (net_base p) = Is4 (Unmap ip) /\ in_interval x (span p)).
Proof.
  intros Hok Ha Hv E. destruct (locate_sound _ _ _ Hok Ha Hv E) as (((_ & _ & _ & Hf) & _) & [Hr _] & _ & Hx).
  by split_and!.
Qed.

Lemma locate_interval_sound_witness :
  exists iv, Locate (Some (Build [MkPrefix (Addr4 256) 24; MkPrefix (Addr4 512) 24])) (Addr4 300) = Some iv
  /\ lo iv = 256 /\ hi iv = 767 /\ in_interval 300 iv.
Proof.
  eexists. split; [vm_compute; reflexivity|].
  split; [reflexivity|]. split; [reflexivity|].
  apply (locate_interval_sound [MkPrefix (Addr4 256) 24; MkPrefix (Addr4 512) 24] (Addr4 300)).
  - repeat constructor; vm_compute; discriminate || reflexivity.
  - vm_compute. split; [discriminate|reflexivity].
  - reflexivity.
  - vm_compute. reflexivity.
Defined.

(** The interval of a network converts back to exactly that network, so a
    list entry is reported to the client as it was written. *)
Theorem interval_prefix_roundtrip p :
  prefix_ok p -> Is4In6 (pip (Masked p)) = false ->
  IntervalPrefix (MkInterval (pip (Masked p)) (lastAddr p)) = Some (Masked p).
Proof.
  intros Hp Em. pose proof (masked_ok p Hp). pose proof (masked_idem p Hp).
  rewrite <- (interval_prefix_masked (Masked p)) by done.
  do 2 f_equal. unfold lastAddr. by rewrite masked_idem.
Qed.

Lemma interval_prefix_roundtrip_witness :
  IntervalPrefix (MkInterval (Addr4 167772160) (lastAddr (MkPrefix (Addr4 167772165) 8)))
  = Some (MkPrefix (Addr4 167772160) 8).
Proof.
  apply (interval_prefix_roundtrip (MkPrefix (Addr4 167772165) 8)); [|reflexivity].
  vm_compute. repeat split; discriminate.
Defined.

(** An IPv4-mapped network of a list, [::ffff:a.b.c.d/n], covers its base
    address alone: every other address of the network is missed, whatever
    [n] says. *)
Theorem mapped_network_collapses p a :
  prefix_ok p -> Is4In6 (pip (Masked p)) = true ->
  addr_ok a -> IsValid a = true -> Zone a = "" ->
  Contains (Some (Build [p])) a = true <-> Unmap a = net_base p.
Proof.
  intros Hp Em Ha Hv Hz.
  rewrite build_contains_spans by (done || by apply Forall_singleton).
  destruct (span_values p Hp) as (((Ob & Vb & Zb & Fb) & _) & Hlo & Hhi). rewrite Em in Hhi.
  rewrite span_of in Ob, Vb, Zb, Fb by done. cbn [Start] in *.
  unfold in_interval. split.
  - intros (? & ->%list_elem_of_singleton & Hf & Hx). rewrite Hlo, Hhi in Hx. apply addr_eq_val; [|lia].
    rewrite <- unmap_valid in Hv. split_and!; [|by apply unmap_zone|done].
    destruct (Unmap a), (net_base p); simplify_eq/=; done.
  - intros E. exists p. rewrite E, Hlo, Hhi. split_and!; [by apply list_elem_of_singleton|done|lia|lia].
Qed.

Lemma mapped_network_collapses_witness :
  Contains (Some (Build [MkPrefix (Addr6 (65535 * 2 ^ 32 + 167772160) "") 104])) (Addr4 167772160) = true
  /\ Contains (Some (Build [MkPrefix (Addr6 (65535 * 2 ^ 32 + 167772160) "") 104])) (Addr4 167772161) = false.
Proof.
  split; [|vm_compute; reflexivity].
  apply mapped_network_collapses; [vm_compute; repeat split; discriminate|reflexivity| |reflexivity..].
  vm_compute. split; [discriminate|reflexivity].
Defined.

(** A client address with a zone never matches a single-address entry of
    a list, although the same entry matches the address without the zone. *)
Theorem zoned_address_missed n z :
  0 <= n < 2 ^ 128 -> Is4In6 (Addr6 n "") = false -> z <> "" ->
  Contains (Some (Build [PrefixFrom (Addr6 n "") 128])) (Addr6 n "") = true
  /\ Contains (Some (Build [PrefixFrom (Addr6 n "") 128])) (Addr6 n z) = false.
Proof.
  intros Hn Em Hz. set (p := PrefixFrom (Addr6 n "") 128).
  assert (prefix_ok p) as Hp by (apply prefix_from_ok; done || simpl; lia).
  assert (Masked p = p) as Hm.
  { rewrite masked_eq by done. subst p. unfold PrefixFrom. cbn. by rewrite Z.ldiff_0_r. }
  assert (net_base p = Addr6 n "") as Hb.
  { unfold net_base. rewrite Hm. by apply unmap_id. }
  destruct (span_values p Hp) as (Hi & Hlo & Hhi). rewrite Hm in Hhi.
  replace (Is4In6 (pip p)) with false in Hhi by (symmetry; exact Em).
  assert (host_bits p = 0) as Hh.
  { unfold host_bits. rewrite Hm, Hb. replace (Is4In6 (pip p)) with false by (symmetry; exact Em). done. }
  rewrite Hb in *. rewrite Hh in Hhi. cbn [addr_val] in *. change (2 ^ 0) with 1 in Hhi.
  assert (Forall prefix_ok [p]) as Hok by (by apply Forall_singleton).
  split.
  - apply build_contains_spans; [done|done|done|done|]. exists p.
    rewrite Hb, unmap_id by done. unfold in_interval. rewrite Hlo, Hhi.
    split_and!; [by apply list_elem_of_singleton|done|simpl; lia|simpl; lia].
  - rewrite (proj1 (contains_family [p] (Addr6 n z) eq_refl Hok)).
    rewrite (unmap_id (Addr6 n z)) by done. cbn [Is4].
    destruct (build_family false [p] Hok) as (H1 & H2 & H3).
    destruct (contains _ _) eqn:E; [exfalso|done].
    apply (contains_list_spec false) in E; [|done|done|by split_and!].
    apply Exists_exists in E as (iv & Hin & [[Hl Hr] Hzone]).
    assert (Exists (in_interval (hi iv)) (merge (family_spans false [p]))) as Hex.
    { apply Exists_exists. exists iv. split; [done|]. rewrite Forall_forall in H1.
      destruct (H1 iv Hin) as (_ & _ & ?). unfold in_interval. lia. }
    apply H3 in Hex as (q & ->%list_elem_of_singleton & _ & Hq). unfold in_interval in Hq.
    rewrite Hlo, Hhi in Hq. cbn [addr_val] in *. apply Hz, Hzone. lia.
Qed.

Lemma zoned_address_missed_witness :
  Contains (Some (Build [PrefixFrom (Addr6 1 "") 128])) (Addr6 1 "") = true
  /\ Contains (Some (Build [PrefixFrom (Addr6 1 "") 128])) (Addr6 1 "eth0") = false.
Proof. apply zoned_address_missed; [split; reflexivity || discriminate|reflexivity|discriminate]. Defined.
