(* ===== verification/Sip.v ===== *)
(** * SipHash-2-4 over byte strings

    Models [internal/dyn/siphash.go]. A 64-bit word is a [Z] below [2 ^ 64],
    the key sixteen bytes; additions and left shifts wrap. *)

From S2P Require Import Prelude.

#[local] Open Scope Z_scope.

Module Sip.

(** [Key [16]byte] *)
Definition Key : Type := bytes.

Definition rotl (x b : Z) : Z := Z.lor (u64 (Z.shiftl x b)) (Z.shiftr x (64 - b)).

Record state : Type := St { v0 : Z; v1 : Z; v2 : Z; v3 : Z }.

(** The assignments of [sipRound] in their order. *)
Definition sipRound (s : state) : state :=
  let '(St v0 v1 v2 v3) := s in
  let v0 := u64 (v0 + v1) in
  let v1 := rotl v1 13 in
  let v1 := Z.lxor v1 v0 in
  let v0 := rotl v0 32 in
  let v2 := u64 (v2 + v3) in
  let v3 := rotl v3 16 in
  let v3 := Z.lxor v3 v2 in
  let v0 := u64 (v0 + v3) in
  let v3 := rotl v3 21 in
  let v3 := Z.lxor v3 v0 in
  let v2 := u64 (v2 + v1) in
  let v1 := rotl v1 17 in
  let v1 := Z.lxor v1 v2 in
  let v2 := rotl v2 32 in
  St v0 v1 v2 v3.

(** [binary.LittleEndian.Uint64(b[i:i+8])] *)
Definition word_at (b : bytes) (i : nat) : Z := le_combine (take 8 (drop i b)).

Definition init (k : Key) : state :=
  let k0 := word_at k 0 in
  let k1 := word_at k 8 in
  St (Z.lxor k0 0x736f6d6570736575) (Z.lxor k1 0x646f72616e646f6d)
     (Z.lxor k0 0x6c7967656e657261) (Z.lxor k1 0x7465646279746573).

(** [v3 ^= m], two rounds, [v0 ^= m]: the body shared by the block loop and
    the last word. *)
Definition compress (s : state) (m : Z) : state :=
  let s := St (v0 s) (v1 s) (v2 s) (Z.lxor (v3 s) m) in
  let s := sipRound (sipRound s) in
  St (Z.lxor (v0 s) m) (v1 s) (v2 s) (v3 s).

(** [for i := 0; i < full; i += 8], [n] blocks left. *)
Fixpoint blocks (n i : nat) (b : bytes) (s : state) : state :=
  match n with
  | O => s
  | S n => blocks n (i + 8) b (compress s (word_at b i))
  end.

(** [for i := full; i < n; i++] *)
Fixpoint tail_word (rest : bytes) (i : Z) (last : Z) : Z :=
  match rest with
  | [] => last
  | c :: rest => tail_word rest (i + 1) (Z.lor last (u64 (Z.shiftl c (8 * i))))
  end.

Definition finish (s : state) : Z :=
  let s := St (v0 s) (v1 s) (Z.lxor (v2 s) 0xff) (v3 s) in
  let s := sipRound (sipRound (sipRound (sipRound s))) in
  Z.lxor (Z.lxor (Z.lxor (v0 s) (v1 s)) (v2 s)) (v3 s).

Definition SipHashBytes (k : Key) (b : bytes) : Z :=
  let n := length b in
  let full := (n - n mod 8)%nat in
  let s := blocks (full / 8) 0 b (init k) in
  let last := u64 (Z.shiftl (Z.of_nat n) 56) in
  let last := tail_word (drop full b) 0 last in
  finish (compress s last).

(** ** The published definition *)

(** The message padded with zeros to seven bytes modulo eight and closed by
    its length modulo 256, read as little-endian words. *)
Definition pad (b : bytes) : bytes :=
  b ++ replicate (7 - length b mod 8) 0 ++ [Z.of_nat (length b) mod 256].
Fixpoint words (n : nat) (b : bytes) : list Z :=
  match n with
  | O => []
  | S n => le_combine (take 8 b) :: words n (drop 8 b)
  end.
Definition sip_spec (k : Key) (b : bytes) : Z :=
  finish (fold_left compress (words (S (length b / 8)) (pad b)) (init k)).

(** ** Facts *)

Lemma blocks_words n : forall i b s,
  blocks n i b s = fold_left compress (words n (drop i b)) s.
Proof.
  induction n as [|n IH]; intros i b s; [done|]. cbn [blocks words fold_left].
  rewrite IH. by rewrite drop_drop.
Qed.

Lemma words_app n : forall l r, length l = (8 * n)%nat -> words n (l ++ r) = words n l.
Proof.
  induction n as [|n IH]; intros l r Hl; [done|]. cbn [words].
  rewrite take_app_le, drop_app_le by lia. f_equal. apply IH. rewrite length_drop. lia.
Qed.

Lemma words_snoc n : forall l r,
  length l = (8 * n)%nat -> words (S n) (l ++ r) = words n l ++ [le_combine (take 8 r)].
Proof.
  induction n as [|n IH]; intros l r Hl.
  { destruct l; [done|simpl in Hl; lia]. }
  transitivity (le_combine (take 8 (l ++ r)) :: words (S n) (drop 8 (l ++ r))); [done|].
  rewrite take_app_le, drop_app_le by lia. rewrite IH by (rewrite length_drop; lia). done.
Qed.

Lemma le_combine_app l r :
  le_combine (l ++ r) = le_combine l + 256 ^ Z.of_nat (length l) * le_combine r.
Proof.
  induction l as [|b l IH]; [cbn [app le_combine length]; rewrite Z.pow_0_r; lia|].
  cbn [app le_combine length]. rewrite IH, Nat2Z.inj_succ, Z.pow_succ_r by lia. lia.
Qed.

Lemma le_combine_zeros n : le_combine (replicate n 0) = 0.
Proof. induction n as [|n IH]; [done|]. cbn [replicate le_combine]. lia. Qed.

(** The tail loop ors each remaining byte into its place of a word whose low
    [i] bytes are set and whose top byte is the length. *)
Lemma tail_word_spec rest : forall i top low,
  Forall byte_ok rest -> 0 <= i -> i + Z.of_nat (length rest) <= 7 ->
  0 <= low < 2 ^ (8 * i) -> 0 <= top < 256 ->
  tail_word rest i (top * 2 ^ 56 + low)
  = top * 2 ^ 56 + (low + 2 ^ (8 * i) * le_combine rest).
Proof.
  induction rest as [|c rest IH]; intros i top low Hok Hi Hlen Hlow Htop.
  { cbn [tail_word le_combine]. lia. }
  inversion Hok as [|? ? Hc Hrest]; subst. unfold byte_ok in Hc.
  cbn [tail_word le_combine length] in *.
  assert (2 ^ (8 * (i + 1)) = 256 * 2 ^ (8 * i)) as Hp.
  { replace (8 * (i + 1)) with (8 + 8 * i) by lia. by rewrite Z.pow_add_r by lia. }
  assert (2 ^ 56 = 2 ^ (56 - 8 * (i + 1)) * 2 ^ (8 * (i + 1))) as H56.
  { rewrite <- Z.pow_add_r by lia. f_equal. lia. }
  assert (0 < 2 ^ (56 - 8 * (i + 1))) by (apply Z.pow_pos_nonneg; lia).
  assert (0 < 2 ^ (8 * i)) by (apply Z.pow_pos_nonneg; lia).
  assert (Z.lor (top * 2 ^ 56 + low) (u64 (Z.shiftl c (8 * i)))
          = top * 2 ^ 56 + (low + c * 2 ^ (8 * i))) as ->.
  { rewrite Z.shiftl_mul_pow2 by lia. rewrite wrap_small by (split; nia).
    rewrite <- (lor_shift_add 56 top low) by nia.
    rewrite <- Z.lor_assoc, (Z.lor_comm low), (lor_shift_add (8 * i) c low) by lia.
    rewrite lor_shift_add by nia. lia. }
  rewrite IH by (done || lia || nia). rewrite Hp. lia.
Qed.


Lemma last_word b :
  Forall byte_ok b ->
  tail_word (drop (length b - length b mod 8) b) 0 (u64 (Z.shiftl (Z.of_nat (length b)) 56))
  = le_combine (drop (length b - length b mod 8) (pad b)).
Proof.
  intros Hok. pose proof (Nat.mod_upper_bound (length b) 8 ltac:(lia)).
  pose proof (Nat.Div0.mod_le (length b) 8).
  assert (u64 (Z.shiftl (Z.of_nat (length b)) 56) = (Z.of_nat (length b) mod 256) * 2 ^ 56 + 0) as ->.
  { rewrite Z.shiftl_mul_pow2 by lia. unfold wrap. change (2 ^ 64) with (256 * 2 ^ 56).
    rewrite Z.mul_mod_distr_r by lia. lia. }
  rewrite tail_word_spec; [|by apply Forall_drop|lia|rewrite length_drop; lia|lia|].
  2: { apply Z.mod_pos_bound. lia. }
  unfold pad. rewrite drop_app_le by lia. rewrite !le_combine_app, le_combine_zeros.
  rewrite length_drop, length_replicate. cbn [le_combine].
  replace (length b - (length b - length b mod 8))%nat with (length b mod 8)%nat by lia.
  set (t := Z.of_nat (length b) mod 256). set (r := (length b mod 8)%nat) in *.
  assert (256 ^ Z.of_nat r * 256 ^ Z.of_nat (7 - r) = 2 ^ 56) as E.
  { rewrite <- Z.pow_add_r by lia. replace (Z.of_nat r + Z.of_nat (7 - r)) with 7 by lia. done. }
  rewrite <- E. change (2 ^ (8 * 0)) with 1. lia.
Qed.

Lemma word_range b i : Forall byte_ok b -> 0 <= word_at b i < 2 ^ 64.
Proof.
  intros Hok. unfold word_at.
  pose proof (le_combine_range (take 8 (drop i b)) ltac:(by apply Forall_take, Forall_drop)) as H.
  rewrite length_take in H.
  assert (256 ^ Z.of_nat (8 `min` length (drop i b)) <= 256 ^ 8)
    by (apply Z.pow_le_mono_r; lia).
  change (256 ^ 8) with (2 ^ 64) in *. lia.
Qed.

Definition state_ok (s : state) : Prop :=
  0 <= v0 s < 2 ^ 64 /\ 0 <= v1 s < 2 ^ 64 /\ 0 <= v2 s < 2 ^ 64 /\ 0 <= v3 s < 2 ^ 64.

Lemma rotl_range x b : 0 <= x < 2 ^ 64 -> 0 < b < 64 -> 0 <= rotl x b < 2 ^ 64.
Proof.
  intros Hx Hb. apply lor_range; [lia|by apply wrap_range|].
  rewrite Z.shiftr_div_pow2 by lia.
  assert (0 < 2 ^ (64 - b)) by (apply Z.pow_pos_nonneg; lia).
  split; [apply Z.div_pos; lia|apply Z.div_lt_upper_bound; nia].
Qed.

Ltac word64 :=
  repeat first [ assumption | apply lxor_range; [lia| |] | apply rotl_range; [|lia]
               | apply wrap_range; lia ].

Lemma sipRound_ok s : state_ok s -> state_ok (sipRound s).
Proof.
  destruct s as [a b c d]. unfold state_ok. cbn [v0 v1 v2 v3]. intros (? & ? & ? & ?).
  unfold sipRound. refine (conj _ (conj _ (conj _ _))); cbn [v0 v1 v2 v3]; word64.
Qed.

Lemma state_ok_intro a b c d :
  0 <= a < 2 ^ 64 -> 0 <= b < 2 ^ 64 -> 0 <= c < 2 ^ 64 -> 0 <= d < 2 ^ 64 -> state_ok (St a b c d).
Proof. intros. exact (conj H (conj H0 (conj H1 H2))). Qed.

Lemma compress_ok s m : state_ok s -> 0 <= m < 2 ^ 64 -> state_ok (compress s m).
Proof.
  intros (? & ? & ? & ?) Hm. unfold compress. cbv zeta.
  assert (state_ok (sipRound (sipRound (St (v0 s) (v1 s) (v2 s) (Z.lxor (v3 s) m))))) as Ht.
  { apply sipRound_ok, sipRound_ok, state_ok_intro; word64. }
  revert Ht. generalize (sipRound (sipRound (St (v0 s) (v1 s) (v2 s) (Z.lxor (v3 s) m)))).
  intros t (? & ? & ? & ?). apply state_ok_intro; word64.
Qed.

Lemma finish_range s : state_ok s -> 0 <= finish s < 2 ^ 64.
Proof.
  intros (? & ? & ? & ?). unfold finish. cbv zeta.
  assert (state_ok (sipRound (sipRound (sipRound (sipRound
    (St (v0 s) (v1 s) (Z.lxor (v2 s) 0xff) (v3 s))))))) as Ht.
  { do 4 apply sipRound_ok. apply state_ok_intro; word64. split; [discriminate|reflexivity]. }
  revert Ht. generalize (sipRound (sipRound (sipRound (sipRound
    (St (v0 s) (v1 s) (Z.lxor (v2 s) 0xff) (v3 s)))))).
  intros t (? & ? & ? & ?). word64.
Qed.

Lemma init_ok k : Forall byte_ok k -> state_ok (init k).
Proof.
  intros Hk. pose proof (word_range k 0 Hk). pose proof (word_range k 8 Hk).
  unfold init. cbv zeta. apply state_ok_intro; word64; (split; [discriminate|reflexivity]).
Qed.

Lemma pad_length b : length (pad b) = (8 * S (length b / 8))%nat.
Proof.
  unfold pad. rewrite !length_app, length_replicate. cbn [length].
  pose proof (Nat.div_mod_eq (length b) 8). pose proof (Nat.mod_upper_bound (length b) 8). lia.
Qed.

Lemma sip_words b :
  words (S (length b / 8)) (pad b)
  = words (length b / 8) b ++ [le_combine (drop (length b - length b mod 8) (pad b))].
Proof.
  pose proof (Nat.div_mod_eq (length b) 8). pose proof (Nat.mod_upper_bound (length b) 8 ltac:(lia)).
  set (full := (length b - length b mod 8)%nat) in *.
  rewrite <- (take_drop full (pad b)) at 1.
  rewrite words_snoc by (rewrite length_take, pad_length; lia).
  rewrite (take_ge (drop full (pad b))) by (rewrite length_drop, pad_length; lia). f_equal.
  unfold pad. rewrite take_app_le by lia.
  rewrite <- (words_app (length b / 8) (take full b) (drop full b)) by (rewrite length_take; lia).
  by rewrite take_drop.
Qed.

Lemma siphash_is_spec k b : Forall byte_ok b -> SipHashBytes k b = sip_spec k b.
Proof.
  intros Hok. unfold SipHashBytes, sip_spec. cbv zeta.
  assert ((length b - length b mod 8) / 8 = length b / 8)%nat as ->.
  { pose proof (Nat.div_mod_eq (length b) 8).
    replace (length b - length b mod 8)%nat with (length b / 8 * 8)%nat by lia.
    apply Nat.div_mul. lia. }
  by rewrite last_word, blocks_words, drop_0, sip_words, fold_left_app by done.
Qed.

Lemma blocks_ok n : forall i b s, Forall byte_ok b -> state_ok s -> state_ok (blocks n i b s).
Proof.
  induction n as [|n IH]; intros i b s Hb Hs; [done|]. apply IH; [done|].
  apply compress_ok; [done|by apply word_range].
Qed.

Lemma siphash_range k b :
  Forall byte_ok k -> Forall byte_ok b -> 0 <= SipHashBytes k b < 2 ^ 64.
Proof.
  intros Hk Hb. unfold SipHashBytes. apply finish_range, compress_ok.
  - apply blocks_ok; [done|by apply init_ok].
  - rewrite last_word by done. rewrite <- (take_ge (drop _ (pad b)) 8).
    + apply word_range. unfold pad. rewrite !Forall_app. split_and!; [done| |].
      * apply Forall_replicate. by split.
      * apply Forall_singleton, Z.mod_pos_bound. lia.
    + rewrite length_drop, pad_length. pose proof (Nat.div_mod_eq (length b) 8). lia.
Qed.

#[export] Hint Resolve siphash_range : go.

(** ** Properties *)

(** C38: the hash of the source, block loop, byte-wise tail and length in the
    top byte, is SipHash-2-4 of the padded message for every message and key,
    a 64-bit value, and it gives the published vector. *)
Theorem siphash_reference k b :
  Forall byte_ok k -> Forall byte_ok b ->
  SipHashBytes k b = sip_spec k b /\ 0 <= SipHashBytes k b < 2 ^ 64
  /\ SipHashBytes (map Z.of_nat (seq 0 16)) (map Z.of_nat (seq 0 15)) = 0xa129ca6149be45e5.
Proof.
  intros. split; [by apply siphash_is_spec|]. split; [by apply siphash_range|].
  vm_compute. reflexivity.
Qed.

Lemma siphash_reference_witness :
  SipHashBytes (replicate 16 7) [1; 2; 3] = sip_spec (replicate 16 7) [1; 2; 3].
Proof.
  apply siphash_reference; repeat (apply Forall_cons; split); try apply Forall_nil;
    (split; discriminate || reflexivity) || exact I.
Defined.

End Sip.
