(* ===== verification/Wafs.v ===== *)
(** * WAFS objects: packages and snapshots of a live set

    Models [internal/dyn/wafs.go]: the binary layout, the material of a
    prefix that is hashed, and the decoder with every bounds check. Indexing
    and slicing outside the data are run-time panics of the model. *)

From S2P Require Import Prelude NetIP Sip.

#[local] Open Scope Z_scope.

Module Wafs.

Definition packVersion : Z := 1.
Definition kindSnapshot : Z := 1.
Definition kindPackage : Z := 2.
Definition typeCIDR : Z := 1.
Definition typeString : Z := 2.
Definition flagReasons : Z := 1.
Definition recAdd : Z := 1.
Definition recRemove : Z := 2.
Definition packHeader : nat := 52.
(** ["WAFS"] *)
Definition packMagic : bytes := [87; 65; 70; 83].

Record packHead : Type := MkHead {
  kind : Z; typ : Z; flags : Z; epoch : Z; seq : Z; hash : Z; key : Sip.Key; count : Z }.
Record packRecord : Type := MkRecord {
  op : Z; prefix : Prefix; value : bytes; exp : Z; reason : bytes }.

Inductive pack_error : Type :=
| errPackMagic
| errPackVersion
| errPackShort
| errFamily (fam : Z)
| errType (t : Z).

#[export] Instance pack_error_eq_dec : EqDecision pack_error.
Proof. solve_decision. Defined.
#[export] Instance packRecord_eq_dec : EqDecision packRecord.
Proof. solve_decision. Defined.

(** What identifies a prefix in the hash of a set: family, length, address. *)
Definition prefixMaterial (p : Prefix) : bytes :=
  if Is4 (pip p) then 4 :: u8 (pbits p) :: As4 (pip p)
  else 6 :: u8 (pbits p) :: As16 (pip p).

(** ** The decoder *)

(** [data[pos]], [data[pos:pos+n]] and the little-endian reads. *)
Definition index (data : bytes) (pos : nat) : run pack_error Z :=
  match drop pos data with b :: _ => Ret b | [] => Panic end.
Definition sub (data : bytes) (pos n : nat) : run pack_error bytes :=
  if (pos + n <=? length data)%nat then Ret (take n (drop pos data)) else Panic.
Definition le_at (data : bytes) (pos n : nat) : run pack_error Z :=
  let! b := sub data pos n in Ret (le_combine b).

Definition short (data : bytes) (upto : nat) : bool := (length data <? upto)%nat.

Definition read_cidr (data : bytes) (pos : nat) : run pack_error (Prefix * nat) :=
  if short data (pos + 2) then Throw errPackShort else
  let! fam := index data pos in
  let! bits := index data (pos + 1) in
  let pos := (pos + 2)%nat in
  if fam =? 4 then
    if short data (pos + 4 + 8) then Throw errPackShort else
    let! b := sub data pos 4 in
    Ret (PrefixFrom (AddrFrom4 b) bits, pos + 4)%nat
  else if fam =? 6 then
    if short data (pos + 16 + 8) then Throw errPackShort else
    let! b := sub data pos 16 in
    Ret (PrefixFrom (AddrFrom16 b) bits, pos + 16)%nat
  else Throw (errFamily fam).

(** A length-prefixed string that leaves [spare] bytes behind it. *)
Definition read_string (data : bytes) (pos spare : nat) : run pack_error (bytes * nat) :=
  if short data (pos + 2) then Throw errPackShort else
  let! n := le_at data pos 2 in
  let pos := (pos + 2)%nat in
  let n := Z.to_nat n in
  if short data (pos + n + spare) then Throw errPackShort else
  let! b := sub data pos n in
  Ret (b, pos + n)%nat.

Definition read_record (head : packHead) (data : bytes) (pos : nat)
  : run pack_error (packRecord * nat) :=
  if short data (pos + 1) then Throw errPackShort else
  let! op := index data pos in
  let pos := (pos + 1)%nat in
  let! '(prefix, value, pos) :=
    if typ head =? typeCIDR then
      let! '(p, pos) := read_cidr data pos in Ret (p, [], pos)
    else if typ head =? typeString then
      let! '(v, pos) := read_string data pos 8 in Ret (PrefixZero, v, pos)
    else Throw (errType (typ head)) in
  let! e := le_at data pos 8 in
  let exp := i64 e in
  let pos := (pos + 8)%nat in
  if (typ head =? typeString) && negb (Z.land (flags head) flagReasons =? 0) then
    let! '(reason, pos) := read_string data pos 0 in
    Ret (MkRecord op prefix value exp reason, pos)
  else Ret (MkRecord op prefix value exp [], pos).

(** [for i := 0; i < head.count; i++]. A record takes at least one byte, so
    the length of the data is fuel enough; running out would be a panic. *)
Fixpoint read_records (fuel : nat) (head : packHead) (data : bytes) (i : Z) (pos : nat)
  : run pack_error (list packRecord) :=
  if negb (i <? count head) then Ret [] else
  match fuel with
  | O => Panic
  | S fuel =>
      let! '(r, pos) := read_record head data pos in
      let! rs := read_records fuel head data (i + 1) pos in
      Ret (r :: rs)
  end.

Definition read_head (data : bytes) : run pack_error packHead :=
  if short data packHeader then Throw errPackShort else
  if negb (bool_decide (take 4 data = packMagic)) then Throw errPackMagic else
  let! version := index data 4 in
  if negb (version =? packVersion) then Throw errPackVersion else
  let! kind := index data 5 in
  let! typ := index data 6 in
  let! flags := index data 7 in
  let! epoch := le_at data 8 8 in
  let! seq := le_at data 16 8 in
  let! hash := le_at data 24 8 in
  let! key := sub data 32 16 in
  let! count := le_at data 48 4 in
  Ret (MkHead kind typ flags epoch seq hash key count).

Definition unpack (data : bytes) : run pack_error (packHead * list packRecord) :=
  let! head := read_head data in
  let! recs := read_records (S (length data)) head data 0 packHeader in
  Ret (head, recs).

(** ** The layout as an encoder *)

Definition encode_string (s : bytes) : bytes := le_split 2 (Z.of_nat (length s)) ++ s.
Definition encode_cidr (p : Prefix) : bytes :=
  if Is4 (pip p) then 4 :: pbits p :: As4 (pip p) else 6 :: pbits p :: As16 (pip p).
Definition has_reasons (h : packHead) : bool :=
  (typ h =? typeString) && negb (Z.land (flags h) flagReasons =? 0).
Definition encode_record (h : packHead) (r : packRecord) : bytes :=
  op r :: (if typ h =? typeCIDR then encode_cidr (prefix r) else encode_string (value r))
  ++ le_split 8 (exp r mod 2 ^ 64)
  ++ (if has_reasons h then encode_string (reason r) else []).
Definition encode_head (h : packHead) : bytes :=
  packMagic ++ [packVersion; kind h; typ h; flags h]
  ++ le_split 8 (epoch h) ++ le_split 8 (seq h) ++ le_split 8 (hash h) ++ key h
  ++ le_split 4 (count h).
Definition encode (h : packHead) (rs : list packRecord) : bytes :=
  encode_head h ++ concat (map (encode_record h) rs).

Definition head_ok (h : packHead) : Prop :=
  (typ h = typeCIDR \/ typ h = typeString)
  /\ 0 <= epoch h < 2 ^ 64 /\ 0 <= seq h < 2 ^ 64 /\ 0 <= hash h < 2 ^ 64
  /\ length (key h) = 16%nat /\ 0 <= count h < 2 ^ 32.
(** A record that the layout of its object can carry. *)
Definition record_ok (h : packHead) (r : packRecord) : Prop :=
  - 2 ^ 63 <= exp r < 2 ^ 63
  /\ (if typ h =? typeCIDR then prefix_ok (prefix r) /\ value r = []
      else prefix r = PrefixZero /\ Z.of_nat (length (value r)) < 65536)
  /\ (if has_reasons h then Z.of_nat (length (reason r)) < 65536 else reason r = []).

(** ** No read leaves the data *)

(** The computation does not panic, and its value, if it returns one,
    satisfies [Q]. *)
Definition safe {A} (r : run pack_error A) (Q : A -> Prop) : Prop :=
  match r with Panic => False | Throw _ => True | Ret a => Q a end.

Lemma safe_bind {A B} (r : run pack_error A) (f : A -> run pack_error B) Q R :
  safe r Q -> (forall a, Q a -> safe (f a) R) -> safe (mbind (M := run _) f r) R.
Proof. destruct r; simpl; auto. Qed.

Lemma safe_short {A} data upto e (r : run pack_error A) Q :
  ((upto <= length data)%nat -> safe r Q) ->
  safe (if short data upto then Throw e else r) Q.
Proof. unfold short. intros H. destruct (Nat.ltb_spec (length data) upto); [done|auto]. Qed.

Lemma safe_index data pos : (pos < length data)%nat -> safe (index data pos) (fun _ => True).
Proof.
  intros H. unfold index. destruct (drop pos data) eqn:E; [|done].
  apply (f_equal length) in E. rewrite length_drop in E. simpl in E. lia.
Qed.

Lemma safe_sub data pos n : (pos + n <= length data)%nat -> safe (sub data pos n) (fun _ => True).
Proof. intros H. unfold sub. by destruct (Nat.leb_spec (pos + n) (length data)); [|lia]. Qed.

Lemma safe_le_at data pos n :
  (pos + n <= length data)%nat -> safe (le_at data pos n) (fun _ => True).
Proof. intros H. eapply safe_bind; [by apply safe_sub|done]. Qed.

(** One step of the walk over a decoder. *)
Ltac safe_read :=
  first
    [ apply safe_short; intros ?
    | eapply safe_bind;
      [first [apply safe_index; lia | apply safe_sub; lia | apply safe_le_at; lia]|intros ? _] ].

Lemma encode_string_length s : length (encode_string s) = (2 + length s)%nat.
Proof. unfold encode_string. by rewrite length_app, le_split_length. Qed.

Lemma encode_cidr_length a b :
  length (encode_cidr (PrefixFrom a b)) = if Is4 a then 6%nat else 18%nat.
Proof.
  unfold encode_cidr. assert (Is4 (pip (PrefixFrom a b)) = Is4 a) as ->.
  { unfold PrefixFrom. repeat case_match; by destruct a. }
  destruct (Is4 a); cbn [length]; unfold As4, As16; by rewrite be_split_length.
Qed.

Lemma sub_length data pos n b : sub data pos n = Ret b -> length b = n.
Proof.
  unfold sub. destruct (Nat.leb_spec (pos + n) (length data)); [|done].
  intros [= <-]. rewrite length_take, length_drop. lia.
Qed.

(** The reader ends [spare] bytes or more before the end of the data, after
    what encodes the value it returns. *)
Definition ends {A} (data : bytes) (pos spare : nat) (enc : A -> bytes) '((a, pos') : A * nat) : Prop :=
  (pos' = pos + length (enc a) /\ pos' + spare <= length data)%nat.

Lemma safe_cidr data pos : safe (read_cidr data pos) (ends data pos 8 encode_cidr).
Proof.
  unfold read_cidr. safe_read. safe_read. safe_read.
  destruct (_ =? 4); [|destruct (_ =? 6); [|done]].
  all: safe_read; safe_read; unfold safe, ends; rewrite encode_cidr_length; cbn [Is4 AddrFrom4 AddrFrom16]; lia.
Qed.

Lemma safe_string data pos spare :
  safe (read_string data pos spare) (ends data pos spare encode_string).
Proof.
  unfold read_string. safe_read. safe_read. safe_read.
  eapply (safe_bind _ _ (fun b => length b = Z.to_nat a)).
  { pose proof (safe_sub data (pos + 2) (Z.to_nat a) ltac:(lia)) as Hs.
    destruct (sub data _ _) eqn:E; [done|done|]. simpl. by eapply sub_length. }
  intros b Hb. unfold safe, ends. rewrite encode_string_length. lia.
Qed.

Lemma safe_record head data pos :
  safe (read_record head data pos) (ends data pos 0 (encode_record head)).
Proof.
  unfold read_record. safe_read. safe_read.
  set (body p v := if typ head =? typeCIDR then encode_cidr p else encode_string v).
  apply (safe_bind _ _ (fun '(p, v, q) =>
    (q = pos + 1 + length (body p v) /\ q + 8 <= length data)%nat)).
  { subst body. destruct (_ =? typeCIDR); [|destruct (_ =? typeString); [|done]].
    - eapply safe_bind; [apply safe_cidr|]. intros [? ?] ?. done.
    - eapply safe_bind; [apply safe_string|]. intros [? ?] ?. done. }
  intros [[p v] q] ?. safe_read. fold (has_reasons head).
  assert (forall s, length (encode_record head (MkRecord a p v (i64 a0) s))
    = (9 + length (body p v) + length (if has_reasons head then encode_string s else []))%nat) as L.
  { intros s. unfold encode_record. cbn [length op prefix value exp reason]. fold (body p v).
    rewrite !length_app, le_split_length. lia. }
  destruct (has_reasons head).
  - eapply safe_bind; [apply safe_string|]. intros [s ?] [? ?].
    unfold safe, ends. rewrite L. lia.
  - unfold safe, ends. rewrite L. cbn [length]. lia.
Qed.

Lemma encode_record_length h r : (0 < length (encode_record h r))%nat.
Proof. unfold encode_record. simpl. lia. Qed.

Lemma safe_records fuel : forall head data i pos,
  (length data < fuel + pos)%nat -> (pos <= length data)%nat ->
  safe (read_records fuel head data i pos) (fun rs =>
    i + Z.of_nat (length rs) = Z.max i (count head)
    /\ (pos + length (concat (map (encode_record head) rs)) <= length data)%nat).
Proof.
  induction fuel as [|fuel IH]; intros head data i pos Hf Hp; cbn [read_records].
  { lia. }
  destruct (Z.ltb_spec i (count head)); simpl; [|lia].
  eapply safe_bind; [apply safe_record|]. intros [r pos'] [? ?].
  pose proof (encode_record_length head r).
  eapply safe_bind; [apply IH; lia|]. intros rs [Hrs Hl]. cbn [safe map concat length]. rewrite length_app. lia.
Qed.

Lemma safe_head data : safe (read_head data) (fun _ => (packHeader <= length data)%nat).
Proof.
  unfold read_head. safe_read. unfold packHeader in *. destruct (negb _); [done|].
  safe_read. destruct (negb _); [done|]. repeat safe_read. done.
Qed.

Lemma safe_unpack data :
  safe (unpack data) (fun '(h, rs) => Z.of_nat (length rs) = Z.max 0 (count h)
    /\ (packHeader + length (concat (map (encode_record h) rs)) <= length data)%nat).
Proof.
  unfold unpack. eapply safe_bind; [apply safe_head|]. intros h Hh.
  eapply safe_bind; [apply safe_records; unfold packHeader in *; lia|].
  simpl. intros rs Hrs. lia.
Qed.

(** ** Truncated data *)

(** The computation agrees with another one, or finds its data too short. *)
Definition cut {A} (r r' : run pack_error A) : Prop := r = Throw errPackShort \/ r = r'.

Lemma cut_bind {A B} (r r' : run pack_error A) (f f' : A -> run pack_error B) Q :
  cut r r' -> safe r Q -> (forall a, Q a -> cut (f a) (f' a)) ->
  cut (mbind (M := run _) f r) (mbind (M := run _) f' r').
Proof. intros [-> | <-] Hs Hf; [by left|]. destruct r; [done|by right|]. by apply Hf. Qed.

Lemma cut_refl {A} (r : run pack_error A) : cut r r.
Proof. by right. Qed.

Section cut.
Variables (data E : bytes).

Lemma cut_short {A} upto (r r' : run pack_error A) :
  ((upto <= length data)%nat -> cut r r') ->
  cut (if short data upto then Throw errPackShort else r)
      (if short (data ++ E) upto then Throw errPackShort else r').
Proof.
  unfold short. rewrite length_app. intros H.
  destruct (Nat.ltb_spec (length data) upto); [by left|].
  destruct (Nat.ltb_spec (length data + length E) upto); [lia|]. by apply H.
Qed.

Lemma cut_index pos : (pos < length data)%nat -> cut (index data pos) (index (data ++ E) pos).
Proof.
  intros H. right. unfold index. rewrite drop_app_le by lia.
  destruct (drop pos data) eqn:D; [|done].
  apply (f_equal length) in D. rewrite length_drop in D. simpl in D. lia.
Qed.

Lemma cut_sub pos n : (pos + n <= length data)%nat -> cut (sub data pos n) (sub (data ++ E) pos n).
Proof.
  intros H. right. unfold sub. rewrite length_app.
  destruct (Nat.leb_spec (pos + n) (length data)); [|lia].
  destruct (Nat.leb_spec (pos + n) (length data + length E)); [|lia].
  rewrite drop_app_le by lia. rewrite take_app_le by (rewrite length_drop; lia). done.
Qed.

Lemma cut_le_at pos n :
  (pos + n <= length data)%nat -> cut (le_at data pos n) (le_at (data ++ E) pos n).
Proof.
  intros H. eapply cut_bind; [by apply cut_sub|by apply safe_sub|]. intros b _. apply cut_refl.
Qed.

Ltac cut_read :=
  first
    [ apply cut_short; intros ?
    | eapply cut_bind;
      [ first [apply cut_index; lia | apply cut_sub; lia | apply cut_le_at; lia]
      | first [apply safe_index; lia | apply safe_sub; lia | apply safe_le_at; lia]
      | intros ? _ ] ].

Lemma cut_cidr pos : cut (read_cidr data pos) (read_cidr (data ++ E) pos).
Proof.
  unfold read_cidr. do 3 cut_read.
  destruct (_ =? 4); [|destruct (_ =? 6); [|apply cut_refl]]; do 2 cut_read; apply cut_refl.
Qed.

Lemma cut_string pos spare : cut (read_string data pos spare) (read_string (data ++ E) pos spare).
Proof. unfold read_string. do 4 cut_read. apply cut_refl. Qed.

Lemma cut_record head pos : cut (read_record head data pos) (read_record head (data ++ E) pos).
Proof.
  unfold read_record. do 2 cut_read.
  apply (cut_bind _ _ _ _ (fun '(_, _, q) => (q + 8 <= length data)%nat)).
  - destruct (_ =? typeCIDR); [|destruct (_ =? typeString); [|apply cut_refl]].
    + eapply cut_bind; [apply cut_cidr|apply safe_cidr|]. intros [? ?] ?. apply cut_refl.
    + eapply cut_bind; [apply cut_string|apply safe_string|]. intros [? ?] ?. apply cut_refl.
  - destruct (_ =? typeCIDR); [|destruct (_ =? typeString); [|done]].
    + eapply safe_bind; [apply safe_cidr|]. intros [? ?] [? ?]. done.
    + eapply safe_bind; [apply safe_string|]. intros [? ?] [? ?]. done.
  - intros [[p v] q] ?. cut_read. destruct (_ && _); [|apply cut_refl].
    eapply cut_bind; [apply cut_string|apply safe_string|]. intros [? ?] ?. apply cut_refl.
Qed.

Lemma cut_records head : forall fuel fuel' i pos,
  (length data < fuel + pos)%nat -> (length (data ++ E) < fuel' + pos)%nat ->
  (pos <= length data)%nat ->
  cut (read_records fuel head data i pos) (read_records fuel' head (data ++ E) i pos).
Proof.
  induction fuel as [|fuel IH]; intros fuel' i pos Hf Hf' Hp; [lia|].
  destruct fuel' as [|fuel']; [rewrite length_app in Hf'; lia|].
  cbn [read_records]. destruct (negb _); [apply cut_refl|].
  eapply cut_bind; [apply cut_record|apply safe_record|]. intros [r pos'] [? ?].
  pose proof (encode_record_length head r).
  eapply cut_bind; [apply IH; lia|apply safe_records; lia|]. intros rs _. apply cut_refl.
Qed.

Lemma cut_head : cut (read_head data) (read_head (data ++ E)).
Proof.
  unfold read_head. cut_read. unfold packHeader in *. rewrite take_app_le by lia.
  destruct (negb _); [apply cut_refl|]. cut_read.
  destruct (negb _); [apply cut_refl|]. repeat cut_read. apply cut_refl.
Qed.

Lemma cut_unpack : cut (unpack data) (unpack (data ++ E)).
Proof.
  unfold unpack. eapply cut_bind; [apply cut_head|apply safe_head|]. intros h Hh.
  unfold packHeader in *. eapply cut_bind.
  - apply cut_records; lia.
  - apply safe_records; lia.
  - intros rs _. apply cut_refl.
Qed.
End cut.

(** ** The decoder on encoded data *)

(** From [pos] on, the data reads [E]. *)
Definition at_pos (data : bytes) (pos : nat) (E : bytes) : Prop :=
  drop pos data = E /\ (pos <= length data)%nat.

Lemma at_length data pos E : at_pos data pos E -> length data = (pos + length E)%nat.
Proof. intros [<- ?]. rewrite length_drop. lia. Qed.

Lemma at_step data pos l E :
  at_pos data pos (l ++ E) -> at_pos data (pos + length l) E.
Proof.
  intros H. pose proof (at_length _ _ _ H) as Hl. rewrite length_app in Hl. destruct H as [H _].
  split; [|lia]. rewrite <- drop_drop, H. by rewrite drop_app_length.
Qed.

Lemma at_cons data pos b E : at_pos data pos (b :: E) -> at_pos data (pos + 1) E.
Proof. intros H. apply (at_step data pos [b] E H). Qed.

Lemma at_index data pos b E : at_pos data pos (b :: E) -> index data pos = Ret b.
Proof. intros [H _]. unfold index. by rewrite H. Qed.

Lemma at_sub data pos l E n : length l = n -> at_pos data pos (l ++ E) -> sub data pos n = Ret l.
Proof.
  intros <- H. pose proof (at_length _ _ _ H) as Hl. rewrite length_app in Hl. destruct H as [H _].
  unfold sub. rewrite H, take_app_length.
  by destruct (Nat.leb_spec (pos + length l) (length data)); [|lia].
Qed.

Lemma at_le data pos n v E :
  0 <= v < 256 ^ Z.of_nat n -> at_pos data pos (le_split n v ++ E) -> le_at data pos n = Ret v.
Proof.
  intros Hv H. unfold le_at. rewrite (at_sub _ _ _ _ _ (le_split_length n v) H). simpl.
  by rewrite le_combine_split.
Qed.

Lemma at_short data pos E k :
  at_pos data pos E -> short data (pos + k) = (length E <? k)%nat.
Proof.
  intros H. apply at_length in H. unfold short. rewrite H.
  destruct (Nat.ltb_spec (pos + length E) (pos + k)), (Nat.ltb_spec (length E) k); lia || done.
Qed.

Lemma mod64_i64 e : - 2 ^ 63 <= e < 2 ^ 63 -> i64 (e mod 2 ^ 64) = e.
Proof.
  intros He. unfold i64. rewrite Zplus_mod_idemp_l, Z.mod_small; lia.
Qed.

Lemma as4_of p : prefix_ok p -> Is4 (pip p) = true -> PrefixFrom (AddrFrom4 (As4 (pip p))) (pbits p) = p.
Proof.
  intros Hp H4. rewrite <- (prefix_from_self p) at 3 by done. f_equal.
  destruct Hp as (Ho & _). destruct (pip p) as [|n|]; try done.
  unfold AddrFrom4, As4. f_equal. by apply be_combine_split.
Qed.

Lemma as16_of p :
  prefix_ok p -> Is4 (pip p) = false -> PrefixFrom (AddrFrom16 (As16 (pip p))) (pbits p) = p.
Proof.
  intros Hp H4. rewrite <- (prefix_from_self p) at 3 by done. f_equal.
  destruct Hp as (Ho & Hv & Hz & _). destruct (pip p) as [| |n z]; try done.
  cbn [Zone] in Hz. subst z. unfold AddrFrom16, As16. f_equal. by apply be_combine_split.
Qed.

(** Rewrites a guard that holds, and one that fires. *)
Ltac guard_ok H :=
  rewrite (at_short _ _ _ _ H);
  match goal with |- context [(?a <? ?b)%nat] =>
    destruct (Nat.ltb_spec a b) as [?Hs|_]; [exfalso; rewrite ?length_app in *; simpl in *; lia|] end.

Lemma read_cidr_at data pos p E :
  prefix_ok p -> (8 <= length E)%nat -> at_pos data pos (encode_cidr p ++ E) ->
  read_cidr data pos = Ret (p, pos + length (encode_cidr p))%nat.
Proof.
  intros Hp HE H. unfold read_cidr, encode_cidr in *.
  destruct (Is4 (pip p)) eqn:Ef; cbn [app] in H.
  all: pose proof (at_cons _ _ _ _ H) as H1; pose proof (at_cons _ _ _ _ H1) as H2.
  all: rewrite <- Nat.add_assoc in H2; cbn [Nat.add] in H2.
  all: assert (length (As4 (pip p)) = 4%nat) as L4 by apply be_split_length.
  all: assert (length (As16 (pip p)) = 16%nat) as L16 by apply be_split_length.
  all: guard_ok H; rewrite (at_index _ _ _ _ H); simpl; rewrite (at_index _ _ _ _ H1); simpl.
  all: rewrite <- (Nat.add_assoc _ _ 8); guard_ok H2.
  - rewrite (at_sub _ _ _ _ 4 L4 H2). cbn [mbind run_bind]. rewrite as4_of by done.
    do 2 f_equal. cbn [length]. rewrite ?L4. simpl. lia.
  - rewrite (at_sub _ _ _ _ 16 L16 H2). cbn [mbind run_bind]. rewrite as16_of by done.
    do 2 f_equal. cbn [length]. rewrite ?L16. simpl. lia.
Qed.

Lemma read_string_at data pos s spare E :
  Z.of_nat (length s) < 65536 -> (spare <= length E)%nat ->
  at_pos data pos (encode_string s ++ E) ->
  read_string data pos spare = Ret (s, pos + length (encode_string s))%nat.
Proof.
  intros Hs HE H. unfold read_string, encode_string in *. rewrite <- app_assoc in H.
  pose proof (at_step _ _ _ _ H) as H1. rewrite le_split_length in H1.
  rewrite (at_short _ _ _ _ H), length_app, le_split_length.
  destruct (Nat.ltb_spec (2 + length (s ++ E)) 2); [lia|].
  assert (0 <= Z.of_nat (length s) < 256 ^ Z.of_nat 2) as Hn by (change (256 ^ Z.of_nat 2) with 65536; lia).
  rewrite (at_le data pos 2 _ _ Hn H). cbn [mbind run_bind]. rewrite Nat2Z.id.
  rewrite <- Nat.add_assoc, (at_short _ _ _ _ H1), length_app.
  destruct (Nat.ltb_spec (length s + length E) (length s + spare)); [lia|].
  rewrite (at_sub _ _ _ _ (length s) eq_refl H1). cbn [mbind run_bind].
  rewrite length_app, le_split_length. do 2 f_equal. lia.
Qed.

Lemma read_record_at data pos h r E :
  head_ok h -> record_ok h r -> at_pos data pos (encode_record h r ++ E) ->
  read_record h data pos = Ret (r, pos + length (encode_record h r))%nat.
Proof.
  intros (Ht & _) (He & Hv & Hr) H. unfold read_record, encode_record, has_reasons in *.
  cbn [app] in H. rewrite <- !app_assoc in H.
  pose proof (at_cons _ _ _ _ H) as H1.
  rewrite (at_short _ _ _ _ H). cbn [length].
  match goal with |- context [(?a <? 1)%nat] => destruct (Nat.ltb_spec a 1); [lia|] end.
  rewrite (at_index _ _ _ _ H). cbn [mbind run_bind].
  pose proof (at_step _ _ _ _ H1) as H2. pose proof (at_step _ _ _ _ H2) as H3.
  rewrite le_split_length in H3.
  assert (0 <= exp r mod 2 ^ 64 < 256 ^ Z.of_nat 8) as Hm by (apply Z.mod_pos_bound; lia).
  destruct r as [o p v e s]. cbn [op prefix value exp reason] in *.
  destruct Ht as [Ht|Ht]; rewrite Ht in *; cbn [Z.eqb typeCIDR typeString Pos.eqb andb] in *.
  - destruct Hv as [Hp ->]. subst s.
    rewrite (fun K => read_cidr_at _ _ p _ Hp K H1) by (rewrite length_app, le_split_length; lia).
    cbn [mbind run_bind]. rewrite (at_le _ _ 8 _ _ Hm H2). cbn [mbind run_bind].
    rewrite mod64_i64 by done. do 2 f_equal.
    rewrite app_nil_r. cbn [length]. rewrite length_app, le_split_length. lia.
  - destruct Hv as [-> Hv].
    rewrite (fun K => read_string_at _ _ v 8 _ Hv K H1) by (rewrite length_app, le_split_length; lia).
    cbn [mbind run_bind]. rewrite (at_le _ _ 8 _ _ Hm H2). cbn [mbind run_bind].
    rewrite mod64_i64 by done. destruct (negb _).
    + rewrite (fun K => read_string_at _ _ s 0 _ Hr K H3) by lia.
      cbn [mbind run_bind]. do 2 f_equal.
      cbn [length]. rewrite !length_app, le_split_length. lia.
    + subst s. do 2 f_equal. rewrite app_nil_r.
      cbn [length]. rewrite !length_app, le_split_length. lia.
Qed.

Lemma read_records_at data h : forall rs fuel i pos E,
  head_ok h -> Forall (record_ok h) rs ->
  i + Z.of_nat (length rs) = count h -> (length data < fuel + pos)%nat ->
  at_pos data pos (concat (map (encode_record h) rs) ++ E) ->
  read_records fuel h data i pos = Ret rs.
Proof.
  induction rs as [|r rs IH]; intros fuel i pos E Hh Hrs Hc Hf H.
  { simpl in Hc. destruct fuel; cbn [read_records]; by destruct (Z.ltb_spec i (count h)); [lia|]. }
  inversion Hrs as [|? ? Hr Hrs']; subst. cbn [map concat length] in *.
  rewrite <- app_assoc in H. pose proof (at_length _ _ _ H) as Hl.
  rewrite length_app in Hl. pose proof (encode_record_length h r).
  destruct fuel as [|fuel]; [lia|]. cbn [read_records].
  destruct (Z.ltb_spec i (count h)); [|lia]. cbn [negb].
  rewrite (read_record_at _ _ _ _ _ Hh Hr H). cbn [mbind run_bind].
  apply at_step in H.
  rewrite (IH fuel (i + 1) _ E Hh Hrs'); [done|lia|lia|done].
Qed.


Lemma read_head_at data h E :
  head_ok h -> at_pos data 0 (encode_head h ++ E) -> read_head data = Ret h /\ at_pos data 52 E.
Proof.
  intros (_ & He & Hs & Hh & Hk & Hc) H. unfold encode_head in H. rewrite <- !app_assoc in H.
  pose proof (at_length _ _ _ H) as Hl. rewrite !length_app, !le_split_length, Hk in Hl.
  cbn [length packMagic] in Hl.
  pose proof (at_step _ _ packMagic _ H) as H4. cbn [app length Nat.add packMagic] in H4.
  pose proof (at_cons _ _ _ _ H4) as H5. pose proof (at_cons _ _ _ _ H5) as H6.
  pose proof (at_cons _ _ _ _ H6) as H7. pose proof (at_cons _ _ _ _ H7) as H8.
  pose proof (at_step _ _ _ _ H8) as H16. rewrite le_split_length in H16.
  pose proof (at_step _ _ _ _ H16) as H24. rewrite le_split_length in H24.
  pose proof (at_step _ _ _ _ H24) as H32. rewrite le_split_length in H32.
  pose proof (at_step _ _ _ _ H32) as H48. rewrite Hk in H48.
  pose proof (at_step _ _ _ _ H48) as H52. rewrite le_split_length in H52.
  cbn [Nat.add] in *.
  split; [|exact H52]. unfold read_head.
  assert (short data packHeader = false) as ->.
  { unfold short, packHeader. apply Nat.ltb_ge. lia. }
  assert (take 4 data = packMagic) as ->.
  { destruct H as [H _]. rewrite drop_0 in H. by rewrite H. }
  rewrite bool_decide_eq_true_2 by done. cbn [negb].
  rewrite (at_index _ _ _ _ H4). cbn [mbind run_bind]. cbn [Z.eqb packVersion Pos.eqb negb].
  rewrite (at_index _ _ _ _ H5), (at_index _ _ _ _ H6), (at_index _ _ _ _ H7). cbn [mbind run_bind].
  rewrite (at_le _ _ 8 _ _ He H8), (at_le _ _ 8 _ _ Hs H16), (at_le _ _ 8 _ _ Hh H24).
  cbn [mbind run_bind]. rewrite (at_sub _ _ _ _ 16 Hk H32), (at_le _ _ 4 _ _ Hc H48).
  cbn [mbind run_bind]. by destruct h.
Qed.

Lemma unpack_encode_tail h rs E :
  head_ok h -> Forall (record_ok h) rs -> Z.of_nat (length rs) = count h ->
  unpack (encode h rs ++ E) = Ret (h, rs).
Proof.
  intros Hh Hrs Hc. unfold encode. rewrite <- app_assoc.
  set (data := encode_head h ++ concat (map (encode_record h) rs) ++ E).
  destruct (read_head_at data h (concat (map (encode_record h) rs) ++ E) Hh) as [E1 H52].
  { split; [by rewrite drop_0|lia]. }
  unfold unpack. rewrite E1. cbn [mbind run_bind].
  by rewrite (read_records_at data h rs (S (length data)) 0 packHeader E) by (done || unfold packHeader; lia).
Qed.

Lemma encode_head_length h : length (key h) = 16%nat -> length (encode_head h) = packHeader.
Proof.
  intros Hk. unfold encode_head. rewrite !length_app, !le_split_length, Hk. done.
Qed.

Lemma encode_length h rs :
  length (key h) = 16%nat ->
  length (encode h rs) = (packHeader + length (concat (map (encode_record h) rs)))%nat.
Proof. intros Hk. unfold encode. by rewrite length_app, encode_head_length. Qed.

(** ** Properties *)

(** On any bytes whatever the decoder returns normally: every index and
    slice expression of [unpack] stays inside the data, the loop over the
    records ends, and when it succeeds it has read exactly [head.count]
    records. *)
Theorem unpack_total data :
  unpack data <> Panic
  /\ forall h rs, unpack data = Ret (h, rs) -> Z.of_nat (length rs) = Z.max 0 (count h).
Proof.
  pose proof (safe_unpack data) as Hs. destruct (unpack data) as [|e|[h rs]]; [done|done|].
  split; [done|]. intros h' rs' [= -> ->]. apply Hs.
Qed.

(** C29: Decoding inverts the layout: an object written field by field
    (magic, version, kind, type, flags, little-endian counters, key, then
    each record with its length-prefixed strings and its reason when the flag
    asks for one) is read back exactly, whatever bytes follow it; and cut
    short at any byte it is refused as short, never read as something else. *)
Theorem unpack_encode h rs :
  head_ok h -> Forall (record_ok h) rs -> Z.of_nat (length rs) = count h ->
  (forall E, unpack (encode h rs ++ E) = Ret (h, rs))
  /\ (forall n, (n < length (encode h rs))%nat ->
      unpack (take n (encode h rs)) = Throw errPackShort).
Proof.
  intros Hh Hrs Hc. split; [intros E; by apply unpack_encode_tail|]. intros n Hn.
  pose proof (cut_unpack (take n (encode h rs)) (drop n (encode h rs))) as [Hcut|Hcut]; [done|].
  rewrite take_drop in Hcut.
  pose proof (unpack_encode_tail h rs [] Hh Hrs Hc) as Hfull. rewrite app_nil_r in Hfull.
  pose proof (safe_unpack (take n (encode h rs))) as Hs. rewrite Hcut, Hfull in Hs.
  destruct Hs as [_ Hs]. rewrite <- encode_length in Hs by apply Hh.
  rewrite length_take in Hs. lia.
Qed.

(** A package of two prefixes, one removed, and a snapshot of a set of
    strings with reasons. *)
Definition example_head : packHead :=
  MkHead kindPackage typeCIDR 0 7 3 12345 (replicate 16 9) 2.
Definition example_records : list packRecord :=
  [MkRecord recAdd (MkPrefix (Addr4 167772160) 8) [] 1700000000000 [];
   MkRecord recRemove (MkPrefix (Addr6 1 "") 128) [] (-1) []].

Lemma example_head_ok : head_ok example_head.
Proof. unfold head_ok, example_head. cbn. split_and!; [by left|..]; lia || done. Qed.

Lemma example_records_ok : Forall (record_ok example_head) example_records.
Proof.
  apply Forall_cons; split; [|apply Forall_singleton]; unfold record_ok; cbn.
  all: unfold prefix_ok, addr_ok; cbn; split_and!; lia || done.
Qed.

Lemma unpack_encode_witness :
  unpack (encode example_head example_records ++ [1; 2; 3]) = Ret (example_head, example_records)
  /\ unpack (take 70 (encode example_head example_records)) = Throw errPackShort.
Proof.
  split; apply (unpack_encode example_head example_records);
    [apply example_head_ok|apply example_records_ok|reflexivity
    |apply example_head_ok|apply example_records_ok|reflexivity|vm_compute; lia].
Defined.

End Wafs.
