(* ===== verification/Composition.v ===== *)
(** * The contents of a live set

    Models the [composition] of [internal/dyn/dyn.go]: a map from prefix to
    expiry, the number of prefixes of each length by family, and the running
    hash that the mirror compares with the keeper. *)

From S2P Require Import Prelude NetIP Sip Wafs.

#[local] Open Scope Z_scope.

Module Composition.
Import Wafs.

Record composition : Type := MkComp {
  nets : gmap Prefix Z;
  (** [[2][129]int]: a row per family, an entry per prefix length. *)
  lens : list (list Z);
  hash : Z }.

Definition newComposition : composition :=
  MkComp ∅ (replicate 2 (replicate 129 0)) 0.

Definition family (p : Prefix) : nat := if Is4 (pip p) then 0%nat else 1%nat.

(** [c.lens[fam][bits]], and the same entry increased by [d]. An index
    outside the array is a run-time panic. *)
Definition lens_at (l : list (list Z)) (fam : nat) (bits : Z) : option Z :=
  if bits <? 0 then None else let? row := l !! fam in row !! Z.to_nat bits.
Definition lens_add (l : list (list Z)) (fam : nat) (bits d : Z) : option (list (list Z)) :=
  let? n := lens_at l fam bits in
  Some (alter (<[Z.to_nat bits := n + d]>) fam l).

Definition apply (k : Sip.Key) (c : composition) (r : packRecord) : option composition :=
  let p := prefix r in
  match nets c !! p with
  | None =>
      if op r =? recAdd then
        let h := Z.lxor (hash c) (Sip.SipHashBytes k (prefixMaterial p)) in
        let? l := lens_add (lens c) (family p) (pbits p) 1 in
        Some (MkComp (<[p := exp r]> (nets c)) l h)
      else Some c
  | Some _ =>
      if op r =? recAdd then Some (MkComp (<[p := exp r]> (nets c)) (lens c) (hash c))
      else
        let h := Z.lxor (hash c) (Sip.SipHashBytes k (prefixMaterial p)) in
        let? l := lens_add (lens c) (family p) (pbits p) (-1) in
        Some (MkComp (delete p (nets c)) l h)
  end.

Fixpoint apply_all (k : Sip.Key) (c : composition) (rs : list packRecord) : option composition :=
  match rs with
  | [] => Some c
  | r :: rs => let? c := apply k c r in apply_all k c rs
  end.

(** [exp == 0 || exp > now] *)
Definition live (now exp : Z) : bool := (exp =? 0) || (now <? exp).

(** The loop of [contains] from [bits] down to zero. The entry read is inside
    the array for every address, so an absent one counts as zero. *)
Fixpoint contains_go (c : composition) (ip : Addr) (fam : nat) (now : Z) (bits : nat) : bool :=
  let below := match bits with O => false | S b => contains_go c ip fam now b end in
  if default 0 (lens_at (lens c) fam (Z.of_nat bits)) =? 0 then below else
  match nets c !! Masked (PrefixFrom ip (Z.of_nat bits)) with
  | Some exp => if live now exp then true else below
  | None => below
  end.
Definition contains (c : composition) (ip : Addr) (now : Z) : bool :=
  let ip := Unmap ip in
  let fam := if Is4 ip then 0%nat else 1%nat in
  contains_go c ip fam now (Z.to_nat (BitLen ip)).

(** [for bits, n := range row] adds a row to the two totals. *)
Fixpoint size_row (full bits : nat) (row : list Z) (acc : Z * Z) : Z * Z :=
  match row with
  | [] => acc
  | n :: row =>
      size_row full (S bits) row
        (if Nat.eqb bits full then (acc.1, acc.2 + n) else (acc.1 + n, acc.2))
  end.
Definition size (c : composition) : Z * Z :=
  size_row 128 0 (lens c !!! 1%nat) (size_row 32 0 (lens c !!! 0%nat) (0, 0)).

(** ** What a composition should be *)

(** The expiry of each prefix after a sequence of records, and nothing else. *)
Definition apply_net (m : gmap Prefix Z) (r : packRecord) : gmap Prefix Z :=
  if op r =? recAdd then <[prefix r := exp r]> m else delete (prefix r) m.

(** The exclusive or of the hashes of the prefixes. *)
Definition xor_hash (k : Sip.Key) (m : gmap Prefix Z) : Z :=
  map_fold (fun p _ h => Z.lxor h (Sip.SipHashBytes k (prefixMaterial p))) 0 m.

(** The number of prefixes that satisfy a test, and of one length. *)
Definition number (P : Prefix -> bool) (m : gmap Prefix Z) : Z :=
  Z.of_nat (base.size (filter (fun x : Prefix * Z => P x.1 = true) m)).
Definition of_length (fam : nat) (bits : Z) : gmap Prefix Z -> Z :=
  number (fun p => bool_decide (family p = fam /\ pbits p = bits)).

Record wf (k : Sip.Key) (c : composition) : Prop := {
  wf_nets : map_Forall (fun p _ => prefix_ok p) (nets c);
  wf_hash : hash c = xor_hash k (nets c);
  wf_shape : length (lens c) = 2%nat /\ Forall (fun row => length row = 129%nat) (lens c);
  wf_lens : forall fam bits, (fam < 2)%nat -> 0 <= bits <= 128 ->
    lens_at (lens c) fam bits = Some (of_length fam bits (nets c)) }.

(** ** The running hash *)

Lemma xor_swap k (p q : Prefix) h :
  Z.lxor (Z.lxor h (Sip.SipHashBytes k (prefixMaterial q))) (Sip.SipHashBytes k (prefixMaterial p))
  = Z.lxor (Z.lxor h (Sip.SipHashBytes k (prefixMaterial p))) (Sip.SipHashBytes k (prefixMaterial q)).
Proof. rewrite !Z.lxor_assoc. f_equal. apply Z.lxor_comm. Qed.

Lemma xor_hash_insert k m p e :
  m !! p = None ->
  xor_hash k (<[p := e]> m) = Z.lxor (xor_hash k m) (Sip.SipHashBytes k (prefixMaterial p)).
Proof.
  intros Hp. unfold xor_hash.
  rewrite map_fold_insert_L; [done| |done]. intros. apply xor_swap.
Qed.

Lemma xor_hash_overwrite k m p e e' :
  m !! p = Some e -> xor_hash k (<[p := e']> m) = xor_hash k m.
Proof.
  intros Hp. rewrite <- (insert_delete_id m p e) at 2 by done.
  rewrite <- insert_delete_eq, !xor_hash_insert by apply lookup_delete_eq. done.
Qed.

Lemma xor_hash_delete k m p e :
  m !! p = Some e ->
  xor_hash k (delete p m) = Z.lxor (xor_hash k m) (Sip.SipHashBytes k (prefixMaterial p)).
Proof.
  intros Hp. rewrite <- (insert_delete_id m p e) at 2 by done.
  rewrite xor_hash_insert by apply lookup_delete_eq.
  by rewrite Z.lxor_assoc, Z.lxor_nilpotent, Z.lxor_0_r.
Qed.

(** ** The counters *)

Lemma number_insert P m p e :
  m !! p = None -> number P (<[p := e]> m) = number P m + (if P p then 1 else 0).
Proof.
  intros Hp. unfold number. destruct (P p) eqn:E.
  - rewrite map_filter_insert_True by done.
    rewrite map_size_insert_None; [lia|]. apply map_lookup_filter_None. by left.
  - rewrite map_filter_insert_not; [lia|]. intros y. simpl. by rewrite E.
Qed.

Lemma number_delete P m p e :
  m !! p = Some e -> number P (delete p m) = number P m - (if P p then 1 else 0).
Proof.
  intros Hp. rewrite <- (insert_delete_id m p e) at 2 by done.
  rewrite number_insert by apply lookup_delete_eq. lia.
Qed.

Lemma number_overwrite P m p e e' :
  m !! p = Some e -> number P (<[p := e']> m) = number P m.
Proof.
  intros Hp. rewrite <- (insert_delete_id m p e) at 2 by done.
  rewrite <- insert_delete_eq, !number_insert by apply lookup_delete_eq. done.
Qed.

(** A number that is zero means that no prefix satisfies the test. *)
Lemma number_pos P m p e : m !! p = Some e -> P p = true -> number P m <> 0.
Proof.
  intros Hp HP. unfold number. intros H0.
  assert (base.size (filter (fun x : Prefix * Z => P x.1 = true) m) = 0%nat) as Hs by lia.
  apply map_size_empty_inv in Hs. by apply (map_filter_empty_not_lookup _ _ p e) in Hs.
Qed.

Lemma number_empty P : number P ∅ = 0.
Proof. unfold number. by rewrite map_filter_empty. Qed.

Lemma number_add P Q m :
  (forall p, P p && Q p = false) ->
  number (fun p => P p || Q p) m = number P m + number Q m.
Proof.
  intros HPQ. induction m as [|p e m Hm IH] using map_ind; [by rewrite !number_empty|].
  rewrite !number_insert, IH by done. specialize (HPQ p).
  destruct (P p), (Q p); simpl in *; done || lia.
Qed.

Lemma number_ext P Q m :
  (forall p e, m !! p = Some e -> P p = Q p) -> number P m = number Q m.
Proof.
  induction m as [|p e m Hm IH] using map_ind; intros H; [by rewrite !number_empty|].
  rewrite !number_insert by done. rewrite (H p e) by apply lookup_insert_eq. f_equal.
  apply IH. intros q e' Hq. apply (H q e'). rewrite lookup_insert_ne; congruence.
Qed.

Definition shape (l : list (list Z)) : Prop :=
  length l = 2%nat /\ Forall (fun row => length row = 129%nat) l.

Lemma lens_at_some l fam bits :
  shape l -> (fam < 2)%nat -> 0 <= bits <= 128 -> is_Some (lens_at l fam bits).
Proof.
  intros [H2 Hrows] Hf Hb. unfold lens_at. destruct (Z.ltb_spec bits 0); [lia|].
  destruct (lookup_lt_is_Some_2 l fam) as [row Hrow]; [lia|]. rewrite Hrow. simpl.
  apply lookup_lt_is_Some_2. rewrite (Forall_lookup_1 _ _ _ _ Hrows Hrow). lia.
Qed.

Lemma lens_add_spec l fam bits d :
  shape l -> (fam < 2)%nat -> 0 <= bits <= 128 ->
  exists n l', lens_at l fam bits = Some n /\ lens_add l fam bits d = Some l' /\ shape l'
    /\ forall f b, 0 <= b <= 128 ->
       lens_at l' f b = if bool_decide (fam = f /\ bits = b) then Some (n + d) else lens_at l f b.
Proof.
  intros Hs Hf Hb. destruct (lens_at_some l fam bits Hs Hf Hb) as [n Hn].
  exists n, (alter (<[Z.to_nat bits := n + d]>) fam l). destruct Hs as [H2 Hrows].
  split_and!; [done|unfold lens_add; by rewrite Hn| |].
  { split; [by rewrite length_alter|].
    apply Forall_alter; [done|]. intros row _ Hrow. by rewrite length_insert. }
  intros f b Hb'. unfold lens_at in *.
  destruct (Z.ltb_spec b 0); [lia|]. destruct (Z.ltb_spec bits 0); [done|].
  destruct (decide (fam = f)) as [<-|Hne].
  - rewrite list_lookup_alter_eq. destruct (l !! fam) as [row|] eqn:Hrow; [|done]. simpl in *.
    pose proof (Forall_lookup_1 _ _ _ _ Hrows Hrow) as Hlen. simpl in Hlen.
    case_bool_decide as Hd.
    + destruct Hd as [_ <-]. apply list_lookup_insert_eq. lia.
    + apply list_lookup_insert_ne. intros ?. apply Hd. split; lia.
  - rewrite list_lookup_alter_ne by done. case_bool_decide as Hd; [by destruct Hd|done].
Qed.

Lemma lens_ext l l' :
  shape l -> shape l' ->
  (forall f b, (f < 2)%nat -> 0 <= b <= 128 -> lens_at l f b = lens_at l' f b) -> l = l'.
Proof.
  intros [H2 Hr] [H2' Hr'] H. apply list_eq_same_length with 2%nat; [done|done|].
  intros f x y Hf Hx Hy.
  pose proof (Forall_lookup_1 _ _ _ _ Hr Hx) as Lx. pose proof (Forall_lookup_1 _ _ _ _ Hr' Hy) as Ly.
  simpl in Lx, Ly. apply list_eq_same_length with 129%nat; [done|done|].
  intros b u v Hb Hu Hv. specialize (H f (Z.of_nat b) Hf ltac:(lia)). unfold lens_at in H.
  destruct (Z.ltb_spec (Z.of_nat b) 0); [lia|]. rewrite Nat2Z.id, Hx, Hy in H. simpl in H.
  congruence.
Qed.

(** ** Every record keeps the invariant *)

Lemma family_lt p : (family p < 2)%nat.
Proof. unfold family. destruct (Is4 _); lia. Qed.

Lemma prefix_bits p : prefix_ok p -> 0 <= pbits p <= 128.
Proof. intros (_ & _ & _ & Hb). destruct (pip p); simpl in Hb; lia. Qed.

Lemma wf_new k : wf k newComposition.
Proof.
  assert (shape (lens newComposition)) as Hs.
  { split; [done|]. simpl. apply Forall_cons; split; [done|]. by apply Forall_singleton. }
  split; [apply map_Forall_empty|done|exact Hs|].
  intros fam bits Hf Hb. unfold lens_at. destruct (Z.ltb_spec bits 0); [lia|].
  cbn [lens newComposition]. rewrite lookup_replicate_2 by done. cbn [mbind option_bind].
  rewrite lookup_replicate_2 by lia. unfold of_length. cbn [nets].
  by rewrite number_empty.
Qed.

Lemma wf_apply k c r :
  wf k c -> prefix_ok (prefix r) ->
  exists c', apply k c r = Some c' /\ wf k c' /\ nets c' = apply_net (nets c) r.
Proof.
  intros [Hn Hh Hs Hl] Hp. unfold apply, apply_net.
  pose proof (family_lt (prefix r)) as Hf. pose proof (prefix_bits _ Hp) as Hb.
  destruct (nets c !! prefix r) as [e|] eqn:E; destruct (op r =? recAdd).
  - eexists. split; [done|]. split; [|done]. split; cbn [nets lens hash]; [|by erewrite xor_hash_overwrite|done|].
    + by apply map_Forall_insert_2.
    + intros fam bits ??. unfold of_length; erewrite number_overwrite by done. by apply Hl.
  - destruct (lens_add_spec (lens c) (family (prefix r)) (pbits (prefix r)) (-1) Hs Hf Hb)
      as (n & l' & En & El & Hs' & Hl').
    rewrite El. eexists. split; [done|]. split; [|done].
    rewrite Hl in En by done. injection En as <-.
    split; cbn [nets lens hash]; [by apply map_Forall_delete|by erewrite xor_hash_delete, Hh|done|].
    intros fam bits ??. rewrite Hl' by done. unfold of_length; erewrite number_delete by done.
    case_bool_decide as Hd; [destruct Hd as [<- <-]; f_equal; lia|rewrite Hl by done; unfold of_length; f_equal; lia].
  - destruct (lens_add_spec (lens c) (family (prefix r)) (pbits (prefix r)) 1 Hs Hf Hb)
      as (n & l' & En & El & Hs' & Hl').
    rewrite El. eexists. split; [done|]. split; [|done].
    rewrite Hl in En by done. injection En as <-.
    split; cbn [nets lens hash]; [by apply map_Forall_insert_2|by rewrite xor_hash_insert, Hh|done|].
    intros fam bits ??. rewrite Hl' by done. unfold of_length; rewrite number_insert by done.
    case_bool_decide as Hd; [destruct Hd as [<- <-]; done|rewrite Hl by done; unfold of_length; f_equal; lia].
  - eexists. split; [done|]. split; [done|]. by rewrite delete_id.
Qed.

Lemma wf_apply_all k : forall rs c,
  wf k c -> Forall (fun r => prefix_ok (prefix r)) rs ->
  exists c', apply_all k c rs = Some c' /\ wf k c' /\ nets c' = fold_left apply_net rs (nets c).
Proof.
  induction rs as [|r rs IH]; intros c Hc Hrs; [by exists c|].
  inversion_clear Hrs as [|? ? Hr Hrs']. destruct (wf_apply k c r Hc Hr) as (c1 & E1 & Hc1 & N1).
  destruct (IH c1 Hc1 Hrs') as (c2 & E2 & Hc2 & N2). exists c2. cbn [apply_all fold_left].
  rewrite E1. cbn [mbind option_bind]. by rewrite E2, N2, N1.
Qed.

(** The map determines the counters and the hash. *)
Lemma wf_ext k c c' : wf k c -> wf k c' -> nets c = nets c' -> c = c'.
Proof.
  intros [_ Hh Hs Hl] [_ Hh' Hs' Hl'] E. destruct c as [m l h], c' as [m' l' h']. cbn [nets lens hash] in *.
  subst m'. f_equal; [|congruence]. apply lens_ext; [done|done|].
  intros f b Hf Hb. by rewrite Hl, Hl'.
Qed.

(** ** The lookup *)

(** The prefix is a network that the address belongs to. *)
Definition covers (p : Prefix) (a : Addr) : Prop :=
  IsValid a = true /\ Is4 (pip p) = Is4 a /\ pbits p <= BitLen a
  /\ addr_val (pip p) / 2 ^ (BitLen a - pbits p) = addr_val a / 2 ^ (BitLen a - pbits p).

Lemma masked_prefix_from a b :
  addr_ok a -> IsValid a = true -> 0 <= b <= BitLen a ->
  Masked (PrefixFrom a b) = MkPrefix (mask_addr (withoutZone a) b) b.
Proof.
  intros Ha Hv Hb. rewrite masked_eq by (by apply prefix_from_ok).
  rewrite prefix_from_bits by done. done.
Qed.

Lemma mask_same n n' k :
  0 <= k -> n - n mod 2 ^ k = n' -> n' / 2 ^ k = n / 2 ^ k.
Proof.
  intros Hk <-. pose proof (Z.div_mod n (2 ^ k)).
  replace (n - n mod 2 ^ k) with (n / 2 ^ k * 2 ^ k) by lia. apply Z.div_mul. lia.
Qed.

(** The key that [contains] builds at a length is the network of that length
    the address belongs to. *)
Lemma masked_covers p a :
  prefix_ok p -> addr_ok a -> IsValid a = true -> 0 <= pbits p <= BitLen a ->
  Masked (PrefixFrom a (pbits p)) = p <-> Masked p = p /\ covers p a.
Proof.
  intros Hp Ha Hv Hb. rewrite masked_prefix_from by done. unfold covers.
  destruct p as [q b]. cbn [pip pbits] in *.
  assert (Masked (MkPrefix q b) = MkPrefix (mask_addr q b) b) as -> by (by apply (masked_eq (MkPrefix q b))).
  destruct Hp as (Hq & Hqv & Hqz & Hqb). cbn [pip pbits] in *.
  assert (forall n n' k, 0 <= k -> n - n mod 2 ^ k = n -> n' / 2 ^ k = n / 2 ^ k ->
    n' - n' mod 2 ^ k = n) as Hback.
  { intros n n' k Hk En E. pose proof (Z.div_mod n (2 ^ k)). pose proof (Z.div_mod n' (2 ^ k)).
    rewrite E in *. lia. }
  destruct q as [|n|n z]; [done| |]; destruct a as [|n'|n' z']; try done;
    cbn [mask_addr withoutZone Is4 BitLen addr_val Zone] in *; try subst z;
    rewrite ?ldiff_ones by lia.
  - split.
    + intros [= E]. assert (n / 2 ^ (32 - b) = n' / 2 ^ (32 - b)) as E' by (by apply mask_same; lia).
      split_and!; [|done|done|lia|done]. do 2 f_equal. rewrite <- E.
      rewrite Zminus_mod_idemp_r. rewrite Z.sub_diag, Z.mod_0_l by lia. lia.
    + intros ([= En] & _ & _ & _ & E). do 2 f_equal. by apply Hback; [lia| |].
  - by split; [intros [=]|intros (_ & _ & ? & _)].
  - by split; [intros [=]|intros (_ & _ & ? & _)].
  - split.
    + intros [= E]. assert (n / 2 ^ (128 - b) = n' / 2 ^ (128 - b)) as E' by (by apply mask_same; lia).
      split_and!; [|done|done|lia|done]. do 2 f_equal. rewrite <- E.
      rewrite Zminus_mod_idemp_r. rewrite Z.sub_diag, Z.mod_0_l by lia. lia.
    + intros ([= En] & _ & _ & _ & E). do 2 f_equal. by apply Hback; [lia| |].
Qed.

Lemma family_of p a : Is4 (pip p) = Is4 a -> family p = if Is4 a then 0%nat else 1%nat.
Proof. unfold family. by intros ->. Qed.

(** An entry found at a length is a network that covers the address, and the
    counter of that length is not zero. *)
Lemma contains_hit k c ip b e :
  wf k c -> addr_ok ip -> 0 <= b <= BitLen ip ->
  nets c !! Masked (PrefixFrom ip b) = Some e ->
  let p := Masked (PrefixFrom ip b) in
  lens_at (lens c) (if Is4 ip then 0%nat else 1%nat) b <> Some 0
  /\ pbits p = b /\ Masked p = p /\ covers p ip.
Proof.
  intros Hc Ha Hb He p. pose proof (wf_nets _ _ Hc _ _ He) as Hok. cbn beta in Hok.
  assert (BitLen ip <= 128) by (destruct ip; simpl; lia).
  assert (IsValid ip = true) as Hv by (destruct ip; [by destruct Hok as (_ & ? & _)|done|done]).
  assert (pbits p = b) as Ep by (subst p; by rewrite masked_prefix_from by done).
  destruct (proj1 (masked_covers p ip Hok Ha Hv ltac:(lia))) as [Hm Hcov]; [by rewrite Ep|].
  split_and!; [|done|done|done]. rewrite (wf_lens _ _ Hc) by (destruct (Is4 ip); lia).
  intros [= H0]. apply (number_pos _ _ _ _ He) in H0; [done|].
  apply bool_decide_eq_true. split; [|done]. by apply family_of, Hcov.
Qed.

Definition hit (c : composition) (ip : Addr) (now : Z) (bits : nat) : bool :=
  match nets c !! Masked (PrefixFrom ip (Z.of_nat bits)) with
  | Some e => live now e
  | None => false
  end.

(** Skipping the lengths with a zero counter changes nothing. *)
Lemma contains_step k c ip now bits (below : bool) :
  wf k c -> Z.of_nat bits <= BitLen ip -> addr_ok ip ->
  (if default 0 (lens_at (lens c) (if Is4 ip then 0%nat else 1%nat) (Z.of_nat bits)) =? 0 then below
   else match nets c !! Masked (PrefixFrom ip (Z.of_nat bits)) with
        | Some exp => if live now exp then true else below
        | None => below
        end) = hit c ip now bits || below.
Proof.
  intros Hc Hb Ha. unfold hit.
  destruct (nets c !! Masked (PrefixFrom ip (Z.of_nat bits))) as [e|] eqn:E.
  2: { by destruct (_ =? 0). }
  destruct (contains_hit k c ip (Z.of_nat bits) e Hc Ha ltac:(lia) E) as [Hne _].
  destruct (lens_at_some (lens c) (if Is4 ip then 0%nat else 1%nat) (Z.of_nat bits)) as [n En].
  { apply Hc. }
  { destruct (Is4 ip); lia. }
  { destruct ip; cbn [BitLen] in Hb; lia. }
  rewrite En in Hne |- *. cbn [from_option id]. destruct (Z.eqb_spec n 0); [by subst n|]. by destruct (live now e).
Qed.

Lemma contains_go_true k c ip now : forall bits,
  wf k c -> Z.of_nat bits <= BitLen ip -> addr_ok ip ->
  contains_go c ip (if Is4 ip then 0%nat else 1%nat) now bits = true <->
  exists b, (b <= bits)%nat /\ hit c ip now b = true.
Proof.
  intros bits Hc. induction bits as [|bits IH]; intros Hb Ha; cbn [contains_go];
    rewrite (contains_step k) by done; rewrite orb_true_iff.
  - split; [intros [?|?]; [by exists 0%nat|done]|]. intros (b & Hle & Hh). left.
    by assert (b = 0%nat) as -> by lia.
  - rewrite IH by (done || lia). split.
    + intros [?|(b & ? & ?)]; [by exists (S bits)|]. exists b. split; [lia|done].
    + intros (b & Hle & Hh). destruct (decide (b = S bits)) as [->|]; [by left|].
      right. exists b. split; [lia|done].
Qed.

Lemma contains_iff k c ip now :
  wf k c -> addr_ok ip ->
  contains c ip now = true <->
  exists p e, nets c !! p = Some e /\ Masked p = p /\ covers p (Unmap ip) /\ live now e = true.
Proof.
  intros Hc Ha. unfold contains. apply unmap_ok in Ha.
  assert (0 <= BitLen (Unmap ip)) by (by destruct (Unmap ip)).
  rewrite (contains_go_true k) by (done || lia). unfold hit. split.
  - intros (b & Hb & Hh). destruct (nets c !! _) as [e|] eqn:E; [|done].
    destruct (contains_hit k c (Unmap ip) (Z.of_nat b) e Hc Ha ltac:(lia) E) as (_ & _ & Hm & Hcov).
    by exists (Masked (PrefixFrom (Unmap ip) (Z.of_nat b))), e.
  - intros (p & e & He & Hm & Hcov & Hl). pose proof (wf_nets _ _ Hc _ _ He) as Hok. cbn beta in Hok.
    assert (0 <= pbits p <= BitLen (Unmap ip)) as Hb by (split; [apply Hok|apply Hcov]).
    exists (Z.to_nat (pbits p)). rewrite Z2Nat.id by lia. split; [lia|].
    rewrite (proj2 (masked_covers p (Unmap ip) Hok Ha (proj1 Hcov) Hb) (conj Hm Hcov)). by rewrite He.
Qed.

(** ** The totals *)

(** Not a single address: shorter than the addresses of its family. *)
Definition host (p : Prefix) : bool := pbits p =? BitLen (pip p).

Lemma number_range_step (f : nat) (a : Z) (Q : Prefix -> bool) m :
  number (fun p => Nat.eqb (family p) f && (a <=? pbits p) && Q p) m
  = number (fun p => Nat.eqb (family p) f && (a =? pbits p) && Q p) m
    + number (fun p => Nat.eqb (family p) f && (a + 1 <=? pbits p) && Q p) m.
Proof.
  rewrite <- number_add.
  2: { intros p. destruct (Z.eqb_spec a (pbits p)), (Z.leb_spec (a + 1) (pbits p)); try lia;
       by destruct (Nat.eqb _ _), (Q p). }
  apply number_ext. intros p _ _.
  destruct (Nat.eqb _ _), (Q p), (Z.eqb_spec a (pbits p)), (Z.leb_spec (a + 1) (pbits p)),
    (Z.leb_spec a (pbits p)); simpl; done || lia.
Qed.

Lemma number_none P m : (forall p e, m !! p = Some e -> P p = false) -> number P m = 0.
Proof.
  intros H. rewrite (number_ext P (fun _ => false)) by done. unfold number.
  by rewrite (proj2 (map_empty_filter _ _)) by done.
Qed.

Definition full_of (f : nat) : nat := if Nat.eqb f 0 then 32 else 128.

Lemma family_full p : prefix_ok p -> BitLen (pip p) = Z.of_nat (full_of (family p)).
Proof. intros (_ & Hv & _). unfold family. by destruct (pip p). Qed.

(** At one length every prefix of a family is a single address, or none is. *)
Lemma number_at f bits (want : bool) m :
  map_Forall (fun p _ => prefix_ok p) m ->
  number (fun p => Nat.eqb (family p) f && (Z.of_nat bits =? pbits p) && Bool.eqb (host p) want) m
  = if Bool.eqb (Nat.eqb bits (full_of f)) want then of_length f (Z.of_nat bits) m else 0.
Proof.
  intros Hm.
  assert (forall p e, m !! p = Some e -> family p = f -> pbits p = Z.of_nat bits ->
    host p = Nat.eqb bits (full_of f)) as Hhost.
  { intros p e Hp Hf Hb. unfold host. rewrite family_full by apply (Hm _ _ Hp). rewrite Hf, Hb.
    destruct (Z.eqb_spec (Z.of_nat bits) (Z.of_nat (full_of f))), (Nat.eqb_spec bits (full_of f)); lia || done. }
  destruct (Bool.eqb (Nat.eqb bits (full_of f)) want) eqn:E; [apply number_ext|apply number_none];
    intros p e Hp; specialize (Hhost p e Hp);
    destruct (Nat.eqb_spec (family p) f), (Z.eqb_spec (Z.of_nat bits) (pbits p)); simpl.
  all: try (by rewrite bool_decide_eq_false_2 by (intros [? ?]; congruence)).
  all: rewrite ?Hhost by done; try done.
  rewrite E. by rewrite bool_decide_eq_true_2 by done.
Qed.

Lemma size_row_spec f m : forall row bits acc,
  map_Forall (fun p _ => prefix_ok p) m ->
  (forall i n, row !! i = Some n -> n = of_length f (Z.of_nat (bits + i)) m) ->
  (length row + bits = 129)%nat ->
  size_row (full_of f) bits row acc
  = (acc.1 + number (fun p => Nat.eqb (family p) f && (Z.of_nat bits <=? pbits p) && Bool.eqb (host p) false) m,
     acc.2 + number (fun p => Nat.eqb (family p) f && (Z.of_nat bits <=? pbits p) && Bool.eqb (host p) true) m).
Proof.
  induction row as [|n row IH]; intros bits acc Hm Hrow Hlen; cbn [size_row length] in *.
  - assert (forall Q, number (fun p => Nat.eqb (family p) f && (Z.of_nat bits <=? pbits p) && Q p) m = 0) as H0.
    { intros Q. apply number_none. intros p e Hp. pose proof (prefix_bits p (Hm _ _ Hp)).
      destruct (Z.leb_spec (Z.of_nat bits) (pbits p)); [lia|]. by rewrite andb_false_r. }
    rewrite !H0, !Z.add_0_r. by destruct acc.
  - rewrite IH; [|done| |lia].
    2: { intros i v Hi. rewrite (Hrow (S i) v) by done. do 2 f_equal. lia. }
    rewrite !(number_range_step f (Z.of_nat bits)), !number_at by done.
    rewrite Nat2Z.inj_succ, <- Z.add_1_r.
    rewrite (Hrow 0%nat n eq_refl), Nat.add_0_r.
    destruct (Nat.eqb bits (full_of f)); cbn [fst snd Bool.eqb]; f_equal; lia.
Qed.

Lemma size_spec k c :
  wf k c ->
  size c = (number (fun p => negb (host p)) (nets c), number host (nets c)).
Proof.
  intros [Hm _ [H2 Hrows] Hl]. unfold size.
  assert (forall f, (f < 2)%nat -> length (lens c !!! f) = 129%nat
    /\ forall i n, (lens c !!! f) !! i = Some n -> n = of_length f (Z.of_nat (0 + i)) (nets c)) as Hrow.
  { intros f Hf. destruct (lookup_lt_is_Some_2 (lens c) f ltac:(lia)) as [row Er].
    rewrite (list_lookup_total_correct _ _ _ Er).
    pose proof (Forall_lookup_1 _ _ _ _ Hrows Er) as L. cbn beta in L. split; [done|].
    intros i n Hi. pose proof (lookup_lt_Some _ _ _ Hi). specialize (Hl f (Z.of_nat i) Hf ltac:(lia)).
    unfold lens_at in Hl. rewrite Er in Hl. cbn [mbind option_bind] in Hl.
    destruct (Z.ltb_spec (Z.of_nat i) 0); [lia|]. rewrite Nat2Z.id, Hi in Hl. by injection Hl. }
  destruct (Hrow 0%nat ltac:(lia)) as [L0 H0]. destruct (Hrow 1%nat ltac:(lia)) as [L1 H1].
  change 128%nat with (full_of 1) at 1. change 32%nat with (full_of 0).
  rewrite (size_row_spec 0 (nets c)), (size_row_spec 1 (nets c)) by (done || lia). cbn [fst snd].
  assert (forall want, number (fun p => Bool.eqb (host p) want) (nets c)
    = number (fun p => Nat.eqb (family p) 0 && (Z.of_nat 0 <=? pbits p) && Bool.eqb (host p) want) (nets c)
      + number (fun p => Nat.eqb (family p) 1 && (Z.of_nat 0 <=? pbits p) && Bool.eqb (host p) want) (nets c)) as Hsum.
  { intros want. rewrite <- number_add.
    - apply number_ext. intros p e Hp. pose proof (prefix_bits p (Hm _ _ Hp)).
      destruct (Z.leb_spec (Z.of_nat 0) (pbits p)); [|lia]. pose proof (family_lt p).
      destruct (family p) as [|[|?]]; [| |lia]; simpl; by destruct (Bool.eqb _ _).
    - intros p. destruct (family p) as [|[|?]]; simpl; try done; by rewrite ?andb_false_r. }
  assert (number (fun p => negb (host p)) (nets c) = number (fun p => Bool.eqb (host p) false) (nets c)) as ->.
  { apply number_ext. intros p _ _. by destruct (host p). }
  assert (number host (nets c) = number (fun p => Bool.eqb (host p) true) (nets c)) as ->.
  { apply number_ext. intros p _ _. by destruct (host p). }
  rewrite !Hsum. f_equal; lia.
Qed.

(** ** Properties *)

(** C17: The incremental bookkeeping of a live set is exact: from a
    consistent composition, any sequence of records with valid prefixes is
    applied without a panic, leaves the map that inserting and deleting in
    turn leaves, and the running hash and the counters are again those of the
    map: the hash is the exclusive or of the SipHash of every prefix
    present. So two mirrors that hold the same prefixes, whatever order the
    records came in, are equal, hash and counters included. *)
Theorem apply_all_exact k c rs :
  wf k c -> Forall (fun r => prefix_ok (prefix r)) rs ->
  exists c', apply_all k c rs = Some c' /\ wf k c'
    /\ nets c' = fold_left apply_net rs (nets c)
    /\ forall d, wf k d -> nets d = nets c' -> d = c'.
Proof.
  intros Hc Hrs. destruct (wf_apply_all k rs c Hc Hrs) as (c' & E & Hc' & Hn).
  exists c'. split_and!; [done|done|done|]. intros d Hd. by apply (wf_ext k).
Qed.

Definition example_key : Sip.Key := map Z.of_nat (List.seq 0 16).
Definition net10 : Prefix := MkPrefix (Addr4 167772160) 8.
Definition host1 : Prefix := MkPrefix (Addr4 167772161) 32.
Definition example_rs : list packRecord :=
  [MkRecord recAdd net10 [] 0 []; MkRecord recAdd host1 [] 100 []; MkRecord recRemove net10 [] 0 []].

Lemma example_rs_ok : Forall (fun r => prefix_ok (prefix r)) example_rs.
Proof.
  unfold example_rs, net10, host1. repeat (apply Forall_cons; split); [..|by apply Forall_nil].
  all: unfold prefix_ok, addr_ok; cbn; split_and!; lia || done.
Qed.

Lemma apply_all_exact_witness :
  exists c', apply_all example_key newComposition example_rs = Some c'
    /\ wf example_key c'
    /\ nets c' = fold_left apply_net example_rs (nets newComposition)
    /\ forall d, wf example_key d -> nets d = nets c' -> d = c'.
Proof. apply (apply_all_exact example_key newComposition example_rs (wf_new _) example_rs_ok). Defined.

(** C30: A set contains an address exactly when it holds a network of the
    address's family that covers it (with its host bits clear, as the keeper
    sends it) whose expiry is zero or later than now. The loop over lengths
    with a zero counter skipped misses nothing; an IPv4-mapped address is
    looked up as the IPv4 address, and a zone is ignored. *)
Theorem contains_spec k c ip now :
  wf k c -> addr_ok ip ->
  contains c ip now = true <->
  exists p e, nets c !! p = Some e /\ Masked p = p /\ covers p (Unmap ip) /\ live now e = true.
Proof. apply contains_iff. Qed.

Lemma contains_spec_witness :
  exists c, apply_all example_key newComposition example_rs = Some c
    /\ contains c (Addr6 281470849515521 "eth0") 99 = true.
Proof.
  destruct (wf_apply_all example_key example_rs newComposition (wf_new _) example_rs_ok) as (c & E & Hc & Hn).
  exists c. split; [exact E|]. apply (contains_spec example_key c); [exact Hc|cbn; lia|].
  exists host1, 100. rewrite Hn. split; [reflexivity|]. split; [reflexivity|]. split; [|reflexivity].
  unfold covers. split_and!; [reflexivity|reflexivity|vm_compute; discriminate|reflexivity].
Defined.

(** [Stats] tells the truth: the two totals of [size] are the number of
    networks and the number of single addresses that the set holds. *)
Theorem size_counts k c :
  wf k c -> size c = (number (fun p => negb (host p)) (nets c), number host (nets c)).
Proof. apply size_spec. Qed.

Lemma size_counts_witness :
  exists c, apply_all example_key newComposition example_rs = Some c
    /\ size c = (number (fun p => negb (host p)) (nets c), number host (nets c)).
Proof.
  destruct (wf_apply_all example_key example_rs newComposition (wf_new _) example_rs_ok) as (c & E & Hc & _).
  exists c. split; [exact E|]. exact (size_counts example_key c Hc).
Defined.

(** The prefix that [netip.PrefixFrom] makes of a length the family does not have. *)
Definition badPrefix : Prefix := PrefixFrom (Addr4 167772160) 33.

(** A one-record package that adds 10.0.0.0/33. *)
Definition bad_head : packHead := MkHead kindPackage typeCIDR 0 7 1 0 (replicate 16 0) 1.
Definition bad_record : bytes := [recAdd; 4; 33; 10; 0; 0; 0; 0; 0; 0; 0; 0; 0; 0; 0].

(** A record whose length byte is larger than its address family allows
    passes the decoder as an invalid prefix, and applying it as an addition
    indexes the counters at -1: a run-time panic in the mirror, whatever the
    set holds. Nothing between the wire and [apply] refuses it. *)
Theorem bad_length_panics k c e :
  unpack (encode_head bad_head ++ bad_record) = Ret (bad_head, [MkRecord recAdd badPrefix [] 0 []])
  /\ (nets c !! badPrefix = None -> apply k c (MkRecord recAdd badPrefix [] e []) = None).
Proof.
  split; [by vm_compute|]. intros Hn. unfold apply. cbn [prefix op exp]. rewrite Hn.
  cbn [recAdd Z.eqb Pos.eqb]. unfold lens_add, lens_at. done.
Qed.

End Composition.
