(* ===== verification/Mirror.v ===== *)
(** * The mirror of a live set

    Models the rest of [internal/dyn/dyn.go]: the frames of the keeper, the
    [Set] a mirror holds, and the handlers that keep it in step with the
    keeper - snapshot, package by package catch-up, verification by hash.
    NATS and Redis are parameters: an environment [Env] over a state [W] that
    each call may change, so a handler runs against any history of replies,
    losses and errors. *)

From S2P Require Import Prelude GoStrings NetIP Sip Wafs Composition.

#[local] Open Scope Z_scope.

Module Mirror.
Import Wafs Composition.

Definition Version : Z := 3.
Definition subjectPrefix : string := "waf.sets.".
Definition opResync : string := "resync".
Definition opDiff : string := "diff".
Definition opTick : string := "tick".
Definition opSnapshot : string := "snapshot".
Definition queueDepth : nat := 1024.
Definition packagesPerRead : Z := 256.
(** [6 * time.Second], in nanoseconds. *)
Definition silenceAfter : Z := 6000000000.

Record frame : Type := MkFrame {
  V : Z; Set_ : string; Epoch : string; Seq : Z; Op : string; Hash : string; Key_ : string;
  Package : string; Inline : string; Object_ : string; Count : Z }.

Definition diffKey (name : string) (seq : Z) : string :=
  "waf:diff:" +:+ name +:+ ":" +:+ FormatUint seq.
Definition hexOf (v : Z) : string := hex016 v.
Definition NameOf (uuid name : string) : string :=
  match name with "" => uuid | _ => name end.

(** ** [base64.StdEncoding.DecodeString] *)

Definition b64_value (c : ascii) : option Z :=
  if is_upper c then Some (code c - 65)
  else if is_lower c then Some (code c - 71)
  else if is_digit c then Some (code c + 4)
  else if Ascii.eqb c "+" then Some 62
  else if Ascii.eqb c "/" then Some 63
  else None.
Definition b64_pad (c : ascii) : bool := Ascii.eqb c "=".

Fixpoint b64_quanta (s : list ascii) : option bytes :=
  match s with
  | [] => Some []
  | a :: b :: c :: d :: rest =>
      match b64_value a, b64_value b with
      | Some x, Some y =>
          let b1 := u8 (Z.lor (Z.shiftl x 2) (Z.shiftr y 4)) in
          match b64_value c with
          | Some z =>
              let b2 := u8 (Z.lor (Z.shiftl y 4) (Z.shiftr z 2)) in
              match b64_value d with
              | Some t =>
                  let b3 := u8 (Z.lor (Z.shiftl z 6) t) in
                  let? rest := b64_quanta rest in Some (b1 :: b2 :: b3 :: rest)
              | None => if b64_pad d && bool_decide (rest = []) then Some [b1; b2] else None
              end
          | None => if b64_pad c && b64_pad d && bool_decide (rest = []) then Some [b1] else None
          end
      | _, _ => None
      end
  | _ => None
  end.
(** Carriage returns and newlines are ignored anywhere in the text. *)
Definition b64_ignored (c : ascii) : bool := Ascii.eqb c "010" || Ascii.eqb c "013".
Definition DecodeString (s : string) : option bytes :=
  b64_quanta (filter (fun c => b64_ignored c = false) (String.list_ascii_of_string s)).

(** ** The environment *)

(** The answer to a snapshot request: no answer, or a message, with whether
    it is a JSON frame and the frame as far as it was decoded. *)
Inductive reply : Type :=
| ReplyError
| Reply (is_json : bool) (ref : frame).

(** The interface [Blobs]; [None] is a nil slice. *)
Record Blobs (W : Type) : Type := MkBlobs {
  Object : W -> string -> result unit (option bytes) * W;
  Objects : W -> list string -> result unit (list (option bytes)) * W }.
Arguments MkBlobs {W}.
Arguments Object {W}.
Arguments Objects {W}.

(** What go-redis answers to GET and MGET. *)
Inductive redis_value : Type := RedisNil | RedisString (b : bytes) | RedisOther.
Record redis_client (W : Type) : Type := MkRedis {
  redis_get : W -> string -> result unit redis_value * W;
  redis_mget : W -> list string -> result unit (list redis_value) * W }.
Arguments redis_get {W}.
Arguments redis_mget {W}.

Definition redisBlobs_Object {W} (c : redis_client W) (w : W) (key : string)
  : result unit (option bytes) * W :=
  match redis_get c w key with
  | (Ok RedisNil, w) => (Ok None, w)
  | (Ok (RedisString b), w) => (Ok (Some b), w)
  | (Ok RedisOther, w) | (Err _, w) => (Err tt, w)
  end.
Definition redisBlobs_Objects {W} (c : redis_client W) (w : W) (keys : list string)
  : result unit (list (option bytes)) * W :=
  match redis_mget c w keys with
  | (Err e, w) => (Err e, w)
  | (Ok vals, w) => (Ok (map (fun v => match v with RedisString s => Some s | _ => None end) vals), w)
  end.
Definition NewBlobs {W} (client : option (redis_client W)) : option (Blobs W) :=
  match client with
  | None => None
  | Some c => Some (MkBlobs (redisBlobs_Object c) (redisBlobs_Objects c))
  end.

Record Env (W : Type) : Type := MkEnv {
  (** [nc.Request(subject, {"from": host}, requestTimeout)] *)
  request : W -> string -> reply * W;
  blobs : option (Blobs W) }.
Arguments MkEnv {W}.
Arguments request {W}.
Arguments blobs {W}.

(** ** A set *)

(** Without the mutex, the frame channel and the stop channel, which belong
    to the store below. *)
Record mset : Type := MkSet {
  UUID : string; Name : string;
  ready : bool; epoch : Z; seq : Z; key : Sip.Key; comp : composition;
  lastSeen : Z; silent : bool; syncing : bool; refused : string; snapBad : bool }.

Definition zeroKey : Sip.Key := replicate 16 0.
Definition newSet (uuid name : string) (now : Z) : mset :=
  MkSet uuid name false 0 0 zeroKey newComposition now false false "" false.

Definition set_syncing (b : bool) (s : mset) : mset :=
  MkSet (UUID s) (Name s) (ready s) (epoch s) (seq s) (key s) (comp s) (lastSeen s) (silent s)
    b (refused s) (snapBad s).
Definition set_refused (r : string) (s : mset) : mset :=
  MkSet (UUID s) (Name s) (ready s) (epoch s) (seq s) (key s) (comp s) (lastSeen s) (silent s)
    (syncing s) r (snapBad s).
Definition set_snapBad (b : bool) (s : mset) : mset :=
  MkSet (UUID s) (Name s) (ready s) (epoch s) (seq s) (key s) (comp s) (lastSeen s) (silent s)
    (syncing s) (refused s) b.
Definition set_seen (now : Z) (quiet : bool) (s : mset) : mset :=
  MkSet (UUID s) (Name s) (ready s) (epoch s) (seq s) (key s) (comp s) now quiet
    (syncing s) (refused s) (snapBad s).
Definition set_package (q : Z) (c : composition) (s : mset) : mset :=
  MkSet (UUID s) (Name s) (ready s) (epoch s) q (key s) c (lastSeen s) (silent s)
    (syncing s) (refused s) (snapBad s).
Definition set_snapshot (h : packHead) (c : composition) (bad : bool) (s : mset) : mset :=
  MkSet (UUID s) (Name s) true (Wafs.epoch h) (Wafs.seq h) (Wafs.key h) c (lastSeen s) (silent s)
    (syncing s) (refused s) bad.

Definition Ready (s : mset) : bool := ready s.
Definition SeqOf (s : mset) : Z := seq s.
(** A nil set contains nothing, and so does one that has no snapshot yet. *)
Definition Contains (s : option mset) (ip : Addr) (now : Z) : bool :=
  match s with
  | None => false
  | Some s => if negb (ready s) then false else contains (comp s) ip now
  end.
Definition Size (s : mset) : Z * Z := size (comp s).

(** ** The handlers *)

(** A handler reads and writes the set and the world; it may panic, or run
    out of the fuel its loop was given. *)
Inductive outcome (A : Type) : Type :=
| Crash
| Stuck
| Done (a : A).
Arguments Crash {A}.
Arguments Stuck {A}.
Arguments Done {A} a.

Definition M (W A : Type) : Type := mset -> W -> outcome (A * mset * W).
#[export] Instance M_ret {W} : MRet (M W) := fun A a s w => Done (a, s, w).
#[export] Instance M_bind {W} : MBind (M W) := fun A B f m s w =>
  match m s w with
  | Crash => Crash
  | Stuck => Stuck
  | Done (a, s', w') => f a s' w'
  end.
Definition get {W} : M W mset := fun s w => Done (s, s, w).
Definition modify {W} (f : mset -> mset) : M W unit := fun s w => Done (tt, f s, w).
Definition perform {W A} (call : W -> A * W) : M W A := fun s w => let '(a, w) := call w in Done (a, s, w).
Definition panic {W A} : M W A := fun _ _ => Crash.

Section handlers.
Context {W : Type} (env : Env W).

(** The body of [snapshot] between the assignments of [syncing]. *)
Definition take_snapshot : M W unit :=
  s ← get;
  if snapBad s then mret tt else
  answer ← perform (fun w => request env w (subjectPrefix +:+ Name s +:+ ".snapshot"));
  match answer with
  | ReplyError => mret tt
  | Reply is_json ref =>
      if negb is_json || negb (String.eqb (Op ref) opSnapshot) || String.eqb (Object_ ref) "" then
        let op := match Op ref with "" => "bad reply" | o => o end in
        if String.eqb (refused s) op then mret tt else modify (set_refused op)
      else
        _ ← modify (set_refused "");
        match blobs env with
        | None => mret tt
        | Some b =>
            data ← perform (fun w => Object b w (Object_ ref));
            match data with
            | Err _ => mret tt
            | Ok None => mret tt
            | Ok (Some data) =>
                match unpack data with
                | Panic => panic
                | Throw _ => mret tt
                | Ret (head, recs) =>
                    if negb (kind head =? kindSnapshot) then mret tt else
                    if negb (typ head =? typeCIDR) then modify (set_refused "not an address set")
                    else
                      match apply_all (Wafs.key head) newComposition recs with
                      | None => panic
                      | Some c => modify (set_snapshot head c (negb (hash c =? Wafs.hash head)))
                      end
                end
            end
        end
  end.

Definition snapshot : M W unit :=
  s ← get;
  if syncing s then mret tt else
  _ ← modify (set_syncing true);
  _ ← take_snapshot;
  modify (set_syncing false).

Definition verify (want : string) : M W bool :=
  s ← get;
  if String.eqb want "" || String.eqb (hexOf (hash (comp s))) want then mret true else
  if snapBad s then mret false else
  _ ← snapshot;
  mret false.

Definition applyPackage (data : bytes) (want : Z) : M W bool :=
  match unpack data with
  | Panic => panic
  | Throw _ => _ ← snapshot; mret false
  | Ret (head, recs) =>
      s ← get;
      if negb (kind head =? kindPackage) || negb (Wafs.epoch head =? epoch s)
         || negb (Wafs.seq head =? want) || negb (typ head =? typeCIDR)
      then _ ← snapshot; mret false
      else
        match apply_all (key s) (comp s) recs with
        | None => panic
        | Some c =>
            _ ← modify (set_package (Wafs.seq head) c);
            verify (hexOf (Wafs.hash head))
        end
  end.

(** [for i, data := range objs]; [false] when the handler returned. *)
Fixpoint apply_objects (mySeq : Z) (i : Z) (objs : list (option bytes)) : M W bool :=
  match objs with
  | [] => mret true
  | None :: _ => _ ← snapshot; mret false
  | Some data :: objs =>
      ok ← applyPackage data (u64 (mySeq + 1 + i));
      if (ok : bool) then apply_objects mySeq (i + 1) objs else mret false
  end.

Definition package_keys (name : string) (mySeq upto : Z) : list string :=
  let n := Z.min (u64 (upto - mySeq)) packagesPerRead in
  map (fun i => diffKey name (u64 (mySeq + 1 + Z.of_nat i))) (List.seq 0 (Z.to_nat n)).

(** The loop of [catchUp]. Every turn that goes on has applied the packages it
    read, so the distance to [upto] is fuel enough. *)
Fixpoint catch_up_loop (fuel : nat) (b : Blobs W) (upto : Z) (h : string) : M W unit :=
  s ← get;
  if upto <=? seq s then _ ← verify h; mret tt else
  match fuel with
  | O => fun _ _ => Stuck
  | S fuel =>
      objs ← perform (fun w => Objects b w (package_keys (Name s) (seq s) upto));
      match objs with
      | Err _ => mret tt
      | Ok objs =>
          more ← apply_objects (seq s) 0 objs;
          if (more : bool) then catch_up_loop fuel b upto h else mret tt
      end
  end.

Definition catchUp (upto : Z) (h : string) : M W unit :=
  match blobs env with
  | None => mret tt
  | Some b => s ← get; catch_up_loop (Z.to_nat (upto - seq s)) b upto h
  end.

Definition onFrame (now : Z) (f : frame) : M W unit :=
  if negb (V f =? Version) then mret tt else
  s ← get;
  _ ← (if negb (String.eqb (Op f) opResync) then modify (set_seen now false) else mret tt);
  if negb (ready s) then snapshot else
  if String.eqb (Op f) opResync then mret tt else
  match ParseUint (Epoch f) 16 64 with
  | None => mret tt
  | Some e =>
      if negb (e =? epoch s) then _ ← modify (set_snapBad false); snapshot
      else if Seq f <? seq s then mret tt
      else if Seq f =? seq s then
        if String.eqb (Op f) opTick || String.eqb (Op f) opDiff
        then _ ← verify (Hash f); mret tt
        else mret tt
      else
        if String.eqb (Op f) opDiff && negb (String.eqb (Inline f) "") && (Seq f =? u64 (seq s + 1)) then
          match DecodeString (Inline f) with
          | Some data => _ ← applyPackage data (Seq f); mret tt
          | None => catchUp (Seq f) (Hash f)
          end
        else catchUp (Seq f) (Hash f)
  end.

(** The loop of [run] over the frames that come in, each at its own time. *)
Fixpoint run_frames (fs : list (Z * frame)) : M W unit :=
  match fs with
  | [] => mret tt
  | (now, f) :: fs => _ ← onFrame now f; run_frames fs
  end.
Definition run_set (fs : list (Z * frame)) : M W unit := _ ← snapshot; run_frames fs.

End handlers.

(** ** The store of sets *)

(** A set with its frame channel and whether its [stop] channel is closed. *)
Record attached : Type := MkAttached { set : mset; inq : list frame; stopped : bool }.
Record store : Type := MkStore {
  sets : gmap string attached;
  (** The sets that have a subscription. *)
  subs : gset string;
  closed : bool }.

Definition Get (st : store) (uuid : string) : option mset := set <$> sets st !! uuid.
Definition StoreContains (st : option store) (uuid : string) (ip : Addr) (now : Z) : bool :=
  match st with
  | None => false
  | Some st => Contains (Get st uuid) ip now
  end.

(** [select { case set.in <- f: default: }] *)
Definition push (f : frame) (a : attached) : attached :=
  if (length (inq a) <? queueDepth)%nat then MkAttached (set a) (inq a ++ [f]) (stopped a) else a.
(** The subscription's callback; the message is a frame or is not JSON. *)
Definition deliver (st : store) (uuid : string) (m : option frame) : store :=
  match m with
  | None => st
  | Some f => MkStore (alter (push f) uuid (sets st)) (subs st) (closed st)
  end.

Section sync.
Context {W : Type} (subscribe : W -> string -> bool * W) (now : Z).

(** [for uuid, name := range want], in the order the range takes. *)
Fixpoint attach (want : list (string * string)) (st : store) (w : W)
  : result string unit * store * W :=
  match want with
  | [] => (Ok tt, st, w)
  | (uuid, name) :: want =>
      match sets st !! uuid with
      | Some _ => attach want st w
      | None =>
          let s := newSet uuid (NameOf uuid name) now in
          match subscribe w (subjectPrefix +:+ Name s) with
          | (false, w) => (Err (Name s), st, w)
          | (true, w) =>
              attach want
                (MkStore (<[uuid := MkAttached s [] false]> (sets st)) ({[uuid]} ∪ subs st) (closed st)) w
          end
      end
  end.

(** [for uuid, sub := range s.subs] *)
Fixpoint detach (want : gmap string string) (order : list string) (st : store) : store :=
  match order with
  | [] => st
  | uuid :: order =>
      match want !! uuid with
      | Some _ => detach want order st
      | None => detach want order (MkStore (delete uuid (sets st)) (subs st ∖ {[uuid]}) (closed st))
      end
  end.

(** [order] is the order in which Go ranges over [want]; the order of the
    second loop does not matter to its result. [nc] tells whether the store
    has a connection. *)
Definition Sync (nc : bool) (want : gmap string string) (order : list (string * string)) (st : store) (w : W)
  : result string unit * store * W :=
  if negb nc then (Ok tt, st, w) else
  match attach order st w with
  | (Err e, st, w) => (Err e, st, w)
  | (Ok _, st, w) => (Ok tt, detach want (elements (subs st)) st, w)
  end.
End sync.

(** A store that has just been made. *)
Definition New : store := MkStore ∅ ∅ false.

Definition Close (st : store) : store := MkStore (sets st) ∅ true.

(** One set at a tick of [resync]: the set, and whether a frame is queued. *)
Definition resyncFrame : frame := MkFrame Version "" "" 0 opResync "" "" "" "" "" 0.
Definition resync_set (now : Z) (s : mset) : mset * bool :=
  let quiet := negb (silent s) && (silenceAfter <? now - lastSeen s) in
  (if ready s && quiet then set_seen (lastSeen s) true s else s, negb (ready s)).
Definition resync (now : Z) (st : store) : store :=
  MkStore
    ((fun a =>
        let '(s, retry) := resync_set now (set a) in
        let a := MkAttached s (inq a) (stopped a) in
        if (retry : bool) then push resyncFrame a else a) <$> sets st)
    (subs st) (closed st).

(** ** Writes to a set *)

(** The message of an event: the values to add, and how long for. *)
Record event : Type := MkEvent {
  evV : Z; evSet : string; evOp : string; evValues : list string;
  (** Whether the message has [values] or the single [value]. *)
  evMany : bool; evTTL : Z; evOrigin : string; evReason : string; evRay : string }.
Definition opAdd : string := "add".

(** The subject and the message that is sent, if any; the answer is only
    logged. *)
Definition send (st : store) (uuid : string) (e : string -> event) : result string (option (string * event)) :=
  match Get st uuid with
  | None => Err uuid
  | Some s => Ok (Some (subjectPrefix +:+ Name s +:+ ".event", e (Name s)))
  end.
Definition Publish (st : option store) (nc : bool) (uuid value : string) (ttl : Z) (origin reason ray : string)
  : result string (option (string * event)) :=
  match st with
  | None => Ok None
  | Some st =>
      if negb nc then Ok None
      else send st uuid (fun name => MkEvent Version name opAdd [value] false ttl origin reason ray)
  end.
Definition PublishMany (st : option store) (nc : bool) (uuid : string) (values : list string) (ttl : Z)
  (origin reason ray : string) : result string (option (string * event)) :=
  match st with
  | None => Ok None
  | Some st' =>
      if negb nc then Ok None else
      match values with
      | [] => Ok None
      | [value] => Publish st nc uuid value ttl origin reason ray
      | _ => send st' uuid (fun name => MkEvent Version name opAdd values true ttl origin reason ray)
      end
  end.

Record StatsRow : Type := MkStats { stUUID : string; stSeq : Z; stBase : Z; stLive : Z; stReady : bool }.
(** In the order the range takes. *)
Definition Stats (order : list mset) : list StatsRow :=
  map (fun s => MkStats (UUID s) (SeqOf s) (fst (Size s)) (snd (Size s)) (Ready s)) order.

Example decode_examples :
  DecodeString "V0FGUw==" = Some packMagic /\ DecodeString "V0FG" = Some [87; 65; 70]
  /\ DecodeString ("V0F" +:+ String "010" "GU1M=") = Some [87; 65; 70; 83; 83]
  /\ DecodeString "V0FGUw=" = None /\ DecodeString "V0FGUw==V0FG" = None
  /\ DecodeString "V0F*" = None /\ DecodeString "" = Some [].
Proof. by vm_compute. Qed.

(** ** Weakest preconditions of handlers *)

(** [bad] is what is allowed of a run that panics; running out of fuel never
    is. *)
Definition wp {W A} (bad : Prop) (m : M W A) (Q : A -> mset -> W -> Prop) (s : mset) (w : W) : Prop :=
  match m s w with
  | Crash => bad
  | Stuck => False
  | Done (a, s', w') => Q a s' w'
  end.

Section wp.
Context {W : Type} (bad : Prop).

Lemma wp_bind {A B} (m : M W A) (f : A -> M W B) Q s w :
  wp bad m (fun a s' w' => wp bad (f a) Q s' w') s w -> wp bad (m ≫= f) Q s w.
Proof. unfold wp, mbind, M_bind. by destruct (m s w) as [| |[[a s'] w']]. Qed.

Lemma wp_mono {A} (m : M W A) (Q R : A -> mset -> W -> Prop) s w :
  wp bad m Q s w -> (forall a s' w', Q a s' w' -> R a s' w') -> wp bad m R s w.
Proof. unfold wp. destruct (m s w) as [| |[[a s'] w']]; auto. Qed.

Lemma wp_get Q s w : Q s s w -> wp bad (get : M W mset) Q s w.
Proof. done. Qed.
Lemma wp_modify f Q s w : Q tt (f s) w -> wp bad (modify f : M W unit) Q s w.
Proof. done. Qed.
Lemma wp_ret {A} (a : A) Q s w : Q a s w -> wp bad (mret a : M W A) Q s w.
Proof. done. Qed.
Lemma wp_perform {A} (call : W -> A * W) Q s w :
  (forall a w', call w = (a, w') -> Q a s w') -> wp bad (perform call) Q s w.
Proof. unfold wp, perform. destruct (call w) as [a w']. auto. Qed.
End wp.

(** Runs the straight-line parts of a handler. *)
Ltac wp_step :=
  lazymatch goal with
  | |- wp _ (_ ≫= _) _ _ _ => apply wp_bind
  | |- wp _ get _ _ _ => apply wp_get
  | |- wp _ (modify _) _ _ _ => apply wp_modify
  | |- wp _ (mret _) _ _ _ => apply wp_ret
  | |- wp _ (perform _) _ _ _ =>
      let H := fresh "Hcall" in apply wp_perform; intros ? ? H
  end.

(** ** Data that reached the mirror *)

(** The prefix of a decoded record has a length its family allows, or -1. *)
Definition prefix_read (p : Prefix) : Prop := prefix_ok p \/ pbits p = -1.

Lemma prefix_read_from a b : addr_ok a -> IsValid a = true -> prefix_read (PrefixFrom a b).
Proof.
  intros Ha Hv. destruct (decide (0 <= b <= BitLen a)) as [Hb|Hb].
  { left. by apply prefix_from_ok. }
  right. unfold PrefixFrom. cbn [pbits]. rewrite Hv.
  destruct (Z.leb_spec 0 b), (Z.leb_spec b (BitLen a)); simpl; lia || done.
Qed.

(** A record that is applied without a panic keeps the invariant, even one
    that names an invalid prefix: such a prefix is never in the map. *)
Lemma apply_read k c r c' :
  wf k c -> prefix_read (prefix r) -> apply k c r = Some c' -> wf k c'.
Proof.
  intros Hc [Hp|Hp] E.
  { destruct (wf_apply k c r Hc Hp) as (c1 & E1 & Hc1 & _). congruence. }
  unfold apply in E. destruct (nets c !! prefix r) as [e|] eqn:En.
  { destruct (wf_nets _ _ Hc _ _ En) as (_ & _ & _ & Hb). lia. }
  destruct (op r =? recAdd); [|by injection E as <-].
  unfold lens_add, lens_at in E. by rewrite Hp in E.
Qed.

Lemma apply_all_read k : forall rs c c',
  wf k c -> Forall (fun r => prefix_read (prefix r)) rs -> apply_all k c rs = Some c' -> wf k c'.
Proof.
  induction rs as [|r rs IH]; intros c c' Hc Hrs E; [by injection E as <-|].
  inversion_clear Hrs as [|? ? Hr Hrs']. cbn [apply_all] in E.
  destruct (apply k c r) as [c1|] eqn:E1; [|done]. cbn [mbind option_bind] in E.
  apply (IH c1 c'); [by eapply apply_read|done|done].
Qed.

Lemma sub_bytes data pos n b : Forall byte_ok data -> sub data pos n = Ret b -> Forall byte_ok b.
Proof.
  intros Hd. unfold sub. destruct (_ <=? _)%nat; [|done]. intros [= <-].
  by apply Forall_take, Forall_drop.
Qed.

Lemma read_cidr_prefix data pos p pos' :
  Forall byte_ok data -> read_cidr data pos = Ret (p, pos') -> prefix_read p.
Proof.
  intros Hd. unfold read_cidr. destruct (short _ _); [done|].
  intros (fam & _ & E)%run_bind_ret. apply run_bind_ret in E as (bits & _ & E).
  destruct (fam =? 4); [|destruct (fam =? 6); [|done]].
  all: destruct (short _ _); [done|]; apply run_bind_ret in E as (b & Eb & [= <- _]).
  all: apply prefix_read_from; [|done]; pose proof (be_combine_range b (sub_bytes _ _ _ _ Hd Eb)) as Hr.
  all: rewrite (sub_length _ _ _ _ Eb) in Hr; exact Hr.
Qed.

Lemma read_record_prefix h data pos r pos' :
  typ h = typeCIDR -> Forall byte_ok data -> read_record h data pos = Ret (r, pos') -> prefix_read (prefix r).
Proof.
  intros Ht Hd. unfold read_record. rewrite Ht. cbn [Z.eqb typeCIDR typeString Pos.eqb andb].
  destruct (short _ _); [done|]. intros (o & _ & E)%run_bind_ret.
  apply run_bind_ret in E as ([[p v] q] & Ep & E).
  apply run_bind_ret in Ep as ([p' q'] & Ep & [= -> _ _]).
  apply run_bind_ret in E as (e & _ & [= <- _]). by eapply read_cidr_prefix.
Qed.

Lemma read_records_prefix h data : forall fuel i pos rs,
  typ h = typeCIDR -> Forall byte_ok data ->
  read_records fuel h data i pos = Ret rs -> Forall (fun r => prefix_read (prefix r)) rs.
Proof.
  induction fuel as [|fuel IH]; intros i pos rs Ht Hd; cbn [read_records];
    (destruct (negb _); [intros [= <-]; apply Forall_nil_2|]); [done|].
  intros ([r pos'] & Er & E)%run_bind_ret. apply run_bind_ret in E as (rs' & Ers & [= <-]).
  constructor; [by eapply read_record_prefix|by eapply IH].
Qed.

Lemma unpack_prefixes data h rs :
  typ h = typeCIDR -> Forall byte_ok data -> unpack data = Ret (h, rs) ->
  Forall (fun r => prefix_read (prefix r)) rs.
Proof.
  intros Ht Hd (h' & _ & E)%run_bind_ret. apply run_bind_ret in E as (rs' & E & [= -> ->]).
  by eapply read_records_prefix.
Qed.

Lemma b64_quanta_bytes : forall s r, b64_quanta s = Some r -> Forall byte_ok r.
Proof.
  fix IH 1. intros s r. destruct s as [|a [|b [|c [|d s]]]]; try done.
  { intros [= <-]. apply Forall_nil_2. }
  cbn [b64_quanta]. assert (forall z, byte_ok (u8 z)) as Hu8.
  { intros z. apply (wrap_range 8). lia. }
  destruct (b64_value a) as [x|]; [|done]. destruct (b64_value b) as [y|]; [|done].
  destruct (b64_value c) as [z|].
  - destruct (b64_value d) as [t|].
    + specialize (IH s). destruct (b64_quanta s) as [r'|]; [|done]. intros [= <-].
      repeat (apply Forall_cons; split; [apply Hu8|]). by apply IH.
    + destruct (_ && _); [|done]. intros [= <-]. repeat (apply Forall_cons; split; [apply Hu8|]). apply Forall_nil_2.
  - destruct (_ && _); [|done]. intros [= <-]. apply Forall_singleton, Hu8.
Qed.

(** ** Invariants of the handlers *)

Section invariant.
Context {W : Type} (env : Env W) (bad : Prop) (I : mset -> Prop) (good : bytes -> Prop).

(** Everything that Redis delivers is good, and MGET gives one reply per key. *)
Definition delivers (b : Blobs W) : Prop :=
  (forall w k d w', Object b w k = (Ok (Some d), w') -> good d)
  /\ (forall w ks ds w', Objects b w ks = (Ok ds, w') ->
        length ds = length ks /\ forall d, Some d ∈ ds -> good d).

Hypothesis env_delivers : forall b, blobs env = Some b -> delivers b.
Hypothesis I_syncing : forall s b, I s -> I (set_syncing b s).
Hypothesis I_refused : forall s r, I s -> I (set_refused r s).
Hypothesis I_seen : forall s t q, I s -> I (set_seen t q s).
Hypothesis I_clear : forall s, I s -> I (set_snapBad false s).
Hypothesis I_seq : forall s, I s -> 0 <= seq s < 2 ^ 64.
Hypothesis I_snapshot : forall s d h rs,
  I s -> good d -> unpack d = Ret (h, rs) -> kind h = kindSnapshot -> typ h = typeCIDR ->
  match apply_all (Wafs.key h) newComposition rs with
  | None => bad
  | Some c => I (set_snapshot h c (negb (hash c =? Wafs.hash h)) s)
  end.
Hypothesis I_package : forall s d h rs,
  I s -> good d -> unpack d = Ret (h, rs) -> kind h = kindPackage -> Wafs.epoch h = epoch s ->
  Wafs.seq h = seq s + 1 -> typ h = typeCIDR ->
  match apply_all (key s) (comp s) rs with
  | None => bad
  | Some c => I (set_package (Wafs.seq h) c s)
  end.

Lemma inv_take_snapshot s w : I s -> wp bad (take_snapshot env) (fun _ s' _ => I s') s w.
Proof.
  intros Hs. unfold take_snapshot. do 2 wp_step. destruct (snapBad s); [done|].
  do 2 wp_step. destruct a as [|j ref]; [done|]. destruct (_ || _).
  { destruct (String.eqb _ _); [done|]. by apply wp_modify, I_refused. }
  do 2 wp_step. destruct (blobs env) as [b|] eqn:Eb; [|by apply wp_ret, I_refused].
  do 2 wp_step. destruct (env_delivers b eq_refl) as [Hobj _].
  destruct a as [[d|]|]; [|by apply wp_ret, I_refused|by apply wp_ret, I_refused].
  apply Hobj in Hcall0. pose proof (safe_unpack d) as Hsafe.
  destruct (unpack d) as [|e|[h rs]] eqn:E; [done|by apply wp_ret, I_refused|].
  destruct (Z.eqb_spec (kind h) kindSnapshot); [|by apply wp_ret, I_refused].
  destruct (Z.eqb_spec (typ h) typeCIDR); [|by apply wp_modify, I_refused, I_refused].
  pose proof (I_snapshot (set_refused "" s) d h rs) as Hsnap.
  destruct (apply_all _ _ _); apply Hsnap; auto.
Qed.

Lemma inv_snapshot s w : I s -> wp bad (snapshot env) (fun _ s' _ => I s') s w.
Proof.
  intros Hs. unfold snapshot. do 2 wp_step. destruct (syncing s); [done|].
  do 3 wp_step. eapply wp_mono; [by apply inv_take_snapshot, I_syncing|].
  intros. by apply wp_modify, I_syncing.
Qed.

(** A positive verdict leaves the set as it was. *)
Lemma inv_verify h s w :
  I s -> wp bad (verify env h) (fun ok s' _ => I s' /\ (ok = true -> s' = s)) s w.
Proof.
  intros Hs. unfold verify. do 2 wp_step. destruct (_ || _); [done|].
  destruct (snapBad s); [done|]. wp_step.
  eapply wp_mono; [by apply inv_snapshot|]. intros. by apply wp_ret.
Qed.

Lemma inv_snapshot_false s w q :
  I s -> wp bad (_ ← snapshot env; mret false) (fun ok s' _ => I s' /\ (ok = true -> seq s' = q)) s w.
Proof.
  intros Hs. wp_step. eapply wp_mono; [by apply inv_snapshot|]. intros. by apply wp_ret.
Qed.

Lemma inv_package d q s w :
  I s -> good d -> q = seq s + 1 ->
  wp bad (applyPackage env d q) (fun ok s' _ => I s' /\ (ok = true -> seq s' = q)) s w.
Proof.
  intros Hs Hd Hseq. unfold applyPackage. pose proof (safe_unpack d) as Hsafe.
  destruct (unpack d) as [|e|[h rs]] eqn:E; [done|by apply inv_snapshot_false|].
  do 2 wp_step. destruct (_ || _) eqn:Eg; [by apply inv_snapshot_false|].
  rewrite !orb_false_iff, !negb_false_iff, !Z.eqb_eq in Eg. destruct Eg as [[[Ek Ee] Eq] Et].
  pose proof (I_package s d h rs Hs Hd E Ek Ee ltac:(lia) Et) as Hp.
  destruct (apply_all _ _ _) as [c|]; [|done]. do 2 wp_step.
  eapply wp_mono; [by apply inv_verify|]. intros ok s' w' [Hs' Heq]. split; [done|].
  intros ->. by rewrite Heq.
Qed.

Lemma inv_objects : forall objs mySeq i s w,
  I s -> seq s = mySeq + i -> 0 <= mySeq + i -> mySeq + i + Z.of_nat (length objs) < 2 ^ 64 ->
  (forall d, Some d ∈ objs -> good d) ->
  wp bad (apply_objects env mySeq i objs)
    (fun more s' _ => I s' /\ (more = true -> seq s' = mySeq + i + Z.of_nat (length objs))) s w.
Proof.
  induction objs as [|[d|] objs IH]; intros mySeq i s w Hs Hq H0 Hl Hg; cbn [apply_objects length] in *.
  - apply wp_ret. split; [done|]. lia.
  - assert (u64 (mySeq + 1 + i) = seq s + 1) as Hu by (unfold wrap; rewrite Z.mod_small; lia).
    wp_step. eapply wp_mono; [apply inv_package; [done|apply Hg; by left|done]|].
    intros ok s' w' [Hs' Hq']. destruct ok; [|by apply wp_ret]. specialize (Hq' eq_refl).
    eapply wp_mono; [apply IH; try done; try lia|].
    { intros d' Hd'. apply Hg. by right. }
    cbv beta. intros more s2 w2 [? Hm]. split; [done|]. intros E. specialize (Hm E). lia.
  - by apply inv_snapshot_false.
Qed.

Lemma package_keys_length name q upto :
  0 <= q < upto -> upto < 2 ^ 64 ->
  length (package_keys name q upto) = Z.to_nat (Z.min (upto - q) packagesPerRead).
Proof.
  intros. unfold package_keys. rewrite length_map, length_seq. unfold wrap.
  by rewrite Z.mod_small by lia.
Qed.

Lemma inv_loop b upto h : forall fuel s w,
  blobs env = Some b -> I s -> 0 <= upto < 2 ^ 64 -> (Z.to_nat (upto - seq s) <= fuel)%nat ->
  wp bad (catch_up_loop env fuel b upto h) (fun _ s' _ => I s') s w.
Proof.
  intros fuel s w Hb. revert s w. induction fuel as [|fuel IH]; intros s w Hs Hu Hf;
    cbn [catch_up_loop]; do 2 wp_step; destruct (Z.leb_spec upto (seq s)).
  1,3: wp_step; eapply wp_mono; [by apply inv_verify|]; intros ok s' w' [? _]; by apply wp_ret.
  { lia. }
  do 2 wp_step. destruct (env_delivers b Hb) as [_ Hobjs]. pose proof (I_seq s Hs).
  destruct a as [objs|]; [|done]. destruct (Hobjs _ _ _ _ Hcall) as [Hlen Hgood].
  rewrite package_keys_length in Hlen by lia. unfold packagesPerRead in Hlen.
  wp_step. eapply wp_mono; [apply (inv_objects objs (seq s) 0); try done; lia|].
  intros more s2 w2 [Hs' Hq]. destruct more; [|by apply wp_ret]. specialize (Hq eq_refl).
  apply IH; [done|done|lia].
Qed.

Lemma inv_catchUp upto h s w :
  I s -> 0 <= upto < 2 ^ 64 -> wp bad (catchUp env upto h) (fun _ s' _ => I s') s w.
Proof.
  intros Hs Hu. unfold catchUp. case_eq (blobs env); [intros b Eb|done].
  do 2 wp_step. by apply inv_loop.
Qed.

Definition frame_good (f : frame) : Prop :=
  0 <= Seq f < 2 ^ 64 /\ forall d, DecodeString (Inline f) = Some d -> good d.

Lemma inv_onFrame now f s w :
  I s -> frame_good f -> wp bad (onFrame env now f) (fun _ s' _ => I s') s w.
Proof.
  intros Hs [Hq Hg]. unfold onFrame. destruct (negb _); [done|]. do 3 wp_step.
  apply (wp_mono _ _ (fun _ s' _ => I s' /\ seq s' = seq s)).
  { destruct (negb _); [by split; [apply I_seen|]|done]. }
  intros _ s1 w1 [Hs1 Hq1]. destruct (negb (ready s)); [by apply inv_snapshot|].
  destruct (String.eqb _ _); [done|]. destruct (ParseUint _ _ _) as [e|]; [|done].
  destruct (negb _).
  { do 2 wp_step. by apply inv_snapshot, I_clear. }
  destruct (Z.ltb_spec (Seq f) (seq s)); [done|]. destruct (Z.eqb_spec (Seq f) (seq s)).
  { destruct (_ || _); [|done]. wp_step. eapply wp_mono; [by apply inv_verify|].
    intros ok s' w' [? _]. by apply wp_ret. }
  destruct (_ && _ && _) eqn:Eg; [|by apply inv_catchUp].
  apply andb_true_iff in Eg as [_ Eu]. apply Z.eqb_eq in Eu. unfold wrap in Eu.
  assert (Seq f = seq s + 1).
  { pose proof (I_seq s Hs). destruct (decide (seq s + 1 = 2 ^ 64)) as [E|E].
    - rewrite E, Z.mod_same in Eu by lia. lia.
    - rewrite Z.mod_small in Eu by lia. lia. }
  destruct (DecodeString (Inline f)) as [d|]; [|by apply inv_catchUp].
  wp_step. eapply wp_mono; [apply inv_package; [done|auto|lia]|].
  intros ok s' w' [? _]. by apply wp_ret.
Qed.

Lemma inv_frames : forall fs s w,
  I s -> Forall (fun x => frame_good x.2) fs -> wp bad (run_frames env fs) (fun _ s' _ => I s') s w.
Proof.
  induction fs as [|[now f] fs IH]; intros s w Hs Hf; cbn [run_frames]; [done|].
  inversion_clear Hf. wp_step. eapply wp_mono; [by apply inv_onFrame|]. intros. by apply IH.
Qed.

Lemma inv_run fs s w :
  I s -> Forall (fun x => frame_good x.2) fs -> wp bad (run_set env fs) (fun _ s' _ => I s') s w.
Proof.
  intros Hs Hf. unfold run_set. wp_step. eapply wp_mono; [by apply inv_snapshot|].
  intros. by apply inv_frames.
Qed.
End invariant.

(** ** Any replies at all *)

Lemma le_at_range data pos n v :
  Forall byte_ok data -> le_at data pos n = Ret v -> 0 <= v < 256 ^ Z.of_nat n.
Proof.
  intros Hd (b & Eb & [= <-])%run_bind_ret. rewrite <- (sub_length _ _ _ _ Eb).
  by eapply le_combine_range, sub_bytes.
Qed.

Lemma unpack_seq data h rs :
  Forall byte_ok data -> unpack data = Ret (h, rs) -> 0 <= Wafs.seq h < 2 ^ 64.
Proof.
  intros Hd (h' & Eh & E)%run_bind_ret. apply run_bind_ret in E as (rs' & _ & [= -> ->]).
  unfold read_head in Eh. destruct (short _ _); [done|]. destruct (negb _); [done|].
  apply run_bind_ret in Eh as (v & _ & E). destruct (negb _); [done|].
  do 4 (apply run_bind_ret in E as (? & _ & E)).
  apply run_bind_ret in E as (q & Eq & E).
  do 3 (apply run_bind_ret in E as (? & _ & E)). injection E as <-.
  by apply (le_at_range data 16 8).
Qed.

Definition consistent (s : mset) : Prop := wf (key s) (comp s) /\ 0 <= seq s < 2 ^ 64.

Lemma consistent_run {W} (env : Env W) fs s w :
  (forall b, blobs env = Some b -> delivers (Forall byte_ok) b) ->
  Forall (fun x : Z * frame => 0 <= Seq x.2 < 2 ^ 64) fs ->
  consistent s -> wp True (run_set env fs) (fun _ s' _ => consistent s') s w.
Proof.
  intros Henv Hfs Hs.
  apply (inv_run env True consistent (Forall byte_ok)); try done.
  - by intros s' [_ ?].
  - intros s' d h rs _ Hd E _ Ht.
    destruct (apply_all _ _ _) as [c|] eqn:Ec; [|done]. split; cbn [key comp seq set_snapshot].
    + by eapply apply_all_read; [apply wf_new|eapply unpack_prefixes|].
    + by eapply unpack_seq.
  - intros s' d h rs [Hw Hq] Hd E _ _ _ Ht.
    destruct (apply_all _ _ _) as [c|] eqn:Ec; [|done]. split; cbn [key comp seq set_package].
    + by eapply apply_all_read; [|eapply unpack_prefixes|].
    + by eapply unpack_seq.
  - eapply Forall_impl; [exact Hfs|]. intros [now f] Hf. split; [done|].
    intros d Hd. by eapply b64_quanta_bytes.
Qed.

(** ** A keeper *)

(** What the other side publishes: an epoch, a key, and the records of each
    package in order. *)
Record keeper : Type := MkKeeper {
  k_epoch : Z; k_key : Sip.Key; k_log : list (list packRecord) }.

Definition nets_at (k : keeper) (n : nat) : gmap Prefix Z :=
  fold_left apply_net (concat (take n (k_log k))) ∅.
Definition k_hash (k : keeper) (n : nat) : Z := xor_hash (k_key k) (nets_at k n).
Definition k_head (k : keeper) (kd : Z) (n : nat) (rs : list packRecord) : packHead :=
  MkHead kd typeCIDR 0 (k_epoch k) (Z.of_nat n) (k_hash k n) (k_key k) (Z.of_nat (length rs)).

(** The package that leads to state [n], and the snapshot of state [n]. *)
Definition package (k : keeper) (n : nat) : option bytes :=
  match n with
  | O => None
  | S m => let? rs := k_log k !! m in Some (encode (k_head k kindPackage n rs) rs)
  end.
Definition snapshot_records (m : gmap Prefix Z) : list packRecord :=
  map (fun x : Prefix * Z => MkRecord recAdd x.1 [] x.2 []) (map_to_list m).
Definition snapshot_object (k : keeper) (n : nat) : bytes :=
  encode (k_head k kindSnapshot n (snapshot_records (nets_at k n))) (snapshot_records (nets_at k n)).

Definition cidr_record (r : packRecord) : Prop :=
  prefix_ok (prefix r) /\ - 2 ^ 63 <= exp r < 2 ^ 63 /\ value r = [] /\ reason r = [].
Record keeper_ok (k : keeper) : Prop := {
  ok_epoch : 0 <= k_epoch k < 2 ^ 64;
  ok_key : length (k_key k) = 16%nat /\ Forall byte_ok (k_key k);
  ok_log : Z.of_nat (length (k_log k)) < 2 ^ 64;
  ok_records : Forall (fun rs => Forall cidr_record rs /\ Z.of_nat (length rs) < 2 ^ 32) (k_log k);
  ok_nets : forall n, Z.of_nat (base.size (nets_at k n)) < 2 ^ 32 }.

(** The set is at state [n] of the keeper. *)
Definition at_state (k : keeper) (n : nat) (s : mset) : Prop :=
  (n <= length (k_log k))%nat /\ epoch s = k_epoch k /\ key s = k_key k /\ seq s = Z.of_nat n
  /\ nets (comp s) = nets_at k n.

Lemma fold_nets_ok : forall rs m,
  Forall cidr_record rs -> map_Forall (fun p e => prefix_ok p /\ - 2 ^ 63 <= e < 2 ^ 63) m ->
  map_Forall (fun p e => prefix_ok p /\ - 2 ^ 63 <= e < 2 ^ 63) (fold_left apply_net rs m).
Proof.
  induction rs as [|r rs IH]; intros m Hrs Hm; [done|]. inversion_clear Hrs as [|? ? Hr Hrs'].
  cbn [fold_left]. apply IH; [done|]. unfold apply_net. destruct Hr as (Hp & He & _).
  destruct (op r =? recAdd); [by apply map_Forall_insert_2|by apply map_Forall_delete].
Qed.

Lemma fold_adds : forall (l : list (Prefix * Z)) m,
  NoDup l.*1 ->
  fold_left apply_net (map (fun x : Prefix * Z => MkRecord recAdd x.1 [] x.2 []) l) m = list_to_map l ∪ m.
Proof.
  induction l as [|[p e] l IH]; intros m Hl; cbn [map fold_left].
  { by rewrite list_to_map_nil, (left_id_L ∅ (∪)). }
  apply NoDup_cons in Hl as [Hp Hl]. rewrite IH by done.
  unfold apply_net. cbn [op prefix exp fst snd]. rewrite Z.eqb_refl, list_to_map_cons, <- insert_union_l.
  apply eq_sym, insert_union_r, not_elem_of_list_to_map, Hp.
Qed.

Lemma snapshot_fold (m : gmap Prefix Z) : fold_left apply_net (snapshot_records m) ∅ = m.
Proof.
  unfold snapshot_records. rewrite fold_adds by apply NoDup_fst_map_to_list.
  by rewrite list_to_map_to_list, (right_id_L ∅ (∪)).
Qed.

Lemma nets_at_ok k n :
  keeper_ok k -> map_Forall (fun p e => prefix_ok p /\ - 2 ^ 63 <= e < 2 ^ 63) (nets_at k n).
Proof.
  intros [_ _ _ Hr _]. apply fold_nets_ok; [|apply map_Forall_empty].
  apply Forall_concat, Forall_take. eapply Forall_impl; [exact Hr|]. by intros rs [? _].
Qed.

Lemma nets_at_succ k m rs :
  k_log k !! m = Some rs -> nets_at k (S m) = fold_left apply_net rs (nets_at k m).
Proof.
  intros Hm. unfold nets_at. rewrite (take_S_r _ _ _ Hm), concat_app. cbn [concat].
  by rewrite app_nil_r, fold_left_app.
Qed.

Lemma sip_hash_range k m :
  length (k_key k) = 16%nat /\ Forall byte_ok (k_key k) ->
  map_Forall (fun p _ => prefix_ok p) m -> 0 <= xor_hash (k_key k) m < 2 ^ 64.
Proof.
  intros [_ Hk]. unfold xor_hash. induction m as [|p e m Hm IH] using map_ind; intros Hok.
  { by rewrite map_fold_empty. }
  apply map_Forall_insert in Hok as [Hp Hok]; [|done].
  change (0 <= xor_hash (k_key k) (<[p:=e]> m) < 2 ^ 64). rewrite xor_hash_insert by done.
  apply lxor_range; [lia|by apply IH|]. apply Sip.siphash_range; [done|].
  unfold prefixMaterial. pose proof (wrap_range 8 (pbits p)).
  destruct (Is4 (pip p)); repeat (apply Forall_cons; split; [unfold byte_ok; lia|]); apply be_split_ok.
Qed.

(** ** A mirror of keepers *)

Section keepers.
(** The keepers of the set, one after another, each with an epoch of its own. *)
Variable K : keeper -> Prop.
Hypothesis K_ok : forall k, K k -> keeper_ok k.
Hypothesis K_epochs : forall k k', K k -> K k' -> k_epoch k = k_epoch k' -> k = k'.

(** Data that the decoder refuses, or what some keeper published, whole. *)
Definition published (d : bytes) : Prop :=
  (exists e, unpack d = Throw e)
  \/ exists k n, K k /\ (n <= length (k_log k))%nat
       /\ (d = snapshot_object k n \/ package k n = Some d).

Definition in_sync (s : mset) : Prop :=
  snapBad s = false /\ wf (key s) (comp s) /\ 0 <= seq s < 2 ^ 64
  /\ (ready s = true -> exists k n, K k /\ at_state k n s).

Lemma k_head_ok k kd n rs :
  keeper_ok k -> (n <= length (k_log k))%nat -> Z.of_nat (length rs) < 2 ^ 32 ->
  head_ok (k_head k kd n rs).
Proof.
  intros Hk Hn Hl. pose proof (ok_log k Hk). pose proof (ok_epoch k Hk).
  pose proof (sip_hash_range k (nets_at k n) (ok_key k Hk)) as Hh.
  assert (map_Forall (fun p _ => prefix_ok p) (nets_at k n)) as Hp.
  { eapply map_Forall_impl; [by apply nets_at_ok|]. by intros p e [? _]. }
  specialize (Hh Hp). unfold head_ok, k_head. cbn [typ Wafs.epoch Wafs.seq Wafs.hash Wafs.key count].
  split; [by left|]. unfold k_hash. pose proof (proj1 (ok_key k Hk)). lia.
Qed.

Lemma cidr_record_ok k kd n rs r : cidr_record r -> record_ok (k_head k kd n rs) r.
Proof. intros (Hp & He & Hv & Hr). by unfold record_ok. Qed.

Lemma unpack_head k kd n rs :
  keeper_ok k -> (n <= length (k_log k))%nat -> Z.of_nat (length rs) < 2 ^ 32 ->
  Forall cidr_record rs -> unpack (encode (k_head k kd n rs) rs) = Ret (k_head k kd n rs, rs).
Proof.
  intros Hk Hn Hl Hrs. rewrite <- (app_nil_r (encode _ _)). apply unpack_encode_tail.
  - by apply k_head_ok.
  - eapply Forall_impl; [exact Hrs|]. apply cidr_record_ok.
  - done.
Qed.

Lemma snapshot_records_ok k n :
  keeper_ok k -> Forall cidr_record (snapshot_records (nets_at k n))
  /\ Z.of_nat (length (snapshot_records (nets_at k n))) < 2 ^ 32.
Proof.
  intros Hk. split.
  - unfold snapshot_records. apply Forall_map, Forall_forall. intros [p e] Hin%elem_of_map_to_list.
    destruct (nets_at_ok k n Hk p e Hin). by split.
  - unfold snapshot_records. rewrite length_map, length_map_to_list. by apply ok_nets.
Qed.

Lemma published_read d h rs :
  published d -> unpack d = Ret (h, rs) ->
  exists k n, K k /\ (n <= length (k_log k))%nat /\ Forall cidr_record rs
    /\ ((rs = snapshot_records (nets_at k n) /\ h = k_head k kindSnapshot n rs)
        \/ exists m, n = S m /\ k_log k !! m = Some rs /\ h = k_head k kindPackage n rs).
Proof.
  intros [[e He]|(k & n & Hk & Hn & Hd)] E; [congruence|]. exists k, n.
  split; [done|]. split; [done|]. pose proof (K_ok k Hk) as Hok. destruct Hd as [->|Hp].
  - destruct (snapshot_records_ok k n Hok) as [Hrs Hl].
    unfold snapshot_object in E. rewrite unpack_head in E by done. injection E as <- <-.
    split; [done|]. by left.
  - destruct n as [|m]; [done|]. cbn [package] in Hp.
    destruct (k_log k !! m) as [rs'|] eqn:Em; [|done]. injection Hp as <-.
    destruct (Forall_lookup_1 _ _ _ _ (ok_records k Hok) Em) as [Hrs Hl].
    rewrite unpack_head in E by done. injection E as <- <-.
    split; [done|]. right. by exists m.
Qed.

Lemma cidr_prefixes rs : Forall cidr_record rs -> Forall (fun r => prefix_ok (prefix r)) rs.
Proof. intros H. eapply Forall_impl; [exact H|]. by intros r [? _]. Qed.

(** A snapshot of a keeper puts the set at that state, with the right hash. *)
Lemma sync_snapshot s d h rs :
  in_sync s -> published d -> unpack d = Ret (h, rs) -> kind h = kindSnapshot -> typ h = typeCIDR ->
  match apply_all (Wafs.key h) newComposition rs with
  | None => False
  | Some c => in_sync (set_snapshot h c (negb (hash c =? Wafs.hash h)) s)
  end.
Proof.
  intros _ Hd E Hkind _. destruct (published_read d h rs Hd E) as (k & n & Hk & Hn & Hrs & [[-> ->]|(m & _ & _ & ->)]); [|done].
  pose proof (K_ok k Hk) as Hok. cbn [Wafs.key Wafs.hash k_head] in *.
  destruct (wf_apply_all (k_key k) _ newComposition (wf_new _) (cidr_prefixes _ Hrs)) as (c & -> & Hc & Hnets).
  cbn [nets newComposition] in Hnets. rewrite snapshot_fold in Hnets.
  pose proof (ok_log k Hok).
  split; [|split; [done|split; [simpl; lia|]]].
  - cbn [snapBad set_snapshot]. rewrite (wf_hash _ _ Hc), Hnets. unfold k_hash. by rewrite Z.eqb_refl.
  - intros _. exists k, n. split; [done|]. by split_and!.
Qed.

(** A package of the keeper takes the set one state further. *)
Lemma sync_package s d h rs :
  in_sync s -> published d -> unpack d = Ret (h, rs) -> kind h = kindPackage ->
  Wafs.epoch h = epoch s -> Wafs.seq h = seq s + 1 -> typ h = typeCIDR ->
  match apply_all (key s) (comp s) rs with
  | None => False
  | Some c => in_sync (set_package (Wafs.seq h) c s)
  end.
Proof.
  intros (Hbad & Hw & Hq & Hsync) Hd E Hkind He Hseq _.
  destruct (published_read d h rs Hd E) as (k & n & Hk & Hn & Hrs & [[-> ->]|(m & -> & Hm & ->)]); [done|].
  destruct (wf_apply_all (key s) rs (comp s) Hw (cidr_prefixes _ Hrs)) as (c & -> & Hc & Hnets).
  cbn [Wafs.seq Wafs.epoch k_head] in *. pose proof (ok_log k (K_ok k Hk)).
  split; [done|split; [done|split; [simpl; lia|]]].
  intros Hr. destruct (Hsync Hr) as (k' & n' & Hk' & Hn' & Ee & Ek & Es & En). cbn in Hr.
  assert (k' = k) as -> by (apply K_epochs; [done|done|congruence]).
  assert (n' = m) as -> by lia. exists k, (S m). split; [done|].
  split_and!; [done|done|done|done|]. cbn [comp set_package]. by rewrite Hnets, En, (nets_at_succ _ _ _ Hm).
Qed.

Lemma sync_run {W} (env : Env W) fs s w :
  (forall b, blobs env = Some b -> delivers published b) ->
  Forall (fun x : Z * frame => frame_good published x.2) fs ->
  in_sync s -> wp False (run_set env fs) (fun _ s' _ => in_sync s') s w.
Proof.
  intros Henv Hfs Hs. apply (inv_run env False in_sync published); try done.
  - by intros s' (_ & ?).
  - by intros s' (_ & _ & ? & _).
  - apply sync_snapshot.
  - apply sync_package.
Qed.

(** *** Catching up *)

Definition tracks (k : keeper) (name : string) (n : nat) (s : mset) : Prop :=
  K k /\ in_sync s /\ ready s = true /\ Name s = name /\ at_state k n s.

Lemma tracks_package {W} (env : Env W) k name n d s w :
  tracks k name n s -> package k (S n) = Some d ->
  wp False (applyPackage env d (Z.of_nat (S n)))
    (fun ok s' w' => ok = true /\ tracks k name (S n) s') s w.
Proof.
  intros (Hk & Hin & Hr & Hname & Hst) Hp. pose proof (K_ok k Hk) as Hok.
  assert (published d) as Hd.
  { right. exists k, (S n). split; [done|]. split; [|by right].
    destruct (decide (S n <= length (k_log k))%nat) as [?|Hn]; [done|].
    cbn [package] in Hp. by rewrite lookup_ge_None_2 in Hp by lia. }
  cbn [package] in Hp. destruct (k_log k !! n) as [rs|] eqn:En; [|done]. injection Hp as Hp.
  destruct (Forall_lookup_1 _ _ _ _ (ok_records k Hok) En) as [Hrs Hl].
  pose proof (lookup_lt_Some _ _ _ En). pose proof (ok_log k Hok).
  assert (unpack d = Ret (k_head k kindPackage (S n) rs, rs)) as E.
  { rewrite <- Hp. by apply unpack_head. }
  destruct Hst as (Hn & He & Hkey & Hq & Hnets). unfold applyPackage. rewrite E. do 2 wp_step.
  cbn [kind Wafs.epoch Wafs.seq typ Wafs.hash k_head]. rewrite He, !Z.eqb_refl. cbn [negb orb].
  pose proof (sync_package s d _ rs Hin Hd E eq_refl (eq_sym He) ltac:(cbn; lia) eq_refl) as Hsync.
  destruct Hin as (Hbad & Hw & Hrange & _).
  destruct (wf_apply_all (key s) rs (comp s) Hw (cidr_prefixes _ Hrs)) as (c & Ec & Hc & Hcn).
  rewrite Ec in *. do 2 wp_step. unfold verify. do 2 wp_step. cbn [comp set_package].
  assert (nets c = nets_at k (S n)) as Hn' by (by rewrite Hcn, Hnets, (nets_at_succ _ _ _ En)).
  assert (hash c = k_hash k (S n)) as -> by (by rewrite (wf_hash _ _ Hc), Hkey, Hn').
  rewrite String.eqb_refl, orb_true_r. wp_step. split; [done|]. by split_and!.
Qed.

Lemma tracks_objects {W} (env : Env W) k name : forall len q n i s w,
  tracks k name (q + i) s -> (q + i + len <= length (k_log k))%nat -> n = Z.of_nat q ->
  wp False (apply_objects env n (Z.of_nat i) (map (package k) (List.seq (S (q + i)) len)))
    (fun more s' w' => more = true /\ tracks k name (q + i + len) s') s w.
Proof.
  induction len as [|len IH]; intros q n i s w Ht Hl ->; cbn [List.seq map apply_objects].
  { wp_step. by rewrite Nat.add_0_r. }
  destruct (lookup_lt_is_Some_2 (k_log k) (q + i)) as [rs Ers]; [lia|].
  cbn [package]. rewrite Ers. cbn [mbind option_bind]. wp_step.
  pose proof (ok_log k (K_ok k (proj1 Ht))).
  replace (u64 (Z.of_nat q + 1 + Z.of_nat i)) with (Z.of_nat (S (q + i)))
    by (unfold wrap; rewrite Z.mod_small; lia).
  eapply wp_mono.
  { apply (tracks_package env k name (q + i)); [done|]. cbn [package]. by rewrite Ers. }
  intros ok s' w' [-> Ht']. replace (Z.of_nat i + 1) with (Z.of_nat (S i)) by lia.
  replace (S (S (q + i))) with (S (q + S i)) by lia. rewrite <- Nat.add_succ_r in Ht'.
  replace (q + i + S len)%nat with (q + S i + len)%nat by lia.
  apply IH; [done|lia|done].
Qed.

(** Redis still holds the packages of the keeper, each under its key. *)
Definition holds_log {W} (b : Blobs W) (k : keeper) (name : string) : Prop :=
  forall w q upto, (q < upto <= length (k_log k))%nat ->
  exists w', Objects b w (package_keys name (Z.of_nat q) (Z.of_nat upto))
    = (Ok (map (package k) (List.seq (S q) (Nat.min (upto - q) 256))), w').

Lemma tracks_loop {W} (env : Env W) b k name upto h : forall fuel q s w,
  holds_log b k name -> tracks k name q s -> (q <= upto <= length (k_log k))%nat ->
  (upto - q <= fuel)%nat -> h = "" \/ h = hexOf (k_hash k upto) ->
  wp False (catch_up_loop env fuel b (Z.of_nat upto) h) (fun _ s' _ => tracks k name upto s') s w.
Proof.
  induction fuel as [|fuel IH]; intros q s w Hb Ht Hq Hf Hh; cbn [catch_up_loop]; do 2 wp_step;
    pose proof Ht as (Hk & (_ & Hw & _) & _ & Hname & (_ & _ & Hkey & Hs & Hnets)); rewrite Hs.
  all: destruct (Z.leb_spec (Z.of_nat upto) (Z.of_nat q)); [|try lia].
  1,2: assert (q = upto) as -> by lia; unfold verify; do 3 wp_step;
    assert (hash (comp s) = k_hash k upto) as -> by (by rewrite (wf_hash _ _ Hw), Hkey, Hnets);
    assert (String.eqb h "" || String.eqb (hexOf (k_hash k upto)) h = true) as ->
      by (apply orb_true_iff; rewrite !String.eqb_eq; destruct Hh; auto);
    cbv iota; do 2 wp_step; exact Ht.
  do 2 wp_step. rewrite Hname in Hcall. destruct (Hb w q upto) as [w2 E]; [lia|].
  rewrite Hcall in E. injection E as -> ->. wp_step.
  pose proof (tracks_objects env k name (Nat.min (upto - q) 256) q (Z.of_nat q) 0 s w2) as Ho.
  rewrite !Nat.add_0_r in Ho. eapply wp_mono; [apply Ho; [done|lia|done]|].
  intros more s' w' [-> Ht']. eapply IH; [done|exact Ht'|lia|lia|done].
Qed.
End keepers.

(** ** Properties *)

Lemma consistent_new uuid name now : consistent (newSet uuid name now).
Proof.
  split; [|done]. unfold newSet. cbn [key comp]. apply wf_new.
Qed.

Lemma in_sync_new K uuid name now : in_sync K (newSet uuid name now).
Proof. pose proof (consistent_new uuid name now) as [? ?].
  split; [done|]. split; [done|]. by split. Qed.

Lemma contains_ready s ip now :
  wf (key s) (comp s) -> addr_ok ip ->
  Contains (Some s) ip now = true <->
  ready s = true /\ exists p e, nets (comp s) !! p = Some e /\ Masked p = p /\ covers p (Unmap ip)
    /\ live now e = true.
Proof.
  intros Hw Ha. unfold Contains. rewrite <- (contains_iff (key s)) by done.
  destruct (ready s); cbn [negb]; [by split; [|intros [_ ?]]|by split; [|intros [? _]]].
Qed.

(** A keeper of two packages, and an environment that has its snapshot of
    state 1 and both packages. *)
Definition demo : keeper := MkKeeper 7 example_key
  [[MkRecord recAdd net10 [] 0 []]; [MkRecord recAdd host1 [] 100 []; MkRecord recRemove net10 [] 0 []]].
Definition is_demo (k : keeper) : Prop := k = demo.
Definition demo_fetch (key : string) : option bytes :=
  if String.eqb key (diffKey "s" 1) then package demo 1
  else if String.eqb key (diffKey "s" 2) then package demo 2 else None.
Definition demo_blobs : Blobs unit :=
  MkBlobs (fun w _ => (Ok (Some (snapshot_object demo 1)), w)) (fun w ks => (Ok (map demo_fetch ks), w)).
Definition empty_frame : frame := MkFrame 0 "" "" 0 "" "" "" "" "" "" 0.
Definition demo_env : Env unit :=
  MkEnv (fun w _ => (Reply true (MkFrame 3 "s" "7" 1 opSnapshot "" "" "" "" "obj" 0), w)) (Some demo_blobs).
Definition demo_frame : frame :=
  MkFrame 3 "s" "7" 2 opDiff (hexOf (k_hash demo 2)) "" "" "" "" 0.

Lemma demo_cidr : Forall (Forall cidr_record) (k_log demo).
Proof.
  unfold demo, net10, host1. cbn [k_log].
  repeat (apply Forall_cons; split); try apply Forall_nil_2.
  all: unfold cidr_record, prefix_ok, addr_ok; cbn; split_and!; lia || done.
Qed.

Lemma demo_ok k : is_demo k -> keeper_ok k.
Proof.
  intros ->. split.
  - cbn. lia.
  - split; [done|]. apply (bool_decide_unpack _). by vm_compute.
  - cbn. lia.
  - pose proof demo_cidr as Hc. cbn [k_log demo] in *. inversion_clear Hc as [|? ? H1 H2].
    inversion_clear H2 as [|? ? H3 _]. repeat (apply Forall_cons; split); try apply Forall_nil_2; done || (cbn; lia).
  - intros [|[|n]]; [by vm_compute..|].
    assert (nets_at demo (S (S n)) = nets_at demo 2) as ->; [|by vm_compute].
    unfold nets_at. by rewrite (take_ge _ (S (S n))) by (cbn; lia).
Qed.

Lemma demo_epochs k k' : is_demo k -> is_demo k' -> k_epoch k = k_epoch k' -> k = k'.
Proof. by intros -> ->. Qed.

Lemma demo_fetch_published k d : demo_fetch k = Some d -> published is_demo d.
Proof.
  unfold demo_fetch. intros E. right. exists demo.
  destruct (String.eqb _ _); [exists 1%nat|destruct (String.eqb _ _); [exists 2%nat|done]].
  all: split; [done|]; split; [cbn; lia|by right].
Qed.

Lemma demo_delivers b : blobs demo_env = Some b -> delivers (published is_demo) b.
Proof.
  intros [= <-]. split; cbn [Object Objects demo_blobs].
  - intros _ _ d _ [= <- _]. right. exists demo, 1%nat. split; [done|]. split; [cbn; lia|by left].
  - intros _ ks ds _ [= <- _]. split; [apply length_map|].
    intros d (k & Hk & _)%list_elem_of_fmap. by eapply demo_fetch_published.
Qed.

Lemma demo_frame_good : frame_good (published is_demo) demo_frame.
Proof. split; [cbn; lia|]. intros d [= <-]. left. exists errPackShort. by vm_compute. Qed.

Lemma demo_bytes b : blobs demo_env = Some b -> delivers (Forall byte_ok) b.
Proof.
  intros [= <-].
  assert (forall d, d ∈ [Some (snapshot_object demo 1); package demo 1; package demo 2] ->
    forall x, d = Some x -> Forall byte_ok x) as Hall.
  { assert (Forall (fun d => forall x, d = Some x -> Forall byte_ok x)
      [Some (snapshot_object demo 1); package demo 1; package demo 2]) as H.
    { repeat (apply Forall_cons; split); [..|by apply Forall_nil_2].
      all: intros x [= <-]; apply (bool_decide_unpack _); by vm_compute. }
    rewrite Forall_forall in H. exact H. }
  split; cbn [Object Objects demo_blobs].
  - intros _ _ d _ [= <- _]. apply (Hall (Some (snapshot_object demo 1))); [by left|done].
  - intros _ ks ds _ [= <- _]. split; [apply length_map|].
    intros d (k & Hk & _)%list_elem_of_fmap. symmetry in Hk. revert Hk. unfold demo_fetch.
    destruct (String.eqb _ _); [|destruct (String.eqb _ _); [|done]]; intros Hk;
      eapply Hall; try exact Hk; [by right; left|by do 2 right; left].
Qed.



(** C6: A mirror holds only what its keeper had. Let every byte string that
    reaches the mirror, inline or from Redis, under whatever key, be one the
    decoder refuses or a package or snapshot that a keeper published (keepers
    may follow one another, each with its own epoch). Then however replies
    are lost, delayed, repeated or swapped, the handlers never panic, and a
    ready set is exactly at a state of a keeper: its epoch, its key, its
    sequence number and the networks of that moment, and it contains an
    address when an unexpired network of that state covers it. *)
Theorem mirror_refines_keeper {W} (K : keeper -> Prop) (env : Env W) fs uuid name t w :
  (forall k, K k -> keeper_ok k) ->
  (forall k k', K k -> K k' -> k_epoch k = k_epoch k' -> k = k') ->
  (forall b, blobs env = Some b -> delivers (published K) b) ->
  Forall (fun x : Z * frame => frame_good (published K) x.2) fs ->
  exists s w', run_set env fs (newSet uuid name t) w = Done (tt, s, w')
    /\ snapBad s = false
    /\ (ready s = true -> exists k n, K k /\ at_state k n s)
    /\ forall ip now, addr_ok ip ->
        Contains (Some s) ip now = true <->
        exists k n p e, ready s = true /\ K k /\ at_state k n s /\ nets_at k n !! p = Some e
          /\ Masked p = p /\ covers p (Unmap ip) /\ live now e = true.
Proof.
  intros HK Hep Henv Hfs.
  pose proof (sync_run K HK Hep env fs _ w Henv Hfs (in_sync_new K uuid name t)) as Hrun.
  unfold wp in Hrun. destruct (run_set _ _ _ _) as [| |[[[] s] w']]; [done|done|].
  destruct Hrun as (Hbad & Hw & _ & Hsync). exists s, w'. split_and!; [done|done|done|].
  intros ip now Ha. rewrite contains_ready by done. split.
  - intros (Hr & p & e & Hp & Hrest). destruct (Hsync Hr) as (k & n & Hk & Hst).
    exists k, n, p, e. pose proof Hst as (_ & _ & _ & _ & Hn). by rewrite <- Hn.
  - intros (k & n & p & e & Hr & Hk & Hst & Hp & Hrest). split; [done|]. exists p, e.
    destruct Hst as (_ & _ & _ & _ & ->). done.
Qed.

Lemma mirror_refines_keeper_witness :
  exists s w', run_set demo_env [(5, demo_frame)] (newSet "u" "s" 0) tt = Done (tt, s, w')
    /\ snapBad s = false /\ (ready s = true -> exists k n, is_demo k /\ at_state k n s).
Proof.
  destruct (mirror_refines_keeper is_demo demo_env [(5, demo_frame)] "u" "s" 0 tt demo_ok demo_epochs
    demo_delivers (Forall_cons_2 _ (5, demo_frame) _ demo_frame_good (Forall_nil_2 _))) as (s & w' & E & Hb & Hs & _).
  exists s, w'. split; [exact E|]. split; [exact Hb|exact Hs].
Defined.


Lemma demo_log : holds_log demo_blobs demo "s".
Proof.
  intros [] q upto Hq. exists tt. cbn [Objects demo_blobs k_log demo length] in *.
  destruct upto as [|[|[|?]]]; [lia| | |lia]; destruct q as [|[|?]]; try lia; by vm_compute.
Qed.

Definition demo_set : mset :=
  match run_set demo_env [] (newSet "u" "s" 0) tt with
  | Done (_, s, _) => s
  | _ => newSet "u" "s" 0
  end.

Lemma demo_tracks : tracks is_demo demo "s" 1 demo_set.
Proof.
  pose proof (sync_run is_demo demo_ok demo_epochs demo_env [] _ tt demo_delivers (Forall_nil_2 _)
    (in_sync_new is_demo "u" "s" 0)) as Hrun.
  unfold demo_set. unfold wp in Hrun.
  assert (match run_set demo_env [] (newSet "u" "s" 0) tt with
          | Done (_, s, _) => bool_decide (ready s = true /\ Name s = "s" /\ seq s = 1)
          | _ => false end = true) as E by (by vm_compute).
  destruct (run_set _ _ _ _) as [| |[[u s] w']]; [done|done|].
  apply bool_decide_eq_true in E as (Hr & Hn & Hq).
  split_and!; [done|done|done|done|].
  destruct Hrun as (_ & _ & _ & Hst). destruct (Hst Hr) as (k & n & -> & Hat).
  pose proof Hat as (_ & _ & _ & Hs & _). assert (n = 1%nat) as -> by lia. done.
Qed.


(** ** Frames that need no catching up *)

Section dispatch.
Context {W : Type} (env : Env W) (now : Z).

Lemma onFrame_version f s w : V f <> Version -> onFrame env now f s w = Done (tt, s, w).
Proof. intros H. unfold onFrame. by rewrite (proj2 (Z.eqb_neq _ _) H). Qed.

Lemma onFrame_unready f s w :
  V f = Version -> ready s = false ->
  onFrame env now f s w = snapshot env (if String.eqb (Op f) opResync then s else set_seen now false s) w.
Proof.
  intros HV Hr. unfold onFrame. rewrite HV. cbn [negb Z.eqb Version Pos.eqb].
  unfold mbind, M_bind, get. rewrite Hr. by destruct (String.eqb _ _).
Qed.

Lemma onFrame_resync f s w :
  V f = Version -> ready s = true -> Op f = opResync -> onFrame env now f s w = Done (tt, s, w).
Proof. intros HV Hr Hop. unfold onFrame, mbind, M_bind, get.
  rewrite HV, Hop. cbn [negb Z.eqb Version Pos.eqb]. by rewrite Hr. Qed.

Lemma onFrame_old f s w :
  V f = Version -> ready s = true -> Op f <> opResync ->
  (forall e, ParseUint (Epoch f) 16 64 = Some e -> e = epoch s /\ Seq f < seq s) ->
  onFrame env now f s w = Done (tt, set_seen now false s, w).
Proof.
  intros HV Hr Hop He. unfold onFrame, mbind, M_bind, get.
  rewrite HV. cbn [negb Z.eqb Version Pos.eqb]. rewrite Hr, (proj2 (String.eqb_neq _ _) Hop).
  cbn [negb modify].
  destruct (ParseUint _ _ _) as [e|]; [|done]. destruct (He e eq_refl) as [-> Hs].
  rewrite Z.eqb_refl. cbn [negb]. by destruct (Z.ltb_spec (Seq f) (seq s)); [|lia].
Qed.

Lemma onFrame_epoch f s w e :
  V f = Version -> ready s = true -> Op f <> opResync ->
  ParseUint (Epoch f) 16 64 = Some e -> e <> epoch s ->
  onFrame env now f s w = snapshot env (set_snapBad false (set_seen now false s)) w.
Proof.
  intros HV Hr Hop He Hne. unfold onFrame, mbind, M_bind, get.
  rewrite HV. cbn [negb Z.eqb Version Pos.eqb]. rewrite Hr, (proj2 (String.eqb_neq _ _) Hop), He.
  cbn [negb modify].
  by rewrite (proj2 (Z.eqb_neq _ _) Hne).
Qed.
End dispatch.

(** What [onFrame] does with a frame that does not move the set forward.
    A frame of another version, and a resync frame to a ready set, change
    nothing; any frame to a set without a snapshot, the resync tick included,
    asks for one; a frame whose epoch cannot be read or whose sequence number
    is in the past only marks the keeper as alive; a new epoch forgets a bad
    snapshot and asks for a new one. *)
Theorem frame_dispatch {W} (env : Env W) now f s w :
  (V f <> Version -> onFrame env now f s w = Done (tt, s, w))
  /\ (V f = Version -> ready s = false ->
      onFrame env now f s w = snapshot env (if String.eqb (Op f) opResync then s else set_seen now false s) w)
  /\ (V f = Version -> ready s = true ->
      (Op f = opResync -> onFrame env now f s w = Done (tt, s, w))
      /\ (Op f <> opResync ->
          ((forall e, ParseUint (Epoch f) 16 64 = Some e -> e = epoch s /\ Seq f < seq s) ->
           onFrame env now f s w = Done (tt, set_seen now false s, w))
          /\ (forall e, ParseUint (Epoch f) 16 64 = Some e -> e <> epoch s ->
              onFrame env now f s w = snapshot env (set_snapBad false (set_seen now false s)) w))).
Proof.
  split; [apply onFrame_version|]. split; [apply onFrame_unready|].
  intros HV Hr. split; [by apply onFrame_resync|]. intros Hop.
  split; [by apply onFrame_old|]. intros e. by apply onFrame_epoch.
Qed.

(** ** After a bad snapshot *)

Section bad_snapshot.
Context {W : Type} (env env' : Env W).
Hypothesis same_blobs : blobs env = blobs env'.

(** The two environments give one result, which keeps the mark. *)
Definition same {A} (m m' : M W A) (s : mset) (w : W) : Prop :=
  m s w = m' s w /\ match m s w with Done (_, s', _) => snapBad s' = true | _ => True end.

Lemma same_bind {A B} (m m' : M W A) (f f' : A -> M W B) s w :
  same m m' s w -> (forall a s' w', snapBad s' = true -> m s w = Done (a, s', w') -> same (f a) (f' a) s' w') ->
  same (m ≫= f) (m' ≫= f') s w.
Proof.
  unfold same, mbind, M_bind. intros [E Hb] Hf. rewrite <- E.
  destruct (m s w) as [| |[[a s'] w']]; [done|done|]. by apply Hf.
Qed.

Lemma same_refl_pure {A} (a : A) (f : mset -> mset) s w :
  snapBad (f s) = true -> same (fun s w => Done (a, f s, w)) (fun s w => Done (a, f s, w)) s w.
Proof. by split. Qed.

Lemma same_snapshot s w : snapBad s = true -> same (snapshot env) (snapshot env') s w.
Proof.
  intros Hb. unfold same, snapshot, take_snapshot, mbind, M_bind, get, modify.
  destruct (syncing s); [done|]. cbn [snapBad set_syncing]. by rewrite Hb.
Qed.

Lemma same_verify h s w : snapBad s = true -> same (verify env h) (verify env' h) s w.
Proof.
  intros Hb. unfold same, verify, mbind, M_bind, get. destruct (_ || _); [done|]. by rewrite Hb.
Qed.

Lemma same_snapshot_false s w :
  snapBad s = true -> same (_ ← snapshot env; mret false) (_ ← snapshot env'; mret false) s w.
Proof. intros Hb. apply same_bind; [by apply same_snapshot|]. by intros. Qed.

Lemma same_package d q s w : snapBad s = true -> same (applyPackage env d q) (applyPackage env' d q) s w.
Proof.
  intros Hb. unfold applyPackage. destruct (unpack d) as [|e|[h rs]]; [done|by apply same_snapshot_false|].
  apply same_bind; [done|]. intros a s' w' Hb' [= -> -> ->].
  destruct (_ || _); [by apply same_snapshot_false|].
  destruct (apply_all _ _ _) as [c|]; [|done].
  apply same_bind; [done|]. intros [] s2 w2 Hb2 _. by apply same_verify.
Qed.

Lemma same_objects : forall objs q i s w,
  snapBad s = true -> same (apply_objects env q i objs) (apply_objects env' q i objs) s w.
Proof.
  induction objs as [|[d|] objs IH]; intros q i s w Hb; cbn [apply_objects]; [done| |by apply same_snapshot_false].
  apply same_bind; [by apply same_package|]. intros [|] s' w' Hb' _; [by apply IH|done].
Qed.

Lemma same_loop b upto h : forall fuel s w,
  snapBad s = true -> same (catch_up_loop env fuel b upto h) (catch_up_loop env' fuel b upto h) s w.
Proof.
  induction fuel as [|fuel IH]; intros s w Hb; cbn [catch_up_loop];
    (apply same_bind; [done|]); intros a s1 w1 _ [= -> -> ->]; destruct (_ <=? _).
  1,3: apply same_bind; [by apply same_verify|]; intros; done.
  { done. }
  apply same_bind.
  { unfold same, perform. by destruct (Objects _ _ _). }
  intros [objs|] s2 w2 Hb2 _; [|done]. apply same_bind; [by apply same_objects|].
  intros [|] s3 w3 Hb3 _; [by apply IH|done].
Qed.

Lemma same_catchUp upto h s w : snapBad s = true -> same (catchUp env upto h) (catchUp env' upto h) s w.
Proof.
  intros Hb. unfold catchUp. rewrite <- same_blobs. destruct (blobs env); [|done].
  apply same_bind; [done|]. intros a s1 w1 _ [= -> -> ->]. by apply same_loop.
Qed.
End bad_snapshot.

(** A snapshot whose hash the mirror cannot reproduce does not start a
    storm of snapshots: until the epoch changes, no frame makes a ready set
    with a bad snapshot ask the keeper again - the result does not depend on
    what the keeper would answer - and the mark stays. *)
Theorem bad_snapshot_quiet {W} (env env' : Env W) now f s w :
  blobs env = blobs env' -> snapBad s = true -> ready s = true ->
  (forall e, ParseUint (Epoch f) 16 64 = Some e -> e = epoch s) ->
  onFrame env now f s w = onFrame env' now f s w
  /\ match onFrame env now f s w with Done (_, s', _) => snapBad s' = true | _ => True end.
Proof.
  intros Hsame Hb Hr He. change (same (onFrame env now f) (onFrame env' now f) s w). unfold onFrame.
  destruct (negb _); [done|]. apply same_bind; [done|]. intros a s1 w1 _ [= -> -> ->]. rewrite Hr.
  apply same_bind; [by destruct (negb _)|]. intros [] s2 w2 Hb2 _. cbn [negb].
  destruct (String.eqb _ _); [done|]. destruct (ParseUint _ _ _) as [e|]; [|done].
  rewrite (He e eq_refl), Z.eqb_refl. cbn [negb]. destruct (_ <? _); [done|].
  destruct (_ =? _).
  { destruct (_ || _); [|done]. apply same_bind; [by apply same_verify|]. intros; done. }
  destruct (_ && _ && _); [|by apply same_catchUp].
  destruct (DecodeString _); [|by apply same_catchUp].
  apply same_bind; [by apply same_package|]. intros; done.
Qed.

Lemma bad_snapshot_quiet_witness :
  onFrame demo_env 5 demo_frame (set_snapBad true (set_snapshot (k_head demo kindSnapshot 1 []) newComposition true demo_set)) tt
  = onFrame (MkEnv (fun w _ => (ReplyError, w)) (Some demo_blobs)) 5 demo_frame
      (set_snapBad true (set_snapshot (k_head demo kindSnapshot 1 []) newComposition true demo_set)) tt.
Proof.
  apply bad_snapshot_quiet; [reflexivity|reflexivity|reflexivity|].
  intros e. cbn. intros [= <-]. reflexivity.
Defined.

(** ** Attaching and detaching sets *)

Definition store_ok (st : store) : Prop := dom (sets st) = subs st.

Section attaching.
Context {W : Type} (subscribe : W -> string -> bool * W) (now : Z).

(** What [attach] guarantees of the state it leaves. *)
Record attached_from (want : list (string * string)) (st st' : store) : Prop := {
  at_ok : store_ok st';
  at_closed : closed st' = closed st;
  at_kept : forall u a, sets st !! u = Some a -> sets st' !! u = Some a;
  at_new : forall u a, sets st !! u = None -> sets st' !! u = Some a ->
    exists name, (u, name) ∈ want /\ a = MkAttached (newSet u (NameOf u name) now) [] false }.

Lemma attach_spec : forall want st w r st' w',
  store_ok st -> attach subscribe now want st w = (r, st', w') ->
  attached_from want st st' /\ (is_ok r = true -> forall u, u ∈ want.*1 -> is_Some (sets st' !! u)).
Proof.
  induction want as [|[u name] want IH]; intros st w r st' w' Hst E; cbn [attach] in E.
  { injection E as <- <- <-. split; [|intros _ u Hu; by apply elem_of_nil in Hu].
    split; [done|done|done|]. intros u a H1 H2. congruence. }
  destruct (sets st !! u) as [a0|] eqn:Eu.
  - destruct (IH _ _ _ _ _ Hst E) as [[H1 H2 H3 H4] H5]. split.
    + split; [done|done|done|]. intros v a Hv Hv'. destruct (H4 v a Hv Hv') as (n & ? & ?).
      exists n. split; [by right|done].
    + intros Hr v Hv. cbn [fmap list_fmap fst] in Hv. apply elem_of_cons in Hv as [-> | Hv]; [|by apply H5].
      by rewrite (H3 _ _ Eu).
  - destruct (subscribe w _) as [[|] w1].
    2: { injection E as <- <- <-. split; [|done]. split; [done|done|done|]. intros v a H1 H2. congruence. }
    apply IH in E as [[H1 H2 H3 H4] H5].
    2: { unfold store_ok. cbn [sets subs]. by rewrite dom_insert_L, Hst. }
    cbn [sets closed] in *. split.
    + split; [done|done| |].
      * intros v a Hv. apply H3. rewrite lookup_insert_ne; [done|congruence].
      * intros v a Hv Hv'. destruct (decide (u = v)) as [<-|Hne].
        -- rewrite (H3 u _ (lookup_insert_eq _ _ _)) in Hv'. injection Hv' as <-.
           exists name. split; [by left|done].
        -- destruct (H4 v a) as (n & ? & ?); [by rewrite lookup_insert_ne|done|].
           exists n. split; [by right|done].
    + intros Hr v Hv. cbn [fmap list_fmap fst] in Hv. apply elem_of_cons in Hv as [-> | Hv]; [|by apply H5].
      by rewrite (H3 u _ (lookup_insert_eq _ _ _)).
Qed.
End attaching.

Lemma detach_spec want : forall order st,
  store_ok st ->
  store_ok (detach want order st) /\ closed (detach want order st) = closed st
  /\ (forall u, sets (detach want order st) !! u
        = if bool_decide (u ∈ order /\ want !! u = None) then None else sets st !! u).
Proof.
  induction order as [|v order IH]; intros st Hst; cbn [detach].
  { split_and!; [done|done|]. intros u. rewrite bool_decide_eq_false_2; [done|].
    intros [Hu _]. by apply elem_of_nil in Hu. }
  destruct (want !! v) as [n|] eqn:Ev.
  - destruct (IH st Hst) as (H1 & H2 & H3). split_and!; [done|done|]. intros u. rewrite H3.
    apply bool_decide_ext_if. rewrite elem_of_cons. split; intros [Hu ?]; (split; [|done]); [by right|].
    destruct Hu as [->|?]; [congruence|done].
  - destruct (IH (MkStore (delete v (sets st)) (subs st ∖ {[v]}) (closed st))) as (H1 & H2 & H3).
    { unfold store_ok. cbn [sets subs]. by rewrite dom_delete_L, Hst. }
    split_and!; [done|done|]. intros u. rewrite H3. cbn [sets].
    destruct (decide (u = v)) as [->|Hne].
    + rewrite lookup_delete_eq. rewrite (bool_decide_eq_true_2 (v ∈ v :: order /\ _)) by (split; [by left|done]).
      by destruct (bool_decide _).
    + rewrite lookup_delete_ne by done. apply bool_decide_ext_if. rewrite elem_of_cons.
      split; intros [Hu ?]; (split; [|done]); [by right|]. by destruct Hu.
Qed.

(** When [Sync] succeeds the store has exactly the wanted sets, each with
    its subscription: a set that was attached before is the same set, with its
    contents and its queue, and a new one starts empty under its name, or its
    UUID when it has none. When a subscription fails nothing is detached, the
    sets attached so far stay, and subscriptions still match sets. *)
Theorem sync_exact {W} (subscribe : W -> string -> bool * W) now want order st w :
  store_ok st -> order ≡ₚ map_to_list want ->
  let '(r, st', _) := Sync subscribe now true want order st w in
  store_ok st' /\ closed st' = closed st
  /\ (forall u a, sets st !! u = Some a -> is_ok r = false \/ is_Some (want !! u) -> sets st' !! u = Some a)
  /\ (forall u a, sets st !! u = None -> sets st' !! u = Some a ->
       exists name, want !! u = Some name /\ a = MkAttached (newSet u (NameOf u name) now) [] false)
  /\ (is_ok r = true -> dom (sets st') = dom want).
Proof.
  intros Hst Hperm. unfold Sync. cbn [negb].
  destruct (attach subscribe now order st w) as [[r st1] w1] eqn:E.
  destruct (attach_spec subscribe now order st w r st1 w1 Hst E) as [[H1 H2 H3 H4] H5].
  assert (forall u name, (u, name) ∈ order -> want !! u = Some name) as Hin.
  { intros u name Hu. rewrite Hperm in Hu. by apply elem_of_map_to_list in Hu. }
  destruct r as [[]|e].
  2: { split_and!; [done|done|intros; by apply H3| |done]. intros u a Hu Hu'.
       destruct (H4 u a Hu Hu') as (n & ? & ->). eauto. }
  destruct (detach_spec want (elements (subs st1)) st1 H1) as (D1 & D2 & D3).
  split_and!; [done|congruence| | |].
  - intros u a Hu [?|[n Hn]]; [done|]. rewrite D3, bool_decide_eq_false_2; [by apply H3|].
    intros [_ ?]. congruence.
  - intros u a Hu Hu'. rewrite D3 in Hu'. destruct (bool_decide _); [done|].
    destruct (H4 u a Hu Hu') as (n & ? & ->). eauto.
  - intros _. apply set_eq. intros u. rewrite !elem_of_dom, D3.
    assert (u ∈ elements (subs st1) <-> is_Some (sets st1 !! u)) as Hel
      by (rewrite elem_of_elements, <- H1; apply elem_of_dom).
    destruct (want !! u) as [n|] eqn:Eu.
    + rewrite bool_decide_eq_false_2 by (intros [_ ?]; done). split; [by eauto|]. intros _.
      apply H5; [done|]. apply list_elem_of_fmap. exists (u, n). split; [done|].
      rewrite Hperm. by apply elem_of_map_to_list.
    + split; [|by intros []]. case_bool_decide as Hd; [by intros []|]. intros Hs.
      exfalso. apply Hd. split; [by apply Hel|done].
Qed.

Lemma sync_exact_witness :
  let st := MkStore {["old" := MkAttached demo_set [] false]} {["old"]} false in
  let '(r, st', _) := Sync (fun (w : unit) _ => (true, w)) 9 true {["u" := ""]} [("u", "")] st tt in
  store_ok st' /\ r = Ok tt /\ dom (sets st') = {["u"]}.
Proof.
  cbv zeta.
  pose proof (sync_exact (fun (w : unit) _ => (true, w)) 9 {["u" := ""]} [("u", "")]
    (MkStore {["old" := MkAttached demo_set [] false]} {["old"]} false) tt) as H.
  assert (fst (fst (Sync (fun (w : unit) _ => (true, w)) 9 true {["u" := ""]} [("u", "")]
    (MkStore {["old" := MkAttached demo_set [] false]} {["old"]} false) tt)) = Ok tt) as Hr
    by reflexivity.
  destruct (Sync _ _ _ _ _ _ _) as [[r st'] w']. cbn [fst] in Hr. subst r.
  destruct H as (H1 & _ & _ & _ & H5).
  - unfold store_ok. cbn [sets subs]. apply dom_singleton_L.
  - reflexivity.
  - split; [exact H1|]. split; [reflexivity|]. rewrite (H5 eq_refl). apply dom_singleton_L.
Defined.

End Mirror.
