(* ===== verification/Protocol.v ===== *)
(** * The messages of the waf bus

    Models [internal/protocol/protocol.go] and [internal/overload/overload.go]:
    the request and reply types, the checks of a request after its JSON is
    decoded, the checks of the parts of a policy that reach the wire, and the
    replies. A field [F] of a Go struct [S] is the projection [s_F]. *)

From S2P Require Import Prelude GoStrings.

#[local] Open Scope Z_scope.

(** [fmt.Errorf]: the format and what its verbs are given. *)
Record error : Type := Errorf { format : string; args : list string }.
#[export] Instance error_eq_dec : EqDecision error.
Proof. solve_decision. Defined.
Definition errorf (f : string) : error := Errorf f [].
(** [fmt.Errorf("...%w", ..., err)] *)
Definition wrapf (f : string) (a : list string) (e : error) : error :=
  Errorf (f +:+ format e) (a ++ args e).

Module Protocol.

Definition Version : Z := 2.

(** ** Data *)

Record TLS : Type := MkTLS { tls_Version : string; tls_SNI : string; tls_JA4 : string }.
Record Conn : Type := MkConn {
  conn_ClientIP : string; conn_ClientPort : Z; conn_ServerIP : string; conn_ServerPort : Z;
  conn_TLS : option TLS }.
Definition Header : Type := string * string.
Record HTTP : Type := MkHTTP {
  http_Method : string; http_Scheme : string; http_Host : string; http_URI : string;
  http_ArgsSize : Z; http_Version : string }.
Record Response : Type := MkResponse {
  resp_Status : Z; resp_Headers : list Header; resp_UpstreamMS : Z }.
Record Enc : Type := MkEnc { enc_Alg : string; enc_KID : string; enc_Nonce : string }.
Record Locator : Type := MkLocator {
  loc_Store : string; loc_Driver : string; loc_Key : string; loc_Unavailable : string;
  loc_Size : Z; loc_DeclaredSize : Z; loc_SHA256 : string; loc_ProcessedSHA256 : string;
  loc_Transformed : bool; loc_Complete : bool; loc_Truncated : bool; loc_Encoding : string;
  loc_ExpiresAt : Z; loc_Hint : string; loc_Enc : option Enc }.
Record Store : Type := MkStore {
  store_Headers : option Locator; store_Args : option Locator; store_Body : option Locator }.
Record Route : Type := MkRoute {
  route_ServerName : string; route_Location : string; route_Profile : string }.
Record ScoreState : Type := MkScore { score_Total : Z; score_DenyAt : Z }.
Record ObjectSpec : Type := MkObjectSpec { spec_Set : string; spec_Limit : Z; spec_Source : string }.
Record Action : Type := MkAction {
  act_To : string; act_Do : string; act_Apply : string; act_Phase : string; act_Code : string;
  act_Delta : option Z; act_Value : option Z; act_Counter : string; act_Marker : string;
  act_Group : string; act_Set : string; act_TTL : option Z; act_When : list string;
  act_Headers : option ObjectSpec; act_Args : option ObjectSpec; act_Body : option ObjectSpec }.
Record Reason : Type := MkReason {
  reason_Code : string; reason_Class : string; reason_Scope : string; reason_Subject : string;
  reason_Retry : Z }.
Record PriorVerdict : Type := MkPrior {
  prior_Inspector : string; prior_Phase : string; prior_Wave : Z; prior_Verdict : string;
  prior_Score : Z; prior_Reason : option Reason; prior_Actions : list Action }.
Record Request : Type := MkRequest {
  req_V : Z; req_RID : string; req_Ray : string; req_Phase : string; req_Wave : Z;
  req_Inspector : string; req_DeadlineMS : Z; req_AuditSubject : option string; req_Node : string;
  req_Conn : Conn; req_HTTP : HTTP; req_Vars : gmap string string; req_Needs : list string;
  req_Store : Store; req_Route : Route; req_Score : ScoreState; req_Prior : list PriorVerdict;
  req_Response : option Response }.
Record RedirectRef : Type := MkRedirect { redirect_URL : string; redirect_Status : Z }.
Record HeaderOps : Type := MkHeaderOps { ops_Set : gmap string string; ops_Unset : list string }.
Record Reply : Type := MkReply {
  reply_V : Z; reply_RID : string; reply_Inspector : string; reply_Verdict : string;
  reply_Reason : option Reason; reply_Response : option string; reply_Redirect : option RedirectRef;
  reply_Headers : option HeaderOps; reply_Actions : list Action }.

Definition PhaseRequest : string := "request".
Definition PhaseResponse : string := "response".
Definition PhaseFrame : string := "frame".
Definition NeedHeaders : string := "headers".
Definition NeedArgs : string := "args".
Definition NeedBody : string := "body".
Definition VerdictAllow : string := "allow".
Definition VerdictDeny : string := "deny".
Definition VerdictError : string := "error".
Definition ApplyConn : string := "conn".
Definition ClassOverload : string := "overload".
Definition ScopeAddress : string := "address".
Definition ScopeNetwork : string := "network".
Definition ScopeCountry : string := "country".
Definition ScopeASN : string := "asn".

Definition Placed (l : option Locator) : bool :=
  match l with
  | None => false
  | Some l =>
      String.eqb (loc_Unavailable l) "" && negb (String.eqb (loc_Driver l) "")
      && negb (String.eqb (loc_Key l) "")
  end.
Definition Needed (r : Request) (obj : string) : bool :=
  existsb (fun n => String.eqb n obj) (req_Needs r).

(** ** Parts of a policy *)

Definition ArchiveWhen : list string := ["allow"; "deny"].

(** The first loop: the names seen, or the word that is refused. *)
Fixpoint archive_seen `{UnicodeLower} (words : list string) (seen : gset string) : result error (gset string) :=
  match words with
  | [] => Ok seen
  | word :: words =>
      let name := ToLower (TrimSpace word) in
      check reject_if (negb (String.eqb name "allow") && negb (String.eqb name "deny"))
        (Errorf "when accepts only allow and deny, got %q" [word]);;
      check reject_if (bool_decide (name ∈ seen)) (Errorf "when lists %q twice" [name]);;
      archive_seen words ({[name]} ∪ seen)
  end.
Definition CheckArchiveWhen `{UnicodeLower} (words : list string) : result error (list string) :=
  let* seen := archive_seen words ∅ in
  Ok (filter (fun name => name ∈ seen) ArchiveWhen).

Definition CheckObjectSpec (name : string) (o : option ObjectSpec) : result error unit :=
  match o with
  | None => Ok tt
  | Some o =>
      check reject_if (negb (String.eqb (spec_Set o) "") && negb (String.eqb (spec_Set o) "on")
                       && negb (String.eqb (spec_Set o) "off"))
        (Errorf "%s.set must be on or off, got %q" [name; spec_Set o]);;
      check reject_if (spec_Limit o <? 0) (Errorf "%s.limit must not be negative" [name]);;
      reject_if (negb (String.eqb (spec_Source o) "") && negb (String.eqb (spec_Source o) "store")
                 && negb (String.eqb (spec_Source o) "original"))
        (Errorf "%s.source must be store or original, got %q" [name; spec_Source o])
  end.

Definition MarkerMax : Z := 128.
Definition is_space (c : option ascii) : bool :=
  match c with Some c => Ascii.eqb c " " | None => false end.
Definition first_char (s : string) : option ascii :=
  match s with EmptyString => None | String c _ => Some c end.
Definition CheckMarker (marker : string) : result error unit :=
  check reject_if (String.eqb marker "") (errorf "mark needs a marker");;
  check reject_if (MarkerMax <? Z.of_nat (String.length marker))
    (Errorf "marker is longer than %d bytes" [FormatInt MarkerMax]);;
  check reject_if (negb (string_forallb (fun c => negb ((code c <? 32) || (code c =? 127))) marker))
    (errorf "marker has a control character");;
  reject_if (is_space (first_char marker) || is_space (last_char marker))
    (errorf "marker has a leading or trailing space").

(** ** Parsing a request *)

Record ParseError : Type := MkParseError { pe_RID : string; pe_Err : error }.

Definition validate (l : option Locator) (obj : string) : result error unit :=
  match l with
  | None => Ok tt
  | Some l =>
      check reject_if (negb (String.eqb (loc_Unavailable l) "")
                       && (negb (String.eqb (loc_Driver l) "") || negb (String.eqb (loc_Key l) "")))
        (Errorf "store.%s mixes unavailable with an address" [obj]);;
      reject_if (negb (Bool.eqb (String.eqb (loc_Driver l) "") (String.eqb (loc_Key l) "")))
        (Errorf "store.%s names a store without driver or key" [obj])
  end.

(** [\s] and the hexadecimal class of [ridPattern]. *)
Definition regexp_space (c : ascii) : bool := (code c =? 32) || (code c =? 9) || (code c =? 10)
  || (code c =? 12) || (code c =? 13).
Definition hex_char (c : ascii) : bool := is_digit c || in_range "a" "f" c || in_range "A" "F" c.
Definition quote_char (c : ascii) : bool := code c =? 34.
Fixpoint skip_spaces (s : string) : string :=
  match s with
  | String c s' => if regexp_space c then skip_spaces s' else s
  | EmptyString => s
  end.
(** The hexadecimal digits up to a closing quote, 1 to 32 of them. *)
Fixpoint rid_digits (room : nat) (s : string) : option string :=
  match s with
  | String c s' =>
      if quote_char c then Some ""
      else match room with
           | S room => if hex_char c then String c <$> rid_digits room s' else None
           | O => None
           end
  | EmptyString => None
  end.
(** A match of [ridPattern] at the start of the text. *)
Definition rid_here (s : string) : option string :=
  match s with
  | String q1 (String "r" (String "i" (String "d" (String q2 s)))) =>
      if quote_char q1 && quote_char q2 then
        match skip_spaces s with
        | String ":" s =>
            match skip_spaces s with
            | String q s =>
                if quote_char q then
                  match rid_digits 32 s with
                  | Some (String c d) => Some (String c d)
                  | _ => None
                  end
                else None
            | _ => None
            end
        | _ => None
        end
      else None
  | _ => None
  end.
Fixpoint sniffRID (payload : string) : string :=
  match rid_here payload with
  | Some rid => rid
  | None => match payload with EmptyString => "" | String _ s => sniffRID s end
  end.

Definition phase_known (p : string) : bool :=
  String.eqb p PhaseRequest || String.eqb p PhaseResponse || String.eqb p PhaseFrame.

Section parse.
(** [json.Unmarshal] into a [Request], and the order in which Go ranges over
    the map of the three locators. *)
Context (unmarshal : string -> result error Request) (order : list string).

Definition locator_of (s : Store) (obj : string) : option Locator :=
  if String.eqb obj NeedHeaders then store_Headers s
  else if String.eqb obj NeedArgs then store_Args s
  else if String.eqb obj NeedBody then store_Body s else None.
Fixpoint validate_all (s : Store) (names : list string) : result error unit :=
  match names with
  | [] => Ok tt
  | name :: names => check validate (locator_of s name) name;; validate_all s names
  end.

Definition Parse (payload : string) : result ParseError Request :=
  match unmarshal payload with
  | Err e => Err (MkParseError (sniffRID payload) (wrapf "invalid json: " [] e))
  | Ok req =>
      let fail e := MkParseError (req_RID req) e in
      check reject_if (String.eqb (req_RID req) "")
        (MkParseError "" (errorf "field rid is missing or empty"));;
      check reject_if (req_V req =? 0) (fail (errorf "field v is missing"));;
      check reject_if (String.eqb (req_Inspector req) "")
        (fail (errorf "field inspector is missing or empty"));;
      check reject_if (negb (phase_known (req_Phase req)))
        (fail (Errorf "field phase is invalid: %q" [req_Phase req]));;
      check reject_if (String.eqb (http_Method (req_HTTP req)) "" || String.eqb (http_URI (req_HTTP req)) "")
        (fail (errorf "section http has no method or uri"));;
      check map_err fail (validate_all (req_Store req) order);;
      Ok req
  end.
End parse.

(** ** Replies *)

Definition NewReply (req : Request) (verdict : string) : Reply :=
  MkReply (req_V req) (req_RID req) (req_Inspector req) verdict None None None None [].
Definition with_reason (r : Reply) (reason : Reason) : Reply :=
  MkReply (reply_V r) (reply_RID r) (reply_Inspector r) (reply_Verdict r) (Some reason)
    (reply_Response r) (reply_Redirect r) (reply_Headers r) (reply_Actions r).
Definition ErrorReply (req : Request) (code : string) : Reply :=
  with_reason (NewReply req VerdictError) (MkReason code "" "" "" 0).
Definition ShedReply (req : Request) (code : string) : Reply :=
  with_reason (ErrorReply req code) (MkReason code ClassOverload "" "" 0).
Definition FallbackReply (rid inspector code : string) : Reply :=
  MkReply Version rid inspector VerdictError (Some (MkReason code "" "" "" 0)) None None None [].

Example sniff_examples :
  let q := String "034" EmptyString in
  sniffRID ("{" +:+ q +:+ "rid" +:+ q +:+ ": " +:+ q +:+ "0aF" +:+ q +:+ ", bad") = "0aF"
  /\ sniffRID ("{" +:+ q +:+ "rid" +:+ q +:+ ": 7}") = ""
  /\ sniffRID (q +:+ "rid" +:+ q +:+ ":" +:+ q +:+ q) = "".
Proof. by vm_compute. Qed.

(** ** What a parsed request is *)

(** An address and a reason for having none exclude each other, and an
    address is whole. *)
Definition locator_ok (l : option Locator) : Prop :=
  match l with
  | None => True
  | Some l =>
      (loc_Driver l = "" <-> loc_Key l = "")
      /\ (loc_Unavailable l <> "" -> loc_Driver l = "" /\ loc_Key l = "")
  end.

Lemma validate_ok l obj : validate l obj = Ok tt <-> locator_ok l.
Proof.
  destruct l as [l|]; [|done]. unfold validate, locator_ok. rewrite reject_bind, reject_if_ok.
  destruct (String.eqb_spec (loc_Unavailable l) ""), (String.eqb_spec (loc_Driver l) ""),
    (String.eqb_spec (loc_Key l) ""); simpl; naive_solver.
Qed.

Lemma validate_all_ok s names :
  validate_all s names = Ok tt <-> Forall (fun n => locator_ok (locator_of s n)) names.
Proof.
  induction names as [|n names IH]; simpl; [by split; [intros; apply Forall_nil_2|]|].
  rewrite Forall_cons, <- IH, <- (validate_ok _ n). destruct (validate _ _) as [[]|]; simpl; naive_solver.
Qed.

(** What [Parse] asks of a decoded request. *)
Definition request_ok (r : Request) : Prop :=
  req_RID r <> "" /\ req_V r <> 0 /\ req_Inspector r <> "" /\ phase_known (req_Phase r) = true
  /\ http_Method (req_HTTP r) <> "" /\ http_URI (req_HTTP r) <> ""
  /\ locator_ok (store_Headers (req_Store r)) /\ locator_ok (store_Args (req_Store r))
  /\ locator_ok (store_Body (req_Store r)).

Lemma parse_request_ok unmarshal order payload r :
  order ≡ₚ [NeedHeaders; NeedArgs; NeedBody] -> unmarshal payload = Ok r ->
  (Parse unmarshal order payload = Ok r <-> request_ok r).
Proof.
  intros Ho Hu. unfold Parse. rewrite Hu.
  assert (validate_all (req_Store r) order = Ok tt <->
    locator_ok (store_Headers (req_Store r)) /\ locator_ok (store_Args (req_Store r))
    /\ locator_ok (store_Body (req_Store r))) as Hv.
  { rewrite validate_all_ok, Ho, !Forall_cons, Forall_nil. cbn. tauto. }
  unfold request_ok. rewrite !reject_bind, orb_false_iff, negb_false_iff, !String.eqb_neq, Z.eqb_neq.
  destruct (validate_all _ _) as [[]|e]; cbn [map_err mbind result_bind]; naive_solver.
Qed.


Definition example_request : Request :=
  MkRequest 2 "ab12" "" "request" 0 "ip" 50 None "" (MkConn "192.0.2.1" 1 "" 443 None)
    (MkHTTP "GET" "https" "h" "/" 0 "1.1") ∅ [] (MkStore None None None) (MkRoute "" "" "")
    (MkScore 0 0) [] None.


(** The answers keep the id of the request they answer: a reply, an error
    and a shed reply carry its version, id and inspector; a shed reply and an
    error reply have verdict [error], no actions and no response, and only
    the shed one is of class [overload]. *)
Theorem replies_addressed req verdict c :
  (forall r, r ∈ [NewReply req verdict; ErrorReply req c; ShedReply req c] ->
     reply_V r = req_V req /\ reply_RID r = req_RID req /\ reply_Inspector r = req_Inspector req
     /\ reply_Actions r = [] /\ reply_Response r = None)
  /\ reply_Verdict (ErrorReply req c) = VerdictError /\ reply_Verdict (ShedReply req c) = VerdictError
  /\ (reason_Class <$> reply_Reason (ShedReply req c)) = Some "overload"
  /\ (reason_Class <$> reply_Reason (ErrorReply req c)) = Some "".
Proof.
  split; [|done]. intros r. rewrite !elem_of_cons. intros [-> | [-> | [-> | []%elem_of_nil]]]; done.
Qed.

End Protocol.
