(* ===== verification/Overload.v ===== *)
(** * The overload threshold of an outcome

    Models [internal/overload/overload.go]. *)

From S2P Require Import Prelude GoStrings Protocol.

#[local] Open Scope Z_scope.

Module Overload.

Definition On : string := "overload".
Definition AtMin : Z := 25.
Definition AtMax : Z := 100.

Definition At (at_ : option Z) : Z := match at_ with None => AtMax | Some v => v end.
Definition Check (at_ : option Z) : result error unit :=
  match at_ with
  | None => Ok tt
  | Some v =>
      reject_if ((v <? AtMin) || (AtMax <? v))
        (Errorf "at %d is out of %d..%d percent of the queue" (map FormatInt [v; AtMin; AtMax]))
  end.
Definition Fires (at_ fill : Z) (shed : bool) : bool :=
  if shed then true else (at_ <? AtMax) && (at_ <=? fill).

(** A threshold that [Check] accepts fires on every request that is
    dropped; below 100 it also fires as soon as the queue is that full; and
    100, accepted as a threshold like any other, never fires on a queue that
    is full, only on a drop - as if no threshold had been written. *)
Theorem overload_threshold at_ fill shed :
  Check at_ = Ok tt ->
  25 <= At at_ <= 100
  /\ (Fires (At at_) fill shed = true <-> shed = true \/ (At at_ <> 100 /\ At at_ <= fill))
  /\ Fires (At (Some 100)) fill shed = Fires (At None) fill shed.
Proof.
  intros Hc. assert (25 <= At at_ <= 100) as Hr.
  { unfold Check, reject_if in Hc. destruct at_ as [v|]; [|unfold At, AtMax; lia].
    destruct (Z.ltb_spec v AtMin), (Z.ltb_spec AtMax v); try done; unfold AtMin, AtMax in *; cbn; lia. }
  split; [done|]. split; [|done]. unfold Fires. destruct shed; [naive_solver|].
  rewrite andb_true_iff, Z.ltb_lt, Z.leb_le. unfold AtMax.
  split; [intros [? ?]; right; lia|intros [?|[? ?]]; [done|lia]].
Qed.

Lemma overload_threshold_witness : Check (Some 60) = Ok tt /\ Fires (At (Some 60)) 75 false = true.
Proof. split; [reflexivity|]. apply (overload_threshold (Some 60)); [reflexivity|]. right. cbn. lia. Defined.

End Overload.
