(* ===== verification/Policy.v ===== *)
(** * Profiles and sets of the policy

    Models [internal/policy/policy.go]: what a rule, an outcome and a set are
    once normalised, and every check on the way from the YAML of a generation
    to them. The YAML decoder is a parameter. *)

From S2P Require Import Prelude GoStrings Protocol Overload.

#[local] Open Scope Z_scope.

Module Policy.
Import Protocol.

Definition DefaultName : string := "default".
Definition ActionAllow : string := "allow".
Definition ActionDeny : string := "deny".
Definition ActionRequest : string := "request".
Definition ActionList : string := "list".
Definition OnWhite : string := "white".
Definition OnBlack : string := "black".
Definition OnNone : string := "none".

Definition knownOn (on : string) : bool :=
  String.eqb on OnWhite || String.eqb on OnBlack || String.eqb on OnNone.
Definition Terminal (action : string) : bool :=
  String.eqb action ActionAllow || String.eqb action ActionDeny.

(** The axes of a verb; [None] for a verb the map does not have. *)
Definition verbs (do : string) : option (list string) :=
  match do with
  | "challenge" | "threshold" | "skip" | "mutate" | "mark" | "score" => Some ["request"]
  | "reauth" => Some ["session"]
  | "note" => Some ["request"; "ip"; "asn"; "session"]
  | "active" | "passive" | "off" | "vote" => Some ["request"; "conn"]
  | "audit" | "archive" => Some ["request"; "response"]
  | _ => None
  end.

Definition controlVerb (do : string) : bool :=
  String.eqb do "active" || String.eqb do "passive" || String.eqb do "off" || String.eqb do "vote".
Definition auditVerb (do : string) : bool := String.eqb do "audit" || String.eqb do "archive".
Definition recordVerb (do : string) : bool :=
  auditVerb do || String.eqb do "mark" || String.eqb do "score".

(** ** Data *)

Record recordObjects : Type := MkObjects {
  obj_Headers : option ObjectSpec; obj_Args : option ObjectSpec; obj_Body : option ObjectSpec }.
Definition noObjects : recordObjects := MkObjects None None None.
Definition any (r : recordObjects) : bool :=
  bool_decide (obj_Headers r <> None) || bool_decide (obj_Args r <> None)
  || bool_decide (obj_Body r <> None).

Record Match : Type := MkMatch {
  m_Lists : list string; m_Live : list string; m_Countries : list string; m_Asns : list Z }.
Definition emptyMatch : Match := MkMatch [] [] [] [].
Definition empty (m : Match) : bool :=
  match m_Lists m, m_Live m, m_Countries m, m_Asns m with
  | [], [], [], [] => true
  | _, _, _, _ => false
  end.
Record Set_ : Type := MkSet {
  set_Name : string; set_Match : Match; set_Inverse : bool; set_Exclude : Match }.

(** The fields of a request to a neighbour, which [Rule] and [Outcome] share;
    a number and the flag that it is there are an option. *)
Record Ask : Type := MkAsk {
  To : string; Do : string; Apply : string; Phase : string; Delta : option Z; Value : option Z;
  Counter : string; Marker : string; Group : string; Side : string; Objects : recordObjects;
  When : list string }.
Definition noAsk : Ask := MkAsk "" "" "" "" None None "" "" "" "" noObjects [].

Record Rule : Type := MkRule {
  r_Set : string; r_Dataset : string; r_Not : bool; r_Action : string; r_Response : string;
  r_Code : string; r_Ask : Ask; r_List : string; r_Write : string; r_TTL : Z }.
Record Outcome : Type := MkOutcome {
  o_On : string; o_At : Z; o_Ask : Ask; o_List : string; o_Write : string; o_TTL : Z; o_Code : string }.
Record Profile : Type := MkProfile {
  p_Name : string; p_Rules : list Rule; p_Default : string; p_DefaultCode : string;
  p_Outcomes : list Outcome }.
Definition Matches (o : Outcome) (where_ : string) : bool := String.eqb (o_On o) where_.

(** The structures that YAML is decoded into. *)
Record fileSet : Type := MkFileSet {
  fs_Match : Match; fs_Inverse : bool; fs_Exclude : Match }.
Record fileAsk : Type := MkFileAsk {
  fa_To : string; fa_Do : string; fa_Apply : string; fa_Phase : string; fa_Delta : option Z;
  fa_Value : option Z; fa_Counter : string; fa_Marker : string; fa_Group : string; fa_Side : string;
  fa_Objects : recordObjects; fa_When : list string }.
Record fileRule : Type := MkFileRule {
  fr_Set : string; fr_Dataset : string; fr_Not : bool; fr_Action : string; fr_Response : string;
  fr_Code : string; fr_Ask : fileAsk; fr_List : string; fr_Write : string; fr_TTL : string }.
Record fileOutcome : Type := MkFileOutcome {
  fo_On : string; fo_At : option Z; fo_Ask : fileAsk; fo_List : string; fo_Write : string;
  fo_TTL : string; fo_Code : string }.
Record fileProfile : Type := MkFileProfile {
  fp_Rules : list fileRule; fp_Default : string; fp_Code : string; fp_Outcomes : list fileOutcome }.

(** ** Checks of single values *)

Definition letter_or_digit (c : ascii) : bool := is_upper c || is_lower c || is_digit c.
Fixpoint name_rest_ok (s : string) : bool :=
  match s with
  | EmptyString => true
  | String c s =>
      (letter_or_digit c || Ascii.eqb c "." || Ascii.eqb c "_" || Ascii.eqb c "-") && name_rest_ok s
  end.
Definition counterNameOK (name : string) : bool :=
  match name with
  | EmptyString => false
  | String c s => if (64 <? String.length name)%nat then false else letter_or_digit c && name_rest_ok s
  end.

Fixpoint code_rest_ok (s : string) : bool :=
  match s with
  | EmptyString => true
  | String c s => (is_upper c || is_digit c || Ascii.eqb c "_") && code_rest_ok s
  end.
Definition checkCode (code : string) : result error unit :=
  match code with
  | EmptyString => Ok tt
  | String c s =>
      check reject_if (64 <? String.length code)%nat (errorf "code is longer than 64 bytes");;
      reject_if (negb (is_upper c && code_rest_ok s)) (Errorf "code %q is not [A-Z][A-Z0-9_]*" [code])
  end.

Definition WriteAddr : string := "addr".
Definition WriteNet : string := "net".
Definition WriteNetAll : string := "net_all".
Definition WriteASN : string := "asn".

(** The multiplier of a suffix. *)
Definition ttl_unit (c : ascii) : option Z :=
  if Ascii.eqb c "s" then Some 1 else if Ascii.eqb c "m" then Some 60
  else if Ascii.eqb c "h" then Some 3600 else if Ascii.eqb c "d" then Some 86400 else None.
(** Seconds; the product is a Go [int]. *)
Definition parseTTL (s : string) : result error Z :=
  let s := TrimSpace s in
  match last_char s with
  | None => Ok 0
  | Some c =>
      let '(mult, s) := match ttl_unit c with Some m => (m, drop_last s) | None => (1, s) end in
      match Atoi s with
      | None => Err (errorf "bad ttl")
      | Some n => if n <? 0 then Err (errorf "bad ttl") else Ok (i64 (n * mult))
      end
  end.

Section policy.
Context `{UnicodeLower}.

Definition lower_trim (s : string) : string := ToLower (TrimSpace s).

Definition parseWrite (raw : string) : result error string :=
  let w := lower_trim raw in
  if String.eqb w "" || String.eqb w WriteAddr then Ok WriteAddr
  else if String.eqb w WriteNet || String.eqb w WriteNetAll || String.eqb w WriteASN then Ok w
  else Err (Errorf "write must be addr, net, net_all or asn, got %q" [raw]).

(** ** Checks of a request *)

Definition checkPhaseAsk (do phase apply : string) : result error unit :=
  if String.eqb phase "" then Ok tt else
  check reject_if (negb (controlVerb do)) (errorf "phase is only for active, passive, vote and off");;
  check reject_if (negb (phase_known phase))
    (Errorf "phase must be request, response or frame, got %q" [phase]);;
  reject_if (String.eqb apply ApplyConn && negb (String.eqb phase PhaseFrame))
    (errorf "apply conn needs phase frame").

Definition checkMutateAsk (do group side : string) : result error unit :=
  if negb (String.eqb do "mutate") then
    reject_if (negb (String.eqb group "")) (errorf "group is only for mutate")
  else
    check reject_if (String.eqb group "") (errorf "mutate needs a group");;
    check reject_if (negb (counterNameOK group)) (Errorf "bad group name %q" [group]);;
    reject_if (negb (String.eqb side "on") && negb (String.eqb side "off"))
      (Errorf "mutate needs side: on or off, got %q" [side]).

(** Neither empty nor a star. *)
Definition named (to : string) : bool := negb (String.eqb to "") && negb (String.eqb to "*").

Definition checkMarkAsk (do to marker : string) : result error unit :=
  if negb (String.eqb do "mark") then
    reject_if (negb (String.eqb marker "")) (errorf "marker is only for mark")
  else
    check reject_if (named to) (errorf "mark takes no to: the module marks the route's own record");;
    CheckMarker marker.

Definition checkAuditAsk (do to apply set : string) (ttl : Z) (objs : recordObjects) (when : list string)
  : result error unit :=
  if negb (auditVerb do) then
    check reject_if (negb (bool_decide (when = [])) || any objs)
      (errorf "when, headers, args and body are only for audit and archive");;
    reject_if (negb (String.eqb set "") && negb (String.eqb do "mutate"))
      (errorf "set is only for mutate, audit and archive")
  else
    check reject_if (named to) (Errorf "%s takes no to: the module writes the route's own record" [do]);;
    check reject_if (negb (String.eqb set "on") && negb (String.eqb set "off"))
      (Errorf "%s needs set: on or off, got %q" [do; set]);;
    check reject_if (String.eqb set "off" && (negb (ttl =? 0) || negb (bool_decide (when = [])) || any objs))
      (errorf "ttl, when and objects are only for set on");;
    check reject_if (String.eqb do "audit" && (negb (ttl =? 0) || negb (bool_decide (when = []))))
      (errorf "ttl and when are only for archive");;
    let* _ := CheckArchiveWhen when in
    check reject_if (String.eqb apply "response" && bool_decide (obj_Args objs <> None))
      (errorf "args has no meaning for the response record");;
    check CheckObjectSpec "headers" (obj_Headers objs);;
    check CheckObjectSpec "args" (obj_Args objs);;
    CheckObjectSpec "body" (obj_Body objs).

Definition allowedAxis (axes : list string) (axis : string) : bool :=
  existsb (fun a => String.eqb a axis) axes.

(** The axis of a request: the one written, or the first of the verb when it
    has no other or writes a record. [shown] is the verb as the error quotes
    it. *)
Definition ask_axis (do shown apply : string) : result error string :=
  match verbs do with
  | None => Err (Errorf "unknown verb %q" [shown])
  | Some axes =>
      let* apply :=
        if String.eqb apply "" then
          check reject_if (negb (length axes =? 1)%nat && negb (recordVerb do))
            (Errorf "%s without apply" [do]);;
          Ok (default "" (head axes))
        else Ok apply in
      check reject_if (negb (allowedAxis axes apply)) (Errorf "verb %q does not take apply %q" [do; apply]);;
      Ok apply
  end.

Definition check_range (v : option Z) (lo hi : Z) (e : error) : result error unit :=
  match v with
  | None => Ok tt
  | Some v => reject_if ((v <? lo) || (hi <? v)) e
  end.

(** From the numbers to the counter. *)
Definition ask_numbers (do to : string) (delta value : option Z) (counter : string) : result error unit :=
  check check_range delta (-100) 900 (errorf "delta is out of -100..900 percent");;
  check check_range value (-100) 100 (errorf "value is out of -100..100 percent");;
  check reject_if (String.eqb do "threshold" && bool_decide (delta = None)) (errorf "threshold without delta");;
  check reject_if (controlVerb do && negb (named to))
    (Errorf "%s needs to: the module switches one call, not everyone" [do]);;
  check reject_if (String.eqb do "score" && named to)
    (errorf "score takes no to: the module adds to the route's own sum");;
  check reject_if (String.eqb do "score" && (default 0 value =? 0)) (errorf "score needs a non-zero value");;
  check reject_if (negb (String.eqb counter "") && negb (String.eqb do "note"))
    (errorf "counter is only for note");;
  reject_if (negb (String.eqb counter "") && negb (counterNameOK counter))
    (Errorf "bad counter name %q" [counter]).

(** The checks that end both functions. *)
Definition ask_checks (a : Ask) (ttl : Z) : result error unit :=
  check checkMutateAsk (Do a) (Group a) (Side a);;
  check checkPhaseAsk (Do a) (Phase a) (Apply a);;
  check checkMarkAsk (Do a) (To a) (Marker a);;
  checkAuditAsk (Do a) (To a) (Apply a) (Side a) ttl (Objects a) (When a).

Definition make_ask (src : fileAsk) (apply : string) : Ask :=
  MkAsk (TrimSpace (fa_To src)) (lower_trim (fa_Do src)) apply (TrimSpace (fa_Phase src))
    (fa_Delta src) (fa_Value src) (TrimSpace (fa_Counter src)) (TrimSpace (fa_Marker src))
    (TrimSpace (fa_Group src)) (lower_trim (fa_Side src)) (fa_Objects src) (fa_When src).

Definition normalizeOutcome (src : fileOutcome) : result error Outcome :=
  let on := lower_trim (fo_On src) in
  let list_ := TrimSpace (fo_List src) in
  let a := fo_Ask src in
  let* at_ :=
    if String.eqb on Overload.On then
      check Overload.Check (fo_At src);; Ok (Overload.At (fo_At src))
    else if negb (knownOn on) then Err (Errorf "on must be white, black, none or overload, got %q" [fo_On src])
    else if bool_decide (fo_At src <> None) then Err (errorf "at is only for on: overload")
    else Ok 0 in
  let to := TrimSpace (fa_To a) in
  let do := lower_trim (fa_Do a) in
  check reject_if (Bool.eqb (String.eqb do "") (String.eqb list_ ""))
    (errorf "exactly one of do or list is required");;
  check checkCode (fo_Code src);;
  if negb (String.eqb list_ "") then
    check reject_if (negb (String.eqb (fa_Apply a) "") || bool_decide (fa_Delta a <> None)
                     || bool_decide (fa_Value a <> None) || negb (String.eqb (fa_Counter a) ""))
      (errorf "apply, delta, value and counter are only for do");;
    let* ttl := parseTTL (fo_TTL src) in
    let* write := parseWrite (fo_Write src) in
    Ok (MkOutcome on at_ (MkAsk to do "" "" None None "" "" "" "" noObjects []) list_ write ttl (fo_Code src))
  else
    check reject_if (negb (String.eqb (TrimSpace (fo_Write src)) "")) (errorf "write is only for a list write");;
    check reject_if (negb (String.eqb (fo_TTL src) "") && negb (String.eqb do "archive"))
      (errorf "ttl is only for list and archive");;
    let* apply := ask_axis do do (lower_trim (fa_Apply a)) in
    check ask_numbers do to (fa_Delta a) (fa_Value a) (TrimSpace (fa_Counter a));;
    let* ttl := if String.eqb (fo_TTL src) "" then Ok 0 else parseTTL (fo_TTL src) in
    let ask := make_ask a apply in
    check ask_checks ask ttl;;
    Ok (MkOutcome on at_ ask "" "" ttl (fo_Code src)).

(** The part of [normalizeRule] that the action chooses: the request, the
    list, its write and its time to live. *)
Definition rule_action (src : fileRule) (action : string) : result error (Ask * string * string * Z) :=
  let a := fr_Ask src in
  if Terminal action then Ok (noAsk, "", "", 0)
  else if String.eqb action ActionRequest then
    let do := lower_trim (fa_Do a) in
    let* apply := ask_axis do (fa_Do a) (lower_trim (fa_Apply a)) in
    check checkCode (fr_Code src);;
    check ask_numbers do (TrimSpace (fa_To a)) (fa_Delta a) (fa_Value a) (TrimSpace (fa_Counter a));;
    let* ttl :=
      if String.eqb (fr_TTL src) "" then Ok 0 else
      check reject_if (negb (String.eqb do "archive")) (errorf "ttl is only for list and archive");;
      parseTTL (fr_TTL src) in
    let ask := make_ask a apply in
    check ask_checks ask ttl;;
    Ok (ask, "", "", ttl)
  else if String.eqb action ActionList then
    let list_ := TrimSpace (fr_List src) in
    check reject_if (String.eqb list_ "") (errorf "list action without a dataset");;
    let* ttl := parseTTL (fr_TTL src) in
    let* write := parseWrite (fr_Write src) in
    Ok (noAsk, list_, write, ttl)
  else Err (Errorf "unknown action %q" [fr_Action src]).

Definition normalizeRule (src : fileRule) : result error Rule :=
  let set := lower_trim (fr_Set src) in
  let dataset := lower_trim (fr_Dataset src) in
  let action := lower_trim (fr_Action src) in
  check
    (if Terminal action then
       check reject_if (String.eqb set "") (Errorf "%s needs set" [action]);;
       reject_if (negb (String.eqb dataset "")) (errorf "dataset is only for request and list")
     else
       check reject_if (String.eqb dataset "") (Errorf "%s needs dataset" [action]);;
       reject_if (negb (String.eqb set "")) (errorf "set is only for allow and deny"));;
  check reject_if (fr_Not src && Terminal action) (errorf "not is only for request and list");;
  let* '(ask, list_, write, ttl) := rule_action src action in
  check reject_if (negb (String.eqb action ActionList) && negb (String.eqb (TrimSpace (fr_Write src)) ""))
    (errorf "write is only for the list action");;
  Ok (MkRule set dataset (fr_Not src) action (fr_Response src) (fr_Code src) ask list_ write ttl).

(** ** Sets and profiles *)

Fixpoint names_go (label : string) (names : list string) (seen : gset string) (out : list string)
  : result error (list string) :=
  match names with
  | [] => Ok out
  | name :: names =>
      let name := lower_trim name in
      check reject_if (String.eqb name "") (Errorf "%s: empty name" [label]);;
      check reject_if (bool_decide (name ∈ seen)) (Errorf "%s: duplicate %q" [label; name]);;
      names_go label names ({[name]} ∪ seen) (out ++ [name])
  end.
Definition normalizeNames (label : string) (names : list string) : result error (list string) :=
  names_go label names ∅ [].

Fixpoint asns_go (label : string) (asns : list Z) (seen : gset Z) (out : list Z) : result error (list Z) :=
  match asns with
  | [] => Ok out
  | asn :: asns =>
      check reject_if (bool_decide (asn ∈ seen)) (Errorf "%s: duplicate asn %d" [label; FormatInt asn]);;
      asns_go label asns ({[asn]} ∪ seen) (out ++ [asn])
  end.

Definition normalizeMatch (label : string) (src : Match) : result error Match :=
  let* lists := normalizeNames (label +:+ ".lists") (m_Lists src) in
  let* live := normalizeNames (label +:+ ".live") (m_Live src) in
  let* countries := normalizeNames (label +:+ ".countries") (m_Countries src) in
  let* asns := asns_go label (m_Asns src) ∅ [] in
  Ok (MkMatch lists live countries asns).

(** The loop over the decoded sets, in the order the range takes. *)
Fixpoint sets_go (f : list (string * fileSet)) (out : gmap string Set_) : result error (gmap string Set_) :=
  match f with
  | [] => Ok out
  | (name, spec) :: f =>
      let key := lower_trim name in
      check reject_if (String.eqb key "") (errorf "sets: empty set name");;
      check reject_if (bool_decide (is_Some (out !! key))) (Errorf "sets: duplicate set %q" [key]);;
      let* main := normalizeMatch key (fs_Match spec) in
      let* ex := normalizeMatch (key +:+ ".exclude") (fs_Exclude spec) in
      check reject_if (empty main) (Errorf "sets: %s is empty" [key]);;
      sets_go f (<[key := MkSet key main (fs_Inverse spec) ex]> out)
  end.

(** [for i, src := range ...] with the position in the error. *)
Fixpoint normalize_all {A B} (what name : string) (f : A -> result error B) (i : Z) (srcs : list A)
  : result error (list B) :=
  match srcs with
  | [] => Ok []
  | src :: srcs =>
      let* b := map_err (wrapf ("profile %q " +:+ what +:+ " %d: ") [name; FormatInt (i + 1)]) (f src) in
      let* bs := normalize_all what name f (i + 1) srcs in
      Ok (b :: bs)
  end.

Section yaml.
(** [yaml.Unmarshal] of a file that is not empty. *)
Context (yaml_sets : string -> result error (list (string * fileSet))).
Context (yaml_profile : string -> result error fileProfile).

Definition ParseSets (raw : string) : result error (gmap string Set_) :=
  let* f :=
    match raw with
    | EmptyString => Ok []
    | _ => map_err (wrapf "sets: " []) (yaml_sets raw)
    end in
  sets_go f ∅.

Definition ParseProfile (raw name : string) : result error Profile :=
  let* f :=
    match raw with
    | EmptyString => Ok (MkFileProfile [] "" "" [])
    | _ => map_err (wrapf "profile %q: " [name]) (yaml_profile raw)
    end in
  let* def :=
    if String.eqb (fp_Default f) "" then Ok ActionAllow
    else if negb (Terminal (fp_Default f))
      then Err (Errorf "profile %q: default action %q is not terminal" [name; fp_Default f])
    else Ok (fp_Default f) in
  let* rules := normalize_all "rule" name normalizeRule 0 (fp_Rules f) in
  let* outcomes := normalize_all "outcome" name normalizeOutcome 0 (fp_Outcomes f) in
  Ok (MkProfile name rules def (fp_Code f) outcomes).
End yaml.
End policy.

(** ** What each check means *)

(** Splits a chain of checks that succeeded. *)
Ltac passed H :=
  lazymatch type of H with
  | mbind _ (reject_if _ _) = Ok _ =>
      let H' := fresh "Hc" in apply reject_bind in H as [H' H]; passed H
  | reject_if _ _ = Ok _ => apply reject_if_ok in H
  | mbind _ _ = Ok _ =>
      let x := fresh "x" in let H' := fresh "Hr" in
      apply result_bind_ok in H as (x & H' & H); passed H
  | _ => idtac
  end.
(** Case analysis on the tests of the hypotheses. *)
Ltac by_tests :=
  repeat match goal with
    | H : context [String.eqb ?a ?b] |- _ => destruct (String.eqb_spec a b)
    | |- context [String.eqb ?a ?b] => destruct (String.eqb_spec a b)
    end; simpl in *; naive_solver.

Lemma checkPhaseAsk_ok do phase apply :
  checkPhaseAsk do phase apply = Ok tt ->
  phase <> "" -> controlVerb do = true /\ phase_known phase = true
  /\ (apply = ApplyConn -> phase = PhaseFrame).
Proof.
  unfold checkPhaseAsk. destruct (String.eqb_spec phase ""); [done|]. intros E _. passed E.
  apply negb_false_iff in Hc, Hc0. split_and!; [done|done|]. by_tests.
Qed.

Lemma checkMutateAsk_ok do group side :
  checkMutateAsk do group side = Ok tt ->
  (group <> "" -> do = "mutate")
  /\ (do = "mutate" -> counterNameOK group = true /\ (side = "on" \/ side = "off")).
Proof.
  unfold checkMutateAsk. destruct (String.eqb_spec do "mutate"); cbn [negb]; intros E; passed E.
  - apply negb_false_iff in Hc0. split; [done|]. intros _. split; [done|]. by_tests.
  - by_tests.
Qed.

Lemma named_false to : named to = false <-> to = "" \/ to = "*".
Proof. unfold named. by_tests. Qed.

Lemma checkMarkAsk_ok do to marker :
  checkMarkAsk do to marker = Ok tt ->
  (marker <> "" -> do = "mark") /\ (do = "mark" -> named to = false /\ CheckMarker marker = Ok tt).
Proof.
  unfold checkMarkAsk. destruct (String.eqb_spec do "mark"); cbn [negb]; intros E; passed E.
  - done.
  - by_tests.
Qed.

Lemma any_false o : any o = false <-> o = noObjects.
Proof.
  unfold any. destruct o as [[|] [|] [|]]; simpl; rewrite ?bool_decide_eq_true_2 by done;
    repeat (rewrite bool_decide_eq_false_2 by (by intros H; apply H)); simpl; rewrite ?orb_true_r; naive_solver.
Qed.

Lemma checkAuditAsk_ok `{UnicodeLower} do to apply set ttl objs when :
  checkAuditAsk do to apply set ttl objs when = Ok tt ->
  if auditVerb do then
    named to = false /\ (set = "on" \/ set = "off") /\ is_ok (CheckArchiveWhen when) = true
    /\ (set = "off" \/ do = "audit" -> ttl = 0 /\ when = [])
    /\ (set = "off" -> objs = noObjects)
    /\ (apply = "response" -> obj_Args objs = None)
    /\ CheckObjectSpec "headers" (obj_Headers objs) = Ok tt
    /\ CheckObjectSpec "args" (obj_Args objs) = Ok tt /\ CheckObjectSpec "body" (obj_Body objs) = Ok tt
  else when = [] /\ objs = noObjects /\ (set <> "" -> do = "mutate").
Proof.
  unfold checkAuditAsk. destruct (auditVerb do); cbn [negb]; intros E; passed E.
  - destruct x0, x1. rewrite Hr. apply andb_false_iff in Hc1, Hc2, Hc3.
    rewrite !orb_false_iff, !negb_false_iff, Z.eqb_eq, bool_decide_eq_true, any_false in Hc1.
    rewrite !orb_false_iff, !negb_false_iff, Z.eqb_eq, bool_decide_eq_true in Hc2.
    rewrite bool_decide_eq_false, String.eqb_neq in Hc3. rewrite !String.eqb_neq in Hc1, Hc2.
    split; [done|]. split; [by_tests|]. split; [done|].
    split_and!; [naive_solver|naive_solver| |done|done|done].
    intros ->. destruct Hc3 as [?|Hn]; [done|]. by destruct (obj_Args objs); [exfalso; apply Hn|].
  - apply orb_false_iff in Hc as [Hw Ho]. rewrite negb_false_iff, bool_decide_eq_true in Hw.
    rewrite any_false in Ho. split_and!; [done|done|]. by_tests.
Qed.

Lemma ask_axis_ok do shown apply r :
  ask_axis do shown apply = Ok r -> exists axes, verbs do = Some axes /\ r ∈ axes /\ (apply <> "" -> r = apply).
Proof.
  unfold ask_axis. destruct (verbs do) as [axes|]; [|done]. intros E.
  apply result_bind_ok in E as (a & Ea & E). passed E. injection E as <-.
  apply negb_false_iff, existsb_exists in Hc as (v & Hv & ->%String.eqb_eq).
  exists axes. split; [done|]. split; [by apply list_elem_of_In|]. intros Hne.
  destruct (String.eqb_spec apply ""); [done|]. congruence.
Qed.

Lemma check_range_ok v lo hi e :
  check_range v lo hi e = Ok tt -> forall x, v = Some x -> lo <= x <= hi.
Proof.
  intros H x ->. cbn in H. apply reject_if_ok, orb_false_iff in H as [?%Z.ltb_ge ?%Z.ltb_ge]. lia.
Qed.

Lemma ask_numbers_ok do to delta value counter :
  ask_numbers do to delta value counter = Ok tt ->
  (forall d, delta = Some d -> -100 <= d <= 900) /\ (forall v, value = Some v -> -100 <= v <= 100)
  /\ (do = "threshold" -> delta <> None) /\ (controlVerb do = true -> named to = true)
  /\ (do = "score" -> named to = false /\ exists v, value = Some v /\ v <> 0)
  /\ (counter <> "" -> do = "note" /\ counterNameOK counter = true).
Proof.
  unfold ask_numbers. intros E. apply result_bind_ok in E as ([] & E1 & E).
  apply result_bind_ok in E as ([] & E2 & E). passed E.
  apply andb_false_iff in Hc, Hc0, Hc1, Hc2, Hc3, E.
  rewrite !String.eqb_neq, ?bool_decide_eq_false, ?negb_false_iff, ?String.eqb_eq, ?Z.eqb_neq in *.
  split_and!.
  - by eapply check_range_ok.
  - by eapply check_range_ok.
  - by destruct Hc.
  - intros Hv. destruct Hc0; congruence.
  - intros Hs. destruct Hc1; [done|]. split; [done|]. destruct Hc2; [done|].
    destruct value as [v|]; [by exists v|done].
  - intros Hn. destruct Hc3; [done|]. destruct E; done.
Qed.

(** ** Accepted requests *)

(** What the module can carry out: a known verb on one of its axes, numbers in
    range, and the fields that the verb takes, no others. *)
Record ask_ok `{UnicodeLower} (a : Ask) (ttl : Z) : Prop := {
  ok_axis : exists axes, verbs (Do a) = Some axes /\ Apply a ∈ axes;
  ok_delta : forall d, Delta a = Some d -> -100 <= d <= 900;
  ok_value : forall v, Value a = Some v -> -100 <= v <= 100;
  ok_threshold : Do a = "threshold" -> Delta a <> None;
  ok_control : controlVerb (Do a) = true -> named (To a) = true;
  ok_score : Do a = "score" -> named (To a) = false /\ exists v, Value a = Some v /\ v <> 0;
  ok_counter : Counter a <> "" -> Do a = "note" /\ counterNameOK (Counter a) = true;
  ok_group : (Group a <> "" -> Do a = "mutate")
    /\ (Do a = "mutate" -> counterNameOK (Group a) = true /\ (Side a = "on" \/ Side a = "off"));
  ok_phase : Phase a <> "" -> controlVerb (Do a) = true /\ phase_known (Phase a) = true
    /\ (Apply a = ApplyConn -> Phase a = PhaseFrame);
  ok_marker : (Marker a <> "" -> Do a = "mark")
    /\ (Do a = "mark" -> named (To a) = false /\ CheckMarker (Marker a) = Ok tt);
  ok_record : checkAuditAsk (Do a) (To a) (Apply a) (Side a) ttl (Objects a) (When a) = Ok tt;
  ok_ttl : ttl <> 0 -> Do a = "archive" }.

Lemma ask_accepted `{UnicodeLower} src apply ttl :
  let a := make_ask src apply in
  (exists axes, verbs (Do a) = Some axes /\ apply ∈ axes) ->
  ask_numbers (Do a) (To a) (fa_Delta src) (fa_Value src) (Counter a) = Ok tt ->
  (ttl <> 0 -> Do a = "archive") -> ask_checks a ttl = Ok tt ->
  ask_ok a ttl.
Proof.
  cbv zeta. intros Hax Hn Ht Hc. set (a := make_ask src apply) in *.
  destruct (ask_numbers_ok _ _ _ _ _ Hn) as (H1 & H2 & H3 & H4 & H5 & H6).
  unfold ask_checks in Hc. passed Hc. destruct x, x0, x1. split; try done.
  - by apply checkMutateAsk_ok.
  - by apply checkPhaseAsk_ok.
  - by apply checkMarkAsk_ok.
Qed.

Lemma parseWrite_ok `{UnicodeLower} raw w :
  parseWrite raw = Ok w -> w ∈ [WriteAddr; WriteNet; WriteNetAll; WriteASN].
Proof.
  unfold parseWrite. destruct (_ || _); [intros [= <-]; by left|]. destruct (_ || _ || _) eqn:E; [|done].
  intros [= <-]. rewrite !orb_true_iff, !String.eqb_eq in E. rewrite !elem_of_cons. tauto.
Qed.

(** What a rule of a profile can be. *)
Definition rule_ok `{UnicodeLower} (r : Rule) : Prop :=
  (Terminal (r_Action r) = true /\ r_Set r <> "" /\ r_Dataset r = "" /\ r_Not r = false
   /\ r_Ask r = noAsk /\ r_List r = "" /\ r_TTL r = 0)
  \/ (r_Action r = ActionRequest /\ r_Set r = "" /\ r_Dataset r <> "" /\ r_List r = ""
      /\ checkCode (r_Code r) = Ok tt /\ ask_ok (r_Ask r) (r_TTL r))
  \/ (r_Action r = ActionList /\ r_Set r = "" /\ r_Dataset r <> "" /\ r_List r <> ""
      /\ r_Write r ∈ [WriteAddr; WriteNet; WriteNetAll; WriteASN] /\ r_Ask r = noAsk).

Lemma rule_action_ok `{UnicodeLower} src action a l w t :
  rule_action src action = Ok (a, l, w, t) ->
  (Terminal action = true /\ a = noAsk /\ l = "" /\ t = 0)
  \/ (action = ActionRequest /\ l = "" /\ checkCode (fr_Code src) = Ok tt /\ ask_ok a t)
  \/ (action = ActionList /\ l <> "" /\ w ∈ [WriteAddr; WriteNet; WriteNetAll; WriteASN] /\ a = noAsk
      /\ parseTTL (fr_TTL src) = Ok t).
Proof.
  unfold rule_action. destruct (Terminal action); [intros [= <- <- <- <-]; by left|].
  destruct (String.eqb_spec action ActionRequest) as [->|_].
  - intros E. right; left. passed E. destruct x0, x1, x3.
    injection E as <- <- <- <-. destruct (ask_axis_ok _ _ _ _ Hr) as (axes & Hv & Hin & _).
    split_and!; [done|done|done|].
    apply ask_accepted; [by exists axes|done| |done].
    intros Hne. destruct (String.eqb_spec (fr_TTL src) ""); [by injection Hr2 as <-|].
    passed Hr2. by apply negb_false_iff, String.eqb_eq in Hc.
  - destruct (String.eqb_spec action ActionList) as [->|_]; [|done]. intros E. right; right.
    passed E. injection E as <- <- <- <-. apply String.eqb_neq in Hc.
    split_and!; [done|done|by eapply parseWrite_ok|done|done].
Qed.

(** What an outcome of a profile can be. *)
Definition outcome_ok `{UnicodeLower} (o : Outcome) : Prop :=
  (o_On o = Overload.On /\ 25 <= o_At o <= 100 \/ knownOn (o_On o) = true /\ o_At o = 0)
  /\ checkCode (o_Code o) = Ok tt
  /\ (o_List o <> "" /\ Do (o_Ask o) = ""
      /\ o_Write o ∈ [WriteAddr; WriteNet; WriteNetAll; WriteASN]
      \/ o_List o = "" /\ Do (o_Ask o) <> "" /\ ask_ok (o_Ask o) (o_TTL o)).

Lemma overload_check_ok at_ : Overload.Check at_ = Ok tt -> 25 <= Overload.At at_ <= 100.
Proof.
  unfold Overload.Check. destruct at_ as [v|]; [|unfold Overload.At, Overload.AtMax; lia].
  intros E. apply reject_if_ok, orb_false_iff in E as [?%Z.ltb_ge ?%Z.ltb_ge].
  unfold Overload.AtMin, Overload.AtMax in *. cbn. lia.
Qed.

Lemma outcome_at_ok (on : string) (at_ : option Z) (e1 e2 : error) r :
  (if String.eqb on Overload.On then check Overload.Check at_;; Ok (Overload.At at_)
   else if negb (knownOn on) then Err e1
   else if bool_decide (at_ <> None) then Err e2 else Ok 0) = Ok r ->
  on = Overload.On /\ 25 <= r <= 100 \/ knownOn on = true /\ r = 0.
Proof.
  destruct (String.eqb_spec on Overload.On) as [->|_].
  - intros E. passed E. destruct x. injection E as <-. left. split; [done|]. by apply overload_check_ok.
  - destruct (knownOn on); [|done]. destruct (bool_decide _); [done|]. intros [= <-]. by right.
Qed.

(** ** Time to live *)

Lemma parseTTL_shape s t :
  parseTTL s = Ok t ->
  exists n m, 0 <= n /\ m ∈ [1; 60; 3600; 86400] /\ t = i64 (n * m).
Proof.
  unfold parseTTL. destruct (last_char (TrimSpace s)) as [c|].
  2: { intros [= <-]. exists 0, 1. split; [done|]. split; [by left|]. by vm_compute. }
  assert (forall m, ttl_unit c = Some m -> m ∈ [1; 60; 3600; 86400]) as Hm.
  { unfold ttl_unit. intros m. repeat (destruct (Ascii.eqb _ _); [intros [= <-]; rewrite !elem_of_cons; tauto|]). done. }
  destruct (ttl_unit c) as [m|]; destruct (Atoi _) as [n|]; try done;
    destruct (Z.ltb_spec n 0); try done; intros [= <-].
  - exists n, m. auto.
  - exists n, 1. split; [done|]. split; [by left|done].
Qed.

(** ** Sets *)

Definition set_entry `{UnicodeLower} (x : string * fileSet) : result error (string * Set_) :=
  let key := lower_trim x.1 in
  let* main := normalizeMatch key (fs_Match x.2) in
  let* ex := normalizeMatch (key +:+ ".exclude") (fs_Exclude x.2) in
  check reject_if (String.eqb key "" || empty main) (errorf "");;
  Ok (key, MkSet key main (fs_Inverse x.2) ex).

Lemma sets_go_ok `{UnicodeLower} : forall f out r,
  sets_go f out = Ok r <->
  exists es, Forall2 (fun x e => set_entry x = Ok e) f es /\ NoDup es.*1
    /\ (forall k, k ∈ es.*1 -> out !! k = None) /\ r = list_to_map es ∪ out.
Proof.
  induction f as [|[name spec] f IH]; intros out r; cbn [sets_go].
  { split.
    - intros [= <-]. exists []. split_and!; [done|by apply NoDup_nil|by intros k Hk%elem_of_nil|].
      by rewrite list_to_map_nil, (left_id_L ∅ (∪)).
    - intros (es & H1%Forall2_nil_inv_l & _ & _ & ->). subst es.
      by rewrite list_to_map_nil, (left_id_L ∅ (∪)). }
  set (key := lower_trim name). rewrite !reject_bind.
  split.
  - intros (Hk & Hd & E). apply result_bind_ok in E as (main & Em & E).
    apply result_bind_ok in E as (ex & Ex & E). apply reject_bind in E as [He E].
    apply IH in E as (es & H1 & H2 & H3 & ->).
    exists ((key, MkSet key main (fs_Inverse spec) ex) :: es). split_and!.
    + constructor; [|done]. unfold set_entry. cbn [fst snd]. fold key. rewrite Em. cbn [mbind result_bind].
      rewrite Ex. cbn [mbind result_bind]. by rewrite Hk, He.
    + cbn [fmap list_fmap fst]. apply NoDup_cons. split; [|done]. intros Hin.
      specialize (H3 _ Hin). by rewrite lookup_insert_eq in H3.
    + intros k. cbn [fmap list_fmap fst]. rewrite elem_of_cons. intros [->|Hin].
      * rewrite bool_decide_eq_false in Hd. by apply eq_None_not_Some.
      * specialize (H3 _ Hin). by apply lookup_insert_None in H3 as [? _].
    + rewrite list_to_map_cons, <- insert_union_l. apply eq_sym, insert_union_r, not_elem_of_list_to_map.
      intros Hin. specialize (H3 _ Hin). by rewrite lookup_insert_eq in H3.
  - intros (es & H1 & H2 & H3 & ->). apply Forall2_cons_inv_l in H1 as (e & es' & He & H1 & ->).
    unfold set_entry in He. cbn [fst snd] in He. fold key in He.
    apply result_bind_ok in He as (main & Em & He). apply result_bind_ok in He as (ex & Ex & He).
    apply reject_bind in He as [Hemp [= <-]]. apply orb_false_iff in Hemp as [Hk Hemp].
    cbn [fmap list_fmap fst] in H2, H3. apply NoDup_cons in H2 as [Hnot H2].
    split; [done|]. split.
    { apply bool_decide_eq_false, eq_None_not_Some, H3. by left. }
    rewrite Em. cbn [mbind result_bind]. rewrite Ex. cbn [mbind result_bind].
    rewrite reject_bind. split; [done|]. apply IH. exists es'. split_and!; [done|done| |].
    + intros k Hin. rewrite lookup_insert_ne by (intros ->; done). apply H3. by right.
    + rewrite list_to_map_cons, <- insert_union_l. apply insert_union_r, not_elem_of_list_to_map, Hnot.
Qed.

(** ** Profiles *)

Lemma normalize_all_ok {A B} what name (f : A -> result error B) : forall srcs i bs,
  normalize_all what name f i srcs = Ok bs <-> Forall2 (fun a b => f a = Ok b) srcs bs.
Proof.
  induction srcs as [|a srcs IH]; intros i bs; cbn [normalize_all].
  { split; [by intros [= <-]|]. by intros ->%Forall2_nil_inv_l. }
  split.
  - intros E. apply result_bind_ok in E as (b & Eb & E). apply result_bind_ok in E as (bs' & E & [= <-]).
    constructor; [|by eapply IH]. destruct (f a); simpl in Eb; by simplify_eq.
  - intros (b & bs' & Eb & H & ->)%Forall2_cons_inv_l. rewrite Eb. cbn [map_err mbind result_bind].
    by rewrite (proj2 (IH (i + 1) bs') H).
Qed.

(** The first source that is refused is the one the error names. *)
Lemma normalize_all_err {A B} what name (f : A -> result error B) : forall srcs i e,
  normalize_all what name f i srcs = Err e ->
  exists k a e', srcs !! k = Some a /\ f a = Err e'
    /\ e = wrapf ("profile %q " +:+ what +:+ " %d: ") [name; FormatInt (i + Z.of_nat k + 1)] e'
    /\ Forall (fun a => is_ok (f a) = true) (take k srcs).
Proof.
  induction srcs as [|a srcs IH]; intros i e; cbn [normalize_all]; [done|].
  destruct (f a) as [b|e'] eqn:Ea; cbn [map_err mbind result_bind].
  - destruct (normalize_all what name f (i + 1) srcs) as [bs|e2] eqn:E; cbn [mbind result_bind]; [done|].
    intros [= <-]. destruct (IH _ _ E) as (k & a' & e' & Hk & Hf & -> & Hall).
    exists (S k), a', e'. split_and!; [done|done| |].
    + by replace (i + Z.of_nat (S k) + 1) with (i + 1 + Z.of_nat k + 1) by lia.
    + cbn [firstn take]. apply Forall_cons. by rewrite Ea.
  - intros [= <-]. exists 0%nat, a, e'. split_and!; [done|done| |apply Forall_nil_2].
    by rewrite Z.add_0_r.
Qed.

Lemma normalizeRule_ok `{UnicodeLower} src r :
  normalizeRule src = Ok r ->
  rule_ok r /\ r_Action r = lower_trim (fr_Action src) /\ r_Code r = fr_Code src.
Proof.
  unfold normalizeRule. set (action := lower_trim (fr_Action src)).
  intros E. apply result_bind_ok in E as ([] & E1 & E). apply reject_bind in E as [Hnot E].
  apply result_bind_ok in E as ([[[a l] w] t] & Ea & E). apply reject_bind in E as [_ [= <-]].
  split; [|done]. apply andb_false_iff in Hnot. unfold rule_ok.
  cbn [r_Action r_Set r_Dataset r_Not r_Ask r_List r_TTL r_Code r_Write].
  destruct (rule_action_ok _ _ _ _ _ _ Ea) as [(Ht & -> & -> & ->)|[(Ha & -> & Hc & Hask)|(Ha & Hl & Hw & -> & _)]].
  - left. rewrite Ht in E1, Hnot. apply reject_bind in E1 as [H1 H2]. apply reject_if_ok in H2.
    apply String.eqb_neq in H1. apply negb_false_iff, String.eqb_eq in H2. destruct Hnot; [|done]. by split_and!.
  - right; left. assert (Terminal action = false) as Ht by (by rewrite Ha). rewrite Ht in E1.
    apply reject_bind in E1 as [H1 H2]. apply reject_if_ok in H2.
    apply String.eqb_neq in H1. apply negb_false_iff, String.eqb_eq in H2. by split_and!.
  - right; right. assert (Terminal action = false) as Ht by (by rewrite Ha). rewrite Ht in E1.
    apply reject_bind in E1 as [H1 H2]. apply reject_if_ok in H2.
    apply String.eqb_neq in H1. apply negb_false_iff, String.eqb_eq in H2. by split_and!.
Qed.

Lemma normalizeRule_set `{UnicodeLower} src r : normalizeRule src = Ok r -> r_Set r = lower_trim (fr_Set src).
Proof.
  unfold normalizeRule. intros E. apply result_bind_ok in E as ([] & _ & E). apply reject_bind in E as [_ E].
  apply result_bind_ok in E as ([[[a l] w] t] & _ & E). by apply reject_bind in E as [_ [= <-]].
Qed.

Lemma normalizeOutcome_ok `{UnicodeLower} src o : normalizeOutcome src = Ok o -> outcome_ok o.
Proof.
  unfold normalizeOutcome. intros E. apply result_bind_ok in E as (at_ & Eat & E).
  apply outcome_at_ok in Eat. apply reject_bind in E as [Hxor E].
  apply result_bind_ok in E as ([] & Hc & E). unfold outcome_ok.
  destruct (String.eqb_spec (TrimSpace (fo_List src)) "") as [El|El]; cbn [negb] in E.
  - apply reject_bind in E as [_ E]. apply reject_bind in E as [Httl E].
    apply result_bind_ok in E as (apply & Hax & E). apply result_bind_ok in E as ([] & Hn & E).
    apply result_bind_ok in E as (ttl & Ht & E). apply result_bind_ok in E as ([] & Hck & [= <-]).
    cbn [o_On o_At o_Code o_List o_Ask o_TTL]. split; [done|]. split; [done|]. right.
    destruct (ask_axis_ok _ _ _ _ Hax) as (axes & Hv & Hin & _).
    split_and!; [done| |].
    + cbn [Do make_ask]. intros Hd. rewrite Hd in Hv. done.
    + apply ask_accepted; [by exists axes|done| |done]. cbn [Do make_ask]. intros Hne.
      apply andb_false_iff in Httl. rewrite !negb_false_iff, !String.eqb_eq in Httl.
      destruct Httl as [Hz|]; [|done]. rewrite Hz in Ht. by injection Ht as <-.
  - apply reject_bind in E as [_ E]. apply result_bind_ok in E as (ttl & Ht & E).
    apply result_bind_ok in E as (w & Hw & [= <-]).
    cbn [o_On o_At o_Code o_List o_Ask o_Write Do]. split; [done|]. split; [done|]. left.
    split_and!; [done| |by eapply parseWrite_ok].
    by destruct (String.eqb_spec (lower_trim (fa_Do (fo_Ask src))) "").
Qed.

Lemma ParseProfile_ok `{UnicodeLower} yaml raw name p :
  ParseProfile yaml raw name = Ok p ->
  p_Name p = name /\ Terminal (p_Default p) = true /\ Forall rule_ok (p_Rules p)
  /\ Forall outcome_ok (p_Outcomes p).
Proof.
  unfold ParseProfile. intros E. apply result_bind_ok in E as (f & _ & E).
  apply result_bind_ok in E as (d & Ed & E). apply result_bind_ok in E as (rs & Er & E).
  apply result_bind_ok in E as (os & Eo & [= <-]). apply normalize_all_ok in Er, Eo.
  cbn [p_Name p_Default p_Rules p_Outcomes]. split_and!; [done| | |].
  - destruct (String.eqb _ _); [by injection Ed as <-|].
    destruct (Terminal (fp_Default f)) eqn:Et; [by injection Ed as <-|done].
  - apply Forall_forall. intros r (i & Hi)%list_elem_of_lookup.
    destruct (Forall2_lookup_r _ _ _ _ _ Er Hi) as (a & _ & Ha). by apply normalizeRule_ok in Ha as [? _].
  - apply Forall_forall. intros o (i & Hi)%list_elem_of_lookup.
    destruct (Forall2_lookup_r _ _ _ _ _ Eo Hi) as (a & _ & Ha). by eapply normalizeOutcome_ok.
Qed.

(** ** Properties *)

(** A rule that is accepted is one the module can act on: allow and deny
    rows name a set and nothing else; request and list rows name a dataset; a
    request has a known verb on one of its axes, numbers in range and exactly
    the fields its verb takes; a list row names the dataset it writes and how. *)
Theorem accepted_rule `{UnicodeLower} src r :
  normalizeRule src = Ok r ->
  rule_ok r /\ r_Action r = lower_trim (fr_Action src) /\ r_Code r = fr_Code src.
Proof. apply normalizeRule_ok. Qed.

Definition example_ask : fileAsk :=
  MkFileAsk "captcha" " Challenge " "" "" None None "" "" "" "" noObjects [].
Definition example_rule : fileRule :=
  MkFileRule "" "TOR" true "Request" "" "IP_GREYLIST" example_ask "" "" "".

Lemma accepted_rule_witness :
  let _ := ascii_only in
  exists r, normalizeRule example_rule = Ok r /\ rule_ok r /\ Do (r_Ask r) = "challenge"
    /\ r_Dataset r = "tor" /\ r_Action r = "request".
Proof.
  intros L. eexists. split; [vm_compute; reflexivity|].
  split; [|split; [reflexivity|split; reflexivity]].
  apply (accepted_rule (H := ascii_only) example_rule). vm_compute. reflexivity.
Defined.

(** An outcome that is accepted fires on one of the four events, with a
    threshold of 25 to 100 for the overload and none for the others, and does
    exactly one thing: it writes the address to a list, or it makes a request
    that passes every check a rule's request passes. *)
Theorem accepted_outcome `{UnicodeLower} src o : normalizeOutcome src = Ok o -> outcome_ok o.
Proof. apply normalizeOutcome_ok. Qed.

Definition example_outcome : fileOutcome :=
  MkFileOutcome "overload" (Some 60) (MkFileAsk "" "" "" "" None None "" "" "" "" noObjects [])
    "banned-uuid" "asn" "1h" "AUTO_BAN".

Lemma accepted_outcome_witness :
  exists o, normalizeOutcome (H := ascii_only) example_outcome = Ok o
    /\ outcome_ok (H := ascii_only) o /\ o_TTL o = 3600 /\ o_At o = 60.
Proof.
  eexists. split; [vm_compute; reflexivity|]. split; [|split; reflexivity].
  apply (accepted_outcome (H := ascii_only) example_outcome). vm_compute. reflexivity.
Defined.



(** The sets of a generation do not depend on the order in which Go
    ranges over the decoded map: any order accepts the same sets, and gives
    the same result. Every set that comes out was written, under a name that
    is that set's alone once it is trimmed and lower-cased, and matches
    something: none is empty. *)
Theorem sets_order `{UnicodeLower} f f' r :
  f ≡ₚ f' -> sets_go f ∅ = Ok r ->
  sets_go f' ∅ = Ok r
  /\ (forall key s, r !! key = Some s ->
        key <> "" /\ set_Name s = key /\ empty (set_Match s) = false
        /\ exists name spec, (name, spec) ∈ f /\ key = lower_trim name /\ set_Inverse s = fs_Inverse spec)
  /\ base.size r = length f.
Proof.
  intros Hp (es & H1 & H2 & _ & ->)%sets_go_ok. rewrite (right_id_L ∅ (∪)). split.
  - destruct (forall2_perm _ _ _ _ H1 Hp) as (es' & Hes & H1').
    apply sets_go_ok. exists es'. split_and!; [done| |done|].
    + by rewrite <- Hes.
    + rewrite (right_id_L ∅ (∪)). by apply list_to_map_proper.
  - split.
    + intros key s Hs. apply elem_of_list_to_map in Hs; [|done].
      apply list_elem_of_lookup in Hs as (i & Hi). destruct (Forall2_lookup_r _ _ _ _ _ H1 Hi) as ([name spec] & Hf & He).
      unfold set_entry in He. cbn [fst snd] in He. apply result_bind_ok in He as (main & Em & He).
      apply result_bind_ok in He as (ex & Ex & He). apply reject_bind in He as [Hemp [= <- <-]].
      apply orb_false_iff in Hemp as [Hk Hemp]. apply String.eqb_neq in Hk.
      split_and!; [done|done|done|]. exists name, spec. split_and!; [|done|done].
      by eapply list_elem_of_lookup_2.
    + rewrite map_size_list_to_map by done. symmetry. by eapply Forall2_length.
Qed.

Definition example_sets : list (string * fileSet) :=
  [("Office ", MkFileSet (MkMatch ["office"] [] [] []) false (MkMatch [] [] ["RU"] []));
   ("dc", MkFileSet (MkMatch [] ["7b1d"] [] [14061; 16509]) true emptyMatch)].

Lemma sets_order_witness :
  exists r, sets_go (H := ascii_only) example_sets ∅ = Ok r
    /\ sets_go (H := ascii_only) (reverse example_sets) ∅ = Ok r.
Proof.
  eexists. split; [vm_compute; reflexivity|].
  apply (sets_order (H := ascii_only) example_sets); [|vm_compute; reflexivity].
  symmetry. apply reverse_Permutation.
Defined.

Lemma parse_profile_iff `{UnicodeLower} yaml raw f name p : raw <> "" -> yaml raw = Ok f ->
  ParseProfile yaml raw name = Ok p <->
  (fp_Default f = "" \/ Terminal (fp_Default f) = true)
  /\ p_Name p = name /\ p_DefaultCode p = fp_Code f
  /\ p_Default p = (if String.eqb (fp_Default f) "" then ActionAllow else fp_Default f)
  /\ Forall2 (fun a b => normalizeRule a = Ok b) (fp_Rules f) (p_Rules p)
  /\ Forall2 (fun a b => normalizeOutcome a = Ok b) (fp_Outcomes f) (p_Outcomes p).
Proof.
  intros Hraw Hy. unfold ParseProfile. destruct raw as [|c raw]; [done|]. rewrite Hy. cbn [map_err mbind result_bind].
  split.
  - intros E. apply result_bind_ok in E as (d & Ed & E). apply result_bind_ok in E as (rs & Er & E).
    apply result_bind_ok in E as (os & Eo & [= <-]). apply normalize_all_ok in Er, Eo.
    cbn [p_Name p_DefaultCode p_Default p_Rules p_Outcomes].
    destruct (String.eqb_spec (fp_Default f) ""); [injection Ed as <-; split_and!; auto|].
    destruct (Terminal (fp_Default f)); [|done]. injection Ed as <-. split_and!; auto.
  - intros (Hd & <- & Hc & Hdef & Hr & Ho). apply (normalize_all_ok "rule" (p_Name p) _ _ 0) in Hr.
    apply (normalize_all_ok "outcome" (p_Name p) _ _ 0) in Ho.
    assert ((if String.eqb (fp_Default f) "" then Ok ActionAllow
      else if negb (Terminal (fp_Default f))
        then Err (Errorf "profile %q: default action %q is not terminal" [p_Name p; fp_Default f])
        else Ok (fp_Default f)) = Ok (p_Default p)) as ->.
    { rewrite Hdef. destruct (String.eqb_spec (fp_Default f) ""); [done|]. destruct Hd as [?| ->]; done. }
    cbn [mbind result_bind]. rewrite Hr. cbn [mbind result_bind]. rewrite Ho. cbn [mbind result_bind].
    rewrite <- Hc. by destruct p.
Qed.

(** The first rule that is refused names the profile's error. *)
Lemma parse_profile_err `{UnicodeLower} yaml raw f name k a e : raw <> "" -> yaml raw = Ok f ->
  fp_Default f = "" -> fp_Rules f !! k = Some a -> normalizeRule a = Err e ->
  Forall (fun a => is_ok (normalizeRule a) = true) (take k (fp_Rules f)) ->
  ParseProfile yaml raw name = Err (wrapf "profile %q rule %d: " [name; FormatInt (Z.of_nat k + 1)] e).
Proof.
  intros Hraw Hy Hd Hk He Hall. unfold ParseProfile. destruct raw as [|c raw]; [done|]. rewrite Hy.
  cbn [map_err mbind result_bind]. rewrite Hd. cbn [String.eqb mbind result_bind].
  destruct (normalize_all "rule" name normalizeRule 0 (fp_Rules f)) as [rs|e'] eqn:E.
  { apply normalize_all_ok in E. destruct (Forall2_lookup_l _ _ _ _ _ E Hk) as (b & _ & Hb). congruence. }
  cbn [mbind result_bind]. f_equal.
  destruct (normalize_all_err _ _ _ _ _ _ E) as (k' & a' & e2 & Hk' & He' & -> & Hall').
  assert (k' = k) as ->; [|rewrite Z.add_0_l; simplify_eq; by assert (e2 = e) as -> by congruence].
  assert (forall i j x y, (i < j)%nat -> fp_Rules f !! i = Some x -> normalizeRule x = Err y ->
    Forall (fun a => is_ok (normalizeRule a) = true) (take j (fp_Rules f)) -> False) as Hno.
  { intros i j x y Hlt Hi Hx. rewrite Forall_forall. intros Hf.
    assert (is_ok (normalizeRule x) = true) as Hok; [|by rewrite Hx in Hok].
    apply Hf, list_elem_of_lookup. exists i. by rewrite lookup_take_lt. }
  destruct (Nat.lt_trichotomy k k') as [Hlt|[?|Hlt]]; [exfalso|done|exfalso]; by eapply Hno.
Qed.



End Policy.
