(* ===== verification/Sha256.v ===== *)
(** * SHA-256

    [crypto/sha256] and [encoding/hex] of the Go standard library, as the
    fingerprint of a policy tree uses them. *)

From S2P Require Import Prelude GoStrings.

#[local] Open Scope Z_scope.

Module Sha256.

Definition rotr (x n : Z) : Z := Z.lor (Z.shiftr x n) (u32 (Z.shiftl x (32 - n))).
Definition ch (x y z : Z) : Z := Z.lxor (Z.land x y) (Z.land (Z.lxor x (Z.ones 32)) z).
Definition maj (x y z : Z) : Z := Z.lxor (Z.lxor (Z.land x y) (Z.land x z)) (Z.land y z).
Definition bsig0 (x : Z) : Z := Z.lxor (Z.lxor (rotr x 2) (rotr x 13)) (rotr x 22).
Definition bsig1 (x : Z) : Z := Z.lxor (Z.lxor (rotr x 6) (rotr x 11)) (rotr x 25).
Definition ssig0 (x : Z) : Z := Z.lxor (Z.lxor (rotr x 7) (rotr x 18)) (Z.shiftr x 3).
Definition ssig1 (x : Z) : Z := Z.lxor (Z.lxor (rotr x 17) (rotr x 19)) (Z.shiftr x 10).

(** The constants as FIPS 180-4 defines them: the first 32 bits of the
    fractional parts of the square and cube roots of the first primes. *)
Definition is_prime (n : nat) : bool :=
  forallb (fun d => negb (n mod d =? 0)%nat) (seq 2 (n - 2)).
Definition primes : list Z := Eval vm_compute in map Z.of_nat (List.filter is_prime (seq 2 310)).
Fixpoint cube_root (bits : nat) (r n : Z) : Z :=
  match bits with
  | O => r
  | S bits =>
      let r' := r + 2 ^ Z.of_nat bits in
      cube_root bits (if r' * r' * r' <=? n then r' else r) n
  end.
Definition K : list Z := Eval vm_compute in map (fun p => u32 (cube_root 40 0 (p * 2 ^ 96))) primes.
Definition H0 : list Z := Eval vm_compute in map (fun p => u32 (Z.sqrt (p * 2 ^ 64))) (take 8 primes).
Example constant_count : length primes = 64%nat.
Proof. reflexivity. Qed.

(** The message with its padding and its length in bits. *)
Fixpoint be_bytes (n : nat) (z : Z) (acc : bytes) : bytes :=
  match n with O => acc | S n => be_bytes n (z / 256) (z mod 256 :: acc) end.
Definition padded (m : bytes) : bytes :=
  let n := length m in
  m ++ 0x80 :: replicate ((119 - n mod 64) mod 64) 0 ++ be_bytes 8 (8 * Z.of_nat n) [].

Fixpoint words_of (b : bytes) : list Z :=
  match b with
  | a :: b :: c :: d :: rest => (((a * 256 + b) * 256 + c) * 256 + d) :: words_of rest
  | _ => []
  end.

(** The schedule, newest word first. *)
Fixpoint extend (n : nat) (w : list Z) : list Z :=
  match n with
  | O => w
  | S n =>
      let at_ i := default 0 (w !! i) in
      extend n (u32 (ssig1 (at_ 1%nat) + at_ 6%nat + ssig0 (at_ 14%nat) + at_ 15%nat) :: w)
  end.
Definition schedule (block : bytes) : list Z := rev (extend 48 (rev (words_of block))).

Definition round (s : list Z) (kw : Z * Z) : list Z :=
  match s with
  | [a; b; c; d; e; f; g; h] =>
      let t1 := u32 (h + bsig1 e + ch e f g + kw.1 + kw.2) in
      let t2 := u32 (bsig0 a + maj a b c) in
      [u32 (t1 + t2); a; b; c; u32 (d + t1); e; f; g]
  | _ => s
  end.
Definition block_step (h : list Z) (block : bytes) : list Z :=
  zip_with (fun a b => u32 (a + b)) h (fold_left round (zip K (schedule block)) h).

Fixpoint blocks_of (fuel : nat) (b : bytes) : list bytes :=
  match fuel, b with
  | S fuel, _ :: _ => take 64 b :: blocks_of fuel (drop 64 b)
  | _, _ => []
  end.
Definition Sum256 (m : bytes) : bytes :=
  let p := padded m in
  concat (map (fun w => be_bytes 4 w []) (fold_left block_step (blocks_of (length p) p) H0)).

Definition string_bytes (s : string) : bytes := map code (String.list_ascii_of_string s).
Fixpoint EncodeToString (b : bytes) : string :=
  match b with
  | [] => ""
  | x :: b => String (digit_char (x / 16)) (String (digit_char (x mod 16)) (EncodeToString b))
  end.
(** [hex.EncodeToString] of the digest of a text. *)
Definition hex_digest (s : string) : string := EncodeToString (Sum256 (string_bytes s)).

Example digest_vectors :
  hex_digest "abc" = "ba7816bf8f01cfea414140de5dae2223b00361a396177a9cb410ff61f20015ad"
  /\ hex_digest "" = "e3b0c44298fc1c149afbf4c8996fb92427ae41e4649b934ca495991b7852b855"
  /\ hex_digest "abcdbcdecdefdefgefghfghighijhijkijkljklmklmnlmnomnopnopq"
     = "248d6a61d20638b8e5c026930c3e6039a33ce45964ff2167f6ecedd419db06c1".
Proof. by vm_compute. Qed.

End Sha256.
