(* ===== verification/Files.v ===== *)
(** * Files

    A tree of files as [os] and [path/filepath] show it to the program:
    directories whose entries are in the order of their names, files with a
    content, a size and a modification time. A file or a directory that
    cannot be read has no content. *)

From Stdlib Require Import OrdersEx.
From S2P Require Import Prelude GoStrings Protocol.

#[local] Open Scope Z_scope.

Module Files.

Record file : Type := MkFile { data : option string; fsize : Z; mtime : Z }.
Inductive node : Type :=
| File (f : file)
| Dir (entries : option (list (string * node))).

(** What stands at a path; [None] when nothing does. *)
Definition disk : Type := string -> option node.

Definition notExist (path : string) : error := Errorf "file does not exist" [path].
Definition unreadable (path : string) : error := Errorf "cannot be read" [path].
Definition IsNotExist (e : error) : bool := String.eqb (format e) "file does not exist".

Definition Join (dir name : string) : string := dir +:+ "/" +:+ name.
Definition Base (path : string) : string :=
  match CutLast path "/" with Some (_, b) => b | None => path end.
(** [strings.TrimSuffix(base, filepath.Ext(base))] *)
Definition stem (base : string) : string :=
  match CutLast base "." with Some (s, _) => s | None => base end.
Definition string_less (a b : string) : bool := String.ltb a b.

(** The order of names is the lexicographic one: strict and total. *)
Lemma string_less_lt a b : string_less a b = true <-> String_as_OT.lt a b.
Proof.
  unfold string_less, String.ltb, String_as_OT.lt.
  assert (String_as_OT.compare a b = String.compare a b) as ->; [|by destruct (String.compare a b)].
  revert b. by induction a as [|x a IH]; intros [|y b].
Qed.
Lemma string_less_irrefl a : string_less a a = false.
Proof. apply not_true_is_false. rewrite string_less_lt. apply String_as_OT.lt_strorder. Qed.
Lemma string_less_trans a b c : string_less a b = true -> string_less b c = true -> string_less a c = true.
Proof. rewrite !string_less_lt. apply String_as_OT.lt_strorder. Qed.
Lemma string_less_total a b : string_less a b = true \/ a = b \/ string_less b a = true.
Proof. rewrite !string_less_lt. destruct (String_as_OT.compare_spec a b); auto. Qed.
(** So [sort.Slice] by name leaves every name at or after those before it. *)
#[export] Instance not_less_name_trans {A} (f : A -> string) :
  Transitive (not_less (fun a b => string_less (f a) (f b))).
Proof.
  intros a b c Hab Hbc. unfold not_less in *. apply not_true_is_false. intros Hca.
  destruct (string_less_total (f b) (f a)) as [Hba|[E|Hba]]; [by rewrite Hba in Hab| |].
  - rewrite E in Hbc. by rewrite Hca in Hbc.
  - by rewrite (string_less_trans _ _ _ Hca Hba) in Hbc.
Qed.
#[export] Instance not_less_name_total {A} (f : A -> string) :
  Total (not_less (fun a b => string_less (f a) (f b))).
Proof.
  intros a b. unfold not_less. destruct (string_less (f b) (f a)) eqn:E; [|by left].
  right. apply not_true_is_false. intros Hab. pose proof (string_less_trans _ _ _ E Hab) as H.
  by rewrite string_less_irrefl in H.
Qed.
Lemma sort_names_sorted {A} (f : A -> string) l :
  StronglySorted (not_less (fun a b => string_less (f a) (f b)))
    (sort_slice (fun a b => string_less (f a) (f b)) l).
Proof. apply StronglySorted_merge_sort; apply _. Qed.

Definition ReadFile (d : disk) (path : string) : result error string :=
  match d path with
  | None => Err (notExist path)
  | Some (File f) => match data f with Some s => Ok s | None => Err (unreadable path) end
  | Some (Dir _) => Err (unreadable path)
  end.
Definition ReadDir (d : disk) (path : string) : result error (list (string * node)) :=
  match d path with
  | None => Err (notExist path)
  | Some (Dir (Some es)) => Ok es
  | Some _ => Err (unreadable path)
  end.

(** The walk of [listFiles]: directories and files whose name begins with a
    dot are left out, except the root. *)
Fixpoint walk (path : string) (n : node) : result error (list (string * file)) :=
  match n with
  | File f => Ok [(path, f)]
  | Dir None => Err (unreadable path)
  | Dir (Some es) =>
      (fix entries (es : list (string * node)) : result error (list (string * file)) :=
         match es with
         | [] => Ok []
         | (name, n) :: es =>
             let* a := if HasPrefix name "." then Ok [] else walk (Join path name) n in
             let* b := entries es in
             Ok (a ++ b)
         end) es
  end.
Definition listFiles (d : disk) (root : string) : result error (list (string * file)) :=
  match d root with
  | None => Err (notExist root)
  | Some n =>
      let* out := walk root n in
      Ok (sort_slice (fun a b => string_less a.1 b.1) out)
  end.

End Files.
