(* ===== verification/Mirrors.v ===== *)
(** * The live sets of a node, as they run

    [Mirror] has the operations on a store of live sets and what one set holds
    after a sequence of frames. Here is the store itself over time
    ([internal/dyn/dyn.go]): the sets are attached and detached, the bus
    delivers frames to their queues, the goroutine of each set takes its first
    snapshot and then handles one frame after another, the ticker looks at all
    of them, and the store is closed, in any order. A frame is handled in one
    step; but a reader takes the lock of the set between the critical sections
    of a handler, so a package alone, or a snapshot alone, is a step as well.
    Each set has keepers of its own; what NATS and Redis answer to its handlers
    is the environment of its UUID. *)

From S2P Require Import Prelude NetIP Sip Wafs Composition Mirror.

#[local] Open Scope Z_scope.

Module Mirrors.
Import Composition Mirror.

Section mirrors.
Context {W : Type} (env : string -> Env W).
(** The frames that the bus may deliver to a set. *)
Context (sent : string -> frame -> Prop).

Definition with_set (st : store) (uuid : string) (a : attached) : store :=
  MkStore (<[uuid := a]> (sets st)) (subs st) (closed st).

(** The data of a package, in a frame or from Redis. *)
Definition brought (uuid : string) (d : bytes) : Prop :=
  (exists f, sent uuid f /\ DecodeString (Inline f) = Some d)
  \/ exists b w ks ds w', blobs (env uuid) = Some b /\ Objects b w ks = (Ok ds, w') /\ Some d ∈ ds.

Inductive step : store -> store -> Prop :=
| step_sync subscribe now nc want order st (w : W) r st' w' :
    order ≡ₚ map_to_list want -> Sync subscribe now nc want order st w = (r, st', w') -> step st st'
| step_deliver st uuid m : (forall f, m = Some f -> sent uuid f) -> step st (deliver st uuid m)
| step_first st uuid a w s w' :
    sets st !! uuid = Some a -> snapshot (env uuid) (set a) w = Done (tt, s, w') ->
    step st (with_set st uuid (MkAttached s (inq a) (stopped a)))
| step_frame st uuid a f fs now w s w' :
    sets st !! uuid = Some a -> inq a = f :: fs -> onFrame (env uuid) now f (set a) w = Done (tt, s, w') ->
    step st (with_set st uuid (MkAttached s fs (stopped a)))
| step_package st uuid a d w ok s w' :
    sets st !! uuid = Some a -> brought uuid d ->
    applyPackage (env uuid) d (seq (set a) + 1) (set a) w = Done (ok, s, w') ->
    step st (with_set st uuid (MkAttached s (inq a) (stopped a)))
| step_resync st now : step st (resync now st)
| step_close st : step st (Close st).

(** ** Every set stays with its keepers *)

Context (K : string -> keeper -> Prop).
Hypothesis K_ok : forall uuid k, K uuid k -> keeper_ok k.
Hypothesis K_epochs : forall uuid k k', K uuid k -> K uuid k' -> k_epoch k = k_epoch k' -> k = k'.
Hypothesis env_delivers : forall uuid b, blobs (env uuid) = Some b -> delivers (published (K uuid)) b.
Hypothesis sent_good : forall uuid f, sent uuid f -> frame_good (published (K uuid)) f.

(** A set that is attached, with the frames that wait for it. *)
Definition follows (uuid : string) (a : attached) : Prop :=
  in_sync (K uuid) (set a) /\ Forall (frame_good (published (K uuid))) (inq a).
Definition synced (st : store) : Prop := map_Forall follows (sets st).

Lemma synced_new : synced New.
Proof. apply map_Forall_empty. Qed.

Lemma follows_push uuid f a : frame_good (published (K uuid)) f -> follows uuid a -> follows uuid (push f a).
Proof.
  intros Hf [Hs Hq]. unfold push. destruct (_ <? _)%nat; [|done]. split; [done|].
  apply Forall_app_2; [done|by apply Forall_singleton].
Qed.

Lemma attach_synced {V} (subscribe : V -> string -> bool * V) now : forall want st w r st' w',
  synced st -> attach subscribe now want st w = (r, st', w') -> synced st'.
Proof.
  induction want as [|[u name] want IH]; intros st w r st' w' Hst E; cbn [attach] in E; [by injection E as _ <- _|].
  destruct (sets st !! u) as [a|]; [by eapply IH|].
  destruct (subscribe w _) as [[] w1]; [|by injection E as _ <- _]. eapply IH; [|exact E].
  apply map_Forall_insert_2; [|done]. split; [apply in_sync_new|constructor].
Qed.
Lemma detach_synced want : forall order st, synced st -> synced (detach want order st).
Proof.
  induction order as [|u order IH]; intros st Hst; cbn [detach]; [done|].
  destruct (want !! u); apply IH; [done|]. by apply map_Forall_delete.
Qed.

Lemma resync_good uuid : frame_good (published (K uuid)) resyncFrame.
Proof.
  split; [done|]. intros d E. left. assert (d = []) as -> by (by injection E as <-).
  eexists. vm_compute. reflexivity.
Qed.

(** One handler of a set that follows its keepers: it comes back, and the set
    still follows them. *)
Lemma first_follows uuid a w : follows uuid a ->
  exists s w', snapshot (env uuid) (set a) w = Done (tt, s, w') /\ in_sync (K uuid) s.
Proof.
  intros [Hs _]. pose proof (inv_snapshot (env uuid) False (in_sync (K uuid)) (published (K uuid)) (env_delivers uuid)) as Hi.
  assert (wp False (snapshot (env uuid)) (fun _ s _ => in_sync (K uuid) s) (set a) w) as Hwp.
  { apply Hi; try done. apply (sync_snapshot (K uuid) (K_ok uuid)). }
  unfold wp in Hwp. destruct (snapshot _ _ _) as [| |[[[] s] w']]; [done|done|]. by exists s, w'.
Qed.
Lemma frame_follows uuid f now s w : in_sync (K uuid) s -> frame_good (published (K uuid)) f ->
  exists s' w', onFrame (env uuid) now f s w = Done (tt, s', w') /\ in_sync (K uuid) s'.
Proof.
  intros Hs Hf.
  assert (wp False (onFrame (env uuid) now f) (fun _ s _ => in_sync (K uuid) s) s w) as Hwp.
  { apply (inv_onFrame (env uuid) False (in_sync (K uuid)) (published (K uuid)) (env_delivers uuid)); try done.
    - by intros s' (_ & ?).
    - by intros s' (_ & _ & ? & _).
    - apply (sync_snapshot (K uuid) (K_ok uuid)).
    - apply (sync_package (K uuid) (K_ok uuid) (K_epochs uuid)). }
  unfold wp in Hwp. destruct (onFrame _ _ _ _ _) as [| |[[[] s'] w']]; [done|done|]. by exists s', w'.
Qed.

Lemma package_follows uuid d s w : in_sync (K uuid) s -> brought uuid d ->
  exists ok s' w', applyPackage (env uuid) d (seq s + 1) s w = Done (ok, s', w') /\ in_sync (K uuid) s'.
Proof.
  intros Hs Hd. assert (published (K uuid) d) as Hgood.
  { destruct Hd as [(f & Hf & Hi)|(b & w0 & ks & ds & w' & Hb & Ho & Hin)].
    - by apply (sent_good uuid f Hf).
    - by apply (proj2 (env_delivers uuid b Hb) _ _ _ _ Ho). }
  assert (wp False (applyPackage (env uuid) d (seq s + 1))
    (fun ok s' _ => in_sync (K uuid) s' /\ (ok = true -> seq s' = seq s + 1)) s w) as Hwp.
  { apply (inv_package (env uuid) False (in_sync (K uuid)) (published (K uuid)) (env_delivers uuid)); try done.
    - apply (sync_snapshot (K uuid) (K_ok uuid)).
    - apply (sync_package (K uuid) (K_ok uuid) (K_epochs uuid)). }
  unfold wp in Hwp. destruct (applyPackage _ _ _ _ _) as [| |[[ok s'] w']]; [done|done|]. destruct Hwp as [? _].
  by exists ok, s', w'.
Qed.

Lemma synced_with_set st uuid s q b : synced st -> in_sync (K uuid) s -> Forall (frame_good (published (K uuid))) q ->
  synced (with_set st uuid (MkAttached s q b)).
Proof. intros Hst Hs Hq. by apply map_Forall_insert_2. Qed.

Lemma synced_step st st' : step st st' -> synced st -> synced st'.
Proof.
  destruct 1 as [sub now nc want order st w r st' w' _ E|st uuid m Hm|st uuid a w s w' Ha E|st uuid a f fs now w s w' Ha Hq E
    |st uuid a d w ok s w' Ha Hd E|st now|st]; intros Hst.
  - unfold Sync in E. destruct (negb nc); [by injection E as _ <- _|].
    destruct (attach sub now order st w) as [[r1 st1] w1] eqn:Ea. pose proof (attach_synced _ _ _ _ _ _ _ _ Hst Ea) as H1.
    destruct r1; injection E as _ <- _; [by apply detach_synced|done].
  - destruct m as [f|]; [|done]. intros u a Hu. cbn [deliver sets] in Hu. destruct (decide (u = uuid)) as [->|Hne].
    + rewrite lookup_alter_eq in Hu. destruct (sets st !! uuid) as [b|] eqn:Eb; [|done]. injection Hu as <-.
      apply follows_push; [by apply sent_good, Hm|by apply Hst].
    + rewrite lookup_alter_ne in Hu by done. by apply Hst.
  - destruct (Hst _ _ Ha) as [Hs Hq]. destruct (first_follows uuid a w (conj Hs Hq)) as (s1 & w1 & E1 & Hs1).
    rewrite E in E1. injection E1 as <- _. by apply synced_with_set.
  - destruct (Hst _ _ Ha) as [Hs Hq']. rewrite Hq in Hq'. apply Forall_cons in Hq' as [Hf Hfs].
    destruct (frame_follows uuid f now (set a) w Hs Hf) as (s1 & w1 & E1 & Hs1). rewrite E in E1. injection E1 as <- _.
    by apply synced_with_set.
  - destruct (Hst _ _ Ha) as [Hs Hq]. destruct (package_follows uuid d (set a) w Hs Hd) as (ok1 & s1 & w1 & E1 & Hs1).
    rewrite E in E1. injection E1 as _ <- _. by apply synced_with_set.
  - intros u a Hu. cbn [resync sets] in Hu. rewrite lookup_fmap in Hu. destruct (sets st !! u) as [b|] eqn:Eb; [|done].
    injection Hu as <-. unfold resync_set. destruct (Hst _ _ Eb) as [Hs Hq].
    assert (follows u (MkAttached (if ready (set b) && (negb (silent (set b)) && (silenceAfter <? now - lastSeen (set b)))
      then set_seen (lastSeen (set b)) true (set b) else set b) (inq b) (stopped b))) as Hf
      by (by destruct (_ && _)).
    destruct (negb (ready (set b))); [|done]. apply follows_push; [apply resync_good|done].
  - done.
Qed.

Lemma synced_steps st st' : rtc step st st' -> synced st -> synced st'.
Proof. induction 1; [done|]. intros Hst. by eapply IHrtc, synced_step. Qed.

(** A set holds an address when a network of the state of its keeper that it
    is at does, unexpired. *)
Definition keeper_holds (st : store) (uuid : string) (ip : Addr) (now : Z) : Prop :=
  exists a k n p e, sets st !! uuid = Some a /\ ready (set a) = true /\ K uuid k /\ at_state k n (set a)
    /\ nets_at k n !! p = Some e /\ Masked p = p /\ covers p (Unmap ip) /\ live now e = true.

Lemma synced_contains st uuid ip now : synced st -> addr_ok ip ->
  StoreContains (Some st) uuid ip now = true <-> keeper_holds st uuid ip now.
Proof.
  intros Hst Hip. unfold StoreContains, Get, keeper_holds. destruct (sets st !! uuid) as [a|] eqn:Ea; cbn [fmap option_fmap option_map].
  2: { split; [done|]. by intros (? & ? & ? & ? & ? & ? & _). }
  destruct (Hst _ _ Ea) as [(_ & Hw & _ & Hsync) _]. rewrite contains_ready by done. split.
  - intros (Hr & p & e & Hp & Hm & Hc & Hl). destruct (Hsync Hr) as (k & n & Hk & Hat).
    exists a, k, n, p, e. split_and!; try done. pose proof Hat as (_ & _ & _ & _ & Hn). by rewrite <- Hn.
  - intros (b & k & n & p & e & [= <-] & Hr & Hk & Hat & Hp & Hm & Hc & Hl). split; [done|]. exists p, e.
    split_and!; try done. pose proof Hat as (_ & _ & _ & _ & Hn). by rewrite Hn.
Qed.
End mirrors.

End Mirrors.
