(* ===== verification/Live.v ===== *)
(** * Live membership

    The interface [store.Live]: what the policy snapshot asks of the live
    sets, and the promise its clients rely on - a set that is not there, or
    has no snapshot yet, is a miss. The mirror implements it. *)

From S2P Require Import Prelude NetIP Composition Mirror.

#[local] Open Scope Z_scope.

Class Live := MkLive {
  live_contains : string -> Addr -> bool;
  live_ready : string -> bool;
  live_miss : forall uuid ip, live_ready uuid = false -> live_contains uuid ip = false }.

(** No live sets at all: the nil interface, whose every use is guarded. *)
#[export] Instance no_live : Live := {|
  live_contains := fun _ _ => false;
  live_ready := fun _ => false;
  live_miss := fun _ _ _ => eq_refl |}.

(** The store of mirrors at a moment. *)
Definition mirror_ready (st : Mirror.store) (uuid : string) : bool :=
  match Mirror.Get st uuid with Some s => Mirror.Ready s | None => false end.

Lemma mirror_miss st now uuid ip :
  mirror_ready st uuid = false -> Mirror.StoreContains (Some st) uuid ip now = false.
Proof.
  unfold mirror_ready, Mirror.StoreContains, Mirror.Contains, Mirror.Ready.
  destruct (Mirror.Get st uuid) as [s|]; [|done]. by intros ->.
Qed.

Definition mirror_live (st : Mirror.store) (now : Z) : Live := {|
  live_contains := fun uuid ip => Mirror.StoreContains (Some st) uuid ip now;
  live_ready := mirror_ready st;
  live_miss := mirror_miss st now |}.
