(* ===== verification/Store.v ===== *)
(** * The policy snapshot

    Models [internal/store/store.go]: compiling the files of a generation into
    a snapshot, reloading it, and the questions a decision asks of it. Disk
    and YAML are arguments; a Go map that is ranged over is the list of its
    entries, in the order that [map_to_list] gives, which chooses only the
    error that is reported when there are several. *)

From S2P Require Import Prelude GoStrings NetIP NetSet Sha256 Files Protocol Overload Policy Composition Mirror Live.

#[local] Open Scope Z_scope.

Module Store.
Import Files.

Definition setsFile : string := "sets.yaml".
Definition liveFile : string := "live.yaml".
Definition listsDir : string := "lists".
Definition asnsDir : string := "asns".
Definition profilesDir : string := "profiles".
Definition profileSufix : string := ".yaml".

Definition KindList : string := "list".
Definition KindAsn : string := "asn".
Definition KindCountry : string := "country".
Definition KindLive : string := "live".
Definition KindInverse : string := "inverse".

(** ** Data *)

Record Paths : Type := MkPaths { Policy_ : string; Geo_ : string }.
Record NamedTable : Type := MkNamed { nt_Kind : string; nt_Name : string; nt_Table : Table; nt_Count : Z }.
Record Hit : Type := MkHit { hit_Kind : string; hit_Name : string; hit_Span : Interval }.
Definition zeroInterval : Interval := MkInterval AddrZero AddrZero.
Definition noHit : Hit := MkHit "" "" zeroInterval.
Record Match : Type := MkMatch {
  ma_Table : Table; ma_Sources : list NamedTable; ma_Countries : list string; ma_Live : list string }.
(** A list that came as a body has a table, a live one only its name. *)
Record List_ : Type := MkList { li_UUID : string; li_Table : option Table; li_Live : bool }.
Record Set_ : Type := MkSet { se_Name : string; se_Match : Match; se_Inverse : bool; se_Exclude : Match }.
Record Profile : Type := MkProfile {
  pr_Name : string; pr_Rules : list Policy.Rule; pr_Default : string; pr_DefaultCode : string;
  pr_Outcomes : list Policy.Outcome }.
Record Snapshot : Type := MkSnapshot {
  Gen : Z; Sets : gmap string Set_; Profiles : gmap string Profile; Lists : gmap string List_;
  Geo : list NamedTable; Live_ : gmap string string; Fingerprint : string; LoadedAt : Z; Skipped : Z }.

(** ** Questions *)

Definition UsesCountries (s : option Set_) : bool :=
  match s with
  | None => false
  | Some s =>
      negb (bool_decide (ma_Countries (se_Match s) = []))
      || negb (bool_decide (ma_Countries (se_Exclude s) = []))
  end.

Section lookup.
Context `{Live}.

(** [src.Table.Locate(ip)] over the sources, in order. *)
Fixpoint locate_sources (sources : list NamedTable) (ip : Addr) : option Hit :=
  match sources with
  | [] => None
  | src :: sources =>
      match Locate (Some (nt_Table src)) ip with
      | Some span => Some (MkHit (nt_Kind src) (nt_Name src) span)
      | None => locate_sources sources ip
      end
  end.
Fixpoint locate_live (uuids : list string) (ip : Addr) : option Hit :=
  match uuids with
  | [] => None
  | uuid :: uuids =>
      if live_contains uuid ip then Some (MkHit KindLive uuid zeroInterval) else locate_live uuids ip
  end.
Fixpoint locate_country (countries : list string) (country : string) : option Hit :=
  match countries with
  | [] => None
  | cc :: countries =>
      if String.eqb cc country then Some (MkHit KindCountry cc zeroInterval)
      else locate_country countries country
  end.
Definition locate (m : Match) (ip : Addr) (country : string) (geoOK : bool) : option Hit :=
  match locate_sources (ma_Sources m) ip with
  | Some h => Some h
  | None =>
      match locate_live (ma_Live m) ip with
      | Some h => Some h
      | None => if negb geoOK then None else locate_country (ma_Countries m) country
      end
  end.
Definition hits (m : Match) (ip : Addr) (country : string) (geoOK : bool) : bool :=
  match locate m ip country geoOK with
  | Some hit => negb (String.eqb (hit_Kind hit) "")
  | None => false
  end.

Definition ListContains (l : option List_) (ip : Addr) : bool :=
  match l with
  | None => false
  | Some l =>
      if li_Live l then live_contains (li_UUID l) ip
      else match Locate (li_Table l) ip with Some _ => true | None => false end
  end.

(** Whether the set matches, and by what; a miss has an empty hit, or the hit
    that [Exclude] took back. *)
Definition Explain (s : option Set_) (ip : Addr) (country : string) (geoOK : bool) : bool * Hit :=
  match s with
  | None => (false, noHit)
  | Some s =>
      let found := locate (se_Match s) ip country geoOK in
      let hit := default noHit found in
      let in_ :=
        match found with
        | Some _ => negb (hits (se_Exclude s) ip country geoOK)
        | None => false
        end in
      if se_Inverse s then
        if in_ then (false, noHit) else (true, MkHit KindInverse (se_Name s) zeroInterval)
      else (in_, hit)
  end.
End lookup.

Section questions.
Context `{UnicodeLower}.
Definition ProfileOf (s : option Snapshot) (name : string) : option Profile :=
  match s with
  | None => None
  | Some s =>
      let name := if String.eqb name "" then Policy.DefaultName else name in
      Profiles s !! ToLower name
  end.
End questions.
Definition SetOf (s : option Snapshot) (name : string) : option Set_ :=
  match s with None => None | Some s => Sets s !! name end.
Definition ListOf (s : option Snapshot) (uuid : string) : option List_ :=
  match s with None => None | Some s => Lists s !! uuid end.
Definition Names (s : option Snapshot) : list string :=
  match s with
  | None => []
  | Some s => sort_slice string_less (map fst (map_to_list (Profiles s)))
  end.
Definition GeoLoaded (s : option Snapshot) : bool :=
  match s with None => false | Some s => negb (length (Geo s) =? 0)%nat end.
Fixpoint lookup_geo (geo : list NamedTable) (ip : Addr) : option string :=
  match geo with
  | [] => None
  | g :: geo => if Contains (Some (nt_Table g)) ip then Some (nt_Name g) else lookup_geo geo ip
  end.
Definition LookupGeo (s : option Snapshot) (ip : Addr) : option string :=
  match s with None => None | Some s => lookup_geo (Geo s) ip end.

Record StatsRow : Type := MkStats {
  st_Gen : Z; st_Fingerprint : string; st_Profiles : list string; st_Sets : nat; st_LiveSets : nat;
  st_GeoCountries : nat; st_GeoPrefixes : Z; st_Skipped : Z }.
Definition Stats (s : option Snapshot) : StatsRow :=
  match s with
  | None => MkStats 0 "" [] 0 0 0 0 0
  | Some sn =>
      MkStats (Gen sn) (Fingerprint sn) (Names s) (base.size (Sets sn)) (base.size (Live_ sn))
        (length (Geo sn)) (fold_left (fun n g => n + nt_Count g) (Geo sn) 0) (Skipped sn)
  end.

(** ** Compiling *)

(** [netset.LoadFile] *)
Definition LoadFile (path : string) (f : file) : result error (list Prefix * Z) :=
  match data f with
  | None => Err (unreadable path)
  | Some content =>
      let r := ReadPrefixes content in
      if rd_err r then Err (Errorf "bufio.Scanner: token too long" [path])
      else Ok (rd_prefixes r, rd_skipped r)
  end.
Fixpoint readAll (paths : list (string * file)) : result error (list Prefix * Z) :=
  match paths with
  | [] => Ok ([], 0)
  | (path, f) :: paths =>
      let* '(ps, n) := map_err (wrapf "%s: " [path]) (LoadFile path f) in
      let* '(rest, m) := readAll paths in
      Ok (ps ++ rest, n + m)
  end.
Definition loadFileList (files : list (string * file)) : result error (Table * Z) :=
  let* '(ps, skip) := readAll files in Ok (Build ps, skip).

Section compile.
Context `{UnicodeLower}.

Definition index : Type := gmap string (list (string * file)).
Definition index_add (m : index) (x : string * file) : index :=
  let name := ToLower (stem (Base x.1)) in
  <[name := default [] (m !! name) ++ [x]]> m.
Definition indexFiles (d : disk) (root : string) : result error index :=
  match listFiles d root with
  | Err e => if IsNotExist e then Ok ∅ else Err e
  | Ok paths => Ok (fold_left index_add paths ∅)
  end.

(** One source of a match after another: all its prefixes, its named tables,
    the number of lines skipped. *)
Fixpoint compile_sources (kind missing : string) (files : index) (names : list string)
  : result error (list Prefix * list NamedTable * Z) :=
  match names with
  | [] => Ok ([], [], 0)
  | name :: names =>
      match files !! name with
      | None => Err (Errorf missing [name])
      | Some paths =>
          let* '(ps, skip) := readAll paths in
          let* '(all, sources, skipped) := compile_sources kind missing files names in
          Ok (ps ++ all, MkNamed kind name (Build ps) (Z.of_nat (length ps)) :: sources, skip + skipped)
      end
  end.
Fixpoint check_live (live : gmap string string) (uuids : list string) : result error unit :=
  match uuids with
  | [] => Ok tt
  | uuid :: uuids =>
      check reject_if (bool_decide (live !! uuid = None))
        (Errorf "live dataset %q is not declared in %s" [uuid; liveFile]);;
      check_live live uuids
  end.
Definition compileMatch (spec : Policy.Match) (lists asns : index) (live : gmap string string)
  : result error (Match * Z) :=
  let* '(all1, src1, skip1) := compile_sources KindList "list %q is missing" lists (Policy.m_Lists spec) in
  let* '(all2, src2, skip2) :=
    compile_sources KindAsn "asn %s is missing" asns (map FormatUint (Policy.m_Asns spec)) in
  check check_live live (Policy.m_Live spec);;
  Ok (MkMatch (Build (all1 ++ all2)) (src1 ++ src2) (Policy.m_Countries spec) (Policy.m_Live spec),
      skip1 + skip2).

Fixpoint compileSets (specs : list (string * Policy.Set_)) (lists asns : index) (live : gmap string string)
  : result error (gmap string Set_ * Z) :=
  match specs with
  | [] => Ok (∅, 0)
  | (name, spec) :: specs =>
      let* '(main, mainSkip) :=
        map_err (wrapf "set %q: " [name]) (compileMatch (Policy.set_Match spec) lists asns live) in
      let* '(ex, exSkip) :=
        map_err (wrapf "set %q exclude: " [name]) (compileMatch (Policy.set_Exclude spec) lists asns live) in
      let* '(out, skipped) := compileSets specs lists asns live in
      Ok (<[name := MkSet name main (Policy.set_Inverse spec) ex]> out, mainSkip + exSkip + skipped)
  end.

Fixpoint body_lists (lists : list (string * list (string * file))) : result error (gmap string List_ * Z) :=
  match lists with
  | [] => Ok (∅, 0)
  | (uuid, paths) :: lists =>
      let* '(ps, skip) := map_err (wrapf "list %q: " [uuid]) (readAll paths) in
      let* '(out, skipped) := body_lists lists in
      Ok (<[uuid := MkList uuid (Some (Build ps)) false]> out, skip + skipped)
  end.
Fixpoint live_lists (live : list string) (out : gmap string List_) : result error (gmap string List_) :=
  match live with
  | [] => Ok out
  | uuid :: live =>
      check reject_if (bool_decide (is_Some (out !! uuid)))
        (Errorf "dataset %q arrived both as a body and as a live subject" [uuid]);;
      live_lists live (<[uuid := MkList uuid None true]> out)
  end.
Definition compileLists (lists : index) (live : gmap string string) : result error (gmap string List_ * Z) :=
  let* '(out, skipped) := body_lists (map_to_list lists) in
  let* out := live_lists (map fst (map_to_list live)) out in
  Ok (out, skipped).

Section decoded.
(** The YAML decoder, for the three kinds of file. *)
Context (yaml_sets : string -> result error (list (string * Policy.fileSet))).
Context (yaml_profile : string -> result error Policy.fileProfile).
Context (yaml_live : string -> result error (list (string * string))).

(** One rule against what the generation brought. *)
Definition check_rule (name : string) (i : Z) (rule : Policy.Rule) (sets : gmap string Set_)
  (raw : gmap string List_) (live : gmap string string) : result error unit :=
  check
    (if Policy.Terminal (Policy.r_Action rule) then
       reject_if (bool_decide (sets !! Policy.r_Set rule = None))
         (Errorf "profile %q rule %d: unknown set %q" [name; FormatInt (i + 1); Policy.r_Set rule])
     else
       reject_if (bool_decide (raw !! Policy.r_Dataset rule = None))
         (Errorf "profile %q rule %d: dataset %q did not arrive with the generation"
            [name; FormatInt (i + 1); Policy.r_Dataset rule]));;
  reject_if (String.eqb (Policy.r_Action rule) Policy.ActionList
             && bool_decide (live !! Policy.r_List rule = None))
    (Errorf "profile %q rule %d: dataset %q is not declared in %s"
       [name; FormatInt (i + 1); Policy.r_List rule; liveFile]).
Definition check_outcome (name : string) (i : Z) (o : Policy.Outcome) (live : gmap string string)
  : result error unit :=
  reject_if (negb (String.eqb (Policy.o_List o) "") && bool_decide (live !! Policy.o_List o = None))
    (Errorf "profile %q outcome %d: dataset %q is not declared in %s"
       [name; FormatInt (i + 1); Policy.o_List o; liveFile]).
Fixpoint check_all {A} (f : Z -> A -> result error unit) (i : Z) (l : list A) : result error unit :=
  match l with
  | [] => Ok tt
  | a :: l => check f i a;; check_all f (i + 1) l
  end.

Definition profile_entry (name : string) (n : node) : bool :=
  negb (match n with Dir _ => true | File _ => false end || HasPrefix name ".") && HasSuffix name profileSufix.
(** [strings.TrimSuffix(e.Name(), ".yaml")] of a name that has the suffix. *)
Definition profile_name (name : string) : string :=
  ToLower (String.substring 0 (String.length name - String.length profileSufix) name).
(** [policy.LoadProfile] *)
Definition LoadProfile (d : disk) (path name : string) : result error Policy.Profile :=
  let* text := ReadFile d path in Policy.ParseProfile yaml_profile text name.
Definition load_profile (d : disk) (path name : string) (sets : gmap string Set_) (raw : gmap string List_)
  (live : gmap string string) : result error Profile :=
  let* spec := LoadProfile d path name in
  check check_all (fun i r => check_rule name i r sets raw live) 0 (Policy.p_Rules spec);;
  check check_all (fun i o => check_outcome name i o live) 0 (Policy.p_Outcomes spec);;
  Ok (MkProfile name (Policy.p_Rules spec) (Policy.p_Default spec) (Policy.p_DefaultCode spec)
        (Policy.p_Outcomes spec)).
Fixpoint load_entries (d : disk) (root : string) (entries : list (string * node)) (sets : gmap string Set_)
  (raw : gmap string List_) (live : gmap string string) (out : gmap string Profile)
  : result error (gmap string Profile) :=
  match entries with
  | [] => Ok out
  | (fname, n) :: entries =>
      if profile_entry fname n then
        let name := profile_name fname in
        let* p := load_profile d (Join root fname) name sets raw live in
        load_entries d root entries sets raw live (<[name := p]> out)
      else load_entries d root entries sets raw live out
  end.
Definition loadProfiles (d : disk) (root : string) (sets : gmap string Set_) (raw : gmap string List_)
  (live : gmap string string) : result error (gmap string Profile) :=
  let* entries := ReadDir d root in load_entries d root entries sets raw live ∅.

Definition loadLive (d : disk) (path : string) : result error (gmap string string) :=
  match ReadFile d path with
  | Err e => if IsNotExist e then Ok ∅ else Err e
  | Ok raw =>
      let* f := yaml_live raw in
      Ok (fold_left (fun m x => <[ToLower (TrimSpace x.1) := TrimSpace x.2]> m) f ∅)
  end.

Definition LoadSets (d : disk) (path : string) : result error (gmap string Policy.Set_) :=
  let* raw := ReadFile d path in Policy.ParseSets yaml_sets raw.

Definition geo_entry (name : string) (n : node) : bool :=
  match n with Dir _ => negb (HasPrefix name ".") | File _ => false end.
Fixpoint geo_entries (d : disk) (root : string) (entries : list (string * node))
  : result error (list NamedTable * Z) :=
  match entries with
  | [] => Ok ([], 0)
  | (fname, n) :: entries =>
      if geo_entry fname n then
        let name := ToLower fname in
        let* files := map_err (wrapf "%s: " [name]) (listFiles d (Join root fname)) in
        let* '(tab, skip) := map_err (wrapf "%s: " [name]) (loadFileList files) in
        let* '(out, skipped) := geo_entries d root entries in
        Ok (MkNamed KindCountry name tab (Z.of_nat (Len (Some tab))) :: out, skip + skipped)
      else geo_entries d root entries
  end.
Definition loadGeo (d : disk) (root : string) : result error (list NamedTable * Z) :=
  let* entries := ReadDir d root in
  let* '(out, skipped) := geo_entries d root entries in
  Ok (sort_slice (fun a b => string_less (nt_Name a) (nt_Name b)) out, skipped).

(** [usedLive]: what the snapshot asks of the live sets or writes to them. *)
Definition live_names (sets : list Set_) (profiles : list Profile) : list string :=
  concat (map (fun s => ma_Live (se_Match s) ++ ma_Live (se_Exclude s)) sets)
  ++ concat (map (fun p =>
       concat (map (fun r => Policy.r_Dataset r ::
                 (if String.eqb (Policy.r_Action r) Policy.ActionList then [Policy.r_List r] else []))
                 (pr_Rules p))
       ++ map Policy.o_List (pr_Outcomes p)) profiles).
Definition want_live (declared : gmap string string) (out : gmap string string) (uuid : string)
  : gmap string string :=
  if String.eqb uuid "" then out else
  match declared !! uuid with
  | Some subject => <[uuid := subject]> out
  | None => out
  end.
Definition usedLive (sets : gmap string Set_) (profiles : gmap string Profile)
  (declared : gmap string string) : gmap string string :=
  fold_left (want_live declared)
    (live_names (map snd (map_to_list sets)) (map snd (map_to_list profiles))) ∅.

(** [fingerprint]: the digest of the name, size and time of every file. *)
Definition tab : string := String "009" EmptyString.
Definition newline : string := String "010" EmptyString.
Definition fingerprint_line (x : string * file) : string :=
  x.1 +:+ tab +:+ FormatInt (fsize x.2) +:+ tab +:+ FormatInt (mtime x.2) +:+ newline.
Definition fingerprint (d : disk) (p : Paths) : result error string :=
  let* a := listFiles d (Policy_ p) in
  let* b := listFiles d (Geo_ p) in
  let all := sort_slice (fun a b => string_less a.1 b.1) (a ++ b) in
  Ok (Sha256.hex_digest (foldr (fun x s => fingerprint_line x +:+ s) "" all)).

(** The store: where it reads from, the current snapshot, the counter of
    generations. *)
Record store : Type := MkStore { paths : Paths; cur : option Snapshot; gen : Z }.

(** [build]; the counter of generations moves only when it succeeds. What
    follows the fingerprint is [assemble]. *)
Definition assemble (d : disk) (now : Z) (p : Paths) (gen : Z) (fp : string) : result error Snapshot :=
  let* lists := map_err (wrapf "lists: " []) (indexFiles d (Join (Policy_ p) listsDir)) in
  let* asns := map_err (wrapf "asns: " []) (indexFiles d (Join (Policy_ p) asnsDir)) in
  let* live := map_err (wrapf "live: " []) (loadLive d (Join (Policy_ p) liveFile)) in
  let* specs :=
    match LoadSets d (Join (Policy_ p) setsFile) with
    | Err e => if IsNotExist e then Ok ∅ else Err e
    | Ok specs => Ok specs
    end in
  let* '(sets, skipped) := compileSets (map_to_list specs) lists asns live in
  let* '(raw, rawSkip) := compileLists lists live in
  let* profiles :=
    map_err (wrapf "profiles: " []) (loadProfiles d (Join (Policy_ p) profilesDir) sets raw live) in
  check reject_if (bool_decide (profiles !! Policy.DefaultName = None))
    (Errorf "profiles: %s is missing and is mandatory" [Policy.DefaultName]);;
  let* '(geo, geoSkip) := map_err (wrapf "geo: " []) (loadGeo d (Geo_ p)) in
  Ok (MkSnapshot (u64 (gen + 1)) sets profiles raw geo (usedLive sets profiles live) fp now
        (skipped + rawSkip + geoSkip)).
Definition build (d : disk) (now : Z) (p : Paths) (gen : Z) : result error Snapshot :=
  let* fp := fingerprint d p in assemble d now p gen fp.

Definition Load (d : disk) (now : Z) (p : Paths) : result error store :=
  let* snap := build d now p 0 in Ok (MkStore p (Some snap) (Gen snap)).

Definition same_fingerprint (s : store) (fp : string) : bool :=
  match cur s with Some c => String.eqb (Fingerprint c) fp | None => false end.
(** [reload]: [d1] is the disk when the fingerprint is taken, [d2] when the
    snapshot is built. *)
Definition reload (d1 d2 : disk) (now : Z) (p : Paths) (s : store) : result error bool * store :=
  match fingerprint d1 p with
  | Err e => (Err e, s)
  | Ok fp =>
      if same_fingerprint s fp then (Ok false, s) else
      match build d2 now p (gen s) with
      | Err e => (Err e, s)
      | Ok snap =>
          if same_fingerprint s (Fingerprint snap) then (Ok false, MkStore (paths s) (cur s) (Gen snap))
          else (Ok true, MkStore (paths s) (Some snap) (Gen snap))
      end
  end.
Definition Reload (d1 d2 : disk) (now : Z) (s : store) : result error bool * store :=
  reload d1 d2 now (paths s) s.
Definition ReloadFrom (d1 d2 : disk) (now : Z) (policyDir geoDir : string) (s : store)
  : result error unit * store :=
  let p := MkPaths policyDir geoDir in
  match reload d1 d2 now p s with
  | (Err e, s) => (Err e, s)
  | (Ok _, s) => (Ok tt, MkStore p (cur s) (gen s))
  end.

(** [Watch]: the time between ticks, a second when it is not positive, and
    what the ticks leave when nothing else reloads. A tick comes with the disk
    and the time; an error is only logged. *)
Definition watch_every (every : Z) : Z := if every <=? 0 then 1000000000 else every.
Fixpoint Watch (ticks : list (disk * Z)) (s : store) : store :=
  match ticks with
  | [] => s
  | (d, now) :: ticks => Watch ticks (snd (Reload d d now s))
  end.
End decoded.
End compile.

(** ** Membership *)

(** The address is in the match: in one of its tables, in one of its live
    sets, or in one of its countries when the country is known. *)
Definition in_match `{Live} (m : Match) (ip : Addr) (country : option string) : bool :=
  existsb (fun src => Contains (Some (nt_Table src)) ip) (ma_Sources m)
  || existsb (fun uuid => live_contains uuid ip) (ma_Live m)
  || match country with Some c => existsb (fun cc => String.eqb cc c) (ma_Countries m) | None => false end.
(** Every source of a compiled match says what it is. *)
Definition sources_named (m : Match) : Prop :=
  Forall (fun src => nt_Kind src = KindList \/ nt_Kind src = KindAsn) (ma_Sources m).

Section membership.
Context `{Live}.

Lemma locate_sources_some srcs ip :
  match locate_sources srcs ip with
  | Some h => existsb (fun src => Contains (Some (nt_Table src)) ip) srcs = true
      /\ exists src, src ∈ srcs /\ hit_Kind h = nt_Kind src /\ hit_Name h = nt_Name src
         /\ Locate (Some (nt_Table src)) ip = Some (hit_Span h)
  | None => existsb (fun src => Contains (Some (nt_Table src)) ip) srcs = false
  end.
Proof.
  induction srcs as [|src srcs IH]; [done|]. cbn [locate_sources existsb]. rewrite contains_locate.
  destruct (Locate (Some (nt_Table src)) ip) as [span|] eqn:E; cbn [is_Some].
  - rewrite bool_decide_eq_true_2 by eauto. split; [done|]. exists src. split_and!; [by left|done..].
  - rewrite bool_decide_eq_false_2 by (intros [? ?]; done). cbn [orb].
    destruct (locate_sources srcs ip) as [h|]; [|done]. destruct IH as [? (s' & ? & ?)].
    split; [done|]. exists s'. split; [by right|done].
Qed.

Lemma locate_live_some uuids ip :
  match locate_live uuids ip with
  | Some h => existsb (fun u => live_contains u ip) uuids = true /\ hit_Kind h = KindLive /\ hit_Name h ∈ uuids
  | None => existsb (fun u => live_contains u ip) uuids = false
  end.
Proof.
  induction uuids as [|u uuids IH]; [done|]. cbn [locate_live existsb].
  destruct (live_contains u ip); cbn [orb]; [split_and!; [done|done|by left]|].
  destruct (locate_live uuids ip); [|done]. destruct IH as (? & ? & ?). split_and!; [done|done|by right].
Qed.

Lemma locate_country_some ccs c :
  match locate_country ccs c with
  | Some h => existsb (fun cc => String.eqb cc c) ccs = true /\ hit_Kind h = KindCountry /\ hit_Name h = c
  | None => existsb (fun cc => String.eqb cc c) ccs = false
  end.
Proof.
  induction ccs as [|cc ccs IH]; [done|]. cbn [locate_country existsb].
  destruct (String.eqb_spec cc c) as [->|]; cbn [orb]; [done|]. apply IH.
Qed.

(** The country of a lookup that failed is the empty string. *)
Definition geo_pair (country : option string) : string * bool :=
  match country with Some c => (c, true) | None => ("", false) end.

Lemma match_locate_spec m ip country :
  is_Some (locate m ip (geo_pair country).1 (geo_pair country).2) <-> in_match m ip country = true.
Proof.
  unfold locate, in_match. pose proof (locate_sources_some (ma_Sources m) ip) as H1.
  destruct (locate_sources _ _) as [h|]; [destruct H1 as [-> _]; by split; eauto|]. rewrite H1. cbn [orb].
  pose proof (locate_live_some (ma_Live m) ip) as H2.
  destruct (locate_live _ _) as [h|]; [destruct H2 as [-> _]; by split; eauto|]. rewrite H2. cbn [orb].
  destruct country as [c|]; cbn [geo_pair fst snd negb]; [|by split; [intros []|]].
  pose proof (locate_country_some (ma_Countries m) c) as H3.
  destruct (locate_country _ _); [destruct H3 as [-> _]; by split; eauto|]. rewrite H3. by split; [intros []|].
Qed.

Lemma locate_kind m ip c g h :
  sources_named m -> locate m ip c g = Some h -> hit_Kind h <> "".
Proof.
  intros Hn. unfold locate. pose proof (locate_sources_some (ma_Sources m) ip) as H1.
  destruct (locate_sources _ _) as [h1|].
  { intros [= <-]. destruct H1 as [_ (src & Hin & -> & _)]. unfold sources_named in Hn.
    rewrite Forall_forall in Hn. by destruct (Hn src Hin) as [-> | ->]. }
  pose proof (locate_live_some (ma_Live m) ip) as H2.
  destruct (locate_live _ _) as [h2|]; [intros [= <-]; by destruct H2 as (_ & -> & _)|].
  destruct g; cbn [negb]; [|done]. pose proof (locate_country_some (ma_Countries m) c) as H3.
  destruct (locate_country _ _) as [h3|]; [|done]. intros [= <-]. by destruct H3 as (_ & -> & _).
Qed.

Lemma hits_spec m ip country :
  sources_named m -> hits m ip (geo_pair country).1 (geo_pair country).2 = in_match m ip country.
Proof.
  intros Hn. unfold hits. pose proof (match_locate_spec m ip country) as Hs.
  destruct (locate m ip _ _) as [h|] eqn:E.
  - pose proof (locate_kind _ _ _ _ _ Hn E) as Hk. apply String.eqb_neq in Hk. rewrite Hk.
    symmetry. apply Hs. eauto.
  - destruct (in_match m ip country); [|done]. destruct (proj2 Hs eq_refl) as [? [=]].
Qed.

Lemma explain_true s ip country :
  sources_named (se_Exclude s) ->
  (Explain (Some s) ip (geo_pair country).1 (geo_pair country).2).1
  = xorb (se_Inverse s) (in_match (se_Match s) ip country && negb (in_match (se_Exclude s) ip country)).
Proof.
  intros Hn. unfold Explain. rewrite (hits_spec _ _ _ Hn).
  pose proof (match_locate_spec (se_Match s) ip country) as Hs.
  destruct (locate (se_Match s) _ _ _) as [h|].
  - rewrite (proj1 Hs) by eauto. cbn [andb].
    destruct (se_Inverse s), (in_match (se_Exclude s) ip country); done.
  - destruct (in_match (se_Match s) ip country); [by destruct (proj2 Hs eq_refl)|].
    by destruct (se_Inverse s).
Qed.
End membership.

(** ** Compiled matches *)

Lemma compile_sources_ok kind missing files : forall names all srcs n,
  compile_sources kind missing files names = Ok (all, srcs, n) ->
  Forall2 (fun name src => nt_Kind src = kind /\ nt_Name src = name
    /\ exists paths ps skip, files !! name = Some paths /\ readAll paths = Ok (ps, skip)
       /\ nt_Table src = Build ps) names srcs.
Proof.
  induction names as [|name names IH]; intros all srcs n; cbn [compile_sources].
  { intros [= _ <- _]. constructor. }
  destruct (files !! name) as [paths|] eqn:Ef; [|done]. intros E.
  apply result_bind_ok in E as ([ps skip] & Er & E). apply result_bind_ok in E as ([[a s] k] & Ec & [= _ <- _]).
  constructor; [|by eapply IH]. split_and!; [done|done|]. by exists paths, ps, skip.
Qed.

Lemma check_live_ok live uuids :
  check_live live uuids = Ok tt -> Forall (fun u => is_Some (live !! u)) uuids.
Proof.
  induction uuids as [|u uuids IH]; cbn [check_live]; [intros _; apply Forall_nil_2|].
  intros [Hu E]%reject_bind. apply bool_decide_eq_false, not_eq_None_Some in Hu. constructor; auto.
Qed.

Lemma compileMatch_ok spec lists asns live m n :
  compileMatch spec lists asns live = Ok (m, n) ->
  exists src1 src2, ma_Sources m = src1 ++ src2
    /\ Forall2 (fun name src => nt_Kind src = KindList /\ nt_Name src = name
         /\ exists paths ps skip, lists !! name = Some paths /\ readAll paths = Ok (ps, skip)
            /\ nt_Table src = Build ps) (Policy.m_Lists spec) src1
    /\ Forall2 (fun name src => nt_Kind src = KindAsn /\ nt_Name src = name
         /\ exists paths ps skip, asns !! name = Some paths /\ readAll paths = Ok (ps, skip)
            /\ nt_Table src = Build ps) (map FormatUint (Policy.m_Asns spec)) src2
    /\ ma_Live m = Policy.m_Live spec /\ ma_Countries m = Policy.m_Countries spec
    /\ Forall (fun u => is_Some (live !! u)) (ma_Live m).
Proof.
  unfold compileMatch. intros E.
  apply result_bind_ok in E as ([[a1 s1] k1] & E1 & E). apply result_bind_ok in E as ([[a2 s2] k2] & E2 & E).
  apply result_bind_ok in E as ([] & E3 & [= <- _]). exists s1, s2.
  split_and!; [done|by eapply compile_sources_ok|by eapply compile_sources_ok|done|done|by apply check_live_ok].
Qed.

Lemma compileMatch_named spec lists asns live m n :
  compileMatch spec lists asns live = Ok (m, n) -> sources_named m.
Proof.
  intros (s1 & s2 & Hs & H1 & H2 & _)%compileMatch_ok. unfold sources_named. rewrite Hs.
  apply Forall_app_2; apply Forall_forall; intros src (i & Hi)%list_elem_of_lookup.
  - destruct (Forall2_lookup_r _ _ _ _ _ H1 Hi) as (? & _ & Hk & _). by left.
  - destruct (Forall2_lookup_r _ _ _ _ _ H2 Hi) as (? & _ & Hk & _). by right.
Qed.

Lemma readAll_ok : forall fs ps n, readAll fs = Ok (ps, n) -> Forall prefix_ok ps.
Proof.
  induction fs as [|[path f] fs IH]; intros ps n E; cbn [readAll] in E.
  { injection E as <- _. apply Forall_nil_2. }
  apply result_bind_ok in E as ([a k] & Ea%map_err_ok & E). apply result_bind_ok in E as ([b m] & Eb & [= <- _]).
  apply Forall_app_2; [|by eapply IH]. unfold LoadFile in Ea. destruct (data f) as [content|]; [|done].
  destruct (rd_err _); [done|]. injection Ea as <- _. apply read_lines_ok, Forall_nil_2.
Qed.

Definition table_ok (src : NamedTable) : Prop := exists ps, Forall prefix_ok ps /\ nt_Table src = Build ps.

Lemma compileMatch_tables spec lists asns live m n :
  compileMatch spec lists asns live = Ok (m, n) -> Forall table_ok (ma_Sources m).
Proof.
  intros (s1 & s2 & -> & H1 & H2 & _)%compileMatch_ok.
  apply Forall_app_2; apply Forall_forall; intros src (i & Hi)%list_elem_of_lookup.
  - destruct (Forall2_lookup_r _ _ _ _ _ H1 Hi) as (? & _ & _ & _ & ? & ps & ? & _ & Hr & Ht).
    exists ps. split; [by eapply readAll_ok|done].
  - destruct (Forall2_lookup_r _ _ _ _ _ H2 Hi) as (? & _ & _ & _ & ? & ps & ? & _ & Hr & Ht).
    exists ps. split; [by eapply readAll_ok|done].
Qed.

Lemma compileSets_ok : forall specs lists asns live sets n,
  compileSets specs lists asns live = Ok (sets, n) ->
  forall name s, sets !! name = Some s ->
    exists spec m1 n1 m2 n2, (name, spec) ∈ specs
      /\ compileMatch (Policy.set_Match spec) lists asns live = Ok (m1, n1)
      /\ compileMatch (Policy.set_Exclude spec) lists asns live = Ok (m2, n2)
      /\ s = MkSet name m1 (Policy.set_Inverse spec) m2.
Proof.
  induction specs as [|[nm spec] specs IH]; intros lists asns live sets n E name s Hs; cbn [compileSets] in E.
  { injection E as <- _. by rewrite lookup_empty in Hs. }
  apply result_bind_ok in E as ([m1 n1] & E1 & E). apply result_bind_ok in E as ([m2 n2] & E2 & E).
  apply result_bind_ok in E as ([out k] & E3 & [= <- _]).
  destruct (compileMatch (Policy.set_Match spec) lists asns live) as [[? ?]|] eqn:C1; [|done].
  destruct (compileMatch (Policy.set_Exclude spec) lists asns live) as [[? ?]|] eqn:C2; [|done].
  simpl in E1, E2. simplify_eq. destruct (decide (name = nm)) as [->|Hne].
  - rewrite lookup_insert_eq in Hs. injection Hs as <-. exists spec, m1, n1, m2, n2. split_and!; [by left|done..].
  - rewrite lookup_insert_ne in Hs by done. destruct (IH _ _ _ _ _ E3 _ _ Hs) as (sp & a & b & c & e & ? & ?).
    exists sp, a, b, c, e. split; [by right|done].
Qed.

(** ** What a snapshot that was built promises *)

(** Everything a profile names is there. *)
Definition rule_resolved (sets : gmap string Set_) (raw : gmap string List_) (live : gmap string string)
  (r : Policy.Rule) : Prop :=
  (Policy.Terminal (Policy.r_Action r) = true -> is_Some (sets !! Policy.r_Set r))
  /\ (Policy.Terminal (Policy.r_Action r) = false -> is_Some (raw !! Policy.r_Dataset r))
  /\ (Policy.r_Action r = Policy.ActionList -> is_Some (live !! Policy.r_List r)).
Definition outcome_resolved (live : gmap string string) (o : Policy.Outcome) : Prop :=
  Policy.o_List o <> "" -> is_Some (live !! Policy.o_List o).

Record profile_ok `{UnicodeLower} (sets : gmap string Set_) (raw : gmap string List_)
  (live : gmap string string) (name : string) (p : Profile) : Prop := {
  po_name : pr_Name p = name;
  po_default : Policy.Terminal (pr_Default p) = true;
  po_rules : Forall Policy.rule_ok (pr_Rules p);
  po_outcomes : Forall Policy.outcome_ok (pr_Outcomes p);
  po_resolved : Forall (rule_resolved sets raw live) (pr_Rules p);
  po_writes : Forall (outcome_resolved live) (pr_Outcomes p) }.

Lemma check_rule_ok name i r sets raw live :
  check_rule name i r sets raw live = Ok tt -> rule_resolved sets raw live r.
Proof.
  unfold check_rule, rule_resolved. intros E. apply result_bind_ok in E as ([] & E1 & E2).
  apply reject_if_ok, andb_false_iff in E2.
  destruct (Policy.Terminal (Policy.r_Action r)); apply reject_if_ok, bool_decide_eq_false, not_eq_None_Some in E1;
    (split_and!; [done|done|]); intros Ha; destruct E2 as [E2%String.eqb_neq|E2%bool_decide_eq_false];
    try done; by apply not_eq_None_Some.
Qed.

Lemma check_all_ok {A} (f : Z -> A -> result error unit) (P : A -> Prop) : forall l i,
  (forall i a, f i a = Ok tt -> P a) -> check_all f i l = Ok tt -> Forall P l.
Proof.
  induction l as [|a l IH]; intros i Hf E; cbn [check_all] in E; [apply Forall_nil_2|].
  apply result_bind_ok in E as ([] & E1 & E2). constructor; [by eapply Hf|by eapply IH].
Qed.

Lemma load_profile_ok `{UnicodeLower} yaml d path name sets raw live p :
  load_profile yaml d path name sets raw live = Ok p -> profile_ok sets raw live name p.
Proof.
  unfold load_profile, LoadProfile. intros E. apply result_bind_ok in E as (spec & (text & _ & Es)%result_bind_ok & E).
  apply result_bind_ok in E as ([] & E1 & E). apply result_bind_ok in E as ([] & E2 & [= <-]).
  destruct (Policy.ParseProfile_ok _ _ _ _ Es) as (? & ? & ? & ?). split; try done.
  - eapply check_all_ok; [|exact E1]. intros i a. apply check_rule_ok.
  - eapply check_all_ok; [|exact E2]. intros i o Ho. unfold check_outcome in Ho.
    apply reject_if_ok, andb_false_iff in Ho. intros Hne.
    destruct Ho as [Ho|Ho%bool_decide_eq_false]; [|by apply not_eq_None_Some].
    by apply negb_false_iff, String.eqb_eq in Ho.
Qed.

Lemma load_entries_ok `{UnicodeLower} yaml d root sets raw live : forall es out r,
  load_entries yaml d root es sets raw live out = Ok r ->
  map_Forall (profile_ok sets raw live) out -> map_Forall (profile_ok sets raw live) r.
Proof.
  induction es as [|[fname n] es IH]; intros out r E Hout; cbn [load_entries] in E; [by injection E as <-|].
  destruct (profile_entry fname n); [|by eapply IH].
  apply result_bind_ok in E as (p & Ep & E). eapply IH; [exact E|].
  apply map_Forall_insert_2; [by eapply load_profile_ok|done].
Qed.

Lemma live_lists_keep : forall live out r uuid l,
  live_lists live out = Ok r -> out !! uuid = Some l -> r !! uuid = Some l.
Proof.
  induction live as [|u live IH]; intros out r uuid l E Hl; cbn [live_lists] in E; [by injection E as <-|].
  apply reject_bind in E as [Hd E]. eapply IH; [exact E|]. rewrite lookup_insert_ne; [done|].
  intros ->. apply bool_decide_eq_false in Hd. apply Hd. eauto.
Qed.

(** ** Live sets in use *)

Lemma want_live_spec declared : forall names out uuid,
  fold_left (want_live declared) names out !! uuid
  = if bool_decide (uuid ∈ names /\ uuid <> "") then
      match declared !! uuid with Some s => Some s | None => out !! uuid end
    else out !! uuid.
Proof.
  induction names as [|u names IH]; intros out uuid; cbn [fold_left].
  { rewrite bool_decide_eq_false_2; [done|]. intros [Hu _]. by apply elem_of_nil in Hu. }
  rewrite IH. unfold want_live. destruct (String.eqb_spec u "") as [->|Hu].
  { apply eq_trans with (if bool_decide (uuid ∈ names /\ uuid <> "") then
      match declared !! uuid with Some s => Some s | None => out !! uuid end else out !! uuid); [done|].
    apply bool_decide_ext_if. rewrite elem_of_cons. naive_solver. }
  destruct (decide (uuid = u)) as [->|Hne].
  - rewrite (bool_decide_eq_true_2 (u ∈ u :: names /\ _)) by (split; [by left|done]).
    destruct (declared !! u) as [s|] eqn:E; [rewrite lookup_insert_eq|]; by destruct (bool_decide _).
  - assert ((match declared !! u with Some s => <[u:=s]> out | None => out end) !! uuid = out !! uuid) as ->.
    { destruct (declared !! u); [by rewrite lookup_insert_ne|done]. }
    apply bool_decide_ext_if. rewrite elem_of_cons. naive_solver.
Qed.

Lemma usedLive_spec sets profiles declared uuid :
  usedLive sets profiles declared !! uuid
  = if bool_decide (uuid ∈ live_names (map snd (map_to_list sets)) (map snd (map_to_list profiles)) /\ uuid <> "")
    then declared !! uuid else None.
Proof.
  unfold usedLive. rewrite want_live_spec, lookup_empty. destruct (bool_decide _); [|done].
  by destruct (declared !! uuid).
Qed.

Lemma in_snd {A} (m : gmap string A) k a : m !! k = Some a -> a ∈ map snd (map_to_list m).
Proof. intros Hk. apply list_elem_of_fmap. exists (k, a). split; [done|]. by apply elem_of_map_to_list. Qed.

(** A list that a rule or an outcome writes is one of the names in use. *)
Lemma rule_in_use (sets : gmap string Set_) (profiles : gmap string Profile) name p r :
  profiles !! name = Some p -> r ∈ pr_Rules p -> Policy.r_Action r = Policy.ActionList ->
  Policy.r_List r ∈ live_names (map snd (map_to_list sets)) (map snd (map_to_list profiles)).
Proof.
  intros Hp Hr Ha. unfold live_names. apply elem_of_app. right.
  rewrite list_elem_of_In, in_concat. eexists. split.
  { apply in_map, list_elem_of_In. by eapply in_snd. }
  apply in_or_app. left. rewrite in_concat. eexists. split.
  { apply in_map, list_elem_of_In. exact Hr. }
  rewrite Ha. right. by left.
Qed.
Lemma outcome_in_use (sets : gmap string Set_) (profiles : gmap string Profile) name p o :
  profiles !! name = Some p -> o ∈ pr_Outcomes p ->
  Policy.o_List o ∈ live_names (map snd (map_to_list sets)) (map snd (map_to_list profiles)).
Proof.
  intros Hp Ho. unfold live_names. apply elem_of_app. right.
  rewrite list_elem_of_In, in_concat. eexists. split.
  { apply in_map, list_elem_of_In. by eapply in_snd. }
  apply in_or_app. right. by apply in_map, list_elem_of_In.
Qed.

(** What [build] made of the files. *)
Record built `{UnicodeLower} (snap : Snapshot) (declared : gmap string string) (specs : gmap string Policy.Set_)
  (lists asns : index) : Prop := {
  b_sets : forall name s, Sets snap !! name = Some s ->
    exists spec m1 n1 m2 n2, specs !! name = Some spec
      /\ compileMatch (Policy.set_Match spec) lists asns declared = Ok (m1, n1)
      /\ compileMatch (Policy.set_Exclude spec) lists asns declared = Ok (m2, n2)
      /\ s = MkSet name m1 (Policy.set_Inverse spec) m2;
  b_profiles : map_Forall (profile_ok (Sets snap) (Lists snap) declared) (Profiles snap);
  b_default : is_Some (Profiles snap !! Policy.DefaultName);
  b_live : Live_ snap = usedLive (Sets snap) (Profiles snap) declared }.

Lemma assemble_built `{UnicodeLower} ysets yprofile ylive d now p g fp snap :
  assemble ysets yprofile ylive d now p g fp = Ok snap ->
  (exists declared specs lists asns, loadLive ylive d (Join (Policy_ p) liveFile) = Ok declared
     /\ built snap declared specs lists asns)
  /\ Gen snap = u64 (g + 1) /\ Fingerprint snap = fp.
Proof.
  unfold assemble. intros E.
  apply result_bind_ok in E as (lists & _ & E). apply result_bind_ok in E as (asns & _ & E).
  apply result_bind_ok in E as (live & Hl & E). apply result_bind_ok in E as (specs & _ & E).
  apply result_bind_ok in E as ([sets k1] & Es & E). apply result_bind_ok in E as ([raw k2] & _ & E).
  apply result_bind_ok in E as (profiles & Ep & E). apply reject_bind in E as [Hd E].
  apply result_bind_ok in E as ([geo k3] & _ & [= <-]). split; [|done].
  exists live, specs, lists, asns. split; [by apply map_err_ok in Hl|].
  split; cbn [Sets Profiles Lists Live_].
  - intros name s Hs. destruct (compileSets_ok _ _ _ _ _ _ Es _ _ Hs) as (spec & m1 & n1 & m2 & n2 & Hin & ? & ? & ?).
    exists spec, m1, n1, m2, n2. split; [|done]. by apply elem_of_map_to_list.
  - destruct (loadProfiles _ _ _ _ _ _) as [ps|] eqn:El; [|done]. cbn [map_err] in Ep. injection Ep as ->.
    unfold loadProfiles in El. apply result_bind_ok in El as (es & _ & El).
    eapply load_entries_ok; [exact El|apply map_Forall_empty].
  - by apply bool_decide_eq_false, not_eq_None_Some in Hd.
  - done.
Qed.

Lemma build_built `{UnicodeLower} ysets yprofile ylive d now p g snap :
  build ysets yprofile ylive d now p g = Ok snap ->
  (exists declared specs lists asns, loadLive ylive d (Join (Policy_ p) liveFile) = Ok declared
     /\ built snap declared specs lists asns)
  /\ Gen snap = u64 (g + 1) /\ fingerprint d p = Ok (Fingerprint snap).
Proof.
  unfold build. intros (fp & Ef & E)%result_bind_ok. destruct (assemble_built _ _ _ _ _ _ _ _ _ E) as (? & ? & <-).
  by split_and!.
Qed.

Lemma built_named `{UnicodeLower} snap declared specs lists asns name s :
  built snap declared specs lists asns -> Sets snap !! name = Some s ->
  sources_named (se_Match s) /\ sources_named (se_Exclude s) /\ Forall table_ok (ma_Sources (se_Match s)).
Proof.
  intros Hb Hs. destruct (b_sets _ _ _ _ _ Hb _ _ Hs) as (spec & m1 & n1 & m2 & n2 & _ & H1 & H2 & ->).
  split_and!; [by eapply compileMatch_named|by eapply compileMatch_named|by eapply compileMatch_tables].
Qed.

(** The same, of a generation that was loaded. *)
Definition sets_ok (snap : Snapshot) : Prop :=
  forall name s, Sets snap !! name = Some s ->
    sources_named (se_Match s) /\ sources_named (se_Exclude s) /\ Forall table_ok (ma_Sources (se_Match s)).

Lemma build_assemble `{UnicodeLower} ysets yprofile ylive d now p g snap :
  build ysets yprofile ylive d now p g = Ok snap ->
  exists fp, fingerprint d p = Ok fp /\ assemble ysets yprofile ylive d now p g fp = Ok snap.
Proof. unfold build. by intros (fp & Ef & E)%result_bind_ok; exists fp. Qed.

Lemma assemble_sets_ok `{UnicodeLower} ysets yprofile ylive d now p g fp snap :
  assemble ysets yprofile ylive d now p g fp = Ok snap -> sets_ok snap.
Proof.
  intros E. destruct (assemble_built _ _ _ _ _ _ _ _ _ E) as [(dcl & sp & ls & asn & Hd & Hb) _].
  intros name s. by eapply built_named.
Qed.
Lemma build_sets_ok `{UnicodeLower} ysets yprofile ylive d now p g snap :
  build ysets yprofile ylive d now p g = Ok snap -> sets_ok snap.
Proof. intros (fp & _ & E)%build_assemble. by eapply assemble_sets_ok. Qed.

Lemma build_default `{UnicodeLower} ysets yprofile ylive d now p g snap :
  build ysets yprofile ylive d now p g = Ok snap -> is_Some (Profiles snap !! Policy.DefaultName).
Proof.
  intros E. destruct (build_built _ _ _ _ _ _ _ _ E) as [(dcl & sp & ls & asn & Hd & Hb) _]. by apply Hb.
Qed.

(** The live sets that rows write to are among those that the snapshot uses. *)
Lemma assemble_profiles_ok `{UnicodeLower} ysets yprofile ylive d now p g fp snap :
  assemble ysets yprofile ylive d now p g fp = Ok snap ->
  forall name pr, Profiles snap !! name = Some pr -> profile_ok (Sets snap) (Lists snap) (Live_ snap) name pr.
Proof.
  intros E. destruct (assemble_built _ _ _ _ _ _ _ _ _ E) as [(dcl & sp & ls & asn & Hd & Hb) _].
  intros name pr Hp. destruct (b_profiles _ _ _ _ _ Hb _ _ Hp) as [H1 H2 H3 H4 H5 H6]. split; try done.
  - apply Forall_forall. intros r Hr. rewrite Forall_forall in H5, H3.
    destruct (H5 r Hr) as (? & ? & Hl). split_and!; [done|done|]. intros Ha.
    rewrite (b_live _ _ _ _ _ Hb), usedLive_spec, bool_decide_eq_true_2; [by apply Hl|].
    split; [by eapply rule_in_use|].
    destruct (H3 r Hr) as [(Ht & _)|[(Hq & _)|(_ & _ & _ & Hne & _)]]; [|by rewrite Ha in Hq|done].
    by rewrite Ha in Ht.
  - apply Forall_forall. intros o Ho Hne. rewrite Forall_forall in H6.
    rewrite (b_live _ _ _ _ _ Hb), usedLive_spec, bool_decide_eq_true_2; [by apply (H6 o Ho)|].
    split; [by eapply outcome_in_use|done].
Qed.
Lemma build_profiles_ok `{UnicodeLower} ysets yprofile ylive d now p g snap :
  build ysets yprofile ylive d now p g = Ok snap ->
  forall name pr, Profiles snap !! name = Some pr -> profile_ok (Sets snap) (Lists snap) (Live_ snap) name pr.
Proof. intros (fp & _ & E)%build_assemble. by eapply assemble_profiles_ok. Qed.

(** ** A small generation *)

Section example.
#[local] Existing Instance ascii_only.

Definition ex_file (s : string) : file := MkFile (Some s) (Z.of_nat (String.length s)) 7.
Definition ex_lists : node :=
  Dir (Some [("lab.txt", File (ex_file "198.51.100.0/24")); ("office.txt", File (ex_file "10.0.0.0/8"))]).
Definition ex_policy : node :=
  Dir (Some [("lists", ex_lists);
             ("live.yaml", File (ex_file "live"));
             ("profiles", Dir (Some [("default.yaml", File (ex_file "profile"))]));
             ("sets.yaml", File (ex_file "sets"))]).
Definition ex_geo : node := Dir (Some [("RU", Dir (Some [("a.txt", File (ex_file "192.0.2.0/24"))]))]).
Definition ex_disk : disk := fun path =>
  match path with
  | "/p" => Some ex_policy
  | "/g" => Some ex_geo
  | "/p/lists" => Some ex_lists
  | "/p/live.yaml" => Some (File (ex_file "live"))
  | "/p/profiles" => Some (Dir (Some [("default.yaml", File (ex_file "profile"))]))
  | "/p/profiles/default.yaml" => Some (File (ex_file "profile"))
  | "/p/sets.yaml" => Some (File (ex_file "sets"))
  | "/g/RU" => Some (Dir (Some [("a.txt", File (ex_file "192.0.2.0/24"))]))
  | _ => None
  end.
Definition ex_paths : Paths := MkPaths "/p" "/g".
Definition ex_set (m ex : Policy.Match) (inv : bool) : Policy.fileSet := Policy.MkFileSet m inv ex.
Definition ex_sets : string -> result error (list (string * Policy.fileSet)) := fun _ =>
  Ok [("office", ex_set (Policy.MkMatch ["office"] [] [] []) (Policy.MkMatch [] [] ["ru"] []) false);
      ("lab", ex_set (Policy.MkMatch ["Lab"] [] [] []) Policy.emptyMatch false);
      ("outside", ex_set (Policy.MkMatch [] ["7b1d"] [] []) Policy.emptyMatch true)].
Definition ex_no_ask : Policy.fileAsk :=
  Policy.MkFileAsk "" "" "" "" None None "" "" "" "" Policy.noObjects [].
Definition ex_ask : Policy.fileAsk :=
  Policy.MkFileAsk "captcha" "challenge" "" "" None None "" "" "" "" Policy.noObjects [].
Definition ex_rules : list Policy.fileRule :=
  [Policy.MkFileRule "lab" "" false "deny" "" "IP_LAB" ex_no_ask "" "" "";
   Policy.MkFileRule "outside" "" false "deny" "" "" ex_no_ask "" "" "";
   Policy.MkFileRule "" "office" false "request" "" "IP_GREYLIST" ex_ask "" "" "";
   Policy.MkFileRule "" "office" true "list" "" "" ex_no_ask "7b1d" "net" "10m";
   Policy.MkFileRule "office" "" false "allow" "" "" ex_no_ask "" "" ""].
Definition ex_profile : string -> result error Policy.fileProfile := fun _ =>
  Ok (Policy.MkFileProfile ex_rules "" ""
        [Policy.MkFileOutcome "black" None ex_no_ask "7b1d" "asn" "1h" "AUTO_BAN";
         Policy.MkFileOutcome "overload" (Some 60) ex_no_ask "7b1d" "" "5m" ""]).
Definition ex_live : string -> result error (list (string * string)) := fun _ =>
  Ok [("7B1D", "suspects"); ("unused", "x")].
Definition ex_build : result error Snapshot := build ex_sets ex_profile ex_live ex_disk 0 ex_paths 0.
Definition ex_snap : Snapshot :=
  match ex_build with Ok s => s | Err _ => MkSnapshot 0 ∅ ∅ ∅ [] ∅ "" 0 0 end.

Definition office_in (snap : Snapshot) : bool :=
  match Sets snap !! "office" with
  | Some s => xorb (se_Inverse s) (in_match (H := no_live) (se_Match s) (Addr4 167772161) None
      && negb (in_match (H := no_live) (se_Exclude s) (Addr4 167772161) None))
  | None => false
  end.

Lemma ex_build_ok : ex_build = Ok ex_snap.
Proof.
  unfold ex_snap. assert (is_ok ex_build = true) as H by (by vm_compute). by destruct ex_build.
Qed.
End example.

(** ** Properties *)

(** A set of a snapshot matches an address exactly when the address is in
    one of its lists, systems, live sets or countries and in none of its
    exclusions - or exactly when it is not, when the set is inverse. Whatever
    the live sets answer, and with no country when the lookup found none. *)
Theorem explain_spec `{UnicodeLower} ysets yprofile ylive d now p g snap name s
  {L : Live} ip country :
  build ysets yprofile ylive d now p g = Ok snap -> Sets snap !! name = Some s ->
  (Explain (Some s) ip (geo_pair country).1 (geo_pair country).2).1
  = xorb (se_Inverse s) (in_match (se_Match s) ip country && negb (in_match (se_Exclude s) ip country)).
Proof.
  intros E Hs. apply explain_true. by destruct (build_sets_ok _ _ _ _ _ _ _ _ E _ _ Hs) as (_ & ? & _).
Qed.

Lemma explain_spec_witness :
  exists s, Sets ex_snap !! "office" = Some s
    /\ (Explain (H := no_live) (Some s) (Addr4 167772161) "" false).1 = true.
Proof.
  assert (forall snap, ex_build = Ok snap -> office_in snap = true ->
    exists s, Sets snap !! "office" = Some s
      /\ (Explain (H := no_live) (Some s) (Addr4 167772161) "" false).1 = true) as Hgen.
  { intros snap E Hx. unfold office_in in Hx. destruct (Sets snap !! "office") as [s|] eqn:Es; [|done].
    exists s. split; [done|]. rewrite <- Hx.
    unfold ex_build in E.
    exact (explain_spec (H := ascii_only) _ _ _ _ _ _ _ _ _ s (L := no_live) (Addr4 167772161) None E Es). }
  apply Hgen; [exact ex_build_ok|vm_compute; reflexivity].
Defined.

(** C23: A snapshot that was built answers every name its profiles use. There
    is a [default] profile; the set of every allow and deny row and the list
    of every request and list row is in the snapshot; every rule and outcome
    passed the checks of the policy; and the live sets it asks the mirror for
    are exactly those its live file declares and its sets or rows use. *)
Theorem snapshot_resolved `{UnicodeLower} ysets yprofile ylive d now p g snap :
  build ysets yprofile ylive d now p g = Ok snap ->
  is_Some (Profiles snap !! Policy.DefaultName)
  /\ (forall name pr, Profiles snap !! name = Some pr -> profile_ok (Sets snap) (Lists snap) (Live_ snap) name pr)
  /\ exists declared, loadLive ylive d (Join (Policy_ p) liveFile) = Ok declared
     /\ forall uuid, Live_ snap !! uuid =
       if bool_decide (uuid ∈ live_names (map snd (map_to_list (Sets snap))) (map snd (map_to_list (Profiles snap)))
                       /\ uuid <> "")
       then declared !! uuid else None.
Proof.
  intros E. split; [by eapply build_default|]. split; [by eapply build_profiles_ok|].
  destruct (build_built _ _ _ _ _ _ _ _ E) as [(dcl & sp & ls & asn & Hd & Hb) _].
  exists dcl. split; [done|]. intros uuid. rewrite (b_live _ _ _ _ _ Hb). apply usedLive_spec.
Qed.

Lemma snapshot_resolved_witness :
  is_Some (Profiles ex_snap !! "default") /\ Live_ ex_snap = {["7b1d" := "suspects"]}.
Proof.
  split; [|apply (bool_decide_unpack _); vm_compute; exact I].
  pose proof ex_build_ok as E. unfold ex_build in E.
  exact (proj1 (snapshot_resolved (H := ascii_only) _ _ _ _ _ _ _ _ E)).
Defined.

Lemma reload_keeps_err `{UnicodeLower} ysets yprofile ylive d1 d2 now p s e s' :
  reload ysets yprofile ylive d1 d2 now p s = (Err e, s') -> s' = s.
Proof.
  unfold reload. destruct (fingerprint d1 p) as [fp|]; [|by intros [= _ <-]].
  destruct (same_fingerprint s fp); [done|].
  destruct (build _ _ _ d2 now p (gen s)) as [snap|]; [|by intros [= _ <-]].
  by destruct (same_fingerprint s _).
Qed.

(** After a reload that succeeds, on files that stand still, the current
    snapshot has the fingerprint of the files. *)
Lemma reload_fingerprint `{UnicodeLower} ysets yprofile ylive d now p s b s' :
  reload ysets yprofile ylive d d now p s = (Ok b, s') ->
  exists c, cur s' = Some c /\ fingerprint d p = Ok (Fingerprint c).
Proof.
  unfold reload. destruct (fingerprint d p) as [fp|] eqn:Efp; [|done].
  destruct (same_fingerprint s fp) eqn:Es.
  { intros [= _ <-]. unfold same_fingerprint in Es. destruct (cur s) as [c|]; [|done].
    apply String.eqb_eq in Es as <-. by exists c. }
  destruct (build _ _ _ d now p (gen s)) as [snap|] eqn:Eb; [|done].
  destruct (build_built _ _ _ _ _ _ _ _ Eb) as (_ & _ & Hf). rewrite Efp in Hf. injection Hf as ->.
  rewrite Es. intros [= _ <-]. by exists snap.
Qed.

(** C33: A reload never loses a good snapshot. When it fails - at the
    fingerprint, at any file, at any check - the store is exactly as it was;
    when it reports no change the current snapshot is the same; when it
    reports a change the new snapshot has the next generation number and
    another fingerprint, and reloading the same files again changes nothing. *)
Theorem reload_keeps `{UnicodeLower} ysets yprofile ylive d1 d2 now p s r s' :
  reload ysets yprofile ylive d1 d2 now p s = (r, s') ->
  match r with
  | Err _ => s' = s
  | Ok false => cur s' = cur s /\ paths s' = paths s
  | Ok true =>
      exists snap, cur s' = Some snap /\ paths s' = paths s /\ Gen snap = u64 (gen s + 1) /\ gen s' = Gen snap
        /\ (forall old, cur s = Some old -> Fingerprint old <> Fingerprint snap)
        /\ forall now', reload ysets yprofile ylive d2 d2 now' p s' = (Ok false, s')
  end.
Proof.
  unfold reload. destruct (fingerprint d1 p) as [fp|e]; [|by intros [= <- <-]].
  destruct (same_fingerprint s fp); [by intros [= <- <-]|].
  destruct (build _ _ _ d2 now p (gen s)) as [snap|e] eqn:Eb; [|by intros [= <- <-]].
  destruct (build_built _ _ _ _ _ _ _ _ Eb) as (_ & Hg & Hf).
  destruct (same_fingerprint s (Fingerprint snap)) eqn:Es; intros [= <- <-]; [done|].
  exists snap. split_and!; [done|done|done|done| |].
  - intros old Ho Heq. unfold same_fingerprint in Es. rewrite Ho, Heq, String.eqb_refl in Es. done.
  - intros now'. rewrite Hf. unfold same_fingerprint. cbn [cur]. by rewrite String.eqb_refl.
Qed.

Lemma reload_keeps_witness :
  let s := MkStore ex_paths None 4 in
  exists s', reload (H := ascii_only) ex_sets ex_profile ex_live ex_disk ex_disk 0 ex_paths s = (Ok true, s')
    /\ gen s' = 5
    /\ reload (H := ascii_only) ex_sets ex_profile ex_live ex_disk ex_disk 9 ex_paths s' = (Ok false, s').
Proof.
  cbv zeta.
  assert ((reload (H := ascii_only) ex_sets ex_profile ex_live ex_disk ex_disk 0 ex_paths (MkStore ex_paths None 4)).1
    = Ok true) as E1 by (vm_compute; reflexivity).
  destruct (reload (H := ascii_only) ex_sets ex_profile ex_live ex_disk ex_disk 0 ex_paths (MkStore ex_paths None 4))
    as [r s'] eqn:E. cbn [fst] in E1. subst r.
  destruct (reload_keeps (H := ascii_only) _ _ _ _ _ _ _ _ _ _ E) as (snap & _ & _ & Hg & Hg' & _ & Hagain).
  exists s'. split; [reflexivity|]. split; [rewrite Hg', Hg; reflexivity|apply Hagain].
Defined.

End Store.
