(* ===== verification/Events.v ===== *)
(** * Audit events

    Models the data of [internal/audit/audit.go] and [Build], which puts an
    event together. A moment and the time the engine took are arguments:
    the first is text, the second a floating-point number that nothing here
    computes with. *)

From S2P Require Import Prelude Protocol.

#[local] Open Scope Z_scope.

Module Events.

Definition Version : Z := 1.
Definition Kind : string := "inspector".
Definition SeverityHigh : string := "high".
Definition SeverityCritical : string := "critical".
Definition TargetConn : string := "conn".

(** [Offset], [Length] and [Confidence] are always absent here. *)
Record Finding : Type := MkFinding {
  fi_Code : string; fi_Severity : string; fi_Target : string; fi_Rule : string; fi_Evidence : string }.

(** What the engine section of an event holds under a key. *)
Inductive value : Type :=
| VUint (n : Z)
| VInt (n : Z)
| VString (s : string)
| VStrings (l : list string)
(** [float64(microseconds) / 1000] *)
| VMillis (microseconds : Z).

#[export] Instance value_eq_dec : EqDecision value.
Proof. solve_decision. Defined.
#[export] Instance finding_eq_dec : EqDecision Finding.
Proof. solve_decision. Defined.

Definition engine : Type := gmap string value.

Section build.
Context {float : Type}.

Record Details : Type := MkDetails {
  de_EngineMS : float; de_Findings : list Finding; de_Engine : engine }.
Record Event : Type := MkEvent {
  ev_V : Z; ev_Kind : string; ev_TS : string; ev_Ray : string; ev_Node : string; ev_Phase : string;
  ev_Inspector : string; ev_Profile : string; ev_Verdict : string; ev_EngineMS : float;
  ev_Findings : list Finding; ev_Engine : engine }.

Definition of_request (req : option Protocol.Request) (f : Protocol.Request -> string) : string :=
  match req with Some r => f r | None => "" end.
Definition Build (ts : string) (req : option Protocol.Request) (reply : option Protocol.Reply)
  (det : Details) : Event :=
  let inspector := of_request req Protocol.req_Inspector in
  MkEvent Version Kind ts (of_request req Protocol.req_Ray) (of_request req Protocol.req_Node)
    (of_request req Protocol.req_Phase)
    (match reply with
     | Some r => if String.eqb inspector "" then Protocol.reply_Inspector r else inspector
     | None => inspector
     end)
    (of_request req (fun r => Protocol.route_Profile (Protocol.req_Route r)))
    (match reply with Some r => Protocol.reply_Verdict r | None => "" end)
    (de_EngineMS det) (de_Findings det) (de_Engine det).
End build.
Arguments Details : clear implicits.
Arguments Event : clear implicits.

End Events.
