(* ===== verification/Decide.v ===== *)
(** * The decision

    Models [internal/decide/decide.go]: the verdict on an address, what a
    deny says in public, the requests to neighbours and the writes into live
    sets, and what an overloaded queue fires. The engine section is one map
    that the result shares, so the result holds what it is at the end. *)

From S2P Require Import Prelude GoStrings NetIP NetSet Protocol Overload Policy Files Composition Mirror Live Store Events.

#[local] Open Scope Z_scope.

Module Decide.
Import Events.

Definition CodeOK : string := "IP_OK".
Definition CodeMalformed : string := "IP_MALFORMED".
Definition CodeAllowlist : string := "IP_ALLOWLIST".
Definition CodeList : string := "IP_LIST".
Definition CodeGeo : string := "IP_GEO".
Definition CodeUnknownProfile : string := "IP_UNKNOWN_PROFILE".
Definition CodeMissingSet : string := "IP_MISSING_SET".
Definition FindingDenylist : string := "ip-denylist".
Definition FindingGeo : string := "ip-geo".
Definition FindingUnknownProfile : string := "ip-unknown-profile".
Definition FindingMalformed : string := "ip-malformed-address".
Definition FindingMissingSet : string := "ip-missing-set".

Record Ban : Type := MkBan {
  ban_Dataset : string; ban_Write : string; ban_Value : string; ban_TTL : Z; ban_Reason : string }.
Record Result : Type := MkResult {
  Verdict : string; Code : string; Text : string; Response : string; Findings : list Finding;
  Scope : string; Subject : string; Engine : engine; Actions : list Protocol.Action; Bans : list Ban }.

Definition policyDefaultResponse : string := "blocked".
Definition code (explicit fallback : string) : string :=
  if negb (String.eqb explicit "") then explicit else fallback.
Definition denyCode (kind : string) : string :=
  if String.eqb kind Store.KindCountry then CodeGeo else CodeList.
Definition banReason (rule : Policy.Rule) : string :=
  if negb (String.eqb (Policy.r_Code rule) "") then Policy.r_Code rule else "IP_LIST".

(** ** Parts of a result *)

Definition mark (e : engine) (index : Z) (set kind name : string) : engine :=
  let e := <["set" := VString set]> (<["rule" := VInt (index + 1)]> e) in
  let e := if negb (String.eqb kind "") then <["match" := VString kind]> e else e in
  if negb (String.eqb name "") then <["list" := VString name]> e else e.

Definition publicReason (hit : Store.Hit) (ip : Addr) : string * string :=
  if String.eqb (Store.hit_Kind hit) Store.KindCountry then (Protocol.ScopeCountry, Store.hit_Name hit)
  else if String.eqb (Store.hit_Kind hit) Store.KindAsn then
    match ParseUint (Store.hit_Name hit) 10 32 with
    | Some n => (Protocol.ScopeASN, "AS" +:+ FormatUint n)
    | None => ("", "")
    end
  else if String.eqb (Store.hit_Kind hit) Store.KindList then
    match IntervalPrefix (Store.hit_Span hit) with
    | None => ("", "")
    | Some span =>
        if pbits span =? BitLen ip then (Protocol.ScopeAddress, AddrString (pip span))
        else (Protocol.ScopeNetwork, PrefixString span)
    end
  else ("", "").

Definition finding (kind name severity : string) (ip : Addr) : Finding :=
  MkFinding (if String.eqb kind Store.KindCountry then FindingGeo else FindingDenylist)
    severity TargetConn name (AddrString ip).

(** [terminal] and [fallback] of a result that holds only the engine section. *)
Definition terminal (e : engine) (rule : Policy.Rule) (hit : Store.Hit) (ip : Addr) : Result :=
  if String.eqb (Policy.r_Action rule) Policy.ActionAllow then
    MkResult Protocol.VerdictAllow (code (Policy.r_Code rule) CodeAllowlist) "" "" [] "" "" e [] []
  else if String.eqb (Policy.r_Action rule) Policy.ActionDeny then
    let '(scope, subject) := publicReason hit ip in
    MkResult Protocol.VerdictDeny (code (Policy.r_Code rule) (denyCode (Store.hit_Kind hit)))
      (if String.eqb (Store.hit_Kind hit) Store.KindCountry then Store.hit_Name hit else "")
      (code (Policy.r_Response rule) policyDefaultResponse)
      [finding (Store.hit_Kind hit) (Store.hit_Name hit) SeverityHigh ip] scope subject e [] []
  else MkResult Protocol.VerdictAllow CodeOK "" "" [] "" "" e [] [].

Definition fallback (e : engine) (prof : Store.Profile) : Result :=
  if String.eqb (Store.pr_Default prof) Policy.ActionDeny then
    MkResult Protocol.VerdictDeny (code (Store.pr_DefaultCode prof) CodeList) "" policyDefaultResponse
      [MkFinding FindingDenylist SeverityHigh TargetConn "default" ""] "" "" e [] []
  else MkResult Protocol.VerdictAllow CodeOK "" "" [] "" "" e [] [].

(** The request of a rule or an outcome; [action] and [outcomeAction] are the
    same function of the fields that the two share. *)
Definition ask_action `{UnicodeLower} (a : Policy.Ask) (code : string) (ttl : Z) : Protocol.Action :=
  let archive := String.eqb (Policy.Do a) "archive" && String.eqb (Policy.Side a) "on" in
  Protocol.MkAction (Policy.To a) (Policy.Do a) (Policy.Apply a) (Policy.Phase a) code
    (Policy.Delta a) (Policy.Value a) (Policy.Counter a) (Policy.Marker a) (Policy.Group a) (Policy.Side a)
    (if archive && (0 <? ttl) then Some ttl else None)
    (if archive && (0 <? length (Policy.When a))%nat
     then match Protocol.CheckArchiveWhen (Policy.When a) with Ok when_ => when_ | Err _ => [] end else [])
    (Policy.obj_Headers (Policy.Objects a)) (Policy.obj_Args (Policy.Objects a))
    (Policy.obj_Body (Policy.Objects a)).
Definition action `{UnicodeLower} (rule : Policy.Rule) : Protocol.Action :=
  ask_action (Policy.r_Ask rule) (Policy.r_Code rule) (Policy.r_TTL rule).
Definition outcomeAction `{UnicodeLower} (o : Policy.Outcome) : Protocol.Action :=
  ask_action (Policy.o_Ask o) (Policy.o_Code o) (Policy.o_TTL o).

(** The first name of a rule that the snapshot cannot answer, and its kind. *)
Fixpoint missing (snap : option Store.Snapshot) (rules : list Policy.Rule) : option (string * string) :=
  match rules with
  | [] => None
  | rule :: rules =>
      let set := Store.SetOf snap (Policy.r_Set rule) in
      if negb (String.eqb (Policy.r_Set rule) "") && bool_decide (set = None) then
        Some (Policy.r_Set rule, "set")
      else if negb (String.eqb (Policy.r_Set rule) "")
              && (Store.UsesCountries set && negb (Store.GeoLoaded snap)) then
        Some (Policy.r_Set rule, "geo")
      else if negb (String.eqb (Policy.r_Dataset rule) "")
              && bool_decide (Store.ListOf snap (Policy.r_Dataset rule) = None) then
        Some (Policy.r_Dataset rule, "list")
      else missing snap rules
  end.

(** ** The decision *)

Section decide.
Context `{UnicodeLower} `{Live}.

(** The first rule with the action whose set matches, its position and hit. *)
Fixpoint first_match (action : string) (snap : option Store.Snapshot) (ip : Addr) (country : string)
  (geoOK : bool) (i : Z) (rules : list Policy.Rule) : option (Z * Policy.Rule * Store.Hit) :=
  match rules with
  | [] => None
  | rule :: rules =>
      if negb (String.eqb (Policy.r_Action rule) action)
      then first_match action snap ip country geoOK (i + 1) rules
      else
        let '(ok, hit) := Store.Explain (Store.SetOf snap (Policy.r_Set rule)) ip country geoOK in
        if negb ok then first_match action snap ip country geoOK (i + 1) rules
        else Some (i, rule, hit)
  end.

Fixpoint request_rows (snap : option Store.Snapshot) (ip : Addr) (rules : list Policy.Rule)
  (actions : list Protocol.Action) (bans : list Ban) : list Protocol.Action * list Ban :=
  match rules with
  | [] => (actions, bans)
  | rule :: rules =>
      if Policy.Terminal (Policy.r_Action rule) then request_rows snap ip rules actions bans
      else if Bool.eqb (Store.ListContains (Store.ListOf snap (Policy.r_Dataset rule)) ip) (Policy.r_Not rule)
      then request_rows snap ip rules actions bans
      else if String.eqb (Policy.r_Action rule) Policy.ActionRequest
      then request_rows snap ip rules (actions ++ [action rule]) bans
      else request_rows snap ip rules actions
             (bans ++ [MkBan (Policy.r_List rule) (Policy.r_Write rule) (AddrString ip) (Policy.r_TTL rule)
                         (banReason rule)])
  end.

Fixpoint outcome_rows (where_ rescode : string) (ip : Addr) (outcomes : list Policy.Outcome)
  (actions : list Protocol.Action) (bans : list Ban) (fired : list string)
  : list Protocol.Action * list Ban * list string :=
  match outcomes with
  | [] => (actions, bans, fired)
  | o :: outcomes =>
      if negb (Policy.Matches o where_) then outcome_rows where_ rescode ip outcomes actions bans fired
      else if negb (String.eqb (Policy.Do (Policy.o_Ask o)) "")
      then outcome_rows where_ rescode ip outcomes (actions ++ [outcomeAction o]) bans
             (fired ++ [Policy.Do (Policy.o_Ask o)])
      else outcome_rows where_ rescode ip outcomes actions
             (bans ++ [MkBan (Policy.o_List o) (Policy.o_Write o) (AddrString ip) (Policy.o_TTL o)
                         (code (Policy.o_Code o) rescode)])
             (fired ++ [Policy.o_List o])
  end.

Definition error_result (code text fcode severity rule : string) (e : engine) : Result :=
  MkResult Protocol.VerdictError code text policyDefaultResponse [MkFinding fcode severity TargetConn rule ""]
    "" "" e [] [].

(** The rows that close or open, then the rows that ask and write. *)
Definition verdict_of (snap : option Store.Snapshot) (prof : Store.Profile) (ip : Addr) (country : string)
  (geoOK : bool) (e : engine) : Result * string :=
  match first_match Policy.ActionAllow snap ip country geoOK 0 (Store.pr_Rules prof) with
  | Some (i, rule, hit) =>
      (terminal (mark e i (Policy.r_Set rule) (Store.hit_Kind hit) (Store.hit_Name hit)) rule hit ip,
       Policy.OnWhite)
  | None =>
      match first_match Policy.ActionDeny snap ip country geoOK 0 (Store.pr_Rules prof) with
      | Some (i, rule, hit) =>
          (terminal (mark e i (Policy.r_Set rule) (Store.hit_Kind hit) (Store.hit_Name hit)) rule hit ip,
           Policy.OnBlack)
      | None => (fallback e prof, Policy.OnNone)
      end
  end.
Definition rows_of (snap : option Store.Snapshot) (prof : Store.Profile) (ip : Addr) (res : Result)
  (where_ : string) : Result :=
  let '(actions, bans) := request_rows snap ip (Store.pr_Rules prof) (Actions res) (Bans res) in
  let '(actions, bans, fired) := outcome_rows where_ (Code res) ip (Store.pr_Outcomes prof) actions bans [] in
  MkResult (Verdict res) (Code res) (Text res) (Response res) (Findings res) (Scope res) (Subject res)
    (if negb (length fired =? 0)%nat then <["outcomes" := VStrings fired]> (Engine res) else Engine res)
    actions bans.

Definition Check (snap : option Store.Snapshot) (profileName raw : string) : Result :=
  let profileName := if String.eqb profileName "" then Policy.DefaultName else profileName in
  let e : engine := match snap with Some s => {["gen" := VUint (Store.Gen s)]} | None => ∅ end in
  match Store.ProfileOf snap profileName with
  | None => error_result CodeUnknownProfile profileName FindingUnknownProfile SeverityCritical profileName e
  | Some prof =>
      match ParseAddr raw with
      | None => error_result CodeMalformed raw FindingMalformed SeverityHigh raw e
      | Some ip =>
          if negb (IsValid ip) then error_result CodeMalformed raw FindingMalformed SeverityHigh raw e else
          let ip := Unmap ip in
          match missing snap (Store.pr_Rules prof) with
          | Some (name, kind) =>
              error_result CodeMissingSet name FindingMissingSet SeverityCritical (kind +:+ ":" +:+ name) e
          | None =>
              let country := Store.LookupGeo snap ip in
              let '(c, geoOK) := Store.geo_pair country in
              let e := if geoOK then <["geo" := VString c]> e else e in
              let '(res, where_) := verdict_of snap prof ip c geoOK e in
              rows_of snap prof ip res where_
          end
      end
  end.

(** ** The answer *)

Definition ToReply (req : Protocol.Request) (r : Result) : Protocol.Reply :=
  let reply := Protocol.NewReply req (Verdict r) in
  let deny := String.eqb (Verdict r) Protocol.VerdictDeny in
  Protocol.MkReply (Protocol.reply_V reply) (Protocol.reply_RID reply) (Protocol.reply_Inspector reply)
    (Protocol.reply_Verdict reply)
    (Some (Protocol.MkReason (Code r) "" (if deny then Scope r else "") (if deny then Subject r else "") 0))
    (if deny && negb (String.eqb (Response r) "") then Some (Response r) else Protocol.reply_Response reply)
    (Protocol.reply_Redirect reply) (Protocol.reply_Headers reply) (Actions r).

(** ** An overloaded queue *)

Fixpoint overload_rows (addr : option Addr) (fill : Z) (shed : bool) (reason : string)
  (outcomes : list Policy.Outcome) (actions : list Protocol.Action) (bans : list Ban) (fired : list string)
  : list Protocol.Action * list Ban * list string :=
  match outcomes with
  | [] => (actions, bans, fired)
  | o :: outcomes =>
      if negb (String.eqb (Policy.o_On o) Overload.On) || negb (Overload.Fires (Policy.o_At o) fill shed)
      then overload_rows addr fill shed reason outcomes actions bans fired
      else if negb (String.eqb (Policy.Do (Policy.o_Ask o)) "")
      then overload_rows addr fill shed reason outcomes (actions ++ [outcomeAction o]) bans
             (fired ++ [Policy.Do (Policy.o_Ask o)])
      else
        match addr with
        | None => overload_rows addr fill shed reason outcomes actions bans fired
        | Some ip =>
            overload_rows addr fill shed reason outcomes actions
              (bans ++ [MkBan (Policy.o_List o) (Policy.o_Write o) (AddrString (Unmap ip)) (Policy.o_TTL o)
                          (code (Policy.o_Code o) reason)])
              (fired ++ [Policy.o_List o])
        end
  end.
Definition FireOverload (snap : option Store.Snapshot) (profileName raw : string) (fill : Z) (shed : bool)
  (reason : string) : list Protocol.Action * list Ban * list string :=
  match snap with
  | None => ([], [], [])
  | Some _ =>
      let profileName := if String.eqb profileName "" then Policy.DefaultName else profileName in
      match Store.ProfileOf snap profileName with
      | None => ([], [], [])
      | Some prof =>
          let addr := match ParseAddr raw with
                      | Some a => if IsValid a then Some a else None
                      | None => None
                      end in
          overload_rows addr fill shed reason (Store.pr_Outcomes prof) [] [] []
      end
  end.
End decide.

(** ** What the rows select *)

(** Whether the set of a row matches the address: a set that is not there
    never does. *)
Definition set_matches `{Live} (snap : Store.Snapshot) (ip : Addr) (country : option string) (name : string) : bool :=
  match Store.Sets snap !! name with
  | Some s =>
      xorb (Store.se_Inverse s)
        (Store.in_match (Store.se_Match s) ip country && negb (Store.in_match (Store.se_Exclude s) ip country))
  | None => false
  end.
Definition selects `{Live} (action : string) (snap : Store.Snapshot) (ip : Addr) (country : option string)
  (r : Policy.Rule) : bool :=
  String.eqb (Policy.r_Action r) action && set_matches snap ip country (Policy.r_Set r).

Lemma explain_matches `{Live} snap ip country name :
  Store.sets_ok snap ->
  (Store.Explain (Store.SetOf (Some snap) name) ip (Store.geo_pair country).1 (Store.geo_pair country).2).1
  = set_matches snap ip country name.
Proof.
  intros Hok. unfold set_matches, Store.SetOf. destruct (Store.Sets snap !! name) as [s|] eqn:Es; [|done].
  apply Store.explain_true. by destruct (Hok _ _ Es) as (_ & ? & _).
Qed.

Lemma first_match_spec `{Live} action snap ip country : Store.sets_ok snap -> forall rules i,
  match first_match action (Some snap) ip (Store.geo_pair country).1 (Store.geo_pair country).2 i rules with
  | Some (j, r, hit) =>
      exists pre post, rules = pre ++ r :: post /\ j = i + Z.of_nat (length pre)
        /\ Forall (fun r => selects action snap ip country r = false) pre
        /\ selects action snap ip country r = true
        /\ Store.Explain (Store.SetOf (Some snap) (Policy.r_Set r)) ip (Store.geo_pair country).1
             (Store.geo_pair country).2 = (true, hit)
  | None => Forall (fun r => selects action snap ip country r = false) rules
  end.
Proof.
  intros Hok. induction rules as [|r rules IH]; intros i; cbn [first_match]; [apply Forall_nil_2|].
  assert (selects action snap ip country r = false ->
    match first_match action (Some snap) ip (Store.geo_pair country).1 (Store.geo_pair country).2 (i + 1) rules with
    | Some (j, r', hit) =>
        exists pre post, r :: rules = pre ++ r' :: post /\ j = i + Z.of_nat (length pre)
          /\ Forall (fun r => selects action snap ip country r = false) pre
          /\ selects action snap ip country r' = true
          /\ Store.Explain (Store.SetOf (Some snap) (Policy.r_Set r')) ip (Store.geo_pair country).1
               (Store.geo_pair country).2 = (true, hit)
    | None => Forall (fun r => selects action snap ip country r = false) (r :: rules)
    end) as Hskip.
  { intros Hr. specialize (IH (i + 1)). destruct (first_match _ _ _ _ _ _ _) as [[[j r'] hit]|].
    - destruct IH as (pre & post & -> & -> & Hpre & H1 & H2). exists (r :: pre), post. cbn [length].
      split_and!; [done|lia|by constructor|done|done].
    - by constructor. }
  pose proof (explain_matches snap ip country (Policy.r_Set r) Hok) as He.
  unfold selects in Hskip |- *. destruct (String.eqb (Policy.r_Action r) action) eqn:Ea; cbn [negb andb] in *;
    [|by apply Hskip].
  destruct (Store.Explain _ _ _ _) as [ok hit] eqn:Ee. cbn [fst] in He. subst ok.
  destruct (set_matches snap ip country (Policy.r_Set r)) eqn:Em; cbn [negb]; [|by apply Hskip].
  exists [], rules. cbn [length]. split_and!; [done|lia|apply Forall_nil_2|by rewrite Ea, Em|done].
Qed.

Lemma existsb_false {A} (f : A -> bool) l : Forall (fun a => f a = false) l <-> existsb f l = false.
Proof.
  rewrite Forall_forall. split.
  - intros Hl. apply not_true_is_false. intros (a & Ha & Hf)%existsb_exists. apply list_elem_of_In in Ha.
    by rewrite (Hl a Ha) in Hf.
  - intros Hf a Ha. apply not_true_is_false. intros Ht. apply not_true_iff_false in Hf. apply Hf.
    apply existsb_exists. exists a. by rewrite <- list_elem_of_In.
Qed.

Lemma existsb_split {A} (f : A -> bool) pre a post :
  f a = true -> existsb f (pre ++ a :: post) = true.
Proof. intros Hf. rewrite existsb_app. cbn [existsb]. by rewrite Hf, orb_true_r. Qed.

(** ** Asking and writing, row by row *)

Definition row_fires `{Live} (snap : option Store.Snapshot) (ip : Addr) (r : Policy.Rule) : bool :=
  negb (Policy.Terminal (Policy.r_Action r))
  && xorb (Policy.r_Not r) (Store.ListContains (Store.ListOf snap (Policy.r_Dataset r)) ip).
Definition asks (r : Policy.Rule) : bool := String.eqb (Policy.r_Action r) Policy.ActionRequest.
Definition row_ban (ip : Addr) (r : Policy.Rule) : Ban :=
  MkBan (Policy.r_List r) (Policy.r_Write r) (AddrString ip) (Policy.r_TTL r) (banReason r).

Lemma request_rows_spec `{UnicodeLower} `{Live} snap ip : forall rules actions bans,
  request_rows snap ip rules actions bans
  = (actions ++ map action (List.filter (fun r => row_fires snap ip r && asks r) rules),
     bans ++ map (row_ban ip) (List.filter (fun r => row_fires snap ip r && negb (asks r)) rules)).
Proof.
  induction rules as [|r rules IH]; intros actions bans; cbn [request_rows List.filter].
  { by rewrite !app_nil_r. }
  unfold row_fires, asks in *. destruct (Policy.Terminal (Policy.r_Action r)); cbn [negb andb]; [apply IH|].
  destruct (Store.ListContains _ _), (Policy.r_Not r); cbn [Bool.eqb xorb andb]; try apply IH.
  all: destruct (String.eqb _ _); cbn [negb]; rewrite IH; cbn [map]; by rewrite <- app_assoc.
Qed.

Definition outcome_asks (o : Policy.Outcome) : bool := negb (String.eqb (Policy.Do (Policy.o_Ask o)) "").
Definition outcome_ban (ip : Addr) (reason : string) (o : Policy.Outcome) : Ban :=
  MkBan (Policy.o_List o) (Policy.o_Write o) (AddrString ip) (Policy.o_TTL o) (code (Policy.o_Code o) reason).
Definition outcome_name (o : Policy.Outcome) : string :=
  if outcome_asks o then Policy.Do (Policy.o_Ask o) else Policy.o_List o.

Lemma outcome_rows_spec `{UnicodeLower} where_ c ip : forall os actions bans fired,
  let on := fun o => Policy.Matches o where_ in
  outcome_rows where_ c ip os actions bans fired
  = (actions ++ map outcomeAction (List.filter (fun o => on o && outcome_asks o) os),
     bans ++ map (outcome_ban ip c) (List.filter (fun o => on o && negb (outcome_asks o)) os),
     fired ++ map outcome_name (List.filter on os)).
Proof.
  cbv zeta. induction os as [|o os IH]; intros actions bans fired; cbn [outcome_rows List.filter].
  { by rewrite !app_nil_r. }
  unfold outcome_name, outcome_asks in *. destruct (Policy.Matches o where_); cbn [negb andb]; [|apply IH].
  destruct (String.eqb _ _) eqn:E; cbn [negb]; rewrite IH; cbn [map]; rewrite E; cbn [negb];
    by rewrite <- !app_assoc.
Qed.

Lemma overload_rows_spec `{UnicodeLower} addr fill shed reason : forall os actions bans fired,
  let on := fun o => String.eqb (Policy.o_On o) Overload.On && Overload.Fires (Policy.o_At o) fill shed in
  let does := fun o => on o && (outcome_asks o || bool_decide (is_Some addr)) in
  overload_rows addr fill shed reason os actions bans fired
  = (actions ++ map outcomeAction (List.filter (fun o => on o && outcome_asks o) os),
     bans ++ match addr with
             | Some ip => map (outcome_ban (Unmap ip) reason) (List.filter (fun o => on o && negb (outcome_asks o)) os)
             | None => []
             end,
     fired ++ map outcome_name (List.filter does os)).
Proof.
  cbv zeta. induction os as [|o os IH]; intros actions bans fired; cbn [overload_rows List.filter].
  { destruct addr; by rewrite !app_nil_r. }
  rewrite <- negb_andb. unfold outcome_name, outcome_asks in *.
  destruct (String.eqb (Policy.o_On o) Overload.On && _); cbn [negb andb]; [|apply IH].
  destruct (String.eqb _ _) eqn:E; cbn [negb orb].
  - destruct addr as [ip|]; [rewrite bool_decide_eq_true_2 by eauto|rewrite bool_decide_eq_false_2 by (by intros [])].
    all: rewrite IH; cbn [map]; rewrite ?E; cbn [negb]; by rewrite <- ?app_assoc.
  - rewrite IH; cbn [map]; rewrite E; cbn [negb]; by rewrite <- ?app_assoc.
Qed.

(** ** The whole decision *)

Section snapshot.
Context `{UnicodeLower} `{Live} (snap : Store.Snapshot) (Hok : Store.sets_ok snap).

(** Where the address ended up. *)
Definition where_of (ip : Addr) (country : option string) (rules : list Policy.Rule) : string :=
  if existsb (selects Policy.ActionAllow snap ip country) rules then Policy.OnWhite
  else if existsb (selects Policy.ActionDeny snap ip country) rules then Policy.OnBlack
  else Policy.OnNone.
Definition verdict_at (where_ default : string) : string :=
  if String.eqb where_ Policy.OnWhite then Protocol.VerdictAllow
  else if String.eqb where_ Policy.OnBlack then Protocol.VerdictDeny
  else if String.eqb default Policy.ActionDeny then Protocol.VerdictDeny else Protocol.VerdictAllow.

Lemma profile_default name :
  Store.ProfileOf (Some snap) (if String.eqb name "" then Policy.DefaultName else name)
  = Store.ProfileOf (Some snap) name.
Proof. by destruct (String.eqb_spec name "") as [->|]. Qed.

Lemma check_regular name raw prof a :
  Store.ProfileOf (Some snap) name = Some prof -> ParseAddr raw = Some a ->
  missing (Some snap) (Store.pr_Rules prof) = None ->
  let ip := Unmap a in
  let g := Store.geo_pair (Store.LookupGeo (Some snap) ip) in
  exists e, let rw := verdict_of (Some snap) prof ip g.1 g.2 e in
    Check (Some snap) name raw = rows_of (Some snap) prof ip rw.1 rw.2.
Proof.
  intros Hp Ha Hm. cbv zeta. unfold Check. rewrite profile_default, Hp, Ha, Hm.
  destruct (parse_addr_ok _ _ Ha) as [_ ->]. cbn [negb].
  destruct (Store.geo_pair _) as [c g]. cbn [fst snd].
  match goal with |- context [verdict_of _ _ _ _ _ ?e] => exists e end. by destruct (verdict_of _ _ _ _ _ _).
Qed.

Lemma terminal_allow e r hit ip :
  Policy.r_Action r = Policy.ActionAllow ->
  terminal e r hit ip = MkResult Protocol.VerdictAllow (code (Policy.r_Code r) CodeAllowlist) "" "" [] "" "" e [] [].
Proof. intros Ha. unfold terminal. by rewrite Ha. Qed.

Lemma terminal_deny e r hit ip :
  Policy.r_Action r = Policy.ActionDeny ->
  terminal e r hit ip
  = MkResult Protocol.VerdictDeny (code (Policy.r_Code r) (denyCode (Store.hit_Kind hit)))
      (if String.eqb (Store.hit_Kind hit) Store.KindCountry then Store.hit_Name hit else "")
      (code (Policy.r_Response r) policyDefaultResponse)
      [finding (Store.hit_Kind hit) (Store.hit_Name hit) SeverityHigh ip]
      (publicReason hit ip).1 (publicReason hit ip).2 e [] [].
Proof. intros Ha. unfold terminal. rewrite Ha. by destruct (publicReason hit ip). Qed.

Lemma selects_action action ip country r : selects action snap ip country r = true -> Policy.r_Action r = action.
Proof. by intros [?%String.eqb_eq _]%andb_true_iff. Qed.

Lemma verdict_of_spec prof ip country e :
  let g := Store.geo_pair country in
  let rw := verdict_of (Some snap) prof ip g.1 g.2 e in
  let where_ := where_of ip country (Store.pr_Rules prof) in
  rw.2 = where_ /\ Verdict rw.1 = verdict_at where_ (Store.pr_Default prof)
  /\ Actions rw.1 = [] /\ Bans rw.1 = [].
Proof.
  cbv zeta. unfold verdict_of, where_of.
  pose proof (first_match_spec Policy.ActionAllow snap ip country Hok (Store.pr_Rules prof) 0) as Ha.
  destruct (first_match Policy.ActionAllow _ _ _ _ _ _) as [[[i r] hit]|].
  { destruct Ha as (pre & post & -> & _ & _ & Hs & _). rewrite existsb_split by done.
    cbn [fst snd]. rewrite terminal_allow by (by eapply selects_action). done. }
  apply existsb_false in Ha. rewrite Ha.
  pose proof (first_match_spec Policy.ActionDeny snap ip country Hok (Store.pr_Rules prof) 0) as Hd.
  destruct (first_match Policy.ActionDeny _ _ _ _ _ _) as [[[i r] hit]|].
  { destruct Hd as (pre & post & -> & _ & _ & Hs & _). rewrite existsb_split by done.
    cbn [fst snd]. rewrite terminal_deny by (by eapply selects_action). done. }
  apply existsb_false in Hd. rewrite Hd. unfold fallback, verdict_at. cbn [fst snd].
  by destruct (String.eqb (Store.pr_Default prof) Policy.ActionDeny).
Qed.

Lemma rows_of_spec prof ip res where_ :
  let r := rows_of (Some snap) prof ip res where_ in
  let on := fun o => Policy.Matches o where_ in
  Verdict r = Verdict res /\ Code r = Code res /\ Response r = Response res
  /\ Scope r = Scope res /\ Subject r = Subject res
  /\ Actions r = Actions res
       ++ map action (List.filter (fun r => row_fires (Some snap) ip r && asks r) (Store.pr_Rules prof))
       ++ map outcomeAction (List.filter (fun o => on o && outcome_asks o) (Store.pr_Outcomes prof))
  /\ Bans r = Bans res
       ++ map (row_ban ip) (List.filter (fun r => row_fires (Some snap) ip r && negb (asks r)) (Store.pr_Rules prof))
       ++ map (outcome_ban ip (Code res)) (List.filter (fun o => on o && negb (outcome_asks o)) (Store.pr_Outcomes prof)).
Proof.
  cbv zeta. unfold rows_of. rewrite request_rows_spec. cbn [fst snd]. rewrite outcome_rows_spec.
  cbn [Verdict Code Response Scope Subject Actions Bans]. by rewrite <- !app_assoc.
Qed.

(** The result of an address that could be checked. *)
Lemma check_spec name raw prof a :
  Store.ProfileOf (Some snap) name = Some prof -> ParseAddr raw = Some a ->
  missing (Some snap) (Store.pr_Rules prof) = None ->
  let r := Check (Some snap) name raw in
  let ip := Unmap a in
  let where_ := where_of ip (Store.LookupGeo (Some snap) ip) (Store.pr_Rules prof) in
  let on := fun o => Policy.Matches o where_ in
  Verdict r = verdict_at where_ (Store.pr_Default prof)
  /\ Actions r
     = map action (List.filter (fun r => row_fires (Some snap) ip r && asks r) (Store.pr_Rules prof))
       ++ map outcomeAction (List.filter (fun o => on o && outcome_asks o) (Store.pr_Outcomes prof))
  /\ Bans r
     = map (row_ban ip) (List.filter (fun r => row_fires (Some snap) ip r && negb (asks r)) (Store.pr_Rules prof))
       ++ map (outcome_ban ip (Code r)) (List.filter (fun o => on o && negb (outcome_asks o)) (Store.pr_Outcomes prof)).
Proof.
  intros Hp Ha Hm. cbv zeta. destruct (check_regular _ _ _ _ Hp Ha Hm) as (e & ->).
  destruct (verdict_of_spec prof (Unmap a) (Store.LookupGeo (Some snap) (Unmap a)) e) as (-> & Hv & Hact & Hban).
  destruct (rows_of_spec prof (Unmap a)
    (verdict_of (Some snap) prof (Unmap a) (Store.geo_pair (Store.LookupGeo (Some snap) (Unmap a))).1
       (Store.geo_pair (Store.LookupGeo (Some snap) (Unmap a))).2 e).1
    (where_of (Unmap a) (Store.LookupGeo (Some snap) (Unmap a)) (Store.pr_Rules prof)))
    as (-> & -> & _ & _ & _ & -> & ->).
  by rewrite Hv, Hact, Hban.
Qed.

Lemma check_error name raw :
  (Store.ProfileOf (Some snap) name = None \/ ParseAddr raw = None
   \/ exists prof, Store.ProfileOf (Some snap) name = Some prof /\ missing (Some snap) (Store.pr_Rules prof) <> None) ->
  let r := Check (Some snap) name raw in
  Verdict r = Protocol.VerdictError /\ Actions r = [] /\ Bans r = [] /\ Response r = policyDefaultResponse.
Proof.
  intros Hx. cbv zeta. unfold Check. rewrite profile_default.
  destruct (Store.ProfileOf (Some snap) name) as [prof|]; [|done].
  destruct (ParseAddr raw) as [a|]; [|done]. destruct (negb (IsValid a)); [done|].
  destruct (missing (Some snap) (Store.pr_Rules prof)) as [[nm k]|] eqn:Em; [done|].
  destruct Hx as [Hx|[Hx|(p & [= ->] & Hx)]]; done.
Qed.
End snapshot.

(** ** What a deny says in public *)

(** A source of a deny row that the address is in. *)
Definition closed_by (snap : Store.Snapshot) (rules : list Policy.Rule) (ip : Addr) (src : Store.NamedTable) : Prop :=
  exists r s, r ∈ rules /\ Policy.r_Action r = Policy.ActionDeny
    /\ Store.Sets snap !! Policy.r_Set r = Some s /\ src ∈ Store.ma_Sources (Store.se_Match s)
    /\ Contains (Some (Store.nt_Table src)) ip = true.

(** What may be said: nothing, or one true thing about the address. *)
Inductive names (snap : Store.Snapshot) (rules : list Policy.Rule) (ip : Addr) : string -> string -> Prop :=
| names_nothing : names snap rules ip "" ""
| names_country c :
    Store.LookupGeo (Some snap) ip = Some c -> names snap rules ip Protocol.ScopeCountry c
| names_system src n :
    closed_by snap rules ip src -> Store.nt_Kind src = Store.KindAsn ->
    ParseUint (Store.nt_Name src) 10 32 = Some n ->
    names snap rules ip Protocol.ScopeASN ("AS" +:+ FormatUint n)
| names_address src :
    closed_by snap rules ip src -> Store.nt_Kind src = Store.KindList ->
    names snap rules ip Protocol.ScopeAddress (AddrString ip)
| names_network src p :
    closed_by snap rules ip src -> Store.nt_Kind src = Store.KindList -> in_cidr p ip = true ->
    (forall a, addr_ok a -> IsValid a = true -> Zone a = "" -> in_cidr p (Unmap a) = true ->
       Contains (Some (Store.nt_Table src)) a = true) ->
    names snap rules ip Protocol.ScopeNetwork (PrefixString p).

Lemma explain_hit `{Live} s ip c g hit :
  Store.Explain (Some s) ip c g = (true, hit) ->
  Store.hit_Kind hit = Store.KindInverse \/ Store.locate (Store.se_Match s) ip c g = Some hit.
Proof.
  unfold Store.Explain. destruct (Store.locate (Store.se_Match s) ip c g) as [h|]; destruct (Store.se_Inverse s).
  - destruct (negb _); intros [= <-]; by left.
  - intros [= _ <-]. by right.
  - intros [= <-]. by left.
  - done.
Qed.

Lemma public_reason_named `{Live} snap rules r s ip country hit :
  Store.sets_ok snap -> addr_ok ip -> IsValid ip = true -> Unmap ip = ip ->
  Store.LookupGeo (Some snap) ip = country ->
  r ∈ rules -> Policy.r_Action r = Policy.ActionDeny -> Store.Sets snap !! Policy.r_Set r = Some s ->
  Store.locate (Store.se_Match s) ip (Store.geo_pair country).1 (Store.geo_pair country).2 = Some hit ->
  names snap rules ip (publicReason hit ip).1 (publicReason hit ip).2.
Proof.
  intros Hok Oa Va Hu Hg Hr Ha Hs Hl. destruct (Hok _ _ Hs) as (Hn & _ & Ht). unfold Store.locate in Hl.
  pose proof (Store.locate_sources_some (Store.ma_Sources (Store.se_Match s)) ip) as H1.
  destruct (Store.locate_sources _ ip) as [h1|].
  { injection Hl as <-. destruct H1 as (_ & src & Hin & Hk & Hnm & Hloc).
    assert (closed_by snap rules ip src) as Hcl.
    { exists r, s. split_and!; try done. rewrite contains_locate, Hloc. by apply bool_decide_eq_true_2. }
    unfold Store.sources_named in *. rewrite Forall_forall in Hn, Ht.
    unfold publicReason. destruct (Hn src Hin) as [Hkind|Hkind]; rewrite Hk, Hkind; cbn [String.eqb Ascii.eqb Bool.eqb].
    - destruct (IntervalPrefix (Store.hit_Span h1)) as [p|] eqn:Ep; [|constructor].
      destruct (Ht src Hin) as (ps & Hps & Htab). rewrite Htab in Hloc.
      destruct (located_network _ _ _ _ Hps Oa Va Hloc Ep) as (Hc & Hb & Hall). rewrite Hu in Hc, Hb.
      destruct (Z.eqb_spec (pbits p) (BitLen ip)) as [E|]; cbn [fst snd].
      + rewrite (Hb E). by eapply names_address.
      + eapply names_network; [done|done|done|]. by rewrite Htab.
    - destruct (ParseUint (Store.hit_Name h1) 10 32) as [n|] eqn:En; [|constructor]. rewrite Hnm in En.
      by eapply names_system. }
  pose proof (Store.locate_live_some (Store.ma_Live (Store.se_Match s)) ip) as H2.
  destruct (Store.locate_live _ ip) as [h2|].
  { injection Hl as <-. destruct H2 as (_ & Hk & _). unfold publicReason. rewrite Hk. constructor. }
  destruct country as [c|]; cbn [Store.geo_pair fst snd negb] in Hl; [|done].
  pose proof (Store.locate_country_some (Store.ma_Countries (Store.se_Match s)) c) as H3. rewrite Hl in H3.
  destruct H3 as (_ & Hk & Hnm). unfold publicReason. rewrite Hk, Hnm. by apply names_country.
Qed.

Lemma verdict_of_named `{UnicodeLower} `{Live} snap prof ip e :
  Store.sets_ok snap -> addr_ok ip -> IsValid ip = true -> Unmap ip = ip ->
  let g := Store.geo_pair (Store.LookupGeo (Some snap) ip) in
  let res := (verdict_of (Some snap) prof ip g.1 g.2 e).1 in
  names snap (Store.pr_Rules prof) ip (Scope res) (Subject res)
  /\ (Verdict res <> Protocol.VerdictDeny -> Scope res = "" /\ Subject res = "").
Proof.
  intros Hok Oa Va Hu. cbv zeta. unfold verdict_of. set (country := Store.LookupGeo (Some snap) ip).
  pose proof (first_match_spec Policy.ActionAllow snap ip country Hok (Store.pr_Rules prof) 0) as Ha.
  destruct (first_match Policy.ActionAllow _ _ _ _ _ _) as [[[i r] hit]|].
  { destruct Ha as (_ & _ & _ & _ & _ & Hs & _). cbn [fst]. rewrite terminal_allow by (by eapply selects_action).
    split; [constructor|done]. }
  pose proof (first_match_spec Policy.ActionDeny snap ip country Hok (Store.pr_Rules prof) 0) as Hd.
  destruct (first_match Policy.ActionDeny _ _ _ _ _ _) as [[[i r] hit]|].
  { destruct Hd as (pre & post & Hrules & _ & _ & Hs & He). cbn [fst].
    pose proof (selects_action _ _ _ _ _ Hs) as Hact. rewrite terminal_deny by done.
    split; [|done]. cbn [Scope Subject]. unfold Store.SetOf in He.
    destruct (Store.Sets snap !! Policy.r_Set r) as [s|] eqn:Es; [|done].
    destruct (explain_hit _ _ _ _ _ He) as [Hk|Hl]; [unfold publicReason; rewrite Hk; constructor|].
    eapply public_reason_named; [done..| |exact Hact|exact Es|exact Hl].
    rewrite Hrules. apply elem_of_app. right. by left. }
  cbn [fst]. unfold fallback. destruct (String.eqb _ _); (split; [constructor|done]).
Qed.

(** ** Which profiles cannot be answered *)

(** With a snapshot that was built, only the country directory can be absent. *)
Lemma missing_step `{UnicodeLower} snap live r rules :
  Policy.rule_ok r -> Store.rule_resolved (Store.Sets snap) (Store.Lists snap) live r ->
  missing (Some snap) (r :: rules)
  = if negb (String.eqb (Policy.r_Set r) "")
       && (Store.UsesCountries (Store.SetOf (Some snap) (Policy.r_Set r)) && negb (Store.GeoLoaded (Some snap)))
    then Some (Policy.r_Set r, "geo") else missing (Some snap) rules.
Proof.
  intros Hr (Hset & Hlist & _). cbn [missing].
  destruct (String.eqb_spec (Policy.r_Set r) "") as [E|Hne]; cbn [negb andb].
  - destruct (String.eqb_spec (Policy.r_Dataset r) "") as [Ed|Hned]; cbn [negb andb]; [done|].
    rewrite bool_decide_eq_false_2; [done|]. unfold Store.ListOf. apply not_eq_None_Some, Hlist.
    destruct Hr as [(_ & _ & ? & _)|[(-> & _)|(-> & _)]]; done.
  - rewrite bool_decide_eq_false_2.
    2: { unfold Store.SetOf. apply not_eq_None_Some, Hset.
         destruct Hr as [(? & _)|[(_ & ? & _)|(_ & ? & _)]]; done. }
    destruct (_ && _); [done|].
    destruct (String.eqb_spec (Policy.r_Dataset r) "") as [Ed|Hned]; cbn [negb andb]; [done|].
    destruct Hr as [(_ & _ & ? & _)|[(_ & ? & _)|(_ & ? & _)]]; done.
Qed.

Definition uses_countries (snap : Store.Snapshot) (r : Policy.Rule) : bool :=
  negb (String.eqb (Policy.r_Set r) "") && Store.UsesCountries (Store.SetOf (Some snap) (Policy.r_Set r)).

Lemma missing_built `{UnicodeLower} snap live rules :
  Forall Policy.rule_ok rules ->
  Forall (Store.rule_resolved (Store.Sets snap) (Store.Lists snap) live) rules ->
  (missing (Some snap) rules = None
   <-> existsb (uses_countries snap) rules && negb (Store.GeoLoaded (Some snap)) = false)
  /\ forall n k, missing (Some snap) rules = Some (n, k) -> k = "geo".
Proof.
  induction rules as [|r rules IH]; intros Hr Hres; [by split|].
  apply Forall_cons in Hr as [Hr Hrs]. apply Forall_cons in Hres as [Hx Hxs]. specialize (IH Hrs Hxs) as [IH1 IH2].
  rewrite (missing_step _ _ _ _ Hr Hx). cbn [existsb]. unfold uses_countries at 1.
  destruct (negb (String.eqb (Policy.r_Set r) "")); cbn [andb orb]; [|done].
  destruct (Store.UsesCountries _); cbn [andb orb]; [|done].
  destruct (Store.GeoLoaded (Some snap)); cbn [negb andb orb]; [|by split; [|intros ? ? [= _ <-]]].
  split; [|done]. rewrite IH1. by rewrite andb_false_r.
Qed.

(** ** Properties *)

Section properties.
Context `{UnicodeLower} `{Live}.
Context (ysets : string -> result error (list (string * Policy.fileSet))).
Context (yprofile : string -> result error Policy.fileProfile).
Context (ylive : string -> result error (list (string * string))).
Context (d : Files.disk) (now : Z) (p : Store.Paths) (g : Z) (snap : Store.Snapshot).
Hypothesis built : Store.build ysets yprofile ylive d now p g = Ok snap.

Lemma built_profile name prof :
  Store.ProfileOf (Some snap) name = Some prof ->
  exists n, Store.profile_ok (Store.Sets snap) (Store.Lists snap) (Store.Live_ snap) n prof.
Proof.
  unfold Store.ProfileOf. intros Hp. eexists. by eapply Store.build_profiles_ok.
Qed.

Lemma check_cases name raw :
  (exists prof a, Store.ProfileOf (Some snap) name = Some prof /\ ParseAddr raw = Some a
     /\ missing (Some snap) (Store.pr_Rules prof) = None)
  \/ ((Store.ProfileOf (Some snap) name = None \/ ParseAddr raw = None
       \/ exists prof, Store.ProfileOf (Some snap) name = Some prof
            /\ missing (Some snap) (Store.pr_Rules prof) <> None)).
Proof.
  destruct (Store.ProfileOf (Some snap) name) as [prof|]; [|right; by left].
  destruct (ParseAddr raw) as [a|]; [|right; right; by left].
  destruct (missing (Some snap) (Store.pr_Rules prof)) eqn:E; [|left; by exists prof, a].
  right; right; right. exists prof. by rewrite E.
Qed.

Lemma in_filter_map {A B} (f : A -> B) (q : A -> bool) (l : list A) b :
  b ∈ map f (List.filter q l) -> exists a, a ∈ l /\ q a = true /\ b = f a.
Proof.
  intros (a & -> & Ha)%list_elem_of_fmap. apply list_elem_of_In, filter_In in Ha as [Ha Hq].
  exists a. by rewrite list_elem_of_In.
Qed.

Lemma row_ban_resolved n prof ip r :
  Store.profile_ok (Store.Sets snap) (Store.Lists snap) (Store.Live_ snap) n prof ->
  r ∈ Store.pr_Rules prof -> row_fires (Some snap) ip r && negb (asks r) = true ->
  is_Some (Store.Live_ snap !! Policy.r_List r) /\ Policy.r_Write r ∈ ["addr"; "net"; "net_all"; "asn"].
Proof.
  intros Hprof Hr [[Ht _]%andb_true_iff Hq]%andb_true_iff. apply negb_true_iff in Ht, Hq.
  pose proof (Store.po_rules _ _ _ _ _ Hprof) as H1. pose proof (Store.po_resolved _ _ _ _ _ Hprof) as H2.
  rewrite Forall_forall in H1, H2. destruct (H2 r Hr) as (_ & _ & Hl).
  destruct (H1 r Hr) as [(Hx & _)|[(Ha & _)|(Ha & _ & _ & _ & Hw & _)]]; [congruence| |by split; [apply Hl|]].
  unfold asks in Hq. by rewrite Ha in Hq.
Qed.

Lemma outcome_ban_resolved n prof o :
  Store.profile_ok (Store.Sets snap) (Store.Lists snap) (Store.Live_ snap) n prof ->
  o ∈ Store.pr_Outcomes prof -> outcome_asks o = false ->
  is_Some (Store.Live_ snap !! Policy.o_List o) /\ Policy.o_Write o ∈ ["addr"; "net"; "net_all"; "asn"].
Proof.
  intros Hprof Ho Hq. unfold outcome_asks in Hq. apply negb_false_iff, String.eqb_eq in Hq.
  pose proof (Store.po_outcomes _ _ _ _ _ Hprof) as H1. pose proof (Store.po_writes _ _ _ _ _ Hprof) as H2.
  rewrite Forall_forall in H1, H2. destruct (H1 o Ho) as (_ & _ & [(Hne & _ & Hw)|(_ & Hne & _)]); [|done].
  split; [by apply (H2 o Ho)|done].
Qed.

Lemma row_ask_ok n prof ip r :
  Store.profile_ok (Store.Sets snap) (Store.Lists snap) (Store.Live_ snap) n prof ->
  r ∈ Store.pr_Rules prof -> row_fires (Some snap) ip r && asks r = true ->
  Policy.ask_ok (Policy.r_Ask r) (Policy.r_TTL r) /\ Policy.checkCode (Policy.r_Code r) = Ok tt.
Proof.
  intros Hprof Hr [_ Hq]%andb_true_iff. unfold asks in Hq. apply String.eqb_eq in Hq.
  pose proof (Store.po_rules _ _ _ _ _ Hprof) as H1. rewrite Forall_forall in H1.
  destruct (H1 r Hr) as [(Hx & _)|[(_ & _ & _ & _ & ? & ?)|(Ha & _)]]; [|done|]; by rewrite Hq in *.
Qed.

Lemma outcome_ask_ok n prof o :
  Store.profile_ok (Store.Sets snap) (Store.Lists snap) (Store.Live_ snap) n prof ->
  o ∈ Store.pr_Outcomes prof -> outcome_asks o = true ->
  Policy.ask_ok (Policy.o_Ask o) (Policy.o_TTL o) /\ Policy.checkCode (Policy.o_Code o) = Ok tt.
Proof.
  intros Hprof Ho Hq. unfold outcome_asks in Hq. apply negb_true_iff, String.eqb_neq in Hq.
  pose proof (Store.po_outcomes _ _ _ _ _ Hprof) as H1. rewrite Forall_forall in H1.
  by destruct (H1 o Ho) as (_ & ? & [(_ & ? & _)|(_ & _ & ?)]).
Qed.

(** C1: Allow beats deny wherever the rows stand, and the rows that ask or
    write never touch the verdict: on a profile that can be answered the
    verdict is allow when some allow row's set matches the address, else deny
    when some deny row's does, else the default of the profile. The order of
    the rows, and everything that is not an allow or deny row, is irrelevant
    to it. *)
Theorem verdict_by_rows name raw prof a :
  Store.ProfileOf (Some snap) name = Some prof -> ParseAddr raw = Some a ->
  missing (Some snap) (Store.pr_Rules prof) = None ->
  let ip := Unmap a in
  let matched action := existsb (fun r => String.eqb (Policy.r_Action r) action
    && set_matches snap ip (Store.LookupGeo (Some snap) ip) (Policy.r_Set r)) (Store.pr_Rules prof) in
  Verdict (Check (Some snap) name raw)
  = if matched "allow" then "allow"
    else if matched "deny" then "deny"
    else if String.eqb (Store.pr_Default prof) "deny" then "deny" else "allow".
Proof.
  intros Hp Ha Hm. cbv zeta.
  rewrite (proj1 (check_spec snap (Store.build_sets_ok _ _ _ _ _ _ _ _ built) _ _ _ _ Hp Ha Hm)).
  unfold where_of, selects, verdict_at, Policy.ActionAllow, Policy.ActionDeny.
  destruct (existsb _ _); [done|]. by destruct (existsb _ _).
Qed.

(** What a deny tells the client is true: the country it names is the
    country of the address, the system, address or network comes from a list
    of one of the deny rows that holds the address, and a network that is
    named contains the address and lies in that list altogether. Any other
    verdict says nothing. *)
Theorem deny_names_the_address name raw prof a :
  Store.ProfileOf (Some snap) name = Some prof -> ParseAddr raw = Some a ->
  missing (Some snap) (Store.pr_Rules prof) = None ->
  let r := Check (Some snap) name raw in
  names snap (Store.pr_Rules prof) (Unmap a) (Scope r) (Subject r)
  /\ (Verdict r <> "deny" -> Scope r = "" /\ Subject r = "").
Proof.
  intros Hp Ha Hm. cbv zeta. destruct (check_regular snap _ _ _ _ Hp Ha Hm) as (e & ->).
  destruct (parse_addr_ok _ _ Ha) as [Oa Va].
  destruct (verdict_of_named snap prof (Unmap a) e (Store.build_sets_ok _ _ _ _ _ _ _ _ built)) as [Hn Hd];
    [by apply unmap_ok|by rewrite unmap_valid|apply unmap_idem|].
  destruct (rows_of_spec snap prof (Unmap a)
    (verdict_of (Some snap) prof (Unmap a) (Store.geo_pair (Store.LookupGeo (Some snap) (Unmap a))).1
       (Store.geo_pair (Store.LookupGeo (Some snap) (Unmap a))).2 e).1
    (verdict_of (Some snap) prof (Unmap a) (Store.geo_pair (Store.LookupGeo (Some snap) (Unmap a))).1
       (Store.geo_pair (Store.LookupGeo (Some snap) (Unmap a))).2 e).2)
    as (-> & _ & _ & -> & -> & _). done.
Qed.

(** C35: The requests and the writes are exactly those of the rows that fire:
    first the request and list rows whose dataset holds the address - or does
    not, under [not] - in the order of the profile, then the outcomes that
    wait for where the address ended up. *)
Theorem rows_exact name raw prof a :
  Store.ProfileOf (Some snap) name = Some prof -> ParseAddr raw = Some a ->
  missing (Some snap) (Store.pr_Rules prof) = None ->
  let r := Check (Some snap) name raw in
  let ip := Unmap a in
  let fires rule := negb (Policy.Terminal (Policy.r_Action rule))
    && xorb (Policy.r_Not rule) (Store.ListContains (Store.ListOf (Some snap) (Policy.r_Dataset rule)) ip) in
  let on o := String.eqb (Policy.o_On o)
    (where_of snap ip (Store.LookupGeo (Some snap) ip) (Store.pr_Rules prof)) in
  Actions r = map action (List.filter (fun rule => fires rule && asks rule) (Store.pr_Rules prof))
    ++ map outcomeAction (List.filter (fun o => on o && outcome_asks o) (Store.pr_Outcomes prof))
  /\ Bans r = map (row_ban ip) (List.filter (fun rule => fires rule && negb (asks rule)) (Store.pr_Rules prof))
    ++ map (outcome_ban ip (Code r)) (List.filter (fun o => on o && negb (outcome_asks o)) (Store.pr_Outcomes prof)).
Proof.
  intros Hp Ha Hm. cbv zeta.
  exact (proj2 (check_spec snap (Store.build_sets_ok _ _ _ _ _ _ _ _ built) _ _ _ _ Hp Ha Hm)).
Qed.

(** C34: Whatever is asked of [Check], a write goes to a live set that the
    snapshot holds and in a way the keeper knows, and writes the address that
    was checked; a request carries an action that the profile's checks
    accepted. *)
Theorem writes_resolved name raw :
  (forall b, b ∈ Bans (Check (Some snap) name raw) ->
     is_Some (Store.Live_ snap !! ban_Dataset b) /\ ban_Write b ∈ ["addr"; "net"; "net_all"; "asn"]
     /\ exists a, ParseAddr raw = Some a /\ ban_Value b = AddrString (Unmap a))
  /\ (forall act, act ∈ Actions (Check (Some snap) name raw) ->
     exists ask c ttl, act = ask_action ask c ttl /\ Policy.ask_ok ask ttl /\ Policy.checkCode c = Ok tt).
Proof.
  destruct (check_cases name raw) as [(prof & a & Hp & Ha & Hm)|Hx].
  2: { destruct (check_error snap _ _ Hx) as (_ & -> & -> & _). by split; intros ? ?%elem_of_nil. }
  destruct (check_spec snap (Store.build_sets_ok _ _ _ _ _ _ _ _ built) _ _ _ _ Hp Ha Hm) as (_ & -> & ->).
  destruct (built_profile _ _ Hp) as [n Hprof]. split.
  - intros b [(r & Hr & Hf & ->)%in_filter_map|(o & Ho & Hf & ->)%in_filter_map]%elem_of_app.
    + destruct (row_ban_resolved _ _ _ _ Hprof Hr Hf). split_and!; [done|done|by exists a].
    + apply andb_true_iff in Hf as [_ Hf%negb_true_iff].
      destruct (outcome_ban_resolved _ _ _ Hprof Ho Hf). split_and!; [done|done|by exists a].
  - intros act [(r & Hr & Hf & ->)%in_filter_map|(o & Ho & Hf & ->)%in_filter_map]%elem_of_app.
    + destruct (row_ask_ok _ _ _ _ Hprof Hr Hf). by eexists _, _, _.
    + apply andb_true_iff in Hf as [_ Hf]. destruct (outcome_ask_ok _ _ _ Hprof Ho Hf). by eexists _, _, _.
Qed.


(** A live set that has not arrived is a miss, so a deny row over a set
    of such lists closes nothing - unless the set is inverse. Then it matches
    every address, and a list that is still loading closes the route to
    everyone no allow row lets in. *)
Theorem unready_list_closes name raw prof a r s :
  Store.ProfileOf (Some snap) name = Some prof -> ParseAddr raw = Some a ->
  missing (Some snap) (Store.pr_Rules prof) = None ->
  r ∈ Store.pr_Rules prof -> Policy.r_Action r = "deny" -> Store.Sets snap !! Policy.r_Set r = Some s ->
  Store.ma_Sources (Store.se_Match s) = [] -> Store.ma_Countries (Store.se_Match s) = [] ->
  Forall (fun uuid => live_ready uuid = false) (Store.ma_Live (Store.se_Match s)) ->
  let ip := Unmap a in
  set_matches snap ip (Store.LookupGeo (Some snap) ip) (Policy.r_Set r) = Store.se_Inverse s
  /\ (Store.se_Inverse s = true ->
      existsb (selects "allow" snap ip (Store.LookupGeo (Some snap) ip)) (Store.pr_Rules prof) = false ->
      Verdict (Check (Some snap) name raw) = "deny").
Proof.
  intros Hp Ha Hm Hr Hact Hs Hsrc Hcc Hlive. cbv zeta. set (country := Store.LookupGeo _ _).
  assert (set_matches snap (Unmap a) country (Policy.r_Set r) = Store.se_Inverse s) as Hset.
  { unfold set_matches. rewrite Hs.
    assert (Store.in_match (Store.se_Match s) (Unmap a) country = false) as ->.
    { unfold Store.in_match. rewrite Hsrc, Hcc. cbn [existsb orb].
      assert (existsb (fun uuid => live_contains uuid (Unmap a)) (Store.ma_Live (Store.se_Match s)) = false) as ->.
      { apply existsb_false, Forall_forall. intros u Hu. rewrite Forall_forall in Hlive. by apply live_miss, Hlive. }
      by destruct country. }
    cbn [andb]. by destruct (Store.se_Inverse s). }
  split; [done|]. intros Hinv Hallow.
  rewrite (proj1 (check_spec snap (Store.build_sets_ok _ _ _ _ _ _ _ _ built) _ _ _ _ Hp Ha Hm)).
  fold country. unfold where_of, Policy.ActionAllow. rewrite Hallow.
  destruct (existsb (selects Policy.ActionDeny snap (Unmap a) country) _) eqn:Ed; [done|].
  apply existsb_false in Ed. rewrite Forall_forall in Ed. specialize (Ed r Hr).
  unfold selects in Ed. by rewrite Hact, Hset, Hinv in Ed.
Qed.

End properties.

(** What every result has, whatever led to it. *)
Definition check_shape (r : Result) : Prop :=
  Verdict r ∈ ["allow"; "deny"; "error"] /\ Code r <> "" /\ (Verdict r = "deny" -> Response r <> "")
  /\ (Verdict r <> "deny" -> Scope r = "" /\ Subject r = "").

Lemma code_nonempty explicit fallback : fallback <> "" -> code explicit fallback <> "".
Proof. unfold code. by destruct (String.eqb_spec explicit ""). Qed.

Lemma deny_code_nonempty kind : denyCode kind <> "".
Proof. unfold denyCode. by destruct (String.eqb _ _). Qed.

Lemma terminal_shape e r hit ip : check_shape (terminal e r hit ip).
Proof.
  unfold terminal, check_shape. destruct (String.eqb _ _).
  { cbn [Verdict Code Response Scope Subject]. split_and!; [by left|by apply code_nonempty|done|done]. }
  destruct (String.eqb _ _).
  { destruct (publicReason hit ip). cbn [Verdict Code Response Scope Subject].
    split_and!; [by right; left|apply code_nonempty, deny_code_nonempty|by intros _; apply code_nonempty|done]. }
  cbn [Verdict Code Response Scope Subject]. split_and!; [by left|done..].
Qed.

Lemma verdict_of_shape `{Live} snap prof ip c geo e : check_shape (verdict_of snap prof ip c geo e).1.
Proof.
  unfold verdict_of. destruct (first_match _ _ _ _ _ _ _) as [[[i r] hit]|]; [apply terminal_shape|].
  destruct (first_match _ _ _ _ _ _ _) as [[[i r] hit]|]; [apply terminal_shape|].
  unfold fallback, check_shape. cbn [fst]. destruct (String.eqb _ _); cbn [Verdict Code Response Scope Subject].
  - split_and!; [by right; left|by apply code_nonempty|done|done].
  - split_and!; [by left|done..].
Qed.

Lemma rows_of_shape `{UnicodeLower} `{Live} snap prof ip res w :
  check_shape res -> check_shape (rows_of snap prof ip res w).
Proof.
  unfold rows_of, check_shape. destruct (request_rows _ _ _ _ _), (outcome_rows _ _ _ _ _ _ _) as [[? ?] ?]. done.
Qed.

Lemma check_shape_ok `{UnicodeLower} `{Live} snap name raw : check_shape (Check snap name raw).
Proof.
  assert (forall c t f s r e, c <> "" -> check_shape (error_result c t f s r e)) as Herr.
  { intros. unfold check_shape. cbn. split_and!; [by right; right; left|done..]. }
  unfold Check. destruct (Store.ProfileOf _ _) as [prof|]; [|by apply Herr].
  destruct (ParseAddr raw) as [a|]; [|by apply Herr]. destruct (negb (IsValid a)); [by apply Herr|].
  destruct (missing snap _) as [[nm k]|]; [by apply Herr|].
  destruct (Store.geo_pair _) as [c geo].
  match goal with |- context [verdict_of ?s ?p ?ip ?c ?g ?e] => pose proof (verdict_of_shape s p ip c g e) as Hs end.
  destruct (verdict_of _ _ _ _ _ _) as [res w]. by apply rows_of_shape.
Qed.

(** The reply repeats the version, id and inspector of the request. It
    names a response page exactly when it denies - never an empty name - and
    a scope and subject only then, and it redirects nobody and changes no
    header; whatever snapshot was asked, or none. *)
Theorem reply_shape `{UnicodeLower} `{Live} req snap name raw :
  let reply := ToReply req (Check snap name raw) in
  Protocol.reply_RID reply = Protocol.req_RID req /\ Protocol.reply_V reply = Protocol.req_V req
  /\ Protocol.reply_Inspector reply = Protocol.req_Inspector req
  /\ Protocol.reply_Verdict reply ∈ ["allow"; "deny"; "error"]
  /\ (is_Some (Protocol.reply_Response reply) <-> Protocol.reply_Verdict reply = "deny")
  /\ Protocol.reply_Response reply <> Some ""
  /\ (exists code scope subject, Protocol.reply_Reason reply = Some (Protocol.MkReason code "" scope subject 0)
      /\ code <> "" /\ (Protocol.reply_Verdict reply <> "deny" -> scope = "" /\ subject = ""))
  /\ Protocol.reply_Redirect reply = None /\ Protocol.reply_Headers reply = None.
Proof.
  cbv zeta. destruct (check_shape_ok snap name raw) as (Hv & Hc & Hr & Hs).
  destruct (Check snap name raw) as [v c t resp fs sc su e acts bans].
  cbn [Verdict Code Response Scope Subject] in *. unfold ToReply, Protocol.NewReply.
  cbn [Verdict Code Response Scope Subject Protocol.reply_RID Protocol.reply_V Protocol.reply_Inspector
    Protocol.reply_Verdict Protocol.reply_Response Protocol.reply_Reason Protocol.reply_Redirect Protocol.reply_Headers].
  do 4 (split; [done|]). split; [|split; [|split; [|done]]].
  - destruct (String.eqb_spec v "deny") as [->|Hne].
    + cbn. destruct (String.eqb_spec resp ""); [by destruct (Hr eq_refl)|]. by split; eauto.
    + replace (String.eqb v Protocol.VerdictDeny) with false by (symmetry; by apply String.eqb_neq). cbn [andb].
      by split; [intros []|].
  - destruct (_ && negb (String.eqb resp "")) eqn:E; [|done]. intros [= ->]. by rewrite andb_false_r in E.
  - eexists _, _, _. split; [done|]. split; [done|]. intros Hne. apply String.eqb_neq in Hne.
    unfold Protocol.VerdictDeny. by rewrite Hne.
Qed.

(** ** A small generation decides *)

Section example.
#[local] Existing Instance ascii_only.

(** What of a profile and an address a test reads, when both are there. *)
Definition ex_view (snap : Store.Snapshot) (raw : string) (test : Store.Profile -> Addr -> bool) : bool :=
  match Store.ProfileOf (Some snap) "", ParseAddr raw with
  | Some prof, Some a => bool_decide (missing (Some snap) (Store.pr_Rules prof) = None) && test prof a
  | _, _ => false
  end.

Lemma ex_view_ok snap raw test :
  ex_view snap raw test = true ->
  exists prof a, Store.ProfileOf (Some snap) "" = Some prof /\ ParseAddr raw = Some a
    /\ missing (Some snap) (Store.pr_Rules prof) = None /\ test prof a = true.
Proof.
  unfold ex_view. destruct (Store.ProfileOf _ _) as [prof|]; [|done]. destruct (ParseAddr raw) as [a|]; [|done].
  intros [Hm%bool_decide_eq_true Ht]%andb_true_iff. by exists prof, a.
Qed.

Definition ex_matched (action : string) (snap : Store.Snapshot) (prof : Store.Profile) (a : Addr) : bool :=
  existsb (selects action snap (Unmap a) (Store.LookupGeo (Some snap) (Unmap a))) (Store.pr_Rules prof).

Lemma verdict_by_rows_witness : Verdict (Check (Some Store.ex_snap) "" "198.51.100.7") = "deny".
Proof.
  assert (forall snap raw, Store.ex_build = Ok snap ->
    ex_view snap raw (fun prof a => negb (ex_matched "allow" snap prof a) && ex_matched "deny" snap prof a) = true ->
    Verdict (Check (Some snap) "" raw) = "deny") as Hgen.
  { intros snap raw E (prof & a & Hp & Ha & Hm & [Hx%negb_true_iff Hy]%andb_true_iff)%ex_view_ok.
    unfold Store.ex_build in E. unfold ex_matched, selects in Hx, Hy.
    rewrite (verdict_by_rows _ _ _ _ _ _ _ snap E _ _ prof a Hp Ha Hm). rewrite Hx. by rewrite Hy. }
  apply Hgen; [exact Store.ex_build_ok|vm_compute; reflexivity].
Defined.

Lemma deny_names_the_address_witness :
  exists prof a, ParseAddr "198.51.100.7" = Some a
    /\ Subject (Check (Some Store.ex_snap) "" "198.51.100.7") = "198.51.100.0/24"
    /\ names Store.ex_snap (Store.pr_Rules prof) (Unmap a) "network" "198.51.100.0/24".
Proof.
  assert (forall snap raw sc su, Store.ex_build = Ok snap ->
    ex_view snap raw (fun prof a => String.eqb (Scope (Check (Some snap) "" raw)) sc
      && String.eqb (Subject (Check (Some snap) "" raw)) su) = true ->
    exists prof a, ParseAddr raw = Some a /\ Subject (Check (Some snap) "" raw) = su
      /\ names snap (Store.pr_Rules prof) (Unmap a) sc su) as Hgen.
  { intros snap raw sc su E (prof & a & Hp & Ha & Hm & [Hx%String.eqb_eq Hy%String.eqb_eq]%andb_true_iff)%ex_view_ok.
    exists prof, a. split; [done|]. split; [done|]. unfold Store.ex_build in E. rewrite <- Hx, <- Hy.
    exact (proj1 (deny_names_the_address _ _ _ _ _ _ _ snap E _ _ prof a Hp Ha Hm)). }
  apply Hgen; [exact Store.ex_build_ok|vm_compute; reflexivity].
Defined.

Lemma rows_exact_witness :
  map ban_Dataset (Bans (Check (Some Store.ex_snap) "" "198.51.100.7")) = ["7b1d"; "7b1d"].
Proof.
  assert (forall snap raw, Store.ex_build = Ok snap ->
    ex_view snap raw (fun prof a =>
      bool_decide (map ban_Dataset (
        map (row_ban (Unmap a)) (List.filter (fun r => negb (Policy.Terminal (Policy.r_Action r))
          && xorb (Policy.r_Not r) (Store.ListContains (Store.ListOf (Some snap) (Policy.r_Dataset r)) (Unmap a))
          && negb (asks r)) (Store.pr_Rules prof))
        ++ map (outcome_ban (Unmap a) (Code (Check (Some snap) "" raw))) (List.filter (fun o =>
             String.eqb (Policy.o_On o) (where_of snap (Unmap a) (Store.LookupGeo (Some snap) (Unmap a)) (Store.pr_Rules prof))
             && negb (outcome_asks o)) (Store.pr_Outcomes prof))) = ["7b1d"; "7b1d"])) = true ->
    map ban_Dataset (Bans (Check (Some snap) "" raw)) = ["7b1d"; "7b1d"]) as Hgen.
  { intros snap raw E (prof & a & Hp & Ha & Hm & Hx%bool_decide_eq_true)%ex_view_ok. unfold Store.ex_build in E.
    rewrite (proj2 (rows_exact _ _ _ _ _ _ _ snap E _ _ prof a Hp Ha Hm)). exact Hx. }
  apply Hgen; [exact Store.ex_build_ok|vm_compute; reflexivity].
Defined.

Lemma writes_resolved_witness :
  let bans := Bans (Check (Some Store.ex_snap) "" "198.51.100.7") in
  length bans = 2%nat /\ Forall (fun b => is_Some (Store.Live_ Store.ex_snap !! ban_Dataset b)) bans.
Proof.
  cbv zeta. split; [vm_compute; reflexivity|]. apply Forall_forall. intros b Hb.
  pose proof Store.ex_build_ok as E. unfold Store.ex_build in E.
  exact (proj1 (proj1 (writes_resolved _ _ _ _ _ _ _ _ E _ _) b Hb)).
Defined.


(** A deny row over an inverse set of live lists alone, none of which is there. *)
Definition ex_unready (snap : Store.Snapshot) (r : Policy.Rule) : bool :=
  String.eqb (Policy.r_Action r) "deny" &&
  match Store.Sets snap !! Policy.r_Set r with
  | Some s =>
      Store.se_Inverse s && (length (Store.ma_Sources (Store.se_Match s)) =? 0)%nat
      && (length (Store.ma_Countries (Store.se_Match s)) =? 0)%nat
      && forallb (fun uuid => negb (live_ready uuid)) (Store.ma_Live (Store.se_Match s))
  | None => false
  end.

Lemma unready_list_closes_witness : Verdict (Check (Some Store.ex_snap) "" "8.8.8.8") = "deny".
Proof.
  assert (forall snap raw, Store.ex_build = Ok snap ->
    ex_view snap raw (fun prof a => negb (ex_matched "allow" snap prof a)
      && existsb (ex_unready snap) (Store.pr_Rules prof)) = true ->
    Verdict (Check (Some snap) "" raw) = "deny") as Hgen.
  { intros snap raw E (prof & a & Hp & Ha & Hm & [Hx%negb_true_iff (r & Hr & Hu)%existsb_exists]%andb_true_iff)%ex_view_ok.
    unfold ex_unready in Hu. apply andb_true_iff in Hu as [Hact%String.eqb_eq Hu].
    destruct (Store.Sets snap !! Policy.r_Set r) as [s|] eqn:Es; [|done].
    apply andb_true_iff in Hu as [[[Hinv H1%Nat.eqb_eq%nil_length_inv]%andb_true_iff
      H2%Nat.eqb_eq%nil_length_inv]%andb_true_iff H3].
    unfold Store.ex_build in E. refine (proj2 (unready_list_closes _ _ _ _ _ _ _ snap E "" raw prof a r s Hp Ha Hm _
      Hact Es H1 H2 _) Hinv Hx); [by apply list_elem_of_In|].
    apply Forall_forall. intros u Hin. rewrite forallb_forall in H3. by apply negb_true_iff, H3, list_elem_of_In. }
  apply Hgen; [exact Store.ex_build_ok|vm_compute; reflexivity].
Defined.

End example.

End Decide.
