(* ===== verification/Queue.v ===== *)
(** * The queue of requests

    Models [internal/queue/queue.go] as threads over a shared pool. The state
    that the mutex guards is [Pool]; every critical section is one function
    on it; a thread is the point it has reached; and a step runs one section
    of one thread, or one call of the handler between sections. The condition
    variable is explicit: a thread inside [Wait] runs only after a [Signal]
    that picked it or a [Broadcast]. The clock and the timers may say
    anything, so no property below leans on them. The counter of traffic,
    [io], belongs to another module and is left out. *)

From S2P Require Import Prelude Protocol.

#[local] Open Scope Z_scope.

Module Queue.

Definition ReasonQueueLimit : string := "IP_QUEUE_LIMIT".
Definition ReasonDeadlineExceeded : string := "IP_DEADLINE_EXCEEDED".
Definition FullDrop : string := "drop".
Definition FullWait : string := "wait".

Record Task : Type := MkTask { Req : Protocol.Request; Reply : string; Fill : Z; enqueued : Z }.
(** What a task is about, which stays when its other fields are filled in. *)
Definition message (t : Task) : Protocol.Request * string := (Req t, Reply t).
Definition stamp (t : Task) (now : Z) : Task := MkTask (Req t) (Reply t) (Fill t) now.
Definition with_fill (t : Task) (f : Z) : Task := MkTask (Req t) (Reply t) f (enqueued t).

Record Pool : Type := MkPool {
  q : list Task; depth : Z; closed : bool; full : string; reserve : Z; minBudget : Z;
  Accepted : Z; Shed : Z; Expired : Z }.

Definition Millisecond : Z := 1000000.
Definition Milliseconds (n : Z) : Z := i64 (n * Millisecond).

Definition New (depth reserveMS minBudgetMS : Z) (full : string) : Pool :=
  MkPool [] (if depth <? 1 then 1 else depth) false (if String.eqb full "" then FullDrop else full)
    (Milliseconds reserveMS) (Milliseconds minBudgetMS) 0 0 0.

Definition len (p : Pool) : Z := Z.of_nat (length (q p)).
Definition with_q (p : Pool) (l : list Task) : Pool :=
  MkPool l (depth p) (closed p) (full p) (reserve p) (minBudget p) (Accepted p) (Shed p) (Expired p).
Definition close_pool (p : Pool) : Pool :=
  MkPool (q p) (depth p) true (full p) (reserve p) (minBudget p) (Accepted p) (Shed p) (Expired p).
Definition count_expired (p : Pool) : Pool :=
  MkPool (q p) (depth p) (closed p) (full p) (reserve p) (minBudget p) (Accepted p) (Shed p) (i64 (Expired p + 1)).
Definition count_shed (p : Pool) : Pool :=
  MkPool (q p) (depth p) (closed p) (full p) (reserve p) (minBudget p) (Accepted p) (i64 (Shed p + 1)) (Expired p).

(** ** Sections under the mutex *)

(** [now.Sub], which saturates. *)
Definition since (now t : Z) : Z := Z.max (- 2 ^ 63) (Z.min (2 ^ 63 - 1) (now - t)).
Definition leftAt (p : Pool) (t : Task) (now : Z) : Z :=
  i64 (i64 (Milliseconds (Protocol.req_DeadlineMS (Req t)) - since now (enqueued t)) - reserve p).
Definition late (p : Pool) (now : Z) (t : Task) : bool := leftAt p t now <? minBudget p.

(** What a section does to the condition variable at its end. *)
Inductive wakeup : Type := NoWake | Signal | Broadcast.

Definition fillLocked (p : Pool) : Z := if depth p <=? len p then 100 else len p * 100 / depth p.
Definition enqueueLocked (p : Pool) (t : Task) : Pool :=
  MkPool (q p ++ [t]) (depth p) (closed p) (full p) (reserve p) (minBudget p)
    (i64 (Accepted p + 1)) (Shed p) (Expired p).
Definition takeExpiredLocked (p : Pool) (now : Z) : Pool * list Task :=
  (with_q p (List.filter (fun t => negb (late p now t)) (q p)), List.filter (late p now) (q p)).
Definition wake_dead (dead : list Task) : wakeup := match dead with [] => NoWake | _ => Broadcast end.

(** ** Threads *)

(** What one thread does next. *)
Inductive pc : Type :=
| PSubmit (t : Task)                           (* Submit was called *)
| PCollect (t : Task)                          (* about to collect the expired *)
| PLock (t : Task)                             (* about to queue the task *)
| PLoop (t : Task) (timedOut : bool)           (* in the loop of submitWaitLocked *)
| PWait (t : Task) (timedOut : bool)           (* inside Wait, in that loop *)
| PExpire (t : Task) (budget : Z)                (* about to answer that it expired *)
| PShed (t : Task)                             (* about to answer that the queue is full *)
| PReply (dead : list Task) (k : pc)           (* in replyDead; then [k] *)
| WPop                                         (* a worker about to take a task *)
| WWait                                        (* a worker inside Wait *)
| WRun (t : Task)                              (* a worker with a task *)
| SIdle                                        (* the sweeper between ticks *)
| CLock                                        (* Close, after the channel *)
| CWait                                        (* Close, in wg.Wait *)
| Done (worker : bool).                        (* returned; of a worker or another thread *)

Definition reply_dead (dead : list Task) (k : pc) : pc := match dead with [] => k | _ => PReply dead k end.

(** Calls of the handler, and the two moments of a task in the queue. *)
Inductive event : Type :=
| Called (t : Task) (budget : Z) (shed : string)
| Enqueued (t : Task)
| Popped (t : Task).

Definition submit_begin (p : Pool) (t : Task) (now1 now2 now3 : Z) : pc :=
  let t := stamp t now1 in
  if leftAt p t now2 <? minBudget p then PExpire t (leftAt p t now3) else PCollect t.

(** The rest of [submitWaitLocked], from its loop. *)
Definition submit_loop (p : Pool) (t : Task) (timedOut : bool) (now : Z) : Pool * pc * wakeup * list event :=
  if (depth p <=? len p) && negb timedOut && negb (closed p) then
    let '(p', dead) := takeExpiredLocked p now in
    match dead with
    | [] => (p', PWait t timedOut, NoWake, [])
    | _ => (p', PReply dead (PLoop t timedOut), Broadcast, [])
    end
  else if closed p then (p, PExpire t 0, NoWake, [])
  else if len p <? depth p then (enqueueLocked p t, Done false, Signal, [Enqueued t])
  else (p, PExpire t 0, NoWake, []).

(** The second section of [Submit]; [submitWaitLocked] goes on under the same lock. *)
Definition submit_lock (p : Pool) (t : Task) (now1 now2 : Z) : Pool * pc * wakeup * list event :=
  if closed p then (p, PExpire t 0, NoWake, []) else
  let t := with_fill t (fillLocked p) in
  if len p <? depth p then (enqueueLocked p t, Done false, Signal, [Enqueued t]) else
  if String.eqb (full p) FullWait then
    let left := leftAt p t now1 in
    if left <? minBudget p then (p, PExpire t left, NoWake, []) else submit_loop p t false now2
  else (p, PShed t, NoWake, []).

(** [pop], from its start or from a wake-up, to its return or the next [Wait];
    then the part of [work] that its results choose. *)
Definition pop (p : Pool) (now : Z) : Pool * pc * wakeup * list event :=
  let '(p', dead) := takeExpiredLocked p now in
  match q p' with
  | t :: rest => (with_q p' rest, reply_dead dead (WRun t), Broadcast, [Popped t])
  | [] =>
      if closed p' then (p', reply_dead dead (Done true), wake_dead dead, [])
      else match dead with
           | [] => (p', WWait, NoWake, [])
           | _ => (p', PReply dead WPop, Broadcast, [])
           end
  end.

(** [budget] and the call of the handler. *)
Definition work_task (p : Pool) (t : Task) (now : Z) : Pool * pc * wakeup * list event :=
  let left := leftAt p t now in
  if left <? minBudget p then (count_expired p, WPop, NoWake, [Called t left ReasonDeadlineExceeded])
  else (p, WPop, NoWake, [Called t left ""]).

Definition collect (p : Pool) (now : Z) (k : pc) : Pool * pc * wakeup * list event :=
  let '(p', dead) := takeExpiredLocked p now in (p', reply_dead dead k, wake_dead dead, []).

(** One step of one thread; [None] when it is waiting or has returned.
    [stopped] says that the channel [stop] is closed, and [tick] which of two
    ready channels the sweeper takes. *)
Definition run (now1 now2 now3 : Z) (tick stopped : bool) (p : Pool) (c : pc)
  : option (Pool * pc * wakeup * list event) :=
  match c with
  | PSubmit t => Some (p, submit_begin p t now1 now2 now3, NoWake, [])
  | PCollect t => Some (collect p now1 (PLock t))
  | PLock t => Some (submit_lock p t now1 now2)
  | PLoop t timedOut => Some (submit_loop p t timedOut now1)
  | PExpire t budget => Some (count_expired p, Done false, NoWake, [Called t budget ReasonDeadlineExceeded])
  | PShed t => Some (count_shed p, Done false, NoWake, [Called t 0 ReasonQueueLimit])
  | PReply [] k => Some (p, k, NoWake, [])
  | PReply (t :: dead) k => Some (count_expired p, reply_dead dead k, NoWake, [Called t 0 ReasonDeadlineExceeded])
  | WPop => Some (pop p now1)
  | WRun t => Some (work_task p t now1)
  | SIdle => if tick then Some (collect p now1 SIdle) else if stopped then Some (p, Done false, NoWake, []) else None
  | CLock => Some (close_pool p, CWait, Broadcast, [])
  | PWait _ _ | WWait | CWait | Done _ => None
  end.

(** ** The condition variable *)

Definition wake (c : pc) : pc :=
  match c with
  | PWait t timedOut => PLoop t timedOut
  | WWait => WPop
  | c => c
  end.
Definition waiting (c : pc) : bool := match c with PWait _ _ | WWait => true | _ => false end.

Inductive wakes : wakeup -> list pc -> list pc -> Prop :=
| wakes_none l : wakes NoWake l l
| wakes_all l : wakes Broadcast l (map wake l)
| wakes_nobody l : Forall (fun c => waiting c = false) l -> wakes Signal l l
| wakes_one l i c : l !! i = Some c -> waiting c = true -> wakes Signal l (<[i := wake c]> l).

(** The timer of a task that waits to be queued. *)
Fixpoint timeout (c : pc) : option pc :=
  match c with
  | PWait t _ => Some (PWait t true)
  | PLoop t _ => Some (PLoop t true)
  | PReply dead k => match timeout k with Some k' => Some (PReply dead k') | None => None end
  | _ => None
  end.

(** ** The program *)

Record sys : Type := MkSys {
  pool : Pool; stopped : bool; threads : list pc; submitted : list Task; log : list event }.

Definition start (workers : nat) (p : Pool) : sys := MkSys p false (SIdle :: replicate workers WPop) [] [].

Inductive step : sys -> sys -> Prop :=
| step_submit s t :
    step s (MkSys (pool s) (stopped s) (threads s ++ [PSubmit t]) (submitted s ++ [t]) (log s))
| step_close s :
    stopped s = false -> step s (MkSys (pool s) true (threads s ++ [CLock]) (submitted s) (log s))
| step_run s i c now1 now2 now3 tick p' c' w es ths :
    threads s !! i = Some c ->
    run now1 now2 now3 tick (stopped s) (pool s) c = Some (p', c', w, es) ->
    wakes w (<[i := c']> (threads s)) ths ->
    step s (MkSys p' (stopped s) ths (submitted s) (log s ++ es))
| step_timer s i c c' :
    threads s !! i = Some c -> timeout c = Some c' ->
    step s (MkSys (pool s) (stopped s) (map wake (<[i := c']> (threads s))) (submitted s) (log s)).

Definition reachable (workers : nat) (p : Pool) : sys -> Prop := rtc step (start workers p).

#[local] Opaque i64.

(** ** Where every task is *)

Fixpoint holds (c : pc) : list Task :=
  match c with
  | PSubmit t | PCollect t | PLock t | PLoop t _ | PWait t _ | PExpire t _ | PShed t | WRun t => [t]
  | PReply dead k => dead ++ holds k
  | WPop | WWait | SIdle | CLock | CWait | Done _ => []
  end.
Definition called (es : list event) : list Task :=
  omap (fun e => match e with Called t _ _ => Some t | _ => None end) es.
Definition queued (es : list event) : list Task :=
  omap (fun e => match e with Enqueued t => Some t | _ => None end) es.
Definition popped (es : list event) : list Task :=
  omap (fun e => match e with Popped t => Some t | _ => None end) es.

Lemma holds_wake c : holds (wake c) = holds c.
Proof. by destruct c. Qed.
Lemma holds_reply dead k : holds (reply_dead dead k) = dead ++ holds k.
Proof. by destruct dead. Qed.

Lemma filter_perm {A} (f : A -> bool) l : List.filter f l ++ List.filter (fun a => negb (f a)) l ≡ₚ l.
Proof.
  induction l as [|a l IH]; [done|]. cbn [List.filter]. destruct (f a); cbn [negb app]; [by rewrite IH|].
  by rewrite <- Permutation_middle, IH.
Qed.

Lemma take_perm p now :
  q p ≡ₚ q (takeExpiredLocked p now).1 ++ (takeExpiredLocked p now).2.
Proof. unfold takeExpiredLocked. cbn [fst snd q with_q]. rewrite Permutation_app_comm. symmetry. apply filter_perm. Qed.

Lemma wakes_map {A} (f : pc -> A) w l l' : (forall c, f (wake c) = f c) -> wakes w l l' -> map f l' = map f l.
Proof.
  intros Hf [| | |l2 i c Hi _]; [done| |done|].
  - rewrite map_map. apply map_ext, Hf.
  - apply list_eq. intros j. rewrite !list_lookup_fmap. destruct (decide (i = j)) as [<-|Hne].
    + rewrite list_lookup_insert_eq by (by eapply lookup_lt_Some). rewrite Hi. cbn. by rewrite Hf.
    + by rewrite list_lookup_insert_ne.
Qed.

(** One thread among the others. *)
Lemma concat_at {A B} (h : A -> list B) l i a :
  l !! i = Some a ->
  exists rest, concat (map h l) ≡ₚ h a ++ rest /\ forall b, concat (map h (<[i := b]> l)) ≡ₚ h b ++ rest.
Proof.
  revert i. induction l as [|x l IH]; intros [|i] Hi; try done; cbn [lookup list_lookup] in Hi.
  - injection Hi as ->. by exists (concat (map h l)).
  - destruct (IH i Hi) as (rest & H1 & H2). exists (h x ++ rest). split.
    + cbn [map concat]. rewrite H1, !app_assoc. apply Permutation_app_tail, Permutation_app_comm.
    + intros b. change (<[S i := b]> (x :: l)) with (x :: <[i := b]> l). cbn [map concat].
      rewrite H2, !app_assoc. apply Permutation_app_tail, Permutation_app_comm.
Qed.

(** A step of one thread loses and repeats nothing. *)
Lemma submit_loop_tasks p t timedOut now p' c' w es :
  submit_loop p t timedOut now = (p', c', w, es) ->
  q p ++ [t] ≡ₚ called es ++ q p' ++ holds c'.
Proof.
  unfold submit_loop. pose proof (take_perm p now) as Ht. destruct (takeExpiredLocked p now) as [p1 dead].
  cbn [fst snd] in Ht. destruct (_ && _ && _).
  { destruct dead as [|d dead]; intros [= <- <- <- <-]; cbn [called omap list_omap holds]; rewrite Ht.
    - by rewrite app_nil_r.
    - by rewrite <- app_assoc. }
  destruct (closed p); [by intros [= <- <- <- <-]|].
  destruct (len p <? depth p); intros [= <- <- <- <-]; cbn; [by rewrite app_nil_r|done].
Qed.

Lemma collect_tasks p now k p' c' w es :
  collect p now k = (p', c', w, es) -> q p ++ holds k ≡ₚ called es ++ q p' ++ holds c'.
Proof.
  unfold collect. pose proof (take_perm p now) as Ht. destruct (takeExpiredLocked p now) as [p1 dead].
  intros [= <- <- <- <-]. cbn [fst snd] in Ht. by rewrite holds_reply, Ht, <- app_assoc.
Qed.

Definition same_messages (l l' : list Task) : Prop := map message l ≡ₚ map message l'.
#[local] Instance same_messages_equiv : Equivalence same_messages.
Proof. unfold same_messages. split; [by intros ?|by intros ? ? ->|by intros ? ? ? -> ->]. Qed.
#[local] Instance perm_messages : subrelation (≡ₚ) same_messages.
Proof. intros l l' Hl. unfold same_messages. by rewrite Hl. Qed.
#[local] Instance messages_app : Proper (same_messages ==> same_messages ==> same_messages) (@app Task).
Proof. intros a a' Ha b b' Hb. unfold same_messages in *. by rewrite !map_app, Ha, Hb. Qed.
#[local] Instance messages_proper : Proper ((≡ₚ) ==> (≡ₚ) ==> iff) same_messages.
Proof. intros a a' Ha b b' Hb. unfold same_messages. by rewrite Ha, Hb. Qed.

Lemma same_stamp t now : same_messages [stamp t now] [t].
Proof. unfold same_messages. reflexivity. Qed.
Lemma same_fill t f : same_messages [with_fill t f] [t].
Proof. unfold same_messages. reflexivity. Qed.

Lemma run_tasks now1 now2 now3 tick st p c p' c' w es :
  run now1 now2 now3 tick st p c = Some (p', c', w, es) ->
  same_messages (q p ++ holds c) (called es ++ q p' ++ holds c').
Proof.
  destruct c as [t|t|t|t b|t b|t bu|t|dead k| | |t| | | |]; cbn [run holds]; try done.
  - intros [= <- <- <- <-]. unfold submit_begin. destruct (_ <? _); cbn; by rewrite (same_stamp t now1).
  - intros E%(inj Some). apply perm_messages. by apply (collect_tasks p now1 (PLock t)) in E.
  - intros E%(inj Some). unfold submit_lock in E. destruct (closed p); [by injection E as <- <- <- <-|].
    rewrite <- (same_fill t (fillLocked p)).
    destruct (len p <? depth p); [injection E as <- <- <- <-; cbn; by rewrite app_nil_r|].
    destruct (String.eqb _ _); [|by injection E as <- <- <- <-].
    destruct (_ <? _); [by injection E as <- <- <- <-|]. apply perm_messages. by eapply submit_loop_tasks.
  - intros E%(inj Some). apply perm_messages. by eapply submit_loop_tasks.
  - intros [= <- <- <- <-]. cbn. rewrite app_nil_r. apply perm_messages, Permutation_app_comm.
  - intros [= <- <- <- <-]. cbn. rewrite app_nil_r. apply perm_messages, Permutation_app_comm.
  - destruct dead as [|d dead]; [by intros [= <- <- <- <-]|]. intros [= <- <- <- <-].
    rewrite holds_reply. cbn. apply perm_messages. by rewrite <- Permutation_middle.
  - intros E%(inj Some). unfold pop in E. pose proof (take_perm p now1) as Ht.
    destruct (takeExpiredLocked p now1) as [p1 dead]. cbn [fst snd] in Ht. rewrite app_nil_r.
    apply perm_messages. rewrite Ht. destruct (q p1) as [|t rest] eqn:Eq.
    + destruct (closed p1); [|destruct dead]; injection E as <- <- <- <-;
        rewrite ?holds_reply, Eq; cbn; by rewrite ?app_nil_r.
    + injection E as <- <- <- <-. rewrite holds_reply. cbn.
      by rewrite (app_assoc rest), <- Permutation_cons_append.
  - intros E%(inj Some). unfold work_task in E. destruct (_ <? _); injection E as <- <- <- <-; cbn; rewrite app_nil_r;
      apply perm_messages, Permutation_app_comm.
  - destruct tick.
    + intros E%(inj Some). apply perm_messages. apply (collect_tasks p now1 SIdle) in E. done.
    + destruct st; [|done]. by intros [= <- <- <- <-].
  - by intros [= <- <- <- <-].
Qed.

(** ** Who waits, and why *)

Definition calm (k : pc) : bool :=
  match k with PLoop _ _ | PLock _ | SIdle | WPop | WRun _ | Done true => true | _ => false end.
Definition well_formed (c : pc) : bool := match c with PReply _ k => calm k | _ => true end.
Fixpoint is_worker (c : pc) : bool :=
  match c with WPop | WWait | WRun _ | Done true => true | PReply _ k => is_worker k | _ => false end.
Fixpoint exiting (c : pc) : bool :=
  match c with Done true => true | PReply _ k => exiting k | _ => false end.
Definition is_pop (c : pc) : bool := match c with WPop => true | _ => false end.
Definition count (f : pc -> bool) (l : list pc) : nat := length (List.filter f l).

Lemma count_insert f l i a b :
  l !! i = Some a ->
  (count f (<[i := b]> l) + (if f a then 1 else 0) = count f l + (if f b then 1 else 0))%nat.
Proof.
  unfold count. revert i. induction l as [|x l IH]; intros [|i] Hi; try done; cbn [lookup list_lookup] in Hi.
  - injection Hi as ->. cbn. destruct (f a), (f b); cbn; lia.
  - change (<[S i := b]> (x :: l)) with (x :: <[i := b]> l). specialize (IH i Hi).
    cbn [List.filter]. destruct (f x); cbn [length]; lia.
Qed.
Lemma count_map f l : (forall c, f (wake c) = f c) -> count f (map wake l) = count f l.
Proof.
  intros Hf. unfold count. induction l as [|c l IH]; [done|]. cbn. rewrite Hf.
  destruct (f c); cbn; by rewrite IH.
Qed.

(** What a thread may be, given the pool. *)
Definition pc_ok (p : Pool) (c : pc) : Prop :=
  well_formed c = true
  /\ (exiting c = true -> closed p = true /\ q p = [])
  /\ (waiting c = true -> closed p = false)
  /\ (forall t b, c = PWait t b -> depth p <= len p).

Definition pool_ok (p : Pool) : Prop := 1 <= depth p /\ len p <= depth p.

(** As long as a worker waits, every queued task has a worker on its way. *)
Definition awake (p : Pool) (l : list pc) : Prop :=
  WWait ∈ l -> (length (q p) <= count is_pop l)%nat.

Lemma take_len p now : (length (q (takeExpiredLocked p now).1) + length (takeExpiredLocked p now).2 = length (q p))%nat.
Proof. rewrite <- length_app. apply Permutation_length. symmetry. apply take_perm. Qed.

(** What a section does to the queue, by the wake-up that ends it. *)
Inductive effect (p : Pool) (c : pc) : wakeup -> Pool -> pc -> Prop :=
| effect_none p' c' :
    q p' = q p -> closed p' = closed p -> pc_ok p' c' -> (c' = WWait -> q p = []) ->
    (c = WPop -> q p = []) -> effect p c NoWake p' c'
| effect_enqueue p' t :
    q p' = q p ++ [t] -> len p < depth p -> closed p = false -> closed p' = false -> c <> WPop ->
    effect p c Signal p' (Done false)
| effect_all p' c' :
    (length (q p') <= length (q p))%nat -> (closed p = true -> closed p' = true) ->
    pc_ok p' c' -> waiting c' = false -> effect p c Broadcast p' c'.

Lemma take_none p now p1 : takeExpiredLocked p now = (p1, []) -> q p1 = q p /\ closed p1 = closed p /\ depth p1 = depth p.
Proof.
  intros E. injection E as <- Hd. cbn [q closed depth with_q]. split; [|done].
  pose proof (filter_perm (late p now) (q p)) as Hp. rewrite Hd in Hp. cbn [app] in Hp.
  induction (q p) as [|t l IH]; [done|]. cbn [List.filter] in *. destruct (late p now t); [done|]. cbn [negb] in *.
  f_equal. apply IH; [done|]. by apply Permutation_cons_inv in Hp.
Qed.

Lemma pc_ok_plain p c : well_formed c = true -> exiting c = false -> waiting c = false -> pc_ok p c.
Proof.
  intros H1 H2 H3. split_and!; [done|by rewrite H2|by rewrite H3|]. intros t b ->. done.
Qed.

Lemma take_shape p now p1 dead :
  takeExpiredLocked p now = (p1, dead) ->
  closed p1 = closed p /\ depth p1 = depth p /\ (length (q p1) <= length (q p))%nat.
Proof. intros E. pose proof (take_len p now) as Hl. rewrite E in Hl. cbn [fst snd] in Hl. injection E as <- <-. by split_and!; [| |lia]. Qed.

Lemma collect_effect p now k p' c' w es c :
  calm k = true -> exiting k = false -> c <> WPop ->
  collect p now k = (p', c', w, es) -> effect p c w p' c'.
Proof.
  intros Hk He Hc. unfold collect. destruct (takeExpiredLocked p now) as [p1 dead] eqn:Et.
  pose proof (take_shape _ _ _ _ Et) as (Hcl & _ & Hl).
  assert (waiting k = false) as Hw by (by destruct k as [| | | | | | | | | | | | | |[]]).
  intros [= <- <- <- <-]. destruct dead as [|d dead]; cbn [reply_dead wake_dead].
  - apply take_none in Et as (Hq & _ & _). apply effect_none; [done|done| | |done].
    + apply pc_ok_plain; [by destruct k|done|done].
    + by intros ->.
  - apply effect_all; [done|by rewrite Hcl| |done]. by apply pc_ok_plain.
Qed.

(** A section that leaves the pool alone and does not wait. *)
Ltac plain_effect := apply effect_none; try done; try (by apply pc_ok_plain).

Lemma submit_loop_effect p t b now p' c' w es c :
  pool_ok p -> c <> WPop -> submit_loop p t b now = (p', c', w, es) -> effect p c w p' c'.
Proof.
  intros [Hd Hle] Hc. unfold submit_loop.
  destruct ((depth p <=? len p) && negb b && negb (closed p)) eqn:E.
  - apply andb_true_iff in E as [[Hf%Z.leb_le _]%andb_true_iff Hcl%negb_true_iff].
    destruct (takeExpiredLocked p now) as [p1 dead] eqn:Et. pose proof (take_shape _ _ _ _ Et) as (H1 & H2 & Hl).
    destruct dead as [|d dead]; intros [= <- <- <- <-].
    + apply take_none in Et as (Hq & _ & _). apply effect_none; [done|done| |done|done].
      split_and!; [done|done|by rewrite H1|]. intros ? ? _. unfold len in *. by rewrite H2, Hq.
    + apply effect_all; [done|by rewrite H1| |done]. by apply pc_ok_plain.
  - destruct (closed p) eqn:Hcl; [intros [= <- <- <- <-]; plain_effect|].
    destruct (Z.ltb_spec (len p) (depth p)); intros [= <- <- <- <-].
    + by eapply effect_enqueue.
    + plain_effect.
Qed.

Lemma pop_effect p now p' c' w es : pop p now = (p', c', w, es) -> effect p WPop w p' c'.
Proof.
  unfold pop. destruct (takeExpiredLocked p now) as [p1 dead] eqn:Et.
  pose proof (take_shape _ _ _ _ Et) as (H1 & H2 & Hl). destruct (q p1) as [|t rest] eqn:Eq.
  - destruct (closed p1) eqn:Hcl; [|destruct dead as [|d dead]]; intros [= <- <- <- <-].
    + assert (pc_ok p1 (reply_dead dead (Done true))) as Hpc.
      { destruct dead; (split_and!; [done|by intros _|done|done]). }
      destruct dead as [|d dead]; cbn [reply_dead wake_dead] in *.
      * apply take_none in Et as (Hq & _ & _). assert (q p = []) by (by rewrite <- Hq).
        apply effect_none; try done. by rewrite Hcl.
      * apply effect_all; try done. by rewrite Eq; cbn; lia.
    + apply take_none in Et as (Hq & _ & _). assert (q p = []) by (by rewrite <- Hq).
      apply effect_none; try done. by rewrite Hcl.
    + apply effect_all; [by rewrite Eq; cbn; lia|by rewrite <- H1| |done]. by apply pc_ok_plain.
  - intros [= <- <- <- <-]. apply effect_all.
    + cbn [q with_q]. cbn in Hl. lia.
    + cbn [closed with_q]. by rewrite H1.
    + destruct dead; by apply pc_ok_plain.
    + by destruct dead.
Qed.

Lemma run_effect now1 now2 now3 tick st p c p' c' w es :
  pool_ok p -> pc_ok p c -> run now1 now2 now3 tick st p c = Some (p', c', w, es) -> effect p c w p' c'.
Proof.
  intros Hp Hc. destruct c as [t|t|t|t b|t b|t bu|t|dead k| | |t| | | |]; cbn [run]; try done.
  - intros [= <- <- <- <-]. unfold submit_begin. destruct (_ <? _); plain_effect.
  - intros E%(inj Some). by eapply (collect_effect p now1 (PLock t)).
  - intros E%(inj Some). unfold submit_lock in E.
    destruct (closed p) eqn:Hcl; [injection E as <- <- <- <-; plain_effect|].
    destruct (Z.ltb_spec (len p) (depth p)); [injection E as <- <- <- <-; by eapply effect_enqueue|].
    destruct (String.eqb _ _); [|injection E as <- <- <- <-; plain_effect].
    destruct (_ <? _); [injection E as <- <- <- <-; plain_effect|].
    by eapply submit_loop_effect.
  - intros E%(inj Some). by eapply submit_loop_effect.
  - intros [= <- <- <- <-]. plain_effect.
  - intros [= <- <- <- <-]. plain_effect.
  - destruct Hc as (Hwf & Hex & _ & _). cbn [well_formed exiting] in Hwf, Hex.
    assert (waiting k = false) as Hk by (by destruct k as [| | | | | | | | | | | | | |[]]).
    assert (pc_ok p k) as Hpk.
    { split_and!; [by destruct k|done|by rewrite Hk|by intros ? ? ->]. }
    destruct dead as [|d dead]; intros [= <- <- <- <-].
    + apply effect_none; try done. by intros ->.
    + apply effect_none; [done|done|by destruct dead| |done]. destruct dead; [cbn [reply_dead]; by intros ->|done].
  - intros E%(inj Some). by eapply pop_effect.
  - intros E%(inj Some). unfold work_task in E.
    destruct (_ <? _); injection E as <- <- <- <-; plain_effect.
  - destruct tick; [|destruct st; [|done]].
    + intros E%(inj Some). by eapply (collect_effect p now1 SIdle).
    + intros [= <- <- <- <-]. plain_effect.
  - intros [= <- <- <- <-]. apply effect_all; [done|done|by apply pc_ok_plain|done].
Qed.

(** ** What no section changes, and what it logs *)

Definition fill_in (t : Task) : Prop := 0 <= Fill t <= 100.
(** A task that found the queue full says so; it is turned away only when the
    policy of a full queue is not to wait. *)
Fixpoint pc_fill (full : string) (c : pc) : Prop :=
  match c with
  | PLoop t _ | PWait t _ => Fill t = 100
  | PShed t => Fill t = 100 /\ full <> FullWait
  | WRun t => fill_in t
  | PReply _ k => pc_fill full k
  | _ => True
  end.
Definition event_ok (p : Pool) (e : event) : Prop :=
  match e with
  | Called t budget shed =>
      (shed = "" /\ minBudget p <= budget /\ fill_in t)
      \/ shed = ReasonDeadlineExceeded
      \/ (shed = ReasonQueueLimit /\ full p <> FullWait /\ Fill t = 100)
  | Enqueued t => fill_in t
  | Popped t => True
  end.

(** One goal for each way through a section. *)
Ltac paths E :=
  repeat match type of E with
    | context [match ?x with _ => _ end] =>
        lazymatch x with context [match _ with _ => _ end] => fail | _ => destruct x eqn:? end
    end;
  try discriminate E; injection E as <- <- <- <-.

Lemma run_const now1 now2 now3 tick st p c p' c' w es :
  run now1 now2 now3 tick st p c = Some (p', c', w, es) ->
  depth p' = depth p /\ minBudget p' = minBudget p /\ full p' = full p.
Proof.
  destruct c as [t|t|t|t b|t b|t bu|t|[|d dead] k| | |t| | | |]; cbn [run];
    unfold collect, submit_lock, submit_loop, pop, work_task, takeExpiredLocked; intros E; paths E; done.
Qed.

Lemma run_worker now1 now2 now3 tick st p c p' c' w es :
  run now1 now2 now3 tick st p c = Some (p', c', w, es) -> is_worker c' = is_worker c.
Proof.
  assert (forall dead k, is_worker (reply_dead dead k) = is_worker k) as Hr by (by intros []).
  destruct c as [t|t|t|t b|t b|t bu|t|[|d dead] k| | |t| | | |]; cbn [run];
    unfold collect, submit_begin, submit_lock, submit_loop, pop, work_task, takeExpiredLocked; intros E; paths E;
    try done; by rewrite ?Hr.
Qed.

Lemma fillLocked_range p : pool_ok p -> 0 <= fillLocked p <= 100 /\ (depth p <= len p -> fillLocked p = 100).
Proof.
  intros [Hd Hl]. unfold fillLocked. destruct (Z.leb_spec (depth p) (len p)); [lia|]. split; [|lia].
  assert (0 <= len p) by (unfold len; lia).
  split; [apply Z.div_pos; lia|]. apply Z.div_le_upper_bound; lia.
Qed.

Lemma filter_sublist {A} (f : A -> bool) l : List.filter f l `sublist_of` l.
Proof. induction l as [|a l IH]; [done|]. cbn [List.filter]. destruct (f a); [by apply sublist_skip|by apply sublist_cons]. Qed.

(** The queue only loses tasks at its head and, late ones, anywhere; it
    gains them at its end. *)
Lemma run_fifo now1 now2 now3 tick st p c p' c' w es :
  run now1 now2 now3 tick st p c = Some (p', c', w, es) ->
  popped es ++ q p' `sublist_of` q p ++ queued es.
Proof.
  pose proof (fun now => filter_sublist (fun t => negb (late p now t)) (q p)) as Hf.
  destruct c as [t|t|t|t b|t b|t bu|t|[|d dead] k| | |t| | | |]; cbn [run];
    unfold collect, submit_lock, submit_loop, pop, work_task, takeExpiredLocked; intros E; paths E;
    cbn [popped queued omap list_omap app q with_q enqueueLocked count_expired count_shed close_pool] in *; rewrite ?app_nil_r; try done.
  all: match goal with H : List.filter _ _ = _ |- _ => rewrite <- H end; apply Hf.
Qed.

Lemma run_events now1 now2 now3 tick st p c p' c' w es :
  pool_ok p -> Forall fill_in (q p) -> pc_fill (full p) c ->
  run now1 now2 now3 tick st p c = Some (p', c', w, es) ->
  pc_fill (full p) c' /\ Forall (event_ok p) es.
Proof.
  intros Hp Hq Hc. destruct (fillLocked_range p Hp) as [Hr Hfull].
  assert (forall f dead k, pc_fill f (reply_dead dead k) <-> pc_fill f k) as Hd by (by intros ? []).
  assert (forall t f, Fill (with_fill t f) = f) as Hw by done.
  assert (forall now t rest, List.filter (fun t => negb (late p now t)) (q p) = t :: rest -> fill_in t) as Hh.
  { intros now t rest E. rewrite Forall_forall in Hq. apply Hq.
    eapply elem_of_sublist; [|apply filter_sublist]. rewrite E. by left. }
  destruct c as [t|t|t|t b|t b|t bu|t|[|d dead] k| | |t| | | |]; cbn [run pc_fill] in *;
    unfold collect, submit_begin, submit_lock, submit_loop, pop, work_task, takeExpiredLocked, fill_in in *; intros E; paths E;
    rewrite ?Hd, ?Forall_singleton; cbn [event_ok pc_fill Fill with_fill] in *;
    unfold fill_in in *; split; try done; try lia; try (by right; left); try (match goal with H : q (with_q _ _) = _ |- _ => exact (Hh _ _ _ H) end); try (apply Hfull; lia).
  - split; [apply Hfull; lia|by apply String.eqb_neq].
  - right; right. by destruct Hc.
  - left. by split_and!; try lia.
Qed.

(** ** The invariant of the program *)

Record inv (workers : nat) (s : sys) : Prop := {
  inv_pool : pool_ok (pool s);
  inv_threads : Forall (pc_ok (pool s)) (threads s);
  inv_awake : awake (pool s) (threads s);
  inv_workers : count is_worker (threads s) = workers;
  inv_tasks : same_messages (submitted s) (called (log s) ++ q (pool s) ++ concat (map holds (threads s)));
  inv_fifo : popped (log s) ++ q (pool s) `sublist_of` queued (log s);
  inv_fill : Forall (pc_fill (full (pool s))) (threads s);
  inv_log : Forall (event_ok (pool s)) (log s) }.

Lemma wake_calm c : waiting (wake c) = false.
Proof. by destruct c. Qed.
Lemma wake_worker c : is_worker (wake c) = is_worker c.
Proof. by destruct c. Qed.
Lemma wake_exiting c : exiting (wake c) = exiting c.
Proof. by destruct c. Qed.
Lemma wake_well_formed c : well_formed (wake c) = well_formed c.
Proof. by destruct c. Qed.
Lemma wake_fill f c : pc_fill f (wake c) = pc_fill f c.
Proof. by destruct c. Qed.
Lemma is_pop_spec c : is_pop c = true <-> c = WPop.
Proof. by destruct c. Qed.

Lemma nobody_waits l : WWait ∉ map wake l.
Proof. intros (c & Hc & _)%list_elem_of_fmap. by destruct c. Qed.

Lemma in_insert (l : list pc) (i : nat) c' c : c ∈ <[i := c']> l -> c = c' \/ c ∈ l.
Proof.
  intros (j & Hj)%list_elem_of_lookup. apply list_lookup_insert_Some in Hj as [(_ & -> & _)|(_ & Hj)]; [by left|].
  right. by eapply list_elem_of_lookup_2.
Qed.

Lemma wakes_elem w (l l' : list pc) c : wakes w l l' -> c ∈ l' -> exists d, d ∈ l /\ (c = d \/ c = wake d).
Proof.
  intros [m|m|m _|m i d Hi _] Hc; [by exists c; eauto| |by exists c; eauto|].
  - apply list_elem_of_fmap in Hc as (d & -> & Hd). exists d. eauto.
  - apply in_insert in Hc as [->|Hc]; [|by exists c; eauto]. exists d. split; [by eapply list_elem_of_lookup_2|by right].
Qed.

(** Where the condition variable is concerned, what holds of the thread that
    ran holds of all. *)
Lemma others_ok p c w p' c' i ths ths' :
  depth p' = depth p -> ths !! i = Some c -> Forall (pc_ok p) ths -> effect p c w p' c' ->
  wakes w (<[i := c']> ths) ths' -> Forall (pc_ok p') ths'.
Proof.
  intros Hd Hi Hall He Hw. rewrite Forall_forall in Hall. apply Forall_forall. intros x Hx.
  destruct (wakes_elem _ _ _ _ Hw Hx) as (d & Hin & Hxd).
  destruct He as [p' c' Hq Hcl Hok _ _|p' t Hq Hlt Hcl Hcl' _|p' c' Hl Hcl Hok Hwt].
  - inversion Hw; subst. apply in_insert in Hx as [->|Hx]; [done|].
    destruct (Hall _ Hx) as (H1 & H2 & H3 & H4). unfold pc_ok. rewrite Hq, Hcl, Hd.
    split_and!; [done|done|done|]. intros t b Ht. unfold len. rewrite Hq. by eapply H4.
  - assert (exiting x = false /\ well_formed x = true /\ forall t b, x <> PWait t b) as (H1 & H2 & H3).
    { assert (exiting d = false /\ well_formed d = true /\ forall t b, d <> PWait t b) as (H1 & H2 & H3).
      { apply in_insert in Hin as [->|Hin]; [done|]. destruct (Hall _ Hin) as (H1 & H2 & H3 & H4).
        split_and!; [|done|].
        - apply not_true_is_false. intros He. by destruct (H2 He); congruence.
        - intros t' b ->. specialize (H4 t' b eq_refl). lia. }
      destruct Hxd as [->| ->]; [done|]. rewrite wake_exiting, wake_well_formed. split_and!; [done|done|].
      intros t' b E. pose proof (wake_calm d). by rewrite E in *. }
    split_and!; [done|by rewrite H1|done|]. intros t' b Ht. by destruct (H3 t' b).
  - inversion Hw; subst. apply list_elem_of_fmap in Hx as (e & -> & Hx).
    assert (well_formed e = true /\ (exiting e = true -> closed p' = true /\ q p' = [])) as [H1 H2].
    { apply in_insert in Hx as [->|Hx]; [by destruct Hok as (? & ? & _)|].
      destruct (Hall _ Hx) as (H1 & H2 & _). split; [done|]. intros He. destruct (H2 He) as [H3 H4].
      split; [by apply Hcl|]. rewrite H4 in Hl. by destruct (q p'); [|cbn in Hl; lia]. }
    pose proof (wake_calm e) as Hcalm. split_and!; [by rewrite wake_well_formed|by rewrite wake_exiting|by rewrite Hcalm|].
    intros t b E. by rewrite E in Hcalm.
Qed.

Lemma awake_step p c w p' c' i ths ths' :
  ths !! i = Some c -> Forall (pc_ok p) ths -> awake p ths -> effect p c w p' c' ->
  wakes w (<[i := c']> ths) ths' -> awake p' ths'.
Proof.
  intros Hi Hall Ha He Hw Hin.
  destruct He as [p' c' Hq Hcl Hok Hwait Hpop|p' t Hq Hlt Hcl Hcl' Hne|p' c' Hl Hcl Hok Hwt].
  - inversion Hw; subst. rewrite Hq. pose proof (count_insert is_pop ths i c c' Hi) as Hc.
    apply in_insert in Hin as [E|Hin]; [rewrite Hwait by done; cbn; lia|]. specialize (Ha Hin).
    destruct (is_pop c) eqn:Ep; [apply is_pop_spec in Ep; rewrite Hpop by done; cbn; lia|].
    destruct (is_pop c'); lia.
  - pose proof (count_insert is_pop ths i c (Done false) Hi) as Hc.
    destruct (is_pop c) eqn:Ep; [by apply is_pop_spec in Ep|]. cbn [is_pop] in Hc.
    inversion Hw as [| |l Hnone|l j d Hj Hd]; subst.
    { rewrite Forall_forall in Hnone. by specialize (Hnone _ Hin). }
    assert (d ∈ ths) as Hdin.
    { apply list_elem_of_lookup_2, in_insert in Hj as [->|]; [by cbn in Hd|done]. }
    assert (d = WWait) as ->.
    { rewrite Forall_forall in Hall. destruct (Hall _ Hdin) as (_ & _ & _ & H4).
      destruct d; try done. specialize (H4 _ _ eq_refl). lia. }
    pose proof (count_insert is_pop _ j WWait WPop Hj) as Hc2. cbn [is_pop] in Hc2.
    specialize (Ha Hdin). rewrite Hq, length_app. cbn [length wake]. lia.
  - inversion Hw; subst. by apply nobody_waits in Hin.
Qed.

Lemma wakes_count f w l l' : (forall c, f (wake c) = f c) -> wakes w l l' -> count f l' = count f l.
Proof.
  intros Hf [m|m|m _|m i d Hi _]; [done|by apply count_map|done|].
  pose proof (count_insert f m i d (wake d) Hi) as Hc. rewrite Hf in Hc. lia.
Qed.

Lemma wakes_forall (P : pc -> Prop) w l l' : (forall c, P c -> P (wake c)) -> wakes w l l' -> Forall P l -> Forall P l'.
Proof.
  intros Hf Hw Hl. apply Forall_forall. intros x Hx. rewrite Forall_forall in Hl.
  destruct (wakes_elem _ _ _ _ Hw Hx) as (d & Hd & [->| ->]); [by apply Hl|by apply Hf, Hl].
Qed.

Lemma event_ok_const p p' e : minBudget p' = minBudget p -> full p' = full p -> event_ok p e -> event_ok p' e.
Proof. unfold event_ok. by intros -> ->. Qed.

Lemma effect_pool p c w p' c' : pool_ok p -> depth p' = depth p -> effect p c w p' c' -> pool_ok p'.
Proof.
  intros [Hd Hl] E He. unfold pool_ok. rewrite E. split; [done|]. unfold len in *.
  destruct He as [? ? Hq _ _ _ _|? t Hq Hlt _ _ _|? ? Hle _ _ _]; [by rewrite Hq| |lia].
  rewrite Hq, length_app. unfold len in Hlt. cbn. lia.
Qed.

Lemma queued_fill p log l : Forall (event_ok p) log -> l `sublist_of` queued log -> Forall fill_in l.
Proof.
  intros Hlog Hl. apply Forall_forall. intros t Ht. eapply elem_of_sublist in Hl; [|exact Ht].
  apply list_elem_of_omap in Hl as (e & He & Hx). rewrite Forall_forall in Hlog. specialize (Hlog e He).
  destruct e; simplify_eq/=; done.
Qed.

Lemma inv_start workers d reserveMS minBudgetMS full :
  inv workers (start workers (New d reserveMS minBudgetMS full)).
Proof.
  assert (forall n, count is_worker (replicate n WPop) = n) as Hn.
  { induction n as [|n IH]; [done|]. unfold count in *. cbn. by rewrite IH. }
  assert (forall n, concat (map holds (replicate n WPop)) = []) as Hh by (by induction n).
  assert (forall c, c ∈ SIdle :: replicate workers WPop -> c = SIdle \/ c = WPop) as Hc.
  { intros c [->|[-> _]%elem_of_replicate]%elem_of_cons; auto. }
  split; cbn [pool threads submitted log start]; try done.
  - unfold pool_ok, New, len. cbn [q depth length]. destruct (Z.ltb_spec d 1); lia.
  - apply Forall_forall. intros c [->| ->]%Hc; by apply pc_ok_plain.
  - intros [|]%Hc; done.
  - unfold count. cbn. apply Hn.
  - cbn. by rewrite Hh.
  - apply Forall_forall. by intros c [->| ->]%Hc.
Qed.

Lemma run_inv workers s i c now1 now2 now3 tick p' c' w es ths :
  inv workers s -> threads s !! i = Some c ->
  run now1 now2 now3 tick (stopped s) (pool s) c = Some (p', c', w, es) ->
  wakes w (<[i := c']> (threads s)) ths ->
  inv workers (MkSys p' (stopped s) ths (submitted s) (log s ++ es)).
Proof.
  intros [Hp Ht Ha Hw Htasks Hfifo Hfill Hlog] Hi Hr Hwk.
  destruct (run_const _ _ _ _ _ _ _ _ _ _ _ Hr) as (Hd & Hm & Hf).
  assert (pc_ok (pool s) c) as Hok by (by eapply Forall_lookup_1).
  pose proof (run_effect _ _ _ _ _ _ _ _ _ _ _ Hp Hok Hr) as He.
  assert (Forall fill_in (q (pool s))) as Hq.
  { eapply queued_fill; [exact Hlog|]. etrans; [|exact Hfifo]. by apply sublist_inserts_l. }
  assert (pc_fill (full (pool s)) c) as Hc by (by eapply Forall_lookup_1 in Hfill).
  destruct (run_events _ _ _ _ _ _ _ _ _ _ _ Hp Hq Hc Hr) as [Hfc Hes].
  split; cbn [pool threads submitted log].
  - by eapply effect_pool.
  - by eapply others_ok.
  - by eapply awake_step.
  - rewrite (wakes_count _ _ _ _ wake_worker Hwk). pose proof (count_insert is_worker _ i c c' Hi) as Hx.
    rewrite (run_worker _ _ _ _ _ _ _ _ _ _ _ Hr) in Hx. lia.
  - destruct (concat_at holds _ _ _ Hi) as (rest & H1 & H2). rewrite (wakes_map _ _ _ _ holds_wake Hwk).
    etrans; [exact Htasks|]. rewrite H1, H2. unfold called. rewrite omap_app, <- app_assoc. fold (called (log s)) (called es).
    pose proof (run_tasks _ _ _ _ _ _ _ _ _ _ _ Hr) as Hx.
    rewrite (app_assoc (q (pool s))), Hx, <- !app_assoc. done.
  - unfold popped, queued. rewrite !omap_app, <- app_assoc. fold (popped (log s)) (popped es) (queued (log s)) (queued es).
    etrans; [apply sublist_app; [reflexivity|by eapply run_fifo]|]. rewrite app_assoc. by apply sublist_app.
  - rewrite Hf. eapply wakes_forall; [|exact Hwk|by apply Forall_insert]. intros x. by rewrite wake_fill.
  - apply Forall_app_2; (eapply Forall_impl; [eassumption|]); intros e; by apply event_ok_const.
Qed.

Lemma timeout_facts c c' :
  timeout c = Some c' -> well_formed c = true ->
  well_formed c' = true /\ exiting c' = false /\ is_worker c' = is_worker c /\ is_pop c = false
  /\ holds c' = holds c /\ forall f, pc_fill f c -> pc_fill f c'.
Proof.
  destruct c as [| | |t b|t b| | |dead k| | | | | | |]; cbn [timeout]; try done; [by intros [= <-]..|].
  destruct k; cbn [timeout well_formed calm]; try done. by intros [= <-] _.
Qed.

Lemma inv_timer workers s i c c' :
  inv workers s -> threads s !! i = Some c -> timeout c = Some c' ->
  inv workers (MkSys (pool s) (stopped s) (map wake (<[i := c']> (threads s))) (submitted s) (log s)).
Proof.
  intros [Hp Ht Ha Hw Htasks Hfifo Hfill Hlog] Hi Hto.
  destruct (Forall_lookup_1 _ _ _ _ Ht Hi) as (Hwf & _).
  destruct (timeout_facts _ _ Hto Hwf) as (H1 & H2 & H3 & H4 & H5 & H6).
  split; cbn [pool threads submitted log]; try done.
  - apply Forall_forall. intros x (d & -> & Hd)%list_elem_of_fmap. rewrite Forall_forall in Ht.
    pose proof (wake_calm d) as Hcalm.
    assert (well_formed d = true /\ (exiting d = true -> closed (pool s) = true /\ q (pool s) = [])) as [Hd1 Hd2].
    { apply in_insert in Hd as [->|Hd]; [by rewrite H2|]. by destruct (Ht _ Hd) as (? & ? & _). }
    split_and!; [by rewrite wake_well_formed|by rewrite wake_exiting|by rewrite Hcalm|].
    intros t b E. by rewrite E in Hcalm.
  - intros Hin. by apply nobody_waits in Hin.
  - rewrite (count_map _ _ wake_worker). pose proof (count_insert is_worker _ i c c' Hi) as Hx. rewrite H3 in Hx. lia.
  - rewrite (wakes_map holds Broadcast _ _ holds_wake (wakes_all _)).
    destruct (concat_at holds _ _ _ Hi) as (rest & E1 & E2). by rewrite E2, H5, <- E1.
  - apply Forall_fmap, Forall_insert; [|unfold compose; rewrite wake_fill; apply H6; by eapply Forall_lookup_1 in Hfill].
    eapply Forall_impl; [exact Hfill|]. intros x. unfold compose. by rewrite wake_fill.
Qed.

Lemma inv_spawn workers s c submitted' st :
  inv workers s -> well_formed c = true -> exiting c = false -> waiting c = false -> is_worker c = false ->
  (forall f, pc_fill f c) -> submitted' = submitted s ++ holds c ->
  inv workers (MkSys (pool s) st (threads s ++ [c]) submitted' (log s)).
Proof.
  intros [Hp Ht Ha Hw Htasks Hfifo Hfill Hlog] H1 H2 H3 H4 H5 ->.
  split; cbn [pool threads submitted log]; try done.
  - apply Forall_app_2; [done|]. by apply Forall_singleton, pc_ok_plain.
  - intros [Hin|Hin%list_elem_of_singleton]%elem_of_app; [|by rewrite <- Hin in H3].
    specialize (Ha Hin). unfold count in *. rewrite List.filter_app, length_app. lia.
  - unfold count in *. rewrite List.filter_app, length_app. cbn. rewrite H4. cbn. lia.
  - rewrite map_app, concat_app. cbn [map concat]. rewrite app_nil_r, Htasks, <- !app_assoc. done.
  - apply Forall_app_2; [done|]. by apply Forall_singleton.
Qed.

Lemma inv_reachable workers d reserveMS minBudgetMS full s :
  reachable workers (New d reserveMS minBudgetMS full) s -> inv workers s.
Proof.
  intros Hr. eapply (rtc_ind_r (inv workers)); [by apply inv_start| |exact Hr].
  intros s1 s2 _ Hs Hinv. destruct Hs.
  - by apply inv_spawn.
  - apply inv_spawn; try done. by rewrite app_nil_r.
  - by eapply run_inv.
  - by eapply inv_timer.
Qed.

(** ** Closing the pool ends the program *)

(** What is left to do in a closed pool, where nobody waits and nothing is
    queued any more. *)
Fixpoint weight (c : pc) : nat :=
  match c with
  | PSubmit _ => 6
  | PCollect _ => 5
  | PLock _ | PLoop _ _ | PShed _ => 2
  | PExpire _ _ => 1
  | PReply dead k => 1 + 2 * length dead + weight k
  | WPop => 1
  | WRun _ => 2
  | SIdle | CLock => 1
  | PWait _ _ | WWait | CWait | Done _ => 0
  end.
Definition measure (s : sys) : nat :=
  4 * length (q (pool s)) + foldr (fun c n => weight c + n)%nat 0%nat (threads s).

Lemma sum_insert (l : list pc) i a b :
  l !! i = Some a ->
  (foldr (fun c n => weight c + n) 0 (<[i := b]> l) + weight a = foldr (fun c n => weight c + n) 0 l + weight b)%nat.
Proof.
  revert i. induction l as [|x l IH]; intros [|i] Hi; try done; cbn [lookup list_lookup] in Hi.
  - injection Hi as ->. cbn. lia.
  - change (<[S i := b]> (x :: l)) with (x :: <[i := b]> l). specialize (IH i Hi). cbn. lia.
Qed.

Lemma weight_reply dead k : (weight (reply_dead dead k) <= 1 + 2 * length dead + weight k)%nat
  /\ (dead = [] -> weight (reply_dead dead k) = weight k).
Proof. destruct dead; cbn [reply_dead weight length]; split; intros; try done; lia. Qed.

(** In a closed pool every section of every thread makes progress, whatever
    the clocks say, ticks of the sweeper apart. *)
Lemma run_progress now1 now2 now3 p c p' c' w es :
  closed p = true -> waiting c = false -> run now1 now2 now3 false true p c = Some (p', c', w, es) ->
  closed p' = true /\ (4 * length (q p') + weight c' < 4 * length (q p) + weight c)%nat.
Proof.
  intros Hcl Hwt.
  assert (forall now p1 dead, takeExpiredLocked p now = (p1, dead) ->
    closed p1 = true /\ (length (q p1) + length dead = length (q p))%nat) as Ht.
  { intros now p1 dead E. pose proof (take_len p now) as Hl. rewrite E in Hl. cbn [fst snd] in Hl.
    destruct (take_shape _ _ _ _ E) as (Hc & _ & _). by rewrite Hc. }
  destruct c as [t|t|t|t b|t b|t bu|t|[|d dead] k| | |t| | | |]; cbn [run]; try done.
  - intros [= <- <- <- <-]. split; [done|]. unfold submit_begin. destruct (_ <? _); cbn; lia.
  - intros E%(inj Some). unfold collect in E. destruct (takeExpiredLocked p now1) as [p1 dead] eqn:Et.
    destruct (Ht _ _ _ Et) as [H1 H2]. injection E as <- <- _ _. split; [done|].
    destruct (weight_reply dead (PLock t)) as [Hle He]. cbn [weight] in *. lia.
  - unfold submit_lock. rewrite Hcl. intros [= <- <- _ _]. split; [done|cbn; lia].
  - unfold submit_loop. rewrite Hcl, andb_false_r. intros [= <- <- _ _]. split; [done|cbn; lia].
  - intros [= <- <- _ _]. split; [done|cbn; lia].
  - intros [= <- <- _ _]. split; [done|cbn; lia].
  - intros [= <- <- _ _]. split; [done|cbn; lia].
  - intros [= <- <- _ _]. split; [done|]. destruct (weight_reply dead k). cbn in *. lia.
  - intros E%(inj Some). unfold pop in E. destruct (takeExpiredLocked p now1) as [p1 dead] eqn:Et.
    destruct (Ht _ _ _ Et) as [H1 H2]. destruct (q p1) as [|t rest] eqn:Eq.
    + rewrite H1 in E. injection E as <- <- _ _. split; [done|]. rewrite Eq.
      destruct (weight_reply dead (Done true)) as [Hle He], dead; cbn [weight reply_dead length] in *; lia.
    + injection E as <- <- _ _. split; [done|]. destruct (weight_reply dead (WRun t)). cbn [weight length q with_q] in *. lia.
  - intros E%(inj Some). unfold work_task in E. destruct (_ <? _); injection E as <- <- _ _; (split; [done|cbn; lia]).
  - intros [= <- <- _ _]. split; [done|cbn; lia].
  - intros [= <- <- _ _]. split; [done|cbn; lia].
Qed.

(** A step of the threads that are there: no new request, no timer, no tick. *)
Inductive work_step : sys -> sys -> Prop :=
| work_run s i c now1 now2 now3 p' c' w es ths :
    threads s !! i = Some c ->
    run now1 now2 now3 false (stopped s) (pool s) c = Some (p', c', w, es) ->
    wakes w (<[i := c']> (threads s)) ths ->
    work_step s (MkSys p' (stopped s) ths (submitted s) (log s ++ es)).

Definition finished (c : pc) : bool := match c with CWait | Done _ => true | _ => false end.

Definition closing (workers : nat) (s : sys) : Prop :=
  inv workers s /\ closed (pool s) = true /\ stopped s = true.

Lemma nobody_woken l : Forall (fun c => waiting c = false) l -> map wake l = l.
Proof. induction 1 as [|c l Hc _ IH]; [done|]. cbn. rewrite IH. by destruct c. Qed.

Lemma work_closing workers s s' :
  closing workers s -> work_step s s' ->
  closing workers s' /\ (measure s' < measure s)%nat /\ submitted s' = submitted s.
Proof.
  intros (Hinv & Hcl & Hst) Hs. destruct Hs as [s i c now1 now2 now3 p' c' w es ths Hi Hr Hwk].
  assert (Forall (fun c => waiting c = false) (threads s)) as Hnw.
  { eapply Forall_impl; [exact (inv_threads _ _ Hinv)|]. intros x (_ & _ & Hx & _).
    destruct (waiting x); [|done]. rewrite Hx in Hcl; done. }
  pose proof Hr as Hr'. rewrite Hst in Hr'.
  destruct (run_progress _ _ _ _ _ _ _ _ _ Hcl (Forall_lookup_1 _ _ _ _ Hnw Hi) Hr') as [Hcl' Hlt].
  pose proof (run_inv _ _ _ _ _ _ _ _ _ _ _ _ _ Hinv Hi Hr Hwk) as Hinv'.
  split; [done|]. split; [|done]. unfold measure. cbn [pool threads].
  assert (ths = <[i := c']> (threads s)) as ->.
  { assert (waiting c' = false) as Hc'.
    { pose proof (run_effect _ _ _ _ _ _ _ _ _ _ _ (inv_pool _ _ Hinv) (Forall_lookup_1 _ _ _ _ (inv_threads _ _ Hinv) Hi) Hr) as He.
      destruct He as [? x _ _ (_ & _ & Hx & _) _ _|? ? _ _ Hx _ _|? ? _ _ _ Hx]; [|congruence|done].
      destruct (waiting x); [|done]. rewrite Hx in Hcl'; done. }
    pose proof (Forall_insert _ _ i c' Hnw Hc') as Hall. clear Hinv'. revert Hall.
    destruct Hwk as [l|l|l _|l j d Hj Hd]; intros Hall; [done|by apply nobody_woken|done|].
    pose proof (Forall_lookup_1 _ _ _ _ Hall Hj) as Hx. cbn in Hx. congruence. }
  pose proof (sum_insert _ _ _ c' Hi). lia.
Qed.

Lemma work_stuck workers s :
  closing workers s -> (forall s', ~ work_step s s') -> forallb finished (threads s) = true.
Proof.
  intros (Hinv & Hcl & Hst) Hno. apply forallb_forall. intros c Hc. apply list_elem_of_In in Hc.
  pose proof (inv_threads _ _ Hinv) as Ht. rewrite Forall_forall in Ht. destruct (Ht c Hc) as (_ & _ & Hw & _).
  apply list_elem_of_lookup in Hc as (i & Hi). destruct (finished c) eqn:Ef; [done|]. exfalso.
  assert (exists r, run 0 0 0 false true (pool s) c = Some r) as ([[[p' c'] w] es] & Hr).
  { destruct c as [t|t|t|t b|t b|t bu|t|[|d dead] k| | |t| | | |]; cbn [run] in *; eauto; try done.
    - rewrite Hw in Hcl; done.
    - rewrite Hw in Hcl; done. }
  rewrite <- Hst in Hr.
  assert (exists ths, wakes w (<[i := c']> (threads s)) ths) as (ths & Hwk).
  { destruct w.
    - eexists. constructor.
    - destruct (List.filter waiting (<[i := c']> (threads s))) as [|d l] eqn:E.
      + exists (<[i := c']> (threads s)). constructor. apply Forall_forall. intros x Hx.
        apply not_true_is_false. intros Hx'. apply (in_nil (A := pc) (a := x)). rewrite <- E.
        apply filter_In. by rewrite <- list_elem_of_In.
      + assert (d ∈ <[i := c']> (threads s) /\ waiting d = true) as [Hin Hd].
        { rewrite list_elem_of_In. apply filter_In. rewrite E. by left. }
        apply list_elem_of_lookup in Hin as (j & Hj). eexists. by eapply wakes_one.
    - eexists. constructor. }
  eapply Hno. by eapply work_run.
Qed.

Lemma rtc_closing workers s s' :
  rtc work_step s s' -> closing workers s -> closing workers s' /\ submitted s' = submitted s.
Proof.
  induction 1 as [s|s1 s2 s3 H1 _ IH]; [done|]. intros Hc.
  destruct (work_closing _ _ _ Hc H1) as (Hc2 & _ & E). destruct (IH Hc2) as [? E2]. by rewrite E2.
Qed.

Lemma closing_terminates workers s : closing workers s -> Acc (flip work_step) s.
Proof.
  intros Hc. remember (measure s) as n eqn:En. revert s Hc En.
  induction n as [n IH] using lt_wf_ind. intros s Hc ->. constructor. intros s' Hs. unfold flip in Hs.
  destruct (work_closing _ _ _ Hc Hs) as (Hc' & Hlt & _). by eapply IH.
Qed.

Lemma finished_empty workers s :
  inv workers s -> forallb finished (threads s) = true ->
  concat (map holds (threads s)) = [] /\ ((0 < workers)%nat -> q (pool s) = []).
Proof.
  intros Hinv Hf. split.
  - clear Hinv. induction (threads s) as [|c l IH]; [done|]. cbn in *. apply andb_true_iff in Hf as [Hc Hl].
    rewrite IH by done. by destruct c.
  - intros Hw. rewrite <- (inv_workers _ _ Hinv) in Hw. unfold count in Hw.
    destruct (List.filter is_worker (threads s)) as [|c l] eqn:E; [cbn in Hw; lia|].
    assert (List.In c (threads s) /\ is_worker c = true) as [Hin Hwk] by (apply filter_In; rewrite E; by left).
    rewrite forallb_forall in Hf. specialize (Hf c Hin). pose proof (inv_threads _ _ Hinv) as Ht.
    rewrite Forall_forall in Ht. apply list_elem_of_In in Hin. destruct (Ht c Hin) as (_ & Hex & _).
    apply Hex. destruct c as [| | | | | | | | | | | | | |[]]; done.
Qed.

Lemma find_worker l :
  (0 < count is_worker l)%nat -> WWait ∉ l \/ (0 < count is_pop l)%nat ->
  (forall c, c ∈ l -> exiting c = false) ->
  exists i c, l !! i = Some c /\ is_worker c = true /\ waiting c = false /\ finished c = false.
Proof.
  intros Hw Hor Hex. unfold count in *.
  assert (forall f : pc -> bool, (0 < length (List.filter f l))%nat -> exists c, c ∈ l /\ f c = true) as Hin.
  { intros f Hf. destruct (List.filter f l) as [|c l'] eqn:E; [cbn in Hf; lia|]. exists c.
    rewrite list_elem_of_In. apply filter_In. rewrite E. by left. }
  destruct Hor as [Hno|Hp].
  - destruct (Hin _ Hw) as (c & Hc & Hwk). pose proof (Hex _ Hc) as He.
    destruct (list_elem_of_lookup_1 _ _ Hc) as (i & Hi). exists i, c. split_and!; [done|done| |].
    + destruct c; try done.
    + destruct c as [| | | | | | | | | | | | | |[]]; done.
  - destruct (Hin _ Hp) as (c & Hc & ->%is_pop_spec). destruct (list_elem_of_lookup_1 _ _ Hc) as (i & Hi).
    by exists i, WPop.
Qed.

(** ** Running a schedule *)

(** What the environment or the scheduler does next: [pick] is the thread
    that a [Signal] wakes. *)
Inductive choice : Type :=
| ASubmit (t : Task)
| AClose
| ARun (i : nat) (now : Z) (tick : bool) (pick : nat).

Definition wake_list (w : wakeup) (pick : nat) (l : list pc) : option (list pc) :=
  match w with
  | NoWake => Some l
  | Broadcast => Some (map wake l)
  | Signal =>
      match l !! pick with
      | Some d => if waiting d then Some (<[pick := wake d]> l)
                  else if existsb waiting l then None else Some l
      | None => if existsb waiting l then None else Some l
      end
  end.
Definition exec1 (s : sys) (a : choice) : option sys :=
  match a with
  | ASubmit t => Some (MkSys (pool s) (stopped s) (threads s ++ [PSubmit t]) (submitted s ++ [t]) (log s))
  | AClose => if stopped s then None
              else Some (MkSys (pool s) true (threads s ++ [CLock]) (submitted s) (log s))
  | ARun i now tick pick =>
      c ← threads s !! i;
      '(p', c', w, es) ← run now now now tick (stopped s) (pool s) c;
      ths ← wake_list w pick (<[i := c']> (threads s));
      Some (MkSys p' (stopped s) ths (submitted s) (log s ++ es))
  end.
Fixpoint exec (s : sys) (l : list choice) : option sys :=
  match l with
  | [] => Some s
  | a :: l => match exec1 s a with Some s' => exec s' l | None => None end
  end.

Lemma wake_list_sound w pick l l' : wake_list w pick l = Some l' -> wakes w l l'.
Proof.
  assert (existsb waiting l = false -> wakes Signal l l) as Hno.
  { intros Hf. constructor. apply Forall_forall. intros c Hc. apply not_true_is_false. intros Hw.
    apply not_true_iff_false in Hf. apply Hf, existsb_exists. exists c. by rewrite <- list_elem_of_In. }
  destruct w; cbn [wake_list]; [by intros [= ->]; constructor| |by intros [= <-]; constructor].
  destruct (l !! pick) as [d|] eqn:Ed; [destruct (waiting d) eqn:Ew|].
  - intros [= <-]. by eapply wakes_one.
  - destruct (existsb waiting l); [done|]. intros [= <-]. by apply Hno.
  - destruct (existsb waiting l); [done|]. intros [= <-]. by apply Hno.
Qed.

Lemma exec_sound : forall l s s', exec s l = Some s' -> rtc step s s'.
Proof.
  induction l as [|a l IH]; intros s s' E; cbn [exec] in E; [by injection E as <-|].
  destruct (exec1 s a) as [s1|] eqn:Ea; [|done]. eapply rtc_l; [|by apply IH].
  destruct a as [t| |i now tick pick]; cbn [exec1] in Ea.
  - injection Ea as <-. constructor.
  - destruct (stopped s) eqn:Es; [done|]. injection Ea as <-. by constructor.
  - apply bind_Some in Ea as (c & Hc & Ea). apply bind_Some in Ea as ([[[p' c'] w] es] & Hr & Ea).
    apply bind_Some in Ea as (ths & Hw & [= <-]). eapply step_run; [done|done|]. by eapply wake_list_sound.
Qed.

(** ** Properties *)

(** C8: No request is lost and none is answered twice. At every moment of
    every run, with any number of submitters, workers and waiters, each
    submitted task is in exactly one place: already given to the handler,
    in the queue, or in the hands of one thread. *)
Theorem handled_once workers d reserveMS minBudgetMS full s :
  reachable workers (New d reserveMS minBudgetMS full) s ->
  map message (submitted s)
  ≡ₚ map message (called (log s)) ++ map message (q (pool s)) ++ map message (concat (map holds (threads s))).
Proof.
  intros Hr. pose proof (inv_tasks _ _ (inv_reachable _ _ _ _ _ _ Hr)) as Ht. unfold same_messages in Ht.
  by rewrite !map_app in Ht.
Qed.

(** C11: No wake-up is lost. Whenever a task is queued some worker can run
    without being signalled again, although one [Signal] wakes one thread and
    submitters wait on the same condition; a submitter waits only while the
    queue is full; and once the pool is closed nobody waits at all. *)
Theorem no_lost_wakeup workers d reserveMS minBudgetMS full s :
  reachable workers (New d reserveMS minBudgetMS full) s -> (0 < workers)%nat ->
  (q (pool s) <> [] ->
     exists i c, threads s !! i = Some c /\ is_worker c = true
       /\ forall now1 now2 now3 tick, is_Some (run now1 now2 now3 tick (stopped s) (pool s) c))
  /\ (forall t b, PWait t b ∈ threads s -> len (pool s) = depth (pool s))
  /\ (closed (pool s) = true -> forall c, c ∈ threads s -> waiting c = false).
Proof.
  intros Hr Hw. pose proof (inv_reachable _ _ _ _ _ _ Hr) as Hinv.
  pose proof (inv_threads _ _ Hinv) as Ht. rewrite Forall_forall in Ht. split_and!.
  - intros Hq. destruct (find_worker (threads s)) as (i & c & Hi & Hwk & Hwt & Hf).
    + by rewrite (inv_workers _ _ Hinv).
    + destruct (decide (0 < count is_pop (threads s))%nat) as [|Hn]; [by right|]. left. intros Hin.
      pose proof (inv_awake _ _ Hinv Hin). destruct (q (pool s)); [done|]. cbn in *. lia.
    + intros c Hc. destruct (Ht c Hc) as (_ & Hex & _). apply not_true_is_false. intros He. by destruct (Hex He).
    + exists i, c. split_and!; [done|done|]. intros. destruct c as [| | | | | | |[|]| | | | | | |]; cbn [run]; eauto; done.
  - intros t b Hin. destruct (Ht _ Hin) as (_ & _ & _ & H4). pose proof (inv_pool _ _ Hinv) as [_ Hle].
    specialize (H4 t b eq_refl). lia.
  - intros Hcl c Hc. destruct (Ht _ Hc) as (_ & _ & H3 & _). apply not_true_is_false. intros He.
    specialize (H3 He). congruence.
Qed.


(** C20: Closing the pool ends it. Once it is closed the threads that are
    left cannot run for ever, in whatever order they run and whatever the
    clocks say (the sweeper's last ticks and new calls apart), and where they
    stop every one of them has returned, the queue is empty and every task
    that was ever submitted has been given to the handler exactly once. *)
Theorem close_terminates workers d reserveMS minBudgetMS full s :
  reachable workers (New d reserveMS minBudgetMS full) s -> (0 < workers)%nat ->
  stopped s = true -> closed (pool s) = true ->
  Acc (flip work_step) s
  /\ forall s', rtc work_step s s' -> (forall s2, ~ work_step s' s2) ->
       forallb finished (threads s') = true /\ q (pool s') = []
       /\ map message (submitted s) ≡ₚ map message (called (log s')).
Proof.
  intros Hr Hw Hst Hcl. assert (closing workers s) as Hc by (split; [by eapply inv_reachable|done]).
  split; [by eapply closing_terminates|]. intros s' Hs Hno. destruct (rtc_closing _ _ _ Hs Hc) as [Hc' Hsub].
  pose proof (work_stuck _ _ Hc' Hno) as Hf. destruct Hc' as (Hinv & _ & _).
  destruct (finished_empty _ _ Hinv Hf) as [Hh Hq]. specialize (Hq Hw). split_and!; [done|done|].
  pose proof (inv_tasks _ _ Hinv) as Ht. by rewrite Hh, Hq, !app_nil_r, Hsub in Ht.
Qed.

(** ** A run: one place, one worker, two requests, and the end *)

Definition ex_task (reply : string) : Task := MkTask Protocol.example_request reply 0 0.
Definition ex_pool : Pool := New 1 0 0 FullWait.
(** The worker finds nothing and waits; the first request is queued, which
    wakes it; the second finds the queue full and waits; the worker takes the
    first, which wakes the submitter, and answers. *)
Definition ex_schedule : list choice :=
  [ARun 1 0 false 0; ASubmit (ex_task "a"); ARun 2 0 false 0; ARun 2 0 false 0; ARun 2 0 false 1;
   ASubmit (ex_task "b"); ARun 3 0 false 0; ARun 3 0 false 0; ARun 3 0 false 0].
Definition ex_end : list choice :=
  [ARun 1 0 false 0; ARun 1 0 false 0; ARun 3 0 false 0; AClose; ARun 4 0 false 0].
Definition ex_state (l : list choice) : sys := default (start 1 ex_pool) (exec (start 1 ex_pool) l).

Definition is_some {A} (o : option A) : bool := match o with Some _ => true | None => false end.
Lemma ex_reachable l : is_some (exec (start 1 ex_pool) l) = true -> reachable 1 ex_pool (ex_state l).
Proof.
  unfold ex_state. destruct (exec (start 1 ex_pool) l) as [s|] eqn:E; [|done]. intros _. by eapply exec_sound.
Qed.

Lemma handled_once_witness :
  length (submitted (ex_state ex_schedule)) = 2%nat
  /\ map message (submitted (ex_state ex_schedule))
     ≡ₚ map message (called (log (ex_state ex_schedule))) ++ map message (q (pool (ex_state ex_schedule)))
        ++ map message (concat (map holds (threads (ex_state ex_schedule)))).
Proof.
  split; [vm_compute; reflexivity|].
  apply (handled_once 1 1 0 0 FullWait), ex_reachable. vm_compute. reflexivity.
Defined.

Lemma no_lost_wakeup_witness :
  length (q (pool (ex_state ex_schedule))) = 1%nat
  /\ exists i c, threads (ex_state ex_schedule) !! i = Some c /\ is_worker c = true.
Proof.
  assert (length (q (pool (ex_state ex_schedule))) = 1%nat) as Hl by (vm_compute; reflexivity).
  split; [exact Hl|].
  destruct (no_lost_wakeup 1 1 0 0 FullWait (ex_state ex_schedule)) as [Hx _].
  - apply ex_reachable. vm_compute. reflexivity.
  - apply Nat.lt_0_1.
  - destruct Hx as (i & c & Hi & Hc & _); [|exists i, c; by split].
    intros E. rewrite E in Hl. discriminate Hl.
Defined.


Lemma close_terminates_witness :
  length (q (pool (ex_state (ex_schedule ++ ex_end)))) = 1%nat /\ Acc (flip work_step) (ex_state (ex_schedule ++ ex_end)).
Proof.
  split; [vm_compute; reflexivity|]. apply (close_terminates 1 1 0 0 FullWait).
  - apply ex_reachable. vm_compute. reflexivity.
  - apply Nat.lt_0_1.
  - vm_compute. reflexivity.
  - vm_compute. reflexivity.
Defined.

End Queue.
