(* ===== verification/Tree.v ===== *)
(** * A file tree that is written

    The calls of [os] that change files, on a tree of [Files.node]s below one
    root: [MkdirAll], [WriteFile], [RemoveAll], [Rename]. A path is cleaned
    as [filepath.Join] and [filepath.Clean] do, then walked component by
    component; ["/"] and the working directory are both the root. [World]
    adds the clock and the faults of the system: any call may fail, and leave
    what it was working on in any state. *)

From S2P Require Import Prelude GoStrings Files Protocol.

#[local] Open Scope Z_scope.

Module Tree.
Import Files.

(** ** Paths *)

Fixpoint split_path (s : string) : list string :=
  match s with
  | EmptyString => [""]
  | String c s =>
      if Ascii.eqb c "/" then "" :: split_path s
      else match split_path s with
           | [] => [String c ""]
           | w :: ws => String c w :: ws
           end
  end.
(** [filepath.Clean], the components in reverse. *)
Definition clean_step (acc : list string) (c : string) : list string :=
  if String.eqb c "" || String.eqb c "." then acc
  else if String.eqb c ".." then tail acc
  else c :: acc.
Definition comps (path : string) : list string := rev (fold_left clean_step (split_path path) []).

(** ** Entries of a directory, in the order of their names *)

Definition entries : Type := list (string * node).
Fixpoint assoc (c : string) (es : entries) : option node :=
  match es with
  | [] => None
  | (k, m) :: es => if String.eqb c k then Some m else assoc c es
  end.
Fixpoint put (c : string) (n : node) (es : entries) : entries :=
  match es with
  | [] => [(c, n)]
  | (k, m) :: rest =>
      if String.eqb c k then (c, n) :: rest
      else if string_less c k then (c, n) :: es
      else (k, m) :: put c n rest
  end.
Fixpoint drop_entry (c : string) (es : entries) : entries :=
  match es with
  | [] => []
  | (k, m) :: es => if String.eqb c k then drop_entry c es else (k, m) :: drop_entry c es
  end.
Definition set_entry (c : string) (o : option node) (es : entries) : entries :=
  match o with Some n => put c n es | None => drop_entry c es end.

(** ** Nodes *)

Fixpoint find (n : node) (p : list string) : option node :=
  match p with
  | [] => Some n
  | c :: p =>
      match n with
      | Dir (Some es) => match assoc c es with Some m => find m p | None => None end
      | _ => None
      end
  end.
Definition disk_of (root : node) : disk := fun path => find root (comps path).

Definition notDir (path : list string) : error := Errorf "not a directory" path.
Definition isDir (path : list string) : error := Errorf "is a directory" path.
Definition notEmpty (path : list string) : error := Errorf "directory not empty" path.
Definition missing (path : list string) : error := Errorf "file does not exist" path.

(** Changes the entry at a path whose parent is a directory. *)
Fixpoint update (f : option node -> result error (option node)) (p : list string) (n : node)
  : result error node :=
  match p, n with
  | [c], Dir (Some es) => let* r := f (assoc c es) in Ok (Dir (Some (set_entry c r es)))
  | c :: p, Dir (Some es) =>
      match assoc c es with
      | None => Err (missing p)
      | Some m => let* m := update f p m in Ok (Dir (Some (put c m es)))
      end
  | _, _ => Err (notDir p)
  end.

Fixpoint mkdir_all (p : list string) (n : node) : result error node :=
  match p, n with
  | [], File _ => Err (notDir [])
  | [], Dir _ => Ok n
  | c :: p, Dir (Some es) =>
      let* m := mkdir_all p (default (Dir (Some [])) (assoc c es)) in Ok (Dir (Some (put c m es)))
  | _, _ => Err (notDir p)
  end.
Definition write_file (content : string) (now : Z) (p : list string) (n : node) : result error node :=
  update (fun o => match o with
    | Some (Dir _) => Err (isDir p)
    | _ => Ok (Some (File (MkFile (Some content) (Z.of_nat (String.length content)) now)))
    end) p n.
Definition remove_all (p : list string) (n : node) : result error node :=
  match find n p with
  | None => Ok n
  | Some _ => update (fun _ => Ok None) p n
  end.
(** [rename(2)]: a directory may replace an empty one, a file a file. *)
Definition replaces (m : node) (target : option node) (p : list string) : result error unit :=
  match target, m with
  | None, _ => Ok tt
  | Some (File _), File _ => Ok tt
  | Some (File _), Dir _ => Err (notDir p)
  | Some (Dir _), File _ => Err (isDir p)
  | Some (Dir (Some [])), Dir _ => Ok tt
  | Some (Dir _), Dir _ => Err (notEmpty p)
  end.
Definition rename (a b : list string) (n : node) : result error node :=
  match find n a with
  | None => Err (missing a)
  | Some m =>
      check replaces m (find n b) b;;
      let* n := update (fun _ => Ok None) a n in
      update (fun _ => Ok (Some m)) b n
  end.

(** ** Lemmas *)

Lemma assoc_put_eq c n es : assoc c (put c n es) = Some n.
Proof.
  induction es as [|[k m] es IH]; cbn [put assoc]; [by rewrite String.eqb_refl|].
  destruct (String.eqb_spec c k) as [->|Hne]; cbn [assoc]; [by rewrite String.eqb_refl|].
  destruct (string_less c k); cbn [assoc]; [by rewrite String.eqb_refl|].
  by rewrite (proj2 (String.eqb_neq _ _) Hne).
Qed.

Lemma assoc_put_ne c d n es : d <> c -> assoc d (put c n es) = assoc d es.
Proof.
  intros Hd. induction es as [|[k m] es IH]; cbn [put assoc].
  { by rewrite (proj2 (String.eqb_neq _ _) Hd). }
  destruct (String.eqb_spec c k) as [->|Hne]; cbn [assoc].
  { by rewrite (proj2 (String.eqb_neq _ _) Hd). }
  destruct (string_less c k); cbn [assoc]; [by rewrite (proj2 (String.eqb_neq _ _) Hd)|].
  by rewrite IH.
Qed.

Lemma assoc_drop_eq c es : assoc c (drop_entry c es) = None.
Proof.
  induction es as [|[k m] es IH]; [done|]. cbn [drop_entry].
  destruct (String.eqb c k) eqn:E; [done|]. cbn [assoc]. by rewrite E.
Qed.

Lemma assoc_drop_ne c d es : d <> c -> assoc d (drop_entry c es) = assoc d es.
Proof.
  intros Hd. induction es as [|[k m] es IH]; [done|]. cbn [drop_entry assoc].
  destruct (String.eqb_spec c k) as [->|Hne]; cbn [assoc]; [|by rewrite IH].
  by rewrite IH, (proj2 (String.eqb_neq _ _) Hd).
Qed.

Lemma assoc_set_eq c o es : assoc c (set_entry c o es) = o.
Proof. destruct o; [apply assoc_put_eq|apply assoc_drop_eq]. Qed.
Lemma assoc_set_ne c d o es : d <> c -> assoc d (set_entry c o es) = assoc d es.
Proof. destruct o; [apply assoc_put_ne|apply assoc_drop_ne]. Qed.

#[local] Hint Rewrite assoc_put_eq assoc_drop_eq assoc_set_eq : go.

Lemma find_app n p q :
  find n (p ++ q) = match find n p with Some m => find m q | None => None end.
Proof.
  revert n. induction p as [|c p IH]; intros n; [done|]. cbn [app find].
  destruct n as [f|[es|]]; [done| |done]. destruct (assoc c es); [apply IH|done].
Qed.

(** Neither path is above or below the other. *)
Fixpoint apart (p q : list string) : Prop :=
  match p, q with
  | c :: p, d :: q => c <> d \/ apart p q
  | _, _ => False
  end.

Lemma apart_sym p q : apart p q -> apart q p.
Proof. revert q. induction p as [|c p IH]; intros [|d q]; cbn; naive_solver. Qed.
Lemma apart_app p a b : a <> b -> forall q r, apart (p ++ a :: q) (p ++ b :: r).
Proof. intros Hab q r. induction p as [|c p IH]; cbn; [by left|by right]. Qed.
Lemma apart_below p q r s : apart p q -> apart (p ++ r) (q ++ s).
Proof. revert q. induction p as [|c p IH]; intros [|d q]; cbn; naive_solver. Qed.

(** [update] works on what stands at the path, and leaves the rest alone. *)
Lemma update_spec f p n n' : update f p n = Ok n' ->
  (exists r, f (find n p) = Ok r /\ find n' p = r) /\ (forall q, apart p q -> find n' q = find n q).
Proof.
  revert n n'. induction p as [|c p IH]; intros n n'; [by destruct n as [|[|]]|].
  destruct n as [f0|[es|]]; [by destruct p| |by destruct p].
  destruct p as [|d p].
  - cbn [update find]. intros (r & Hr & H)%result_bind_ok. injection H as <-. split.
    + exists r. cbn [find]. rewrite assoc_set_eq. split; [|by destruct r].
      by destruct (assoc c es).
    + intros [|e q]; [done|]. cbn [apart find]. intros [Hne|Hf].
      2: { by destruct q. }
      by rewrite assoc_set_ne.
  - change (update f (c :: d :: p) (Dir (Some es))) with
      (match assoc c es with
       | None => Err (missing (d :: p))
       | Some m => mbind (M := result error) (fun m => Ok (Dir (Some (put c m es)))) (update f (d :: p) m)
       end).
    destruct (assoc c es) as [m|] eqn:Ec; [|done].
    intros (m' & Hm & H)%result_bind_ok. injection H as <-.
    destruct (IH _ _ Hm) as [(r & Hr & Hfind) Hother]. split.
    + exists r. change (find (Dir (Some es)) (c :: d :: p)) with
        (match assoc c es with Some m => find m (d :: p) | None => None end).
      change (find (Dir (Some (put c m' es))) (c :: d :: p)) with
        (match assoc c (put c m' es) with Some m => find m (d :: p) | None => None end).
      by rewrite Ec, assoc_put_eq.
    + intros [|e q]; [done|]. cbn [find]. intros Hq.
      destruct (decide (e = c)) as [->|Hne]; [|by rewrite assoc_put_ne].
      rewrite assoc_put_eq, Ec. destruct Hq as [?|Hq]; [done|]. by apply Hother.
Qed.

Lemma apart_or p q : apart p q \/ (exists r, q = p ++ r) \/ (exists r, p = q ++ r).
Proof.
  revert q. induction p as [|c p IH]; intros q; [right; left; by exists q|].
  destruct q as [|d q]; [right; right; by exists (c :: p)|].
  destruct (decide (c = d)) as [->|Hne]; [|left; by left].
  destruct (IH q) as [?|[[r ->]|[r ->]]]; [left; by right|right; left; by exists r|right; right; by exists r].
Qed.

Lemma update_through f q r n x : find n q = Some (File x) -> r <> [] -> is_ok (update f (q ++ r) n) = false.
Proof.
  intros Hf Hr. revert n Hf. induction q as [|c q IH]; intros n Hf.
  { injection Hf as ->. by destruct r as [|? [|]]. }
  cbn [find] in Hf. destruct n as [|[es|]]; [done| |done].
  destruct (assoc c es) as [m|] eqn:Ec; [|done]. specialize (IH m Hf).
  cbn [app update]. destruct (q ++ r) as [|d p] eqn:Eq; [destruct q; by simpl in Eq|].
  rewrite Ec. by destruct (update f (d :: p) m).
Qed.

(** Files elsewhere survive a change, unless a directory above them goes. *)
Lemma update_file f p n n' q x : update f p n = Ok n' -> find n q = Some (File x) -> q <> p ->
  (forall es, find n p <> Some (Dir es)) -> find n' q = Some (File x).
Proof.
  intros H Hq Hne Hdir. destruct (update_spec _ _ _ _ H) as [_ Hother].
  destruct (apart_or p q) as [?|[[r ->]|[r ->]]].
  - by rewrite Hother.
  - rewrite find_app in Hq. destruct (find n p) as [[y|es]|] eqn:E; [|by destruct (Hdir es)|done].
    destruct r as [|c r]; [by rewrite app_nil_r in Hne|done].
  - pose proof (update_through f q r n x Hq) as Hno. rewrite H in Hno.
    destruct r; [by rewrite app_nil_r in Hne|]. by discriminate Hno.
Qed.

Lemma write_file_spec content now p n n' : write_file content now p n = Ok n' ->
  (exists x, find n' p = Some (File x) /\ data x = Some content)
  /\ (forall q, apart p q -> find n' q = find n q)
  /\ (forall q x, find n q = Some (File x) -> q <> p -> find n' q = Some (File x)).
Proof.
  intros H. destruct (update_spec _ _ _ _ H) as [(r & Hr & Hfind) Hother]. split_and!; [|done|].
  - destruct (find n p) as [[y|es]|]; [| done |]; injection Hr as <-; rewrite Hfind; by eexists.
  - intros q x Hq Hne. eapply update_file; [exact H|done|done|]. intros es Hes. by rewrite Hes in Hr.
Qed.

Lemma remove_all_spec p n n' : remove_all p n = Ok n' ->
  find n' p = None /\ (forall q, apart p q -> find n' q = find n q).
Proof.
  unfold remove_all. destruct (find n p) as [m|] eqn:E; [|by intros [= <-]].
  intros (H & Hother)%update_spec. split; [|done]. by destruct H as (r & [= <-] & ?).
Qed.

Lemma rename_spec a b n n' : rename a b n = Ok n' -> apart a b ->
  find n a <> None /\ find n' b = find n a /\ find n' a = None
  /\ (forall q, apart a q -> apart b q -> find n' q = find n q).
Proof.
  unfold rename. intros H Hab. destruct (find n a) as [m|] eqn:Ea; [|done].
  rewrite check_bind in H. destruct H as [_ (n1 & H1 & H2)%result_bind_ok].
  apply update_spec in H1 as [(r1 & [= <-] & F1) O1]. apply update_spec in H2 as [(r2 & [= <-] & F2) O2].
  split_and!; [done|done| |].
  - rewrite O2; [done|]. by apply apart_sym.
  - intros q Ha Hb. by rewrite O2, O1.
Qed.

Lemma update_in f d c n es r : find n d = Some (Dir (Some es)) -> f (assoc c es) = Ok r ->
  exists n', update f (d ++ [c]) n = Ok n' /\ find n' d = Some (Dir (Some (set_entry c r es))).
Proof.
  revert n. induction d as [|x d IH]; intros n Hd Hf.
  { injection Hd as ->. cbn [app update]. rewrite Hf. by eexists. }
  cbn [find] in Hd. destruct n as [|[es'|]]; [done| |done].
  destruct (assoc x es') as [m|] eqn:E; [|done]. destruct (IH _ Hd Hf) as (m' & Hm & Hfind).
  exists (Dir (Some (put x m' es'))). cbn [find]. rewrite assoc_put_eq. split; [|done].
  cbn [app update]. destruct (d ++ [c]) as [|y p] eqn:Ep; [by destruct d|].
  by rewrite E, Hm.
Qed.

Lemma find_entry n d c : find n (d ++ [c]) <> None -> exists es, find n d = Some (Dir (Some es)).
Proof. rewrite find_app. destruct (find n d) as [[x|[es|]]|]; eauto; by cbn. Qed.

(** A rename within a directory says so truthfully when it fails:
    [IsNotExist] only when there is nothing to rename. *)
Lemma rename_missing d x y n e : rename (d ++ [x]) (d ++ [y]) n = Err e ->
  find n (d ++ [x]) <> None -> IsNotExist e = false.
Proof.
  unfold rename. intros H Hx. destruct (find_entry _ _ _ Hx) as [es Hd].
  destruct (find n (d ++ [x])) as [m|] eqn:E; [|done].
  destruct (replaces m (find n (d ++ [y])) (d ++ [y])) as [[]|e'] eqn:Er.
  2: { injection H as <-. by destruct m, (find n (d ++ [y])) as [[|[[|]|]]|]; cbn in Er; try done; injection Er as <-. }
  destruct (update_in (fun _ => Ok None) d x n es None Hd eq_refl) as (n1 & H1 & D1).
  destruct (update_in (fun _ => Ok (Some m)) d y n1 _ (Some m) D1 eq_refl) as (n2 & H2 & _).
  cbn [mbind result_bind] in H. rewrite H1 in H. cbn [mbind result_bind] in H. by rewrite H2 in H.
Qed.

Lemma mkdir_all_spec p n n' : mkdir_all p n = Ok n' ->
  (exists es, find n' p = Some (Dir es))
  /\ (forall q, ~ q `prefix_of` p -> find n' q = find n q)
  /\ (forall q x, find n q = Some (File x) -> find n' q = Some (File x)).
Proof.
  revert n n'. induction p as [|c p IH]; intros n n'.
  { destruct n as [x|es]; [done|]. intros [= <-]. split_and!; [by eexists|done|done]. }
  destruct n as [x|[es|]]; [done| |done].
  cbn [mkdir_all]. intros (m & Hm & H)%result_bind_ok. injection H as <-.
  destruct (IH _ _ Hm) as (Hdir & Hother & Hfile). split_and!.
  - cbn [find]. by rewrite assoc_put_eq.
  - intros [|d q] Hq; [destruct Hq; apply prefix_nil|]. cbn [find].
    destruct (decide (d = c)) as [->|Hne]; [|by rewrite assoc_put_ne].
    rewrite assoc_put_eq, Hother; [|by intros ?; apply Hq, prefix_cons].
    destruct (assoc c es); cbn [default]; [done|]. by destruct q; [destruct Hq; apply prefix_cons, prefix_nil|].
  - intros [|d q] x; [done|]. cbn [find].
    destruct (decide (d = c)) as [->|Hne]; [|by rewrite assoc_put_ne].
    rewrite assoc_put_eq. destruct (assoc c es); [apply Hfile|done].
Qed.

(** ** Joined paths *)

Lemma split_path_join d c : split_path (Join d c) = split_path d ++ split_path c.
Proof.
  unfold Join. change ("/" +:+ c) with (String "/" c).
  induction d as [|x d IH]; [done|].
  change (String x d +:+ String "/" c) with (String x (d +:+ String "/" c)). cbn [split_path].
  destruct (Ascii.eqb x "/"); [by rewrite IH|]. rewrite IH.
  destruct (split_path d) as [|w ws] eqn:E; [|done].
  by destruct d as [|y d]; cbn in E; [|destruct (Ascii.eqb y "/"), (split_path d)].
Qed.

Lemma split_path_word c : contains_char "/" c = false -> split_path c = [c].
Proof.
  induction c as [|x c IH]; [done|]. cbn [contains_char split_path]. intros [Hx Hc]%orb_false_iff.
  apply bool_decide_eq_false in Hx. destruct (Ascii.eqb_spec x "/") as [->|_]; [done|].
  by rewrite IH.
Qed.

(** A name that is one component of a path, as [filepath.Clean] leaves it. *)
Definition component (c : string) : bool :=
  negb (String.eqb c "" || String.eqb c "." || String.eqb c ".." || contains_char "/" c).

Lemma comps_join d c : component c = true -> comps (Join d c) = comps d ++ [c].
Proof.
  unfold component, comps. rewrite negb_true_iff, !orb_false_iff. intros [[[H1 H2] H3] H4].
  rewrite split_path_join, (split_path_word c H4), fold_left_app. cbn [fold_left].
  unfold clean_step at 1. by rewrite H1, H2, H3.
Qed.

(** A name with an extension is a component. *)
Lemma component_ext a ext : contains_char "/" a = false -> contains_char "/" ext = false ->
  (2 < String.length ext)%nat -> component (a +:+ ext) = true.
Proof.
  intros Ha He Hl. unfold component. rewrite contains_app, Ha, He, negb_true_iff, !orb_false_iff.
  split_and!; try done.
  all: apply String.eqb_neq; intros E%(f_equal String.length); rewrite length_app_string in E; cbn in E; lia.
Qed.

(** ** The world: the tree, the clock, the faults to come *)

(** A call does what it should; or it fails, leaving at its path what the
    fault says, and, if it makes directories, the first of them. *)
Inductive outcome : Type :=
| Works
| Fails (detail : list string) (left_ : option node) (made : nat).
Record world : Type := MkWorld { root : node; clock : Z; plan : list (Z * outcome) }.

(** The next call: how much time has passed, and how it goes. *)
Definition next (w : world) : outcome * world :=
  match plan w with
  | [] => (Works, w)
  | (dt, o) :: plan => (o, MkWorld (root w) (clock w + dt) plan)
  end.
Definition ioError (detail : list string) : error := Errorf "input/output error" detail.
Definition set_root (w : world) (n : node) : world := MkWorld n (clock w) (plan w).
(** A change that a fault leaves behind, if it can be made. *)
Definition leave (r : result error node) (w : world) : world :=
  match r with Ok n => set_root w n | Err _ => w end.
Definition finish (r : result error node) (w : world) : result error unit * world :=
  match r with Ok n => (Ok tt, set_root w n) | Err e => (Err e, w) end.

Definition MkdirAll (path : string) (w : world) : result error unit * world :=
  match next w with
  | (Works, w) => finish (mkdir_all (comps path) (root w)) w
  | (Fails d _ k, w) => (Err (ioError d), leave (mkdir_all (take k (comps path)) (root w)) w)
  end.
Definition WriteFile (path content : string) (w : world) : result error unit * world :=
  match next w with
  | (Works, w) => finish (write_file content (clock w) (comps path) (root w)) w
  | (Fails d l _, w) => (Err (ioError d), leave (update (fun _ => Ok l) (comps path) (root w)) w)
  end.
Definition RemoveAll (path : string) (w : world) : result error unit * world :=
  match next w with
  | (Works, w) => finish (remove_all (comps path) (root w)) w
  | (Fails d l _, w) => (Err (ioError d), leave (update (fun _ => Ok l) (comps path) (root w)) w)
  end.
Definition Rename (old new : string) (w : world) : result error unit * world :=
  match next w with
  | (Works, w) => finish (rename (comps old) (comps new) (root w)) w
  | (Fails d _ _, w) => (Err (ioError d), w)
  end.

(** [m; k], which stops at the first error; a loop of such calls. *)
Definition IO : Type := world -> result error unit * world.
Definition seq_io (m k : IO) : IO := fun w =>
  match m w with
  | (Ok _, w) => k w
  | (Err e, w) => (Err e, w)
  end.
Fixpoint each_io {A} (f : A -> IO) (l : list A) : IO := fun w =>
  match l with
  | [] => (Ok tt, w)
  | a :: l => seq_io (f a) (each_io f l) w
  end.
Definition wrap_io (f : error -> error) (m : IO) : IO := fun w => let '(r, w) := m w in (map_err f r, w).

(** ** What a call can touch *)

(** The action, however it ends, changes nothing outside the tree at [p]. *)
Definition inside (p : list string) (m : IO) : Prop :=
  forall w r w', m w = (r, w') -> forall q, apart p q -> find (root w') q = find (root w) q.

Lemma next_root w o w' : next w = (o, w') -> root w' = root w.
Proof. unfold next. by destruct (plan w) as [|[dt x] ?]; intros [= _ <-]. Qed.

Lemma apart_prefix p r q : apart p q -> ~ q `prefix_of` p ++ r.
Proof.
  intros H [k Hk]. revert q H Hk. induction p as [|c p IH]; intros [|d q]; cbn; try done.
  intros [?|?] [= ??]; [congruence|by eauto].
Qed.

Lemma mkdir_frame p n n' k q : mkdir_all (take k p) n = Ok n' -> ~ q `prefix_of` p -> find n' q = find n q.
Proof.
  intros (_ & H & _)%mkdir_all_spec Hq. apply H. intros Hk. apply Hq. etrans; [exact Hk|].
  exists (drop k p). by rewrite take_drop.
Qed.

Lemma MkdirAll_frame path w r w' q : MkdirAll path w = (r, w') -> ~ q `prefix_of` comps path ->
  find (root w') q = find (root w) q.
Proof.
  unfold MkdirAll. destruct (next w) as [o w1] eqn:En. rewrite <- (next_root _ _ _ En).
  intros H Hq. destruct o as [|d l k]; revert H.
  - destruct (mkdir_all _ _) as [n|e] eqn:E; intros [= _ <-]; [|done]. cbn [root set_root].
    rewrite <- (firstn_all (comps path)) in E. by eapply mkdir_frame.
  - destruct (mkdir_all _ _) as [n|e] eqn:E; intros [= _ <-]; [|done]. by eapply mkdir_frame.
Qed.

Lemma MkdirAll_inside p path r : comps path = p ++ r -> inside p (MkdirAll path).
Proof.
  intros Hp w r' w' H q Hq. apply (MkdirAll_frame _ _ _ _ _ H). rewrite Hp. by apply apart_prefix.
Qed.

Lemma update_frame f p s n n' q : update f (p ++ s) n = Ok n' -> apart p q -> find n' q = find n q.
Proof.
  intros [_ H]%update_spec Hq. apply H. rewrite <- (app_nil_r q). by apply apart_below.
Qed.

Lemma WriteFile_inside p path r content : comps path = p ++ r -> inside p (WriteFile path content).
Proof.
  intros Hp w r' w' H q Hq. revert H. unfold WriteFile. destruct (next w) as [o w1] eqn:En.
  rewrite <- (next_root _ _ _ En), Hp. destruct o as [|d l k].
  - destruct (write_file _ _ _ _) as [n|e] eqn:E; intros [= _ <-]; [|done]. by eapply update_frame.
  - destruct (update _ _ _) as [n|e] eqn:E; intros [= _ <-]; [|done]. by eapply update_frame.
Qed.

Lemma RemoveAll_inside p path r : comps path = p ++ r -> inside p (RemoveAll path).
Proof.
  intros Hp w r' w' H q Hq. revert H. unfold RemoveAll. destruct (next w) as [o w1] eqn:En.
  rewrite <- (next_root _ _ _ En), Hp. destruct o as [|d l k].
  - destruct (remove_all _ _) as [n|e] eqn:E; intros [= _ <-]; [|done].
    unfold remove_all in E. destruct (find (root w1) (p ++ r)); [by eapply update_frame|by injection E as <-].
  - destruct (update _ _ _) as [n|e] eqn:E; intros [= _ <-]; [|done]. by eapply update_frame.
Qed.

Lemma inside_seq p m k : inside p m -> inside p k -> inside p (seq_io m k).
Proof.
  intros Hm Hk w r w'. unfold seq_io. destruct (m w) as [[[]|e] w1] eqn:E; intros H q Hq.
  - rewrite (Hk _ _ _ H q Hq). by eapply Hm.
  - injection H as <- <-. by eapply Hm.
Qed.

Lemma inside_each {A} p (f : A -> IO) l : Forall (fun a => inside p (f a)) l -> inside p (each_io f l).
Proof.
  induction 1 as [|a l Ha _ IH]; [by intros w r w' [= _ <-]|]. by apply inside_seq.
Qed.

Lemma inside_wrap p f m : inside p m -> inside p (wrap_io f m).
Proof. intros Hm w r w'. unfold wrap_io. destruct (m w) as [r1 w1] eqn:E. intros [= _ <-]. by eapply Hm. Qed.

(** ** What a call has done when it succeeds *)

(** The file at [p] has the content [c]. *)
Definition holds (p : list string) (c : string) (w : world) : Prop :=
  exists x, find (root w) p = Some (File x) /\ data x = Some c.

Lemma seq_ok m k w w' : seq_io m k w = (Ok tt, w') -> exists w1, m w = (Ok tt, w1) /\ k w1 = (Ok tt, w').
Proof. unfold seq_io. destruct (m w) as [[[]|e] w1]; [by eauto|done]. Qed.

Lemma wrap_ok f m w w' : wrap_io f m w = (Ok tt, w') -> m w = (Ok tt, w').
Proof. unfold wrap_io. destruct (m w) as [[[]|e] w1]; cbn; congruence. Qed.

(** The action, when it succeeds, keeps the files whose path is not in [ps],
    and a path of [ps] is a file with the content that [ps] says. *)
Definition writes (ps : list (list string * string)) (m : IO) : Prop :=
  forall w w', m w = (Ok tt, w') ->
    (forall p c, (p, c) ∈ ps -> holds p c w')
    /\ (forall p c, p ∉ ps.*1 -> holds p c w -> holds p c w').

Lemma MkdirAll_writes path : writes [] (MkdirAll path).
Proof.
  intros w w'. unfold MkdirAll. destruct (next w) as [[|d l k] w1] eqn:En; [|done].
  destruct (mkdir_all _ _) as [n|e] eqn:E; [|done]. intros [= <-]. split; [by intros ? ? ?%elem_of_nil|].
  intros p c _ (x & Hx & Hc). exists x. split; [|done]. cbn [root set_root].
  rewrite <- (next_root _ _ _ En) in Hx. apply mkdir_all_spec in E as (_ & _ & H). by apply H.
Qed.

Lemma WriteFile_writes path content : writes [(comps path, content)] (WriteFile path content).
Proof.
  intros w w'. unfold WriteFile. destruct (next w) as [[|d l k] w1] eqn:En; [|done].
  destruct (write_file _ _ _ _) as [n|e] eqn:E; [|done]. intros [= <-].
  apply write_file_spec in E as ((x & Hx & Hc) & _ & Hkeep). split.
  - intros p c Hp. apply list_elem_of_singleton in Hp. injection Hp as -> ->. by exists x.
  - intros p c Hp (y & Hy & Hyc). exists y. split; [|done]. rewrite <- (next_root _ _ _ En) in Hy.
    apply Hkeep; [done|]. intros ->. apply Hp. by left.
Qed.

Lemma writes_seq ps qs m k : writes ps m -> writes qs k -> (forall p, p ∈ ps.*1 -> p ∉ qs.*1) ->
  writes (ps ++ qs) (seq_io m k).
Proof.
  intros Hm Hk Hd w w' (w1 & H1 & H2)%seq_ok. destruct (Hm _ _ H1) as [A1 B1], (Hk _ _ H2) as [A2 B2].
  rewrite fmap_app. split; intros p c.
  - rewrite elem_of_app. intros [Hp|Hp]; [|by apply A2]. apply B2; [|by apply A1].
    apply Hd. by apply (list_elem_of_fmap_2 fst) in Hp.
  - rewrite not_elem_of_app. intros [??] Hh. apply B2; [done|]. by apply B1.
Qed.

Lemma writes_wrap ps f m : writes ps m -> writes ps (wrap_io f m).
Proof. intros H w w' E%wrap_ok. by apply H. Qed.

Lemma writes_each {A} (f : A -> IO) (g : A -> list (list string * string)) l :
  (forall a, a ∈ l -> writes (g a) (f a)) ->
  NoDup (concat (map g l)).*1 -> writes (concat (map g l)) (each_io f l).
Proof.
  induction l as [|a l IH]; intros Hf Hnd.
  { intros w w' [= <-]. split; [by intros ? ? ?%elem_of_nil|done]. }
  cbn [map concat] in *. rewrite fmap_app in Hnd. apply NoDup_app in Hnd as (? & Hd & ?).
  apply writes_seq; [apply Hf; by left| |done]. apply IH; [|done]. intros b Hb. apply Hf. by right.
Qed.

End Tree.
