(* ===== verification/Pack.v ===== *)
(** * The pack: the desired state as the console publishes it

    Models [internal/desired/pack.go] and [settings.go]: the data of a pack,
    the checks that accept it, its hash and the keys of its blobs. The JSON
    decoder, the JSON encoder of a set and of a profile and the parser of a
    log level (placitum-shared) are arguments. A Go map is a [gmap]; where it
    is ranged over the order is that of [map_to_list], which chooses only the
    error that is reported when there are several. *)

From S2P Require Import Prelude GoStrings Sha256 Files Protocol.

#[local] Open Scope Z_scope.

Module Pack.
Import Protocol Files.

Definition Bucket : string := "WAF_DESIRED".
Definition PackKey : string := "policy/ip-pack".
Definition BlobPrefix : string := "waf.blob.".
Definition DefaultProfile : string := "default".
Definition ApplyOK : string := "ok".
Definition ApplyFailed : string := "apply_failed".

(** ** Data *)

Record Match : Type := MkMatch {
  ma_Lists : list string; ma_Live : list string; ma_Countries : list string; ma_Asns : list Z }.
(** The four lists of a [Set] are those of a [Match]. *)
Record Set_ : Type := MkSet { se_Match : Match; se_Inverse : bool; se_Exclude : option Match }.
Record Rule : Type := MkRule {
  ru_Set : string; ru_Dataset : string; ru_Not : bool; ru_Action : string; ru_Response : string;
  ru_Code : string; ru_To : string; ru_Do : string; ru_Apply : string; ru_Delta : option Z;
  ru_Value : option Z; ru_Counter : string; ru_Marker : string; ru_Side : string;
  ru_Headers : option ObjectSpec; ru_Args : option ObjectSpec; ru_Body : option ObjectSpec;
  ru_When : list string; ru_List : string; ru_Write : string; ru_TTL : string }.
Record Outcome : Type := MkOutcome {
  ou_On : string; ou_At : option Z; ou_To : string; ou_Do : string; ou_Apply : string;
  ou_Delta : option Z; ou_Value : option Z; ou_Counter : string; ou_Marker : string; ou_Set : string;
  ou_Headers : option ObjectSpec; ou_Args : option ObjectSpec; ou_Body : option ObjectSpec;
  ou_When : list string; ou_List : string; ou_Write : string; ou_TTL : string; ou_Code : string }.
Record Profile : Type := MkProfile {
  pr_Rules : list Rule; pr_Default : string; pr_Code : string; pr_Outcomes : list Outcome }.
(** The log level as the pack writes it, and as it was parsed. *)
Record Settings : Type := MkSettings { LogLevel : string; level : Z }.
Record Pack : Type := MkPack {
  V : Z; Kind : string; Rev : Z; SHA256 : string; Prefix : string;
  Lists : gmap string string; Countries : gmap string string; Asns : gmap string string;
  Live : gmap string string; Sets : gmap string Set_; Profiles : gmap string Profile;
  Blobs : Z; Bytes : Z; Settings_ : option Settings }.

Definition with_prefix (p : Pack) (prefix : string) : Pack :=
  MkPack (V p) (Kind p) (Rev p) (SHA256 p) prefix (Lists p) (Countries p) (Asns p) (Live p)
    (Sets p) (Profiles p) (Blobs p) (Bytes p) (Settings_ p).
Definition with_settings (p : Pack) (s : option Settings) : Pack :=
  MkPack (V p) (Kind p) (Rev p) (SHA256 p) (Prefix p) (Lists p) (Countries p) (Asns p) (Live p)
    (Sets p) (Profiles p) (Blobs p) (Bytes p) s.

(** ** Names and keys *)

Definition safeName (name : string) : result error unit :=
  reject_if (String.eqb name "" || String.eqb name "." || String.eqb name ".."
             || contains_char "/" name || contains_char "\" name) (errorf "bad name").

Definition keys {A} (m : gmap string A) : list string := map fst (map_to_list m).
(** [sort.Strings] of the keys of a map. *)
Definition sorted_keys {A} (m : gmap string A) : list string := sort_slice string_less (keys m).

Definition TrimPrefix (s prefix : string) : string :=
  if HasPrefix s prefix then String.substring (String.length prefix) (String.length s) s else s.
Definition BlobKey (p : Pack) (hash : string) : string := Prefix p +:+ TrimPrefix hash "sha256:".
Definition Names (p : Pack) : list string := sorted_keys (Profiles p).

(** The loop of [Hashes] over one group: [seen] are the hashes taken so far,
    [out] their list, the last one first. *)
Fixpoint hashes_go (hashes : list string) (seen : gset string) (out : list string) : gset string * list string :=
  match hashes with
  | [] => (seen, out)
  | h :: hashes =>
      if bool_decide (h ∈ seen) then hashes_go hashes seen out
      else hashes_go hashes ({[h]} ∪ seen) (h :: out)
  end.
Definition values (m : gmap string string) : list string := map snd (map_to_list m).
Definition Hashes (p : Pack) : list string :=
  sort_slice string_less
    (rev (hashes_go (values (Lists p) ++ values (Countries p) ++ values (Asns p)) ∅ []).2).

Definition hashOf (body : string) : string := "sha256:" +:+ Sha256.hex_digest body.

(** ** Checks *)

Definition known {A} (m : gmap string A) (k : string) : bool := bool_decide (is_Some (m !! k)).

(** The references of one match of the set [name]. *)
Definition check_match (p : Pack) (name : string) (m : Match) : result error unit :=
  check for_each (fun id => reject_if (negb (known (Lists p) id))
    (Errorf "pack: set %q references unknown list %s" [name; id])) (ma_Lists m);;
  check for_each (fun id => reject_if (negb (known (Live p) id))
    (Errorf "pack: set %q references unknown live dataset %s" [name; id])) (ma_Live m);;
  check for_each (fun cc => reject_if (negb (known (Countries p) cc))
    (Errorf "pack: set %q references unknown country %s" [name; cc])) (ma_Countries m);;
  for_each (fun asn => reject_if (negb (known (Asns p) (FormatUint asn)))
    (Errorf "pack: set %q references unknown asn %d" [name; FormatUint asn])) (ma_Asns m).
Definition matches (s : Set_) : list Match :=
  se_Match s :: match se_Exclude s with Some m => [m] | None => [] end.
Definition check_set (p : Pack) (x : string * Set_) : result error unit :=
  for_each (check_match p x.1) (matches x.2).

(** A list with its indices from 0. *)
Definition indexed {A} (l : list A) : list (Z * A) := zip (map Z.of_nat (seq 0 (length l))) l.

Definition check_rule (p : Pack) (name : string) (x : Z * Rule) : result error unit :=
  let '(i, rule) := x in
  check
    (if String.eqb (ru_Action rule) "allow" || String.eqb (ru_Action rule) "deny" then
       reject_if (negb (known (Sets p) (ru_Set rule)))
         (Errorf "pack: profile %q rule %d references unknown set %q" [name; FormatInt (i + 1); ru_Set rule])
     else
       reject_if (negb (known (Lists p) (ru_Dataset rule)) && negb (known (Live p) (ru_Dataset rule)))
         (Errorf "pack: profile %q rule %d references dataset %q that is not in the pack"
            [name; FormatInt (i + 1); ru_Dataset rule]));;
  reject_if (String.eqb (ru_Action rule) "list" && negb (known (Live p) (ru_List rule)))
    (Errorf "pack: profile %q rule %d writes to a dataset that is not live" [name; FormatInt (i + 1)]).
Definition check_outcome (p : Pack) (name : string) (x : Z * Outcome) : result error unit :=
  let '(i, o) := x in
  reject_if (negb (String.eqb (ou_List o) "") && negb (known (Live p) (ou_List o)))
    (Errorf "pack: profile %q outcome %d writes to a dataset that is not live" [name; FormatInt (i + 1)]).
Definition check_profile (p : Pack) (x : string * Profile) : result error unit :=
  check for_each (check_rule p x.1) (indexed (pr_Rules x.2));;
  for_each (check_outcome p x.1) (indexed (pr_Outcomes x.2)).
Definition check_pack (p : Pack) : result error unit :=
  check for_each (check_set p) (map_to_list (Sets p));;
  for_each (check_profile p) (map_to_list (Profiles p)).

(** ** Hash and settings *)

Section encoded.
(** [json.Unmarshal] into a [Pack], [json.Marshal] of a [Set] and of a
    [Profile], [loglevel.Parse]. *)
Context (json_pack : string -> result error Pack).
Context (json_set : Set_ -> string) (json_profile : Profile -> string).
Context (parse_level : string -> result error Z).

Definition nul : string := String "000" EmptyString.
(** A label, then every key with its text, each ended by a zero byte. *)
Definition write_entry (k v : string) : string := k +:+ nul +:+ v +:+ nul.
Definition write_entries {A} (text : A -> string) (m : gmap string A) : string :=
  foldr (fun k s => match m !! k with Some a => write_entry k (text a) | None => "" end +:+ s)
    "" (sorted_keys m).
Definition write_map {A} (label : string) (text : A -> string) (m : gmap string A) : string :=
  label +:+ nul +:+ write_entries text m.
Definition writeSettings (s : option Settings) : string :=
  match s with
  | None => ""
  | Some s => "settings" +:+ nul +:+ write_entry "log_level" (LogLevel s)
  end.
(** What is written to the digest. *)
Definition stream (p : Pack) : string :=
  write_map "lists" id (Lists p) +:+ write_map "countries" id (Countries p)
  +:+ write_map "asns" id (Asns p) +:+ write_map "live" id (Live p)
  +:+ write_map "sets" json_set (Sets p) +:+ write_map "profiles" json_profile (Profiles p)
  +:+ writeSettings (Settings_ p).
Definition Hash (p : Pack) : string := "sha256:" +:+ Sha256.hex_digest (stream p).

Definition validate (s : option Settings) : result error (option Settings) :=
  match s with
  | None => Ok None
  | Some s =>
      let* lv := map_err (wrapf "settings.log_level: " []) (parse_level (LogLevel s)) in
      Ok (Some (MkSettings (LogLevel s) lv))
  end.
(** [apply]: the level of the log after it. *)
Definition apply_level (s : option Settings) (lv : option Z) : option Z :=
  match s, lv with
  | Some s, Some lv => if lv =? level s then Some lv else Some (level s)
  | _, _ => lv
  end.

Definition ParsePack (raw : string) : result error Pack :=
  let* p := map_err (wrapf "pack: " []) (json_pack raw) in
  check reject_if (negb (V p =? 1) || negb (String.eqb (Kind p) "ip-pack"))
    (errorf "pack: unsupported v/kind");;
  check reject_if (Rev p <? 1) (errorf "pack: rev must be positive");;
  check reject_if (String.eqb (SHA256 p) "" || negb (HasPrefix (SHA256 p) "sha256:"))
    (errorf "pack: sha256 is missing");;
  let p := if String.eqb (Prefix p) "" then with_prefix p BlobPrefix else p in
  check reject_if (negb (known (Profiles p) DefaultProfile))
    (Errorf "pack: profile %q is missing" [DefaultProfile]);;
  check for_each (fun name => map_err (wrapf "pack: profile %q: " [name]) (safeName name))
    (keys (Profiles p));;
  check for_each (fun name => map_err (wrapf "pack: set %q: " [name]) (safeName name)) (keys (Sets p));;
  check for_each (fun group =>
      for_each (fun name => map_err (wrapf "pack: %q: " [name]) (safeName name)) (keys group))
    [Lists p; Countries p; Asns p; Live p];;
  check check_pack p;;
  let* s := map_err (wrapf "pack: " []) (validate (Settings_ p)) in
  let p := with_settings p s in
  let got := Hash p in
  check reject_if (negb (String.eqb got (SHA256 p)))
    (Errorf "pack: sha256 mismatch: got %s want %s" [got; SHA256 p]);;
  Ok p.
End encoded.

(** ** What is accepted *)

(** A name that is one component of a path and neither [.] nor [..]. *)
Definition safe (name : string) : bool :=
  negb (String.eqb name "" || String.eqb name "." || String.eqb name ".."
        || contains_char "/" name || contains_char "\" name).
Definition names_safe {A} (m : gmap string A) : Prop := map_Forall (fun name _ => safe name = true) m.

Definition match_resolves (p : Pack) (m : Match) : Prop :=
  Forall (fun id => is_Some (Lists p !! id)) (ma_Lists m)
  /\ Forall (fun id => is_Some (Live p !! id)) (ma_Live m)
  /\ Forall (fun cc => is_Some (Countries p !! cc)) (ma_Countries m)
  /\ Forall (fun asn => is_Some (Asns p !! FormatUint asn)) (ma_Asns m).
Definition rule_resolves (p : Pack) (r : Rule) : Prop :=
  (if String.eqb (ru_Action r) "allow" || String.eqb (ru_Action r) "deny"
   then is_Some (Sets p !! ru_Set r)
   else is_Some (Lists p !! ru_Dataset r) \/ is_Some (Live p !! ru_Dataset r))
  /\ (ru_Action r = "list" -> is_Some (Live p !! ru_List r)).
Definition outcome_resolves (p : Pack) (o : Outcome) : Prop :=
  ou_List o <> "" -> is_Some (Live p !! ou_List o).
Record resolved (p : Pack) : Prop := {
  sets_resolve : map_Forall (fun _ s => Forall (match_resolves p) (matches s)) (Sets p);
  profiles_resolve : map_Forall (fun _ pr =>
    Forall (rule_resolves p) (pr_Rules pr) /\ Forall (outcome_resolves p) (pr_Outcomes pr)) (Profiles p) }.

Definition names_ok (p : Pack) : Prop :=
  names_safe (Profiles p) /\ names_safe (Sets p) /\ names_safe (Lists p)
  /\ names_safe (Countries p) /\ names_safe (Asns p) /\ names_safe (Live p).

Record well_formed (p : Pack) : Prop := {
  wf_version : V p = 1 /\ Kind p = "ip-pack" /\ 1 <= Rev p;
  wf_hash : HasPrefix (SHA256 p) "sha256:" = true;
  wf_default : is_Some (Profiles p !! DefaultProfile);
  wf_names : names_ok p;
  wf_resolved : resolved p }.

(** The pack that is kept: with its blob prefix and its parsed settings. *)
Definition kept (p : Pack) (s : option Settings) : Pack :=
  with_settings (if String.eqb (Prefix p) "" then with_prefix p BlobPrefix else p) s.

Lemma reject_known {A} (m : gmap string A) k (e : error) :
  reject_if (negb (known m k)) e = Ok tt <-> is_Some (m !! k).
Proof. rewrite reject_if_ok, negb_false_iff. apply bool_decide_eq_true. Qed.

Lemma safeName_ok name : safeName name = Ok tt <-> safe name = true.
Proof. unfold safeName, safe. by rewrite reject_if_ok, negb_true_iff. Qed.

Lemma map_err_unit {E F} (f : E -> F) (r : result E unit) : map_err f r = Ok tt <-> r = Ok tt.
Proof. destruct r as [[]|]; simpl; naive_solver. Qed.

Lemma names_checked {A} (m : gmap string A) (f : string -> error -> error) :
  for_each (fun name => map_err (f name) (safeName name)) (keys m) = Ok tt <-> names_safe m.
Proof.
  rewrite for_each_ok. unfold names_safe, keys. rewrite map_Forall_to_list, List.Forall_map.
  apply Forall_iff. intros [k a]. cbn. by rewrite map_err_unit, safeName_ok.
Qed.

Lemma pack_match_checked p name m : check_match p name m = Ok tt <-> match_resolves p m.
Proof.
  unfold check_match, match_resolves. rewrite !check_bind, !for_each_ok.
  by repeat setoid_rewrite reject_known.
Qed.

Lemma indexed_forall {A} (P : Z * A -> Prop) (Q : A -> Prop) l :
  (forall i a, P (i, a) <-> Q a) -> Forall P (indexed l) <-> Forall Q l.
Proof.
  intros H. unfold indexed. generalize 0%nat. induction l as [|a l IH]; intros n; cbn; [by split|].
  by rewrite !Forall_cons, H, IH.
Qed.

Lemma pack_rule_checked p name i r : check_rule p name (i, r) = Ok tt <-> rule_resolves p r.
Proof.
  unfold check_rule, rule_resolves. rewrite check_bind, reject_if_ok. f_equiv.
  - destruct (_ || _); [apply reject_known|]. rewrite reject_if_ok, andb_false_iff, !negb_false_iff.
    unfold known. by rewrite !bool_decide_eq_true.
  - rewrite andb_false_iff, negb_false_iff. unfold known. rewrite bool_decide_eq_true.
    destruct (String.eqb_spec (ru_Action r) "list"); naive_solver.
Qed.

Lemma pack_outcome_checked p name i o : check_outcome p name (i, o) = Ok tt <-> outcome_resolves p o.
Proof.
  unfold check_outcome, outcome_resolves. rewrite reject_if_ok, andb_false_iff, !negb_false_iff.
  unfold known. rewrite bool_decide_eq_true. destruct (String.eqb_spec (ou_List o) ""); naive_solver.
Qed.

Lemma pack_checked p : check_pack p = Ok tt <-> resolved p.
Proof.
  unfold check_pack. rewrite check_bind, !for_each_ok.
  trans (map_Forall (fun _ s => Forall (match_resolves p) (matches s)) (Sets p)
    /\ map_Forall (fun _ pr =>
      Forall (rule_resolves p) (pr_Rules pr) /\ Forall (outcome_resolves p) (pr_Outcomes pr)) (Profiles p)).
  2: split; [intros []|intros []]; by split.
  rewrite !map_Forall_to_list. f_equiv; apply Forall_iff; intros [name x]; cbn [uncurry].
  - unfold check_set. rewrite for_each_ok. apply Forall_iff. intros m. apply pack_match_checked.
  - unfold check_profile. rewrite check_bind, !for_each_ok. cbn [fst snd]. f_equiv.
    + apply indexed_forall. intros i r. apply pack_rule_checked.
    + apply indexed_forall. intros i o. apply pack_outcome_checked.
Qed.

Lemma kept_resolved p prefix : resolved (with_prefix p prefix) <-> resolved p.
Proof. split; intros [H1 H2]; (split; [exact H1|exact H2]). Qed.

Lemma default_prefix p :
  exists pre, (if String.eqb (Prefix p) "" then with_prefix p BlobPrefix else p) = with_prefix p pre.
Proof. destruct (String.eqb _ _); [by eexists|]. exists (Prefix p). by destruct p. Qed.

Lemma groups_checked (f : string -> error -> error) (a b c d : gmap string string) :
  for_each (fun group => for_each (fun name => map_err (f name) (safeName name)) (keys group)) [a; b; c; d]
    = Ok tt <-> names_safe a /\ names_safe b /\ names_safe c /\ names_safe d.
Proof.
  rewrite for_each_ok, !Forall_cons, !names_checked. split; [by intros (? & ? & ? & ? & _)|].
  by intros (? & ? & ? & ?).
Qed.

Section accepted.
Context (json_pack : string -> result error Pack).
Context (json_set : Set_ -> string) (json_profile : Profile -> string).
Context (parse_level : string -> result error Z).

Lemma hash_kept p prefix s : validate parse_level (Settings_ p) = Ok s ->
  Hash json_set json_profile (with_settings (with_prefix p prefix) s) = Hash json_set json_profile p.
Proof.
  intros H. unfold Hash, stream. cbn [with_settings with_prefix Settings_ Lists Countries Asns Live Sets Profiles].
  replace (writeSettings s) with (writeSettings (Settings_ p)); [done|].
  destruct (Settings_ p) as [x|]; cbn [validate] in H; [|by injection H as <-].
  apply result_bind_ok in H as (lv & _ & H). by injection H as <-.
Qed.

(** What is accepted, and what comes out of it. *)
Lemma pack_parsed raw p :
  ParsePack json_pack json_set json_profile parse_level raw = Ok p ->
  exists q s, json_pack raw = Ok q /\ well_formed q /\ validate parse_level (Settings_ q) = Ok s
    /\ Hash json_set json_profile q = SHA256 q /\ p = kept q s.
Proof.
  unfold ParsePack. destruct (json_pack raw) as [q|e]; cbn [map_err mbind result_bind]; [|done].
  rewrite !reject_bind. destruct (default_prefix q) as [pre Hpre]. unfold kept. rewrite Hpre. cbn zeta.
  rewrite !check_bind, names_checked, names_checked, groups_checked, pack_checked, kept_resolved.
  cbn [with_prefix Profiles Sets Lists Countries Asns Live Settings_ SHA256].
  intros (Hv & Hr & Hs & Hd & Hp & Hse & (Hl & Hc & Ha & Hli) & Hres & H).
  apply result_bind_ok in H as (s & Hval & H). apply map_err_ok in Hval. exists q, s.
  rewrite reject_bind in H. destruct H as [Hh H]. injection H as <-.
  split_and!; [done| |done| |by rewrite Hpre].
  - apply orb_false_iff in Hv as [Hv Hk]. apply orb_false_iff in Hs as [_ Hs].
    apply negb_false_iff, Z.eqb_eq in Hv. apply negb_false_iff, String.eqb_eq in Hk.
    split; [split_and!; [done|done|lia]|by apply negb_false_iff| |by split_and!|done].
    apply negb_false_iff in Hd. by apply bool_decide_eq_true in Hd.
  - apply negb_false_iff, String.eqb_eq in Hh. by rewrite hash_kept in Hh.
Qed.

(** C19: [ParsePack] accepts a message exactly when it decodes to a pack of
    this version with a positive revision, a default profile, names that are
    single path components, references that all resolve inside the pack, a
    log level that parses and the hash of its own contents; what it returns is
    that pack with the default blob prefix filled in and the level parsed. *)
Theorem pack_accepted raw p :
  ParsePack json_pack json_set json_profile parse_level raw = Ok p
  <-> exists q s, json_pack raw = Ok q /\ well_formed q /\ validate parse_level (Settings_ q) = Ok s
      /\ Hash json_set json_profile q = SHA256 q /\ p = kept q s.
Proof.
  split; [apply pack_parsed|].
  intros (q & s & Hj & [Hv Hh Hd (Hp & Hse & Hl & Hc & Ha & Hli) Hres] & Hval & Hhash & ->).
  unfold ParsePack. rewrite Hj. cbn [map_err mbind result_bind]. rewrite !reject_bind.
  destruct (default_prefix q) as [pre Hpre]. unfold kept. rewrite Hpre. cbn zeta.
  rewrite !check_bind, names_checked, names_checked, groups_checked, pack_checked, kept_resolved.
  cbn [with_prefix Profiles Sets Lists Countries Asns Live Settings_ SHA256].
  destruct Hv as (Hv & Hk & Hr). split_and!; try done.
  - by rewrite Hv, Hk.
  - lia.
  - rewrite Hh. destruct (SHA256 q); done.
  - unfold known. by rewrite bool_decide_eq_true_2.
  - rewrite Hval. cbn. rewrite reject_bind. split; [|done].
    by rewrite hash_kept, Hhash, String.eqb_refl.
Qed.
End accepted.

End Pack.
