(* ===== verification/Carry.v ===== *)
(** * What a pack carries to the policy

    The rules and outcomes of a pack ([internal/desired/pack.go]) are written
    as YAML and read back by [internal/policy/policy.go]: both structs name
    their keys in tags, and a key that one side lacks is absent or ignored.
    [file_rule] and [file_outcome] are that translation, field by field. *)

From S2P Require Import Prelude GoStrings Protocol Policy Pack.

#[local] Open Scope Z_scope.

Module Carry.
Import Policy.

Definition file_rule (r : Pack.Rule) : fileRule :=
  MkFileRule (Pack.ru_Set r) (Pack.ru_Dataset r) (Pack.ru_Not r) (Pack.ru_Action r) (Pack.ru_Response r)
    (Pack.ru_Code r)
    (MkFileAsk (Pack.ru_To r) (Pack.ru_Do r) (Pack.ru_Apply r) "" (Pack.ru_Delta r) (Pack.ru_Value r)
       (Pack.ru_Counter r) (Pack.ru_Marker r) "" (Pack.ru_Side r)
       (MkObjects (Pack.ru_Headers r) (Pack.ru_Args r) (Pack.ru_Body r)) (Pack.ru_When r))
    (Pack.ru_List r) (Pack.ru_Write r) (Pack.ru_TTL r).
(** The side of an outcome is under the key [set] on both sides. *)
Definition file_outcome (o : Pack.Outcome) : fileOutcome :=
  MkFileOutcome (Pack.ou_On o) (Pack.ou_At o)
    (MkFileAsk (Pack.ou_To o) (Pack.ou_Do o) (Pack.ou_Apply o) "" (Pack.ou_Delta o) (Pack.ou_Value o)
       (Pack.ou_Counter o) (Pack.ou_Marker o) "" (Pack.ou_Set o)
       (MkObjects (Pack.ou_Headers o) (Pack.ou_Args o) (Pack.ou_Body o)) (Pack.ou_When o))
    (Pack.ou_List o) (Pack.ou_Write o) (Pack.ou_TTL o) (Pack.ou_Code o).

Definition file_profile (p : Pack.Profile) : fileProfile :=
  MkFileProfile (map file_rule (Pack.pr_Rules p)) (Pack.pr_Default p) (Pack.pr_Code p)
    (map file_outcome (Pack.pr_Outcomes p)).
(** An exclusion that is left out excludes nothing. *)
Definition file_match (m : Pack.Match) : Match :=
  MkMatch (Pack.ma_Lists m) (Pack.ma_Live m) (Pack.ma_Countries m) (Pack.ma_Asns m).
Definition file_set (s : Pack.Set_) : fileSet :=
  MkFileSet (file_match (Pack.se_Match s)) (Pack.se_Inverse s)
    match Pack.se_Exclude s with Some m => file_match m | None => emptyMatch end.
Definition file_sets (p : Pack.Pack) : list (string * fileSet) :=
  map (fun x => (x.1, file_set x.2)) (map_to_list (Pack.Sets p)).

(** A request without a phase and a group. *)
Definition plain (a : fileAsk) : Prop := fa_Phase a = "" /\ fa_Group a = "".

Section carry.
Context `{UnicodeLower}.

Lemma make_ask_plain a apply : plain a -> Phase (make_ask a apply) = "" /\ Group (make_ask a apply) = "".
Proof. intros [Hp Hg]. unfold make_ask. cbn [Phase Group]. by rewrite Hp, Hg. Qed.

Lemma ask_plain a ttl : ask_ok a ttl -> Group a = "" -> Do a <> "mutate".
Proof. intros Ha Hg Hm. destruct (proj2 (ok_group _ _ Ha) Hm) as [Hc _]. by rewrite Hg in Hc. Qed.

Lemma rule_action_plain src action a l w t : plain (fr_Ask src) ->
  rule_action src action = Ok (a, l, w, t) -> Phase a = "" /\ Group a = "".
Proof.
  intros Hp. unfold rule_action. destruct (Terminal action); [by intros [= <- <- <- <-]|].
  destruct (String.eqb action ActionRequest).
  - intros (apply & _ & E)%result_bind_ok. apply result_bind_ok in E as (? & _ & E).
    apply result_bind_ok in E as (? & _ & E). apply result_bind_ok in E as (? & _ & E).
    apply result_bind_ok in E as (? & _ & E). injection E as <- <- <- <-. by apply make_ask_plain.
  - destruct (String.eqb action ActionList); [|done]. intros (? & _ & E)%result_bind_ok.
    apply result_bind_ok in E as (? & _ & E). apply result_bind_ok in E as (? & _ & E).
    by injection E as <- <- <- <-.
Qed.
End carry.

Section carry_more.
Context `{UnicodeLower}.

Lemma rule_plain src r : plain (fr_Ask src) -> normalizeRule src = Ok r ->
  Phase (r_Ask r) = "" /\ Group (r_Ask r) = "" /\ Do (r_Ask r) <> "mutate".
Proof.
  intros Hp E. destruct (normalizeRule_ok _ _ E) as [Hr _]. unfold normalizeRule in E. passed E.
  repeat match goal with x : _ * _ |- _ => destruct x end. passed E. injection E as <-. cbn [r_Ask] in *.
  match goal with H : rule_action _ _ = _ |- _ => destruct (rule_action_plain _ _ _ _ _ _ Hp H) as [? Hg] end.
  split_and!; [done|done|].
  destruct Hr as [(_ & _ & _ & _ & Ha & _)|[(_ & _ & _ & _ & _ & Ha)|(_ & _ & _ & _ & _ & Ha)]]; cbn [r_Ask] in Ha.
  1,3: by rewrite Ha.
  by eapply ask_plain.
Qed.

Lemma outcome_plain src o : plain (fo_Ask src) -> normalizeOutcome src = Ok o ->
  Phase (o_Ask o) = "" /\ Group (o_Ask o) = "" /\ Do (o_Ask o) <> "mutate".
Proof.
  intros Hp E. pose proof (normalizeOutcome_ok _ _ E) as (_ & _ & Hdo). unfold normalizeOutcome in E.
  passed E. destruct (String.eqb_spec (TrimSpace (fo_List src)) "") as [El|El]; cbn [negb] in E;
    passed E; injection E as <-; cbn [o_Ask o_List] in *.
  - destruct (make_ask_plain _ x1 Hp) as [? Hg]. split_and!; [done|done|].
    destruct Hdo as [(Hl & _)|(_ & _ & Ha)]; [done|]. by eapply ask_plain.
  - split_and!; [done|done|]. destruct Hdo as [(_ & Hd & _)|(Hl & _)]; [|done].
    cbn [Do] in Hd |- *. by rewrite Hd.
Qed.

(** What a pack can say to the policy: the rules and outcomes that its
    structures carry are exactly those without a phase and without a group.
    So no rule or outcome of a generation names a phase, and none that asks
    for [mutate] is ever accepted, although the policy has both. *)
Theorem pack_carries :
  (forall f, (exists r, file_rule r = f) <-> plain (fr_Ask f))
  /\ (forall f, (exists o, file_outcome o = f) <-> plain (fo_Ask f))
  /\ (forall r p, normalizeRule (file_rule r) = Ok p ->
       Phase (r_Ask p) = "" /\ Group (r_Ask p) = "" /\ Do (r_Ask p) <> "mutate")
  /\ (forall o p, normalizeOutcome (file_outcome o) = Ok p ->
       Phase (o_Ask p) = "" /\ Group (o_Ask p) = "" /\ Do (o_Ask p) <> "mutate").
Proof.
  split_and!.
  - intros f. split; [by intros [r <-]|]. destruct f as [s ds n act resp code [to do ap ph dl vl ct mk gr sd [h a b] wh] l w t].
    intros [Hp Hg]. cbn in Hp, Hg. subst ph gr.
    by exists (Pack.MkRule s ds n act resp code to do ap dl vl ct mk sd h a b wh l w t).
  - intros f. split; [by intros [r <-]|]. destruct f as [on at_ [to do ap ph dl vl ct mk gr sd [h a b] wh] l w t code].
    intros [Hp Hg]. cbn in Hp, Hg. subst ph gr.
    by exists (Pack.MkOutcome on at_ to do ap dl vl ct mk sd h a b wh l w t code).
  - intros r p. by apply rule_plain.
  - intros o p. by apply outcome_plain.
Qed.
End carry_more.

(** A rule that the policy accepts from a file, but not from a pack. *)
Definition ex_mutate : Pack.Rule :=
  Pack.MkRule "" "lab" false "request" "" "" "body-agent" "mutate" "request" None None "" "" "on"
    None None None [] "" "" "".
Definition ex_note : Pack.Rule :=
  Pack.MkRule "" "lab" false "request" "" "" "body-agent" "note" "request" None (Some 5) "" "" ""
    None None None [] "" "" "".

Example mutate_from_file :
  is_ok (normalizeRule (H := ascii_only)
    (MkFileRule "" "lab" false "request" "" "" (MkFileAsk "body-agent" "mutate" "request" "" None None "" ""
       "strict" "on" noObjects []) "" "" "")) = true.
Proof. reflexivity. Qed.

Lemma pack_carries_witness :
  is_ok (normalizeRule (H := ascii_only) (file_rule ex_mutate)) = false
  /\ exists p, normalizeRule (H := ascii_only) (file_rule ex_note) = Ok p /\ Do (r_Ask p) <> "mutate".
Proof.
  split; [vm_compute; reflexivity|].
  destruct (normalizeRule (H := ascii_only) (file_rule ex_note)) as [p|e] eqn:E.
  - exists p. split; [reflexivity|]. destruct (pack_carries (H := ascii_only)) as (_ & _ & Hr & _).
    exact (proj2 (proj2 (Hr ex_note p E))).
  - assert (is_ok (normalizeRule (H := ascii_only) (file_rule ex_note)) = true) as Hok by (vm_compute; reflexivity).
    rewrite E in Hok. discriminate Hok.
Defined.

End Carry.
