(* ===== verification/Apply.v ===== *)
(** * Applying a pack

    Models [internal/desired/apply.go]: fetching the blobs of a pack from
    Redis, writing them and the policy as a tree of files beside the live one,
    and swapping the trees, with the way back when the new one does not load.
    The answer of Redis and the YAML encoder are arguments; the file system is
    [Tree], any of whose calls may fail. [redis.ParseURL] and the client that
    [OpenBlobs] makes are not modelled, nor the timeout of the request. *)

From S2P Require Import Prelude GoStrings Files Protocol Policy Store Tree Pack.

#[local] Open Scope Z_scope.

Module Apply.
Import Files Tree Pack.

(** ** Blobs *)

(** One value of an [MGET]: nothing, a string, or another type, by its name. *)
Inductive value : Type := Nil | Str (s : string) | Other (type : string).

Section fetch.
Context (mget : list string -> result error (list value)).

(** The loop over the values: [keys[i]] and [hashes[i]] panic when there are
    more values than were asked for. *)
Fixpoint take_blobs (p : Pack) (hashes : list string) (vals : list value) (out : gmap string string)
  : run error (gmap string string) :=
  match vals, hashes with
  | [], _ => Ret out
  | _ :: _, [] => Panic
  | Nil :: _, hash :: _ => Throw (Errorf "redis: missing %s" [BlobKey p hash])
  | Other t :: _, hash :: _ => Throw (Errorf "redis: %s: unexpected type %T" [BlobKey p hash; t])
  | Str body :: vals, hash :: hashes =>
      if String.eqb (hashOf body) hash then take_blobs p hashes vals (<[hash := body]> out)
      else Throw (Errorf "redis: %s hash mismatch" [BlobKey p hash])
  end.
Definition FetchBlobs (p : Pack) : run error (gmap string string) :=
  match Hashes p with
  | [] => Ret ∅
  | hashes =>
      match mget (map (BlobKey p) hashes) with
      | Err e => Throw (wrapf "redis: " [] e)
      | Ok vals => take_blobs p hashes vals ∅
      end
  end.
End fetch.

(** ** The tree of a generation *)

Definition treeDir : string := "policy".
Definition TreePath (dataDir : string) : string := Join dataDir treeDir.
Definition GeoPath (tree : string) : string := Join tree "geo".

Section apply.
Context `{UnicodeLower}.
(** [yaml.Marshal] of the sets, of the live map and of a profile. *)
Context (enc_sets : gmap string Set_ -> result error string).
Context (enc_live : gmap string string -> result error string).
Context (enc_profile : Profile -> result error string).
(** [yaml.Unmarshal], as the store reads these files. *)
Context (yaml_sets : string -> result error (list (string * Policy.fileSet))).
Context (yaml_profile : string -> result error Policy.fileProfile).
Context (yaml_live : string -> result error (list (string * string))).

Definition writeBlob (path hash : string) (blobs : gmap string string) : IO := fun w =>
  match blobs !! hash with
  | None => (Err (Errorf "blob %s is missing" [hash]), w)
  | Some body => WriteFile path body w
  end.
(** A text that was marshalled, or the error of it. *)
Definition write_text (text : result error string) (path : string) : IO := fun w =>
  match text with
  | Err e => (Err e, w)
  | Ok t => WriteFile path t w
  end.

Definition write_list (dir : string) (blobs : gmap string string) (x : string * string) : IO :=
  wrap_io (wrapf "list %s: " [x.1]) (writeBlob (Join (Join dir "lists") (x.1 +:+ ".txt")) x.2 blobs).
Definition write_asn (dir : string) (blobs : gmap string string) (x : string * string) : IO :=
  wrap_io (wrapf "asn %s: " [x.1]) (writeBlob (Join (Join dir "asns") (x.1 +:+ ".txt")) x.2 blobs).
Definition write_country (dir : string) (blobs : gmap string string) (x : string * string) : IO :=
  let sub := Join (Join dir "geo") x.1 in
  seq_io (MkdirAll sub)
    (wrap_io (wrapf "country %s: " [x.1]) (writeBlob (Join sub "ranges.txt") x.2 blobs)).
Definition write_profile (dir : string) (x : string * Profile) : IO :=
  write_text (enc_profile x.2) (Join (Join dir "profiles") (x.1 +:+ ".yaml")).
Definition write (dir : string) (p : Pack) (blobs : gmap string string) : IO :=
  seq_io (each_io (fun sub => MkdirAll (Join dir sub)) ["lists"; "asns"; "profiles"; "geo"])
  (seq_io (each_io (write_list dir blobs) (map_to_list (Lists p)))
  (seq_io (each_io (write_asn dir blobs) (map_to_list (Asns p)))
  (seq_io (each_io (write_country dir blobs) (map_to_list (Countries p)))
  (seq_io (write_text (enc_sets (Sets p)) (Join dir "sets.yaml"))
  (seq_io (write_text (enc_live (Live p)) (Join dir "live.yaml"))
  (each_io (write_profile dir) (map_to_list (Profiles p)))))))).

(** ** The swap *)

(** [st.ReloadFrom(tree, GeoPath(tree))]: it reads the tree as it is, or
    fails to read it. *)
Definition reload_from (tree : string) (w : world) (st : Store.store)
  : result error unit * world * Store.store :=
  match next w with
  | (Works, w) =>
      let d := disk_of (root w) in
      let '(r, st) := Store.ReloadFrom yaml_sets yaml_profile yaml_live d d (clock w) tree (GeoPath tree) st in
      (r, w, st)
  | (Fails d _ _, w) => (Err (ioError d), w, st)
  end.

(** The steps once the live tree is parked, or was not there. *)
Definition install (staging prev live : string) (lived : bool) (w : world) (st : Store.store)
  : result error unit * world * Store.store :=
  match Rename staging live w with
  | (Err e, w) =>
      let w := if lived then snd (Rename prev live w) else w in
      (Err (wrapf "promote staging: " [] e), snd (RemoveAll staging w), st)
  | (Ok _, w) =>
      match reload_from live w st with
      | (Err e, w, st) =>
          let w := snd (RemoveAll live w) in
          if lived then
            match Rename prev live w with
            | (Ok _, w) => let '(_, w, st) := reload_from live w st in (Err e, w, st)
            | (Err _, w) => (Err e, w, st)
            end
          else (Err e, w, st)
      | (Ok _, w, st) => (Ok tt, snd (RemoveAll prev w), st)
      end
  end.

Definition Apply (dataDir : string) (p : Pack) (blobs : gmap string string) (w : world) (st : Store.store)
  : result error unit * world * Store.store :=
  match MkdirAll dataDir w with
  | (Err e, w) => (Err (wrapf "data dir: " [] e), w, st)
  | (Ok _, w) =>
      let staging := Join dataDir ".next" in
      let prev := Join dataDir ".prev" in
      let live := TreePath dataDir in
      let w := snd (RemoveAll staging w) in
      match write staging p blobs w with
      | (Err e, w) => (Err e, snd (RemoveAll staging w), st)
      | (Ok _, w) =>
          let w := snd (RemoveAll prev w) in
          match Rename live prev w with
          | (Err e, w) =>
              if IsNotExist e then install staging prev live false w st
              else (Err (wrapf "park live: " [] e), snd (RemoveAll staging w), st)
          | (Ok _, w) => install staging prev live true w st
          end
      end
  end.
End apply.

(** ** Where the files of a generation go *)

Lemma safe_component name : safe name = true -> component name = true.
Proof. unfold safe, component. rewrite !negb_true_iff, !orb_false_iff. tauto. Qed.
Lemma safe_ext name ext : safe name = true -> contains_char "/" ext = false -> (2 < String.length ext)%nat ->
  component (name +:+ ext) = true.
Proof.
  unfold safe. rewrite negb_true_iff, !orb_false_iff. intros [[_ ?] _] ??. by apply component_ext.
Qed.

Section places.
Context (dir : string).
Abbreviation d := (comps dir).

Lemma sub_comps sub : component sub = true -> comps (Join dir sub) = d ++ [sub].
Proof. apply comps_join. Qed.
Lemma file_comps sub name ext : component sub = true -> safe name = true ->
  contains_char "/" ext = false -> (2 < String.length ext)%nat ->
  comps (Join (Join dir sub) (name +:+ ext)) = d ++ [sub; name +:+ ext].
Proof. intros Hs ???. rewrite comps_join by (by apply safe_ext). by rewrite comps_join, <- app_assoc. Qed.
Lemma country_comps code : safe code = true -> comps (Join (Join dir "geo") code) = d ++ ["geo"; code].
Proof.
  intros Hc. rewrite comps_join by (by apply safe_component). by rewrite comps_join, <- app_assoc.
Qed.
Lemma ranges_comps code : safe code = true ->
  comps (Join (Join (Join dir "geo") code) "ranges.txt") = d ++ ["geo"; code; "ranges.txt"].
Proof. intros Hc. by rewrite comps_join, country_comps, <- app_assoc. Qed.
End places.

(** The names of a pack are taken from its maps. *)
Lemma named_entry {A} (m : gmap string A) x : names_safe m -> x ∈ map_to_list m -> safe x.1 = true.
Proof. destruct x as [k a]. intros Hm Hx%elem_of_map_to_list. by apply (Hm k a). Qed.

Section written.
Context (enc_sets : gmap string Set_ -> result error string).
Context (enc_live : gmap string string -> result error string).
Context (enc_profile : Profile -> result error string).

Lemma writeBlob_inside p path r hash blobs : comps path = p ++ r -> inside p (writeBlob path hash blobs).
Proof.
  intros Hp w r' w'. unfold writeBlob. destruct (blobs !! hash); [|by intros [= _ <-]].
  by apply (WriteFile_inside p path r).
Qed.
Lemma write_text_inside p path r text : comps path = p ++ r -> inside p (write_text text path).
Proof.
  intros Hp w r' w'. unfold write_text. destruct text; [|by intros [= _ <-]].
  by apply (WriteFile_inside p path r).
Qed.

(** Whatever fails, [write] stays inside its directory: the names of an
    accepted pack cannot leave it. *)
Lemma write_inside dir p blobs : names_ok p ->
  inside (comps dir) (write enc_sets enc_live enc_profile dir p blobs).
Proof.
  intros (Hp & _ & Hl & Hc & Ha & _). unfold write.
  apply inside_seq.
  { apply inside_each. repeat (apply Forall_cons; split; [by eapply MkdirAll_inside, sub_comps|]). done. }
  repeat apply inside_seq; try apply inside_each, Forall_forall.
  - intros x Hx%(named_entry _ _ Hl). apply inside_wrap. by eapply writeBlob_inside, file_comps; [| |done|cbn; lia].
  - intros x Hx%(named_entry _ _ Ha). apply inside_wrap. by eapply writeBlob_inside, file_comps; [| |done|cbn; lia].
  - intros x Hx%(named_entry _ _ Hc). apply inside_seq; [by eapply MkdirAll_inside, country_comps|].
    by eapply inside_wrap, writeBlob_inside, ranges_comps.
  - by eapply write_text_inside, sub_comps.
  - by eapply write_text_inside, sub_comps.
  - intros x Hx%(named_entry _ _ Hp). by eapply write_text_inside, file_comps; [| |done|cbn; lia].
Qed.
End written.

(** ** What [write] has written when it succeeds *)

Section contents.
Context (enc_sets : gmap string Set_ -> result error string).
Context (enc_live : gmap string string -> result error string).
Context (enc_profile : Profile -> result error string).

(** The file that one entry of a map becomes: none when its text is missing,
    and then the action fails. *)
Definition entry_file {A} (path : string -> list string) (text : A -> option string) (x : string * A)
  : list (list string * string) :=
  match text x.2 with Some t => [(path x.1, t)] | None => [] end.
Definition group_files {A} (path : string -> list string) (text : A -> option string) (m : gmap string A) :=
  concat (map (entry_file path text) (map_to_list m)).
Definition ok_text (r : result error string) : option string :=
  match r with Ok t => Some t | Err _ => None end.

Lemma group_in {A} path text (m : gmap string A) k a t :
  m !! k = Some a -> text a = Some t -> (path k, t) ∈ group_files path text m.
Proof.
  intros Hm Ht. apply list_elem_of_In, in_concat. exists [(path k, t)]. split; [|by left].
  apply in_map_iff. exists (k, a). unfold entry_file. cbn [fst snd]. rewrite Ht. split; [done|].
  by apply list_elem_of_In, elem_of_map_to_list.
Qed.

Lemma group_path {A} path text (m : gmap string A) p :
  p ∈ (group_files path text m).*1 -> exists k, is_Some (m !! k) /\ p = path k.
Proof.
  intros ([p' t] & -> & Hin)%list_elem_of_fmap_1. apply list_elem_of_In, in_concat in Hin as (l & Hl & Hin).
  apply in_map_iff in Hl as ([k a] & <- & Hx%list_elem_of_In%elem_of_map_to_list).
  unfold entry_file in Hin. cbn [fst snd] in Hin. destruct (text a) as [u|]; [|done].
  destruct Hin as [[= <- <-]|[]]. exists k. by rewrite Hx.
Qed.

Lemma group_nodup {A} path text (m : gmap string A) :
  (forall a b, path a = path b -> a = b) -> NoDup (group_files path text m).*1.
Proof.
  intros Hinj. unfold group_files. pose proof (NoDup_fst_map_to_list m) as Hnd.
  induction (map_to_list m) as [|[k a] l IH]; [constructor|]. apply NoDup_cons in Hnd as [Hk Hnd].
  cbn [map concat]. rewrite fmap_app. apply NoDup_app. split_and!; [| |by apply IH].
  { unfold entry_file. cbn [fst snd]. destruct (text a); [apply NoDup_singleton|constructor]. }
  intros p Hp Hl. apply Hk. unfold entry_file at 1 in Hp. cbn [fst snd] in Hp.
  destruct (text a) as [t|]; [|by apply elem_of_nil in Hp]. apply list_elem_of_singleton in Hp. subst p.
  apply list_elem_of_fmap_1 in Hl as ([p t'] & Hp & Hin). cbn [fst] in Hp. subst p.
  apply list_elem_of_In, in_concat in Hin as (es & Hes & Hin).
  apply in_map_iff in Hes as ([k' a'] & <- & Hx%list_elem_of_In). unfold entry_file in Hin. cbn [fst snd] in Hin.
  destruct (text a') as [u|]; [|done]. destruct Hin as [[= Hpath _]|[]]. apply Hinj in Hpath as ->.
  apply list_elem_of_fmap. by exists (k, a').
Qed.

Lemma group_writes {A} path text (m : gmap string A) (f : string * A -> IO) :
  (forall a b, path a = path b -> a = b) ->
  (forall x, x ∈ map_to_list m -> writes (entry_file path text x) (f x)) ->
  writes (group_files path text m) (each_io f (map_to_list m)).
Proof. intros Hinj Hf. apply writes_each; [done|]. by apply group_nodup. Qed.

Lemma writeBlob_writes path hash blobs :
  writes (match blobs !! hash with Some t => [(comps path, t)] | None => [] end) (writeBlob path hash blobs).
Proof.
  intros w w'. unfold writeBlob. destruct (blobs !! hash) as [t|]; [apply WriteFile_writes|done].
Qed.
Lemma write_text_writes path text :
  writes (match ok_text text with Some t => [(comps path, t)] | None => [] end) (write_text text path).
Proof.
  intros w w'. unfold write_text. destruct text as [t|]; [apply WriteFile_writes|done].
Qed.

Lemma ext_inj (ext a b : string) : a +:+ ext = b +:+ ext -> a = b.
Proof.
  revert b. induction a as [|x a IH]; intros [|y b] E; [done| | |].
  - apply (f_equal String.length) in E. rewrite !length_app_string in E. cbn in E. lia.
  - apply (f_equal String.length) in E. rewrite !length_app_string in E. cbn in E. lia.
  - change (String x (a +:+ ext) = String y (b +:+ ext)) in E. injection E as -> E. by rewrite (IH _ E).
Qed.

(** Everything [write] writes, below the components [d] of its directory. *)
Definition list_path (d : list string) (id : string) := d ++ ["lists"; id +:+ ".txt"].
Definition asn_path (d : list string) (asn : string) := d ++ ["asns"; asn +:+ ".txt"].
Definition country_path (d : list string) (code : string) := d ++ ["geo"; code; "ranges.txt"].
Definition profile_path (d : list string) (name : string) := d ++ ["profiles"; name +:+ ".yaml"].
Definition text_file (path : list string) (text : result error string) : list (list string * string) :=
  match ok_text text with Some t => [(path, t)] | None => [] end.
Definition generation (d : list string) (p : Pack) (blobs : gmap string string) : list (list string * string) :=
  group_files (list_path d) (fun h => blobs !! h) (Lists p)
  ++ group_files (asn_path d) (fun h => blobs !! h) (Asns p)
  ++ group_files (country_path d) (fun h => blobs !! h) (Countries p)
  ++ text_file (d ++ ["sets.yaml"]) (enc_sets (Sets p))
  ++ text_file (d ++ ["live.yaml"]) (enc_live (Live p))
  ++ group_files (profile_path d) (fun pr => ok_text (enc_profile pr)) (Profiles p).

(** The first name below [d]. *)
Definition under (d : list string) (sub : string) (p : list string) : Prop :=
  exists r, p = d ++ sub :: r.
Lemma under_ne d s t p : under d s p -> under d t p -> s = t.
Proof. intros [r ->] [r' E]. by simplify_list_eq. Qed.
Lemma group_under {A} d sub path text (m : gmap string A) :
  (forall k, under d sub (path k)) -> forall p, p ∈ (group_files path text m).*1 -> under d sub p.
Proof. intros Hp p (k & _ & ->)%group_path. apply Hp. Qed.
Lemma text_under d sub text p : p ∈ (text_file (d ++ [sub]) text).*1 -> under d sub p.
Proof.
  unfold text_file. destruct (ok_text text); [|by intros ?%elem_of_nil].
  intros ->%list_elem_of_singleton. by exists [].
Qed.

(** Files of different groups are below different names. *)
Ltac found_under H :=
  first [eapply group_under in H; [|intros ?; eexists; reflexivity] | apply text_under in H].
Ltac groups_differ :=
  intros ? Hhere; rewrite ?fmap_app, ?not_elem_of_app; split_and?; intros Hthere;
  found_under Hhere; found_under Hthere; pose proof (under_ne _ _ _ _ Hhere Hthere); discriminate.

Lemma ext_path_inj (d : list string) sub ext a b : d ++ [sub; a +:+ ext] = d ++ [sub; b +:+ ext] -> a = b.
Proof. intros E%app_inv_head. injection E as E. by apply ext_inj in E. Qed.

Lemma mkdirs_write dir subs : writes [] (each_io (fun sub => MkdirAll (Join dir sub)) subs).
Proof.
  assert (concat (map (fun _ : string => [] : list (list string * string)) subs) = []) as E
    by (by induction subs).
  rewrite <- E. apply writes_each; [intros; apply MkdirAll_writes|rewrite E; constructor].
Qed.

Lemma lists_write dir p blobs : names_safe (Lists p) ->
  writes (group_files (list_path (comps dir)) (fun h => blobs !! h) (Lists p))
    (each_io (write_list dir blobs) (map_to_list (Lists p))).
Proof.
  intros Hl. apply group_writes; [intros a b; apply ext_path_inj|]. intros x Hx%(named_entry _ _ Hl).
  apply writes_wrap. unfold entry_file, list_path.
  rewrite <- (file_comps dir "lists" x.1 ".txt") by (done || cbn; lia). apply writeBlob_writes.
Qed.

Lemma asns_write dir p blobs : names_safe (Asns p) ->
  writes (group_files (asn_path (comps dir)) (fun h => blobs !! h) (Asns p))
    (each_io (write_asn dir blobs) (map_to_list (Asns p))).
Proof.
  intros Ha. apply group_writes; [intros a b; apply ext_path_inj|]. intros x Hx%(named_entry _ _ Ha).
  apply writes_wrap. unfold entry_file, asn_path.
  rewrite <- (file_comps dir "asns" x.1 ".txt") by (done || cbn; lia). apply writeBlob_writes.
Qed.

Lemma countries_write dir p blobs : names_safe (Countries p) ->
  writes (group_files (country_path (comps dir)) (fun h => blobs !! h) (Countries p))
    (each_io (write_country dir blobs) (map_to_list (Countries p))).
Proof.
  intros Hc. apply group_writes.
  { intros a b E%app_inv_head. by injection E. }
  intros x Hx%(named_entry _ _ Hc). apply (writes_seq []); [apply MkdirAll_writes| |by intros ? ?%elem_of_nil].
  apply writes_wrap. unfold entry_file, country_path. rewrite <- (ranges_comps dir x.1 Hx).
  apply writeBlob_writes.
Qed.

Lemma profiles_write dir p : names_safe (Profiles p) ->
  writes (group_files (profile_path (comps dir)) (fun pr => ok_text (enc_profile pr)) (Profiles p))
    (each_io (write_profile enc_profile dir) (map_to_list (Profiles p))).
Proof.
  intros Hp. apply group_writes; [intros a b; apply ext_path_inj|]. intros x Hx%(named_entry _ _ Hp).
  unfold entry_file, profile_path.
  rewrite <- (file_comps dir "profiles" x.1 ".yaml") by (done || cbn; lia). apply write_text_writes.
Qed.

Lemma text_writes dir sub text : component sub = true ->
  writes (text_file (comps dir ++ [sub]) text) (write_text text (Join dir sub)).
Proof. intros Hs. unfold text_file. rewrite <- (sub_comps dir sub Hs). apply write_text_writes. Qed.

(** All the files of the generation, whatever order the maps are ranged in. *)
Lemma write_writes dir p blobs : names_ok p ->
  writes (generation (comps dir) p blobs) (write enc_sets enc_live enc_profile dir p blobs).
Proof.
  intros (Hp & _ & Hl & Hc & Ha & _). unfold write, generation.
  apply (writes_seq []); [apply mkdirs_write| |by intros ? ?%elem_of_nil].
  apply writes_seq; [by apply lists_write| |groups_differ].
  apply writes_seq; [by apply asns_write| |groups_differ].
  apply writes_seq; [by apply countries_write| |groups_differ].
  apply writes_seq; [by apply text_writes| |groups_differ].
  apply writes_seq; [by apply text_writes|by apply profiles_write|groups_differ].
Qed.

(** And each of them had its text. *)
Lemma writeBlob_has path hash blobs w w' : writeBlob path hash blobs w = (Ok tt, w') -> is_Some (blobs !! hash).
Proof. unfold writeBlob. destruct (blobs !! hash); by eauto. Qed.

Lemma each_io_all {A} (f : A -> IO) l w w' : each_io f l w = (Ok tt, w') ->
  forall a, a ∈ l -> exists w1 w2, f a w1 = (Ok tt, w2).
Proof.
  revert w. induction l as [|b l IH]; intros w; [by intros _ ? ?%elem_of_nil|].
  intros (w1 & H1 & H2)%seq_ok a [->|Ha]%elem_of_cons; [by eauto|by eapply IH].
Qed.

Definition all_texts (p : Pack) (blobs : gmap string string) : Prop :=
  map_Forall (fun _ h => is_Some (blobs !! h)) (Lists p)
  /\ map_Forall (fun _ h => is_Some (blobs !! h)) (Asns p)
  /\ map_Forall (fun _ h => is_Some (blobs !! h)) (Countries p)
  /\ is_Some (ok_text (enc_sets (Sets p))) /\ is_Some (ok_text (enc_live (Live p)))
  /\ map_Forall (fun _ pr => is_Some (ok_text (enc_profile pr))) (Profiles p).

Lemma write_texts dir p blobs w w' : write enc_sets enc_live enc_profile dir p blobs w = (Ok tt, w') ->
  all_texts p blobs.
Proof.
  unfold write. intros (w1 & _ & E)%seq_ok. apply seq_ok in E as (w2 & El & E).
  apply seq_ok in E as (w3 & Ea & E). apply seq_ok in E as (w4 & Ec & E).
  apply seq_ok in E as (w5 & Es & E). apply seq_ok in E as (w6 & Ei & Ep).
  split_and!; try (intros k x Hx%elem_of_map_to_list).
  - destruct (each_io_all _ _ _ _ El _ Hx) as (? & ? & H%wrap_ok). by eapply writeBlob_has.
  - destruct (each_io_all _ _ _ _ Ea _ Hx) as (? & ? & H%wrap_ok). by eapply writeBlob_has.
  - destruct (each_io_all _ _ _ _ Ec _ Hx) as (? & ? & (w7 & _ & H%wrap_ok)%seq_ok). by eapply writeBlob_has.
  - unfold write_text in Es. by destruct (enc_sets _); eauto.
  - unfold write_text in Ei. by destruct (enc_live _); eauto.
  - destruct (each_io_all _ _ _ _ Ep _ Hx) as (? & ? & H). unfold write_profile, write_text in H. cbn [snd] in H.
    by destruct (enc_profile x); eauto.
Qed.
End contents.

(** ** The swap, whatever fails *)

Section swapped.
Context `{UnicodeLower}.
Context (enc_sets : gmap string Set_ -> result error string).
Context (enc_live : gmap string string -> result error string).
Context (enc_profile : Profile -> result error string).
Context (ysets : string -> result error (list (string * Policy.fileSet))).
Context (yprofile : string -> result error Policy.fileProfile).
Context (ylive : string -> result error (list (string * string))).

Abbreviation reload_from := (reload_from ysets yprofile ylive).
Abbreviation install := (install ysets yprofile ylive).
Abbreviation write := (write enc_sets enc_live enc_profile).
Abbreviation Apply := (Apply enc_sets enc_live enc_profile ysets yprofile ylive).
Abbreviation tree_paths tree := (Store.MkPaths tree (GeoPath tree)).

(** The snapshot that is served is the one of the tree [tree] in [w]. *)
Definition serves (st : Store.store) (tree : string) (w : world) (c : Store.Snapshot) : Prop :=
  Store.cur st = Some c
  /\ Store.fingerprint (disk_of (root w)) (tree_paths tree) = Ok (Store.Fingerprint c).

Lemma geo_below tree n : disk_of n (GeoPath tree) =
  match disk_of n tree with Some m => find m ["geo"] | None => None end.
Proof. unfold disk_of, GeoPath. by rewrite comps_join, find_app. Qed.

(** The fingerprint of a tree depends on that tree only. *)
Lemma fingerprint_tree n1 n2 tree : disk_of n1 tree = disk_of n2 tree ->
  Store.fingerprint (disk_of n1) (tree_paths tree) = Store.fingerprint (disk_of n2) (tree_paths tree).
Proof.
  intros E. unfold Store.fingerprint, listFiles. cbn [Store.Policy_ Store.Geo_].
  by rewrite !geo_below, E.
Qed.

Lemma reload_from_root tree w st r w' st' : reload_from tree w st = (r, w', st') ->
  root w' = root w /\ (is_ok r = false -> st' = st).
Proof.
  unfold Apply.reload_from. destruct (next w) as [o w1] eqn:En. apply next_root in En.
  destruct o as [|d l k]; [|by intros [= <- <- <-]]. unfold Store.ReloadFrom.
  destruct (Store.reload _ _ _ _ _ _ _ st) as [[b|e] st1] eqn:E; intros [= <- <- <-]; [done|].
  by apply Store.reload_keeps_err in E.
Qed.

Lemma reload_from_ok tree w st w' st' : reload_from tree w st = (Ok tt, w', st') ->
  Store.paths st' = tree_paths tree /\ exists c, serves st' tree w c.
Proof.
  unfold Apply.reload_from. destruct (next w) as [o w1] eqn:En. apply next_root in En.
  destruct o as [|d l k]; [|done]. rewrite En. unfold Store.ReloadFrom.
  destruct (Store.reload _ _ _ _ _ _ _ st) as [[b|e] st1] eqn:E; intros [= <- <-].
  split; [done|]. apply Store.reload_fingerprint in E as (c & Hc & Hf). by exists c.
Qed.

Lemma reload_from_same tree w st r w' st' c : reload_from tree w st = (r, w', st') -> serves st tree w c ->
  Store.cur st' = Store.cur st /\ Store.gen st' = Store.gen st.
Proof.
  unfold Apply.reload_from. destruct (next w) as [o w1] eqn:En. apply next_root in En.
  intros E [Hc Hf]. destruct o as [|d l k]; [|by injection E as <- <- <-]. rewrite En in E.
  unfold Store.ReloadFrom, Store.reload, Store.same_fingerprint in E.
  rewrite Hf, Hc, String.eqb_refl in E. by injection E as <- <- <-.
Qed.

Lemma Rename_err d x y a b w e w' : comps a = d ++ [x] -> comps b = d ++ [y] ->
  Rename a b w = (Err e, w') -> root w' = root w /\ (find (root w) (d ++ [x]) <> None -> IsNotExist e = false).
Proof.
  intros Ha Hb. unfold Rename. destruct (next w) as [o w1] eqn:En. apply next_root in En.
  destruct o as [|t l k]; [|by intros [= <- <-]; split; [exact En|intros _; reflexivity]]. unfold finish.
  destruct (rename _ _ _) as [n|e'] eqn:E; [done|]. intros [= <- <-]. split; [done|].
  rewrite Ha, Hb, En in E. intros Hx. eapply rename_missing; [exact E|exact Hx].
Qed.

Lemma Rename_ok d x y a b w w' : comps a = d ++ [x] -> comps b = d ++ [y] -> x <> y ->
  Rename a b w = (Ok tt, w') ->
  find (root w) (d ++ [x]) <> None /\ find (root w') (d ++ [y]) = find (root w) (d ++ [x])
  /\ (forall q, apart (d ++ [x]) q -> apart (d ++ [y]) q -> find (root w') q = find (root w) q).
Proof.
  intros Ha Hb Hne. unfold Rename. destruct (next w) as [o w1] eqn:En. apply next_root in En.
  destruct o as [|t l k]; [|done]. unfold finish.
  destruct (rename _ _ _) as [n|e'] eqn:E; [|done]. intros [= <-].
  rewrite Ha, Hb, En in E. apply rename_spec in E as (? & ? & _ & ?); [done|]. by apply apart_app.
Qed.

(** The three directories, which are entries of one. *)
Section dirs.
Context (dataDir : string).
Abbreviation d := (comps dataDir).
Abbreviation staging := (Join dataDir ".next").
Abbreviation prev := (Join dataDir ".prev").
Abbreviation live := (TreePath dataDir).

Lemma staging_comps : comps staging = d ++ [".next"].
Proof. by apply comps_join. Qed.
Lemma prev_comps : comps prev = d ++ [".prev"].
Proof. by apply comps_join. Qed.
Lemma live_comps : comps live = d ++ ["policy"].
Proof. by apply comps_join. Qed.

(** An action inside one directory leaves the others alone. *)
Lemma inside_entry x y path m w r w' : x <> y -> inside (d ++ [x]) m -> comps path = d ++ [y] ->
  m w = (r, w') -> disk_of (root w') path = disk_of (root w) path.
Proof. intros Hxy Hm Hp E. unfold disk_of. rewrite Hp. apply (Hm _ _ _ E). by apply apart_app. Qed.

Lemma remove_entry x y path other w : x <> y -> comps path = d ++ [x] -> comps other = d ++ [y] ->
  disk_of (root (snd (RemoveAll path w))) other = disk_of (root w) other.
Proof.
  intros Hxy Hp Ho. destruct (RemoveAll path w) as [r w1] eqn:E.
  apply (inside_entry x y other _ _ _ _ Hxy (RemoveAll_inside _ _ [] (eq_trans Hp (eq_sym (app_nil_r _)))) Ho E).
Qed.

Lemma rename_err x y a b w e w' : comps a = d ++ [x] -> comps b = d ++ [y] ->
  Rename a b w = (Err e, w') -> root w' = root w /\ (disk_of (root w) a <> None -> IsNotExist e = false).
Proof. intros Ha Hb. unfold disk_of. rewrite Ha. by apply (Rename_err d x y a b). Qed.

Lemma rename_ok x y z a b c w w' : comps a = d ++ [x] -> comps b = d ++ [y] -> comps c = d ++ [z] ->
  x <> y -> x <> z -> y <> z -> Rename a b w = (Ok tt, w') ->
  disk_of (root w) a <> None /\ disk_of (root w') b = disk_of (root w) a
  /\ disk_of (root w') c = disk_of (root w) c.
Proof.
  intros Ha Hb Hc Hxy Hxz Hyz E. unfold disk_of. rewrite Ha, Hb, Hc.
  destruct (Rename_ok d x y a b _ _ Ha Hb Hxy E) as (? & ? & Ho). split_and!; [done|done|].
  by apply Ho; apply apart_app.
Qed.

(** The data directory itself is only ever made. *)
Lemma data_dir w r w' : MkdirAll dataDir w = (r, w') -> disk_of (root w') live = disk_of (root w) live.
Proof.
  intros E. unfold disk_of. apply (MkdirAll_frame _ _ _ _ _ E). rewrite live_comps.
  intros [k Hk]. apply (f_equal length) in Hk. rewrite !length_app in Hk. cbn in Hk. lia.
Qed.

(** The old tree [t] is still there, live or parked. *)
Definition kept_tree (t : node) (w : world) : Prop :=
  disk_of (root w) live = Some t \/ disk_of (root w) prev = Some t.

(** What [install] leaves when it fails and the live tree was parked: the old
    tree; and either the store as it was, or the store after it read the old
    tree again, at its place. *)
Lemma install_err_lived t w st e w' st' : disk_of (root w) prev = Some t ->
  install staging prev live true w st = (Err e, w', st') ->
  kept_tree t w' /\ (st' = st \/ disk_of (root w') live = Some t
    /\ exists w2 r w3, disk_of (root w2) live = Some t /\ reload_from live w2 st = (r, w3, st')).
Proof.
  intros Hprev. unfold Apply.install.
  destruct (Rename staging live w) as [[[]|e1] w1] eqn:E1.
  - destruct (rename_ok _ _ _ _ _ _ _ _ staging_comps live_comps prev_comps
      ltac:(done) ltac:(done) ltac:(done) E1) as (_ & _ & Hp1).
    rewrite Hprev in Hp1.
    destruct (reload_from live w1 st) as [[[[]|e2] w2] st2] eqn:E2; [done|].
    destruct (reload_from_root _ _ _ _ _ _ E2) as [Hr2 Hst2]. specialize (Hst2 eq_refl). subst st2.
    pose proof (remove_entry "policy" ".prev" live prev w2 ltac:(done) live_comps prev_comps) as Hp3.
    rewrite Hr2, Hp1 in Hp3. remember (snd (RemoveAll live w2)) as w3.
    destruct (Rename prev live w3) as [[[]|e4] w4] eqn:E4.
    + destruct (rename_ok _ _ _ _ _ _ _ _ prev_comps live_comps staging_comps
        ltac:(done) ltac:(done) ltac:(done) E4) as (_ & Hl4 & _). rewrite Hp3 in Hl4.
      destruct (reload_from live w4 st) as [[r5 w5] st5] eqn:E5. intros [= <- <- <-].
      destruct (reload_from_root _ _ _ _ _ _ E5) as [Hr5 _].
      assert (disk_of (root w5) live = Some t) as Hl5 by (by rewrite Hr5).
      split; [by left|]. right. split; [done|]. by exists w4, r5, w5.
    + intros [= <- <- <-]. split; [|by left]. right.
      destruct (rename_err _ _ _ _ _ _ _ prev_comps live_comps E4) as [-> _]. done.
  - destruct (rename_err _ _ _ _ _ _ _ staging_comps live_comps E1) as [Hr1 _].
    intros [= <- <- <-]. split; [|by left].
    destruct (Rename prev live w1) as [[[]|e2] w2] eqn:E2; cbn [snd].
    + left. rewrite (remove_entry ".next" "policy") by (done || apply staging_comps || apply live_comps).
      destruct (rename_ok _ _ _ _ _ _ _ _ prev_comps live_comps staging_comps
        ltac:(done) ltac:(done) ltac:(done) E2) as (_ & Hl2 & _). by rewrite Hl2, Hr1.
    + right. rewrite (remove_entry ".next" ".prev") by (done || apply staging_comps || apply prev_comps).
      destruct (rename_err _ _ _ _ _ _ _ prev_comps live_comps E2) as [-> _]. by rewrite Hr1.
Qed.

(** And when there was none. *)
Lemma install_err_new w st e w' st' : install staging prev live false w st = (Err e, w', st') -> st' = st.
Proof.
  unfold Apply.install. destruct (Rename staging live w) as [[[]|e1] w1] eqn:E1; [|by intros [= _ _ <-]].
  destruct (reload_from live w1 st) as [[[[]|e2] w2] st2] eqn:E2; [done|].
  destruct (reload_from_root _ _ _ _ _ _ E2) as [_ Hst2]. intros [= _ _ <-]. by apply Hst2.
Qed.

(** The first part of [Apply] touches neither the live tree nor the store. *)
Lemma write_entry_kept p blobs w r w' other y : names_ok p -> y <> ".next" -> comps other = d ++ [y] ->
  write staging p blobs w = (r, w') -> disk_of (root w') other = disk_of (root w) other.
Proof.
  intros Hn Hy Ho E. refine (inside_entry ".next" y other _ _ _ _ _ _ Ho E); [by apply not_eq_sym|].
  rewrite <- staging_comps. by apply write_inside.
Qed.

(** A failure, in one of two ways: the store was not touched; or it read the
    old tree again, back at its place. *)
Lemma apply_err p blobs w st e w' st' : names_ok p ->
  Apply dataDir p blobs w st = (Err e, w', st') ->
  (forall t, disk_of (root w) live = Some t -> kept_tree t w')
  /\ (st' = st \/ exists t w2 r w3, disk_of (root w) live = Some t /\ disk_of (root w') live = Some t
      /\ disk_of (root w2) live = Some t /\ reload_from live w2 st = (r, w3, st')).
Proof.
  intros Hn. unfold Apply.Apply.
  destruct (MkdirAll dataDir w) as [[[]|e0] w0] eqn:E0; pose proof (data_dir _ _ _ E0) as H0.
  2: { intros [= _ <- <-]. split; [intros t Ht; left; by rewrite H0|by left]. }
  pose proof (remove_entry ".next" "policy" staging live w0 ltac:(done) staging_comps live_comps) as H1.
  remember (snd (RemoveAll staging w0)) as w1.
  destruct (write staging p blobs w1) as [[[]|e2] w2] eqn:E2;
    pose proof (write_entry_kept _ _ _ _ _ live "policy" Hn ltac:(done) live_comps E2) as H2.
  2: { intros [= _ <- <-]. split; [|by left]. intros t Ht. left.
       rewrite (remove_entry ".next" "policy") by (done || apply staging_comps || apply live_comps).
       by rewrite H2, H1, H0. }
  pose proof (remove_entry ".prev" "policy" prev live w2 ltac:(done) prev_comps live_comps) as H3.
  remember (snd (RemoveAll prev w2)) as w3.
  assert (disk_of (root w3) live = disk_of (root w) live) as Hlive by congruence.
  destruct (Rename live prev w3) as [[[]|e4] w4] eqn:E4.
  - destruct (rename_ok _ _ _ _ _ _ _ _ live_comps prev_comps staging_comps
      ltac:(done) ltac:(done) ltac:(done) E4) as (Hsome & Hp4 & _).
    destruct (disk_of (root w3) live) as [t|] eqn:Et; [|done]. intros E.
    destruct (install_err_lived t _ _ _ _ _ Hp4 E) as (Hkeep & Hst). rewrite <- Hlive. split.
    + by intros t' [= <-].
    + destruct Hst as [->|(Ht & w5 & r & w6 & H5 & E5)]; [by left|]. right. by exists t, w5, r, w6.
  - destruct (rename_err _ _ _ _ _ _ _ live_comps prev_comps E4) as [H4 Hmissing].
    destruct (IsNotExist e4) eqn:Ee; intros E.
    + apply install_err_new in E as ->. split; [|by left].
      intros t Ht. rewrite Hlive, Ht in Hmissing. by specialize (Hmissing ltac:(done)).
    + injection E as _ <- <-. split; [|by left].
      intros t Ht. left. rewrite (remove_entry ".next" "policy") by (done || apply staging_comps || apply live_comps).
      by rewrite H4, Hlive.
Qed.

(** A snapshot that came from the live tree is the same after reading the
    same tree again. *)
Lemma apply_err_serves p blobs w st e w' st' c : names_ok p ->
  Apply dataDir p blobs w st = (Err e, w', st') -> serves st live w c ->
  Store.cur st' = Some c /\ Store.gen st' = Store.gen st.
Proof.
  intros Hn E [Hc Hf]. destruct (apply_err _ _ _ _ _ _ _ Hn E) as [_ [->|(t & w2 & r & w3 & Ht & _ & H2 & E2)]]; [done|].
  destruct (reload_from_same _ _ _ _ _ _ c E2) as [-> ->]; [|done]. split; [done|].
  by rewrite (fingerprint_tree _ (root w)) by congruence.
Qed.

(** C10: A generation that cannot be applied never costs the one before it,
    whichever calls of the file system fail: the old tree stands at its place
    or parked beside it, the store is untouched unless the old tree is back
    and was read again, and a snapshot that came from that tree stays the
    current one. *)
Theorem apply_failure_keeps p blobs w st e w' st' : names_ok p ->
  Apply dataDir p blobs w st = (Err e, w', st') ->
  (forall t, disk_of (root w) live = Some t -> kept_tree t w')
  /\ (st' = st \/ exists t, disk_of (root w) live = Some t /\ disk_of (root w') live = Some t)
  /\ (forall c, serves st live w c -> Store.cur st' = Some c /\ Store.gen st' = Store.gen st).
Proof.
  intros Hn E. destruct (apply_err _ _ _ _ _ _ _ Hn E) as [Hkeep Hst]. split_and!; [done| |].
  - destruct Hst as [->|(t & ? & ? & ? & ? & ? & _)]; [by left|]. right. by exists t.
  - intros c. by apply (apply_err_serves p blobs w st e w').
Qed.

(** Success: the tree that was written is the live one, and was read. *)
Lemma install_ok lived w st w' st' : install staging prev live lived w st = (Ok tt, w', st') ->
  exists w1 w2, reload_from live w1 st = (Ok tt, w2, st') /\ disk_of (root w1) live = disk_of (root w) staging
    /\ disk_of (root w') live = disk_of (root w1) live.
Proof.
  unfold Apply.install. destruct (Rename staging live w) as [[[]|e1] w1] eqn:E1; [|done].
  destruct (rename_ok _ _ _ _ _ _ _ _ staging_comps live_comps prev_comps
    ltac:(done) ltac:(done) ltac:(done) E1) as (_ & Hl1 & _).
  destruct (reload_from live w1 st) as [[[[]|e2] w2] st2] eqn:E2.
  2: { destruct lived; [|done]. destruct (Rename prev live _) as [[[]|e] w4]; [|done].
       by destruct (reload_from live w4 st2) as [[? ?] ?]. }
  intros [= <- <-]. destruct (reload_from_root _ _ _ _ _ _ E2) as [Hr2 _].
  exists w1, w2. split_and!; [done|done|].
  rewrite (remove_entry ".prev" "policy") by (done || apply prev_comps || apply live_comps). by rewrite Hr2.
Qed.

(** The worlds that a successful [Apply] goes through. *)
Lemma apply_steps p blobs w st w' st' : Apply dataDir p blobs w st = (Ok tt, w', st') ->
  exists w0 w2 w3 w4, MkdirAll dataDir w = (Ok tt, w0)
    /\ write staging p blobs (snd (RemoveAll staging w0)) = (Ok tt, w2)
    /\ disk_of (root w3) live = disk_of (root w2) staging /\ reload_from live w3 st = (Ok tt, w4, st')
    /\ disk_of (root w') live = disk_of (root w3) live.
Proof.
  unfold Apply.Apply. destruct (MkdirAll dataDir w) as [[[]|e0] w0] eqn:E0; [|done].
  destruct (write staging p blobs (snd (RemoveAll staging w0))) as [[[]|e2] w2] eqn:E2; [|done].
  pose proof (remove_entry ".prev" ".next" prev staging w2 ltac:(done) prev_comps staging_comps) as H3.
  remember (snd (RemoveAll prev w2)) as w3. intros E.
  assert (exists lived w4, install staging prev live lived w4 st = (Ok tt, w', st')
    /\ disk_of (root w4) staging = disk_of (root w2) staging) as (lived & w4 & Ei & H4).
  { rewrite <- H3. destruct (Rename live prev w3) as [[[]|e4] w4] eqn:E4.
    - destruct (rename_ok _ _ _ _ _ _ _ _ live_comps prev_comps staging_comps
        ltac:(done) ltac:(done) ltac:(done) E4) as (_ & _ & ?). by exists true, w4.
    - destruct (rename_err _ _ _ _ _ _ _ live_comps prev_comps E4) as [Hr4 _].
      destruct (IsNotExist e4); [|done]. exists false, w4. by rewrite Hr4. }
  destruct (install_ok _ _ _ _ _ Ei) as (w5 & w6 & Er & H5 & H6). exists w0, w2, w5, w6.
  split_and!; [done|done|congruence|done|done].
Qed.

Lemma apply_ok p blobs w st w' st' : Apply dataDir p blobs w st = (Ok tt, w', st') ->
  exists w1 w2, write staging p blobs w1 = (Ok tt, w2)
    /\ disk_of (root w') live = disk_of (root w2) staging
    /\ Store.paths st' = tree_paths live /\ exists c, serves st' live w' c.
Proof.
  intros (w0 & w2 & w3 & w4 & _ & Ew & H3 & Er & H4)%apply_steps.
  destruct (reload_from_ok _ _ _ _ _ Er) as (Hp & c & Hc & Hf). eexists _, w2.
  split_and!; [exact Ew|congruence|done|]. exists c. split; [done|]. by rewrite (fingerprint_tree _ (root w3)).
Qed.

Lemma Forall_app_in {A} (P : A -> Prop) (l k : list A) :
  (forall x, x ∈ l ++ k -> P x) <-> (forall x, x ∈ l -> P x) /\ (forall x, x ∈ k -> P x).
Proof. setoid_rewrite elem_of_app. naive_solver. Qed.

(** The file that stands at [path] once its tree is the live one. *)
Lemma live_file n m r t path w : disk_of (root w) live = find n m -> comps path = comps live ++ r ->
  holds (m ++ r) t (MkWorld n 0 []) -> ReadFile (disk_of (root w)) path = Ok t.
Proof.
  intros Hl Hp (x & Hx & Hd). unfold ReadFile, disk_of. rewrite Hp, find_app.
  change (find (root w) (comps live)) with (disk_of (root w) live). rewrite Hl.
  cbn [root] in Hx. rewrite find_app in Hx. by rewrite Hx, Hd.
Qed.

(** A generation that was applied is the pack's: every list, ASN and
    country of the pack is a file of the live tree with the content of its
    blob, the sets, the live map and every profile are there as they were
    encoded, and the store now reads this tree and serves a snapshot with its
    fingerprint. Success means this whatever calls failed on the way. *)
Lemma applied_files p blobs w st w' st' : names_ok p ->
  Apply dataDir p blobs w st = (Ok tt, w', st') ->
  let file path t := ReadFile (disk_of (root w')) (Join live path) = Ok t in
  (forall id h, Lists p !! id = Some h ->
     exists t, blobs !! h = Some t /\ ReadFile (disk_of (root w')) (Join (Join live "lists") (id +:+ ".txt")) = Ok t)
  /\ (forall asn h, Asns p !! asn = Some h ->
     exists t, blobs !! h = Some t /\ ReadFile (disk_of (root w')) (Join (Join live "asns") (asn +:+ ".txt")) = Ok t)
  /\ (forall code h, Countries p !! code = Some h ->
     exists t, blobs !! h = Some t
       /\ ReadFile (disk_of (root w')) (Join (Join (Join live "geo") code) "ranges.txt") = Ok t)
  /\ (exists t, enc_sets (Sets p) = Ok t /\ file "sets.yaml" t)
  /\ (exists t, enc_live (Live p) = Ok t /\ file "live.yaml" t)
  /\ (forall name pr, Profiles p !! name = Some pr ->
     exists t, enc_profile pr = Ok t
       /\ ReadFile (disk_of (root w')) (Join (Join live "profiles") (name +:+ ".yaml")) = Ok t)
  /\ Store.paths st' = tree_paths live /\ exists c, serves st' live w' c.
Proof.
  intros Hn E. destruct (apply_ok _ _ _ _ _ _ E) as (w1 & w2 & Ew & Htree & Hserve).
  destruct (write_texts _ _ _ _ _ _ _ _ Ew) as (Tl & Ta & Tc & Ts & Ti & Tp).
  destruct (write_writes _ _ _ _ _ _ Hn _ _ Ew) as [Hall _].
  assert (forall x, x ∈ generation enc_sets enc_live enc_profile (comps staging) p blobs -> forall r path,
    x.1 = comps staging ++ r -> comps path = comps live ++ r -> ReadFile (disk_of (root w')) path = Ok x.2) as Hfile.
  { intros [q t] Hin r path Hq Hp. cbn [fst snd] in *. subst q.
    eapply live_file; [exact Htree|exact Hp|]. exact (Hall _ _ Hin). }
  destruct Hn as (Np & _ & Nl & Nc & Na & _). cbv zeta. unfold generation in Hfile.
  rewrite !Forall_app_in in Hfile. destruct Hfile as (Fl & Fa & Fc & Fs & Fi & Fp).
  split_and!; [| | | | | |by apply Hserve|by apply Hserve].
  - intros id h Hi. destruct (Tl id h Hi) as [t Ht]. exists t. split; [done|].
    refine (Fl (_, t) (group_in (list_path _) _ _ _ _ t Hi Ht) _ _ eq_refl _). apply file_comps; [done|by eapply Nl|done|cbn; lia].
  - intros id h Hi. destruct (Ta id h Hi) as [t Ht]. exists t. split; [done|].
    refine (Fa (_, t) (group_in (asn_path _) _ _ _ _ t Hi Ht) _ _ eq_refl _). apply file_comps; [done|by eapply Na|done|cbn; lia].
  - intros id h Hi. destruct (Tc id h Hi) as [t Ht]. exists t. split; [done|].
    refine (Fc (_, t) (group_in (country_path _) _ _ _ _ t Hi Ht) _ _ eq_refl _). apply ranges_comps. by eapply Nc.
  - destruct Ts as [t Ht]. unfold ok_text in Ht. destruct (enc_sets _) as [u|] eqn:Eu; [|done].
    exists u. split; [done|]. refine (Fs (_, u) _ ["sets.yaml"] _ eq_refl _); [by left|]. by apply sub_comps.
  - destruct Ti as [t Ht]. unfold ok_text in Ht. destruct (enc_live _) as [u|] eqn:Eu; [|done].
    exists u. split; [done|]. refine (Fi (_, u) _ ["live.yaml"] _ eq_refl _); [by left|]. by apply sub_comps.
  - intros name pr Hi. destruct (Tp name pr Hi) as [t Ht]. exists t.
    assert (enc_profile pr = Ok t) as Hpr by (unfold ok_text in Ht; destruct (enc_profile pr); congruence).
    split; [done|]. refine (Fp (_, t) (group_in (profile_path _) _ _ _ _ t Hi Ht) _ _ eq_refl _).
    apply file_comps; [done|by eapply Np|done|cbn; lia].
Qed.

End dirs.
End swapped.

(** ** Blobs *)

Section fetched.
Context (mget : list string -> result error (list value)).

Lemma take_blobs_ok p : forall hashes vals out r,
  take_blobs p hashes vals out = Ret r -> map_Forall (fun h b => hashOf b = h) out ->
  map_Forall (fun h b => hashOf b = h) r /\ (length hashes <= length vals -> forall h, h ∈ hashes -> is_Some (r !! h))%nat
  /\ (forall h, is_Some (out !! h) -> is_Some (r !! h)).
Proof.
  induction hashes as [|h hashes IH]; intros vals out r; destruct vals as [|v vals]; cbn [take_blobs].
  - intros [= <-] Ho. split_and!; [done| |done]. by intros _ h ?%elem_of_nil.
  - by destruct v.
  - intros [= <-] Ho. split_and!; [done| |done]. cbn. lia.
  - destruct v as [|s|t]; [done| |done]. destruct (String.eqb_spec (hashOf s) h) as [Hh|]; [|done].
    intros E Ho. destruct (IH _ _ _ E) as (H1 & H2 & H3); [by apply map_Forall_insert_2|].
    split_and!; [done| |].
    + cbn [length]. intros Hl h' [->|Hin]%elem_of_cons; [|apply H2; [lia|done]].
      apply H3. rewrite lookup_insert_eq. by eexists.
    + intros h' Hh'. apply H3. destruct (decide (h = h')) as [->|]; [rewrite lookup_insert_eq; by eexists|].
      by rewrite lookup_insert_ne.
Qed.

(** What is fetched is what the hashes say, and with an answer for every key,
    as [MGET] gives, there is a blob for every hash. *)
Lemma fetch_ok p blobs : FetchBlobs mget p = Ret blobs ->
  map_Forall (fun h b => hashOf b = h) blobs.
Proof.
  unfold FetchBlobs. destruct (Hashes p) as [|h hs] eqn:Eh; [by intros [= <-]; apply map_Forall_empty|].
  destruct (mget _) as [vals|e]; [|done]. intros E.
  by apply take_blobs_ok in E as (? & _ & _); [|apply map_Forall_empty].
Qed.

Lemma fetch_no_panic p : (forall ks vs, mget ks = Ok vs -> length vs = length ks) -> FetchBlobs mget p <> Panic.
Proof.
  intros Hm. unfold FetchBlobs. destruct (Hashes p) as [|h hs] eqn:Eh; [done|]. rewrite <- Eh.
  destruct (mget _) as [vals|e] eqn:E; [|done]. apply Hm in E. rewrite length_map in E.
  remember (Hashes p) as hashes eqn:El. clear El Eh. generalize (∅ : gmap string string) as out.
  revert vals E. induction hashes as [|x hashes IH]; intros [|v vals] E out; cbn [take_blobs]; try done.
  destruct v as [|s|t]; [done| |done]. destruct (String.eqb _ _); [|done]. apply IH. by injection E.
Qed.
End fetched.

(** ** Witnesses *)

Definition ex_text {A} (a : A) : result error string := Ok "text".
(** The hash of "10.0.0.0/8". *)
Definition ex_hash : string := "sha256:93997fe8a8121085052fd8c9a6515591714f1b745733ac379f691a9074d518a5".
Definition ex_pack : Pack :=
  MkPack 1 "ip-pack" 7 "sha256:b19b6cd91195247d01fffb9557bbb7619df701246bf037c03dea154c7c18186a" "" {["lab" := ex_hash]} ∅ ∅ ∅ ∅
    {["default" := MkProfile [] "" "" []]} 0 0 None.
Definition ex_blobs : gmap string string := {[ex_hash := "10.0.0.0/8"]}.
Definition ex_old : node := Dir (Some [("old", File (MkFile (Some "x") 1 1))]).
Definition ex_world (plan : list (Z * outcome)) : world :=
  MkWorld (Dir (Some [("data", Dir (Some [("policy", ex_old)]))])) 100 plan.
Definition ex_store : Store.store := Store.MkStore (Store.MkPaths "boot" "geo") None 0.
Definition ex_apply (yprofile : string -> result error Policy.fileProfile) (plan : list (Z * outcome)) :=
  Apply (H := ascii_only) ex_text ex_text ex_text (fun _ => Ok []) yprofile (fun _ => Ok [])
    "data" ex_pack ex_blobs (ex_world plan) ex_store.
Definition ex_good (text : string) : result error Policy.fileProfile := Ok (Policy.MkFileProfile [] "" "" []).
Definition ex_bad (text : string) : result error Policy.fileProfile := Err (errorf "bad").

Lemma ex_names : names_ok ex_pack.
Proof.
  unfold names_ok, names_safe, ex_pack. cbn [Profiles Sets Lists Countries Asns Live].
  split_and!; try apply map_Forall_empty; by apply map_Forall_singleton.
Qed.

(** The new generation does not load, and the way back fails on the way: the
    old tree stays parked. *)
Lemma apply_failure_keeps_witness :
  exists e w' st', ex_apply ex_bad (replicate 14 (1, Works) ++ [(1, Fails [] (Some ex_old) 0)]) = (Err e, w', st')
    /\ kept_tree "data" ex_old w'.
Proof.
  destruct (ex_apply ex_bad (replicate 14 (1, Works) ++ [(1, Fails [] (Some ex_old) 0)])) as [[r w'] st'] eqn:E.
  assert (is_ok (ex_apply ex_bad (replicate 14 (1, Works) ++ [(1, Fails [] (Some ex_old) 0)])).1.1 = false) as Hr
    by (vm_compute; reflexivity).
  rewrite E in Hr. destruct r as [[]|e]; [discriminate Hr|]. exists e, w', st'. split; [reflexivity|].
  apply (apply_failure_keeps (H := ascii_only) ex_text ex_text ex_text (fun _ => Ok []) ex_bad (fun _ => Ok [])
    "data" ex_pack ex_blobs _ _ _ _ _ ex_names E). reflexivity.
Defined.

End Apply.
