(* ===== verification/Layout.v ===== *)
(** * A generation on disk, exactly

    [Apply] shows that every file of a pack is in the tree it writes. Here is
    the other half: when no call of the file system fails there is no other
    file, and every directory can be walked as [listFiles] does. So what a
    policy is read from is the pack and nothing else. *)

From S2P Require Import Prelude GoStrings Files Protocol Policy Store Tree Pack Apply.

#[local] Open Scope Z_scope.

Module Layout.
Import Files Tree Pack Apply.

(** ** Trees that can be walked *)

(** Names in their order, each one component of a path; nothing unreadable. *)
Definition name_lt (a b : string) : Prop := string_less a b = true.
Definition names_fine (es : entries) : Prop :=
  StronglySorted name_lt es.*1 /\ Forall (fun c => component c = true) es.*1.
Definition readable (n : node) : Prop :=
  match n with
  | File f => is_Some (data f)
  | Dir None => False
  | Dir (Some es) => names_fine es
  end.
Definition tidy (n : node) : Prop := forall q m, find n q = Some m -> readable m.

Lemma tidy_below n p m : tidy n -> find n p = Some m -> tidy m.
Proof. intros Hn Hp q k Hq. apply (Hn (p ++ q)). by rewrite find_app, Hp. Qed.
Lemma tidy_entry es c m : tidy (Dir (Some es)) -> assoc c es = Some m -> tidy m.
Proof. intros Hn Hc. apply (tidy_below _ [c] _ Hn). cbn [find]. by rewrite Hc. Qed.
Lemma tidy_dir es : names_fine es -> (forall c m, assoc c es = Some m -> tidy m) -> tidy (Dir (Some es)).
Proof.
  intros He Hm [|c q] m; cbn [find]; [by intros [= <-]|].
  destruct (assoc c es) as [k|] eqn:E; [|done]. apply (Hm _ _ E).
Qed.
Lemma tidy_file f : is_Some (data f) -> tidy (File f).
Proof. intros Hf [|c q] m; [by intros [= <-]|done]. Qed.
Lemma tidy_empty : tidy (Dir (Some [])).
Proof. apply tidy_dir; [|done]. split; [constructor|by apply Forall_nil_2]. Qed.

Lemma assoc_in es c m : NoDup es.*1 -> assoc c es = Some m <-> (c, m) ∈ es.
Proof.
  induction es as [|[k x] es IH]; cbn [fmap list_fmap fst assoc]; [intros _; by rewrite elem_of_nil|].
  intros [Hk Hnd]%NoDup_cons. rewrite elem_of_cons. destruct (String.eqb_spec c k) as [->|Hne].
  - split; [intros [= ->]; by left|]. intros [[= ->]|Hin]; [done|]. destruct Hk. by apply (list_elem_of_fmap_2 fst) in Hin.
  - rewrite IH by done. split; [by right|]. by intros [[= ? _]|?].
Qed.
Lemma name_lt_irrefl a : ~ name_lt a a.
Proof. unfold name_lt. by rewrite string_less_irrefl. Qed.
Lemma names_nodup es : names_fine es -> NoDup es.*1.
Proof.
  intros [Hs _]. induction Hs as [|c l _ IH Hc]; [constructor|]. apply NoDup_cons. split; [|done].
  intros Hin. rewrite Forall_forall in Hc. by apply (name_lt_irrefl c), Hc.
Qed.

Lemma put_names c m es k : k ∈ (put c m es).*1 -> k = c \/ k ∈ es.*1.
Proof.
  induction es as [|[x y] es IH]; cbn [put fmap list_fmap fst].
  { intros ->%list_elem_of_singleton. by left. }
  destruct (String.eqb_spec c x) as [->|_]; cbn [fmap list_fmap fst]; rewrite ?elem_of_cons; [tauto|].
  destruct (string_less c x); cbn [fmap list_fmap fst]; rewrite ?elem_of_cons; tauto.
Qed.
Lemma drop_names c es k : k ∈ (drop_entry c es).*1 -> k ∈ es.*1.
Proof.
  induction es as [|[x y] es IH]; [done|]. cbn [drop_entry]. destruct (String.eqb c x); cbn [fmap list_fmap fst];
    rewrite ?elem_of_cons; tauto.
Qed.
Lemma put_fine c m es : component c = true -> names_fine es -> names_fine (put c m es).
Proof.
  intros Hc [Hs Hf]. split.
  - induction es as [|[x y] es IH]; cbn [put fmap list_fmap fst] in *; [by repeat constructor|].
    apply StronglySorted_inv in Hs as [Hs Hx]. apply Forall_cons in Hf as [_ Hf].
    destruct (String.eqb_spec c x) as [->|Hne]; cbn [fmap list_fmap fst]; [by constructor|].
    destruct (string_less c x) eqn:El; cbn [fmap list_fmap fst].
    + constructor; [by constructor|]. apply Forall_cons. split; [done|].
      eapply Forall_impl; [exact Hx|]. intros k. by apply string_less_trans.
    + constructor; [by apply IH|]. rewrite Forall_forall in *. intros k [->|Hk]%put_names; [|by apply Hx].
      destruct (string_less_total c x) as [?|[?|?]]; [congruence|done|done].
  - rewrite Forall_forall in *. intros k [->|Hk]%put_names; [done|by apply Hf].
Qed.
Lemma drop_fine c es : names_fine es -> names_fine (drop_entry c es).
Proof.
  intros [Hs Hf]. split.
  - induction es as [|[x y] es IH]; [done|]. cbn [drop_entry fmap list_fmap fst] in *.
    apply StronglySorted_inv in Hs as [Hs Hx]. apply Forall_cons in Hf as [_ Hf].
    destruct (String.eqb c x); [by apply IH|]. constructor; [by apply IH|].
    rewrite Forall_forall in *. intros k Hk%drop_names. by apply Hx.
  - rewrite Forall_forall in *. intros k Hk%drop_names. by apply Hf.
Qed.
Lemma set_fine c o es : component c = true -> names_fine es -> names_fine (set_entry c o es).
Proof. destruct o; cbn [set_entry]; auto using put_fine, drop_fine. Qed.

(** ** Walking *)

Lemma node_entries_ind (P : node -> Prop) :
  (forall f, P (File f)) -> P (Dir None) ->
  (forall es, (forall c m, (c, m) ∈ es -> P m) -> P (Dir (Some es))) -> forall n, P n.
Proof.
  intros Hf Hn Hd. fix self 1. intros [f|[es|]]; [apply Hf| |apply Hn]. apply Hd.
  induction es as [|[k x] es IH]; intros c m Hin; [clear self; by apply elem_of_nil in Hin|].
  apply elem_of_cons in Hin as [E|Hin]; [injection E as _ ->; apply self|exact (IH c m Hin)].
Qed.

(** A path below another, and the names that the walk skips. *)
Definition below (path : string) (q : list string) : string := fold_left Join q path.
Definition shown (c : string) : Prop := HasPrefix c "." = false.

Fixpoint walk_entries (path : string) (es : entries) : result error (list (string * file)) :=
  match es with
  | [] => Ok []
  | (name, n) :: es =>
      let* a := if HasPrefix name "." then Ok [] else walk (Join path name) n in
      let* b := walk_entries path es in
      Ok (a ++ b)
  end.
Lemma walk_dir path es : walk path (Dir (Some es)) = walk_entries path es.
Proof. cbn [walk]. induction es as [|[c m] es IH]; [done|]. cbn [walk_entries]. by rewrite <- IH. Qed.

(** The files of a tree are those that [find] finds. *)
Lemma walk_tidy n : tidy n -> forall path, exists out, walk path n = Ok out
  /\ forall x, x ∈ out <-> exists q, Forall shown q /\ find n q = Some (File x.2) /\ x.1 = below path q.
Proof.
  induction n as [f| |es IH] using node_entries_ind; intros Ht path.
  - exists [(path, f)]. split; [done|]. intros x. rewrite list_elem_of_singleton. split.
    + intros ->. by exists [].
    + intros ([|c q] & _ & Hq & Hx); [|done]. injection Hq as Hq. destruct x. cbn in *. congruence.
  - by destruct (Ht [] _ eq_refl).
  - pose proof (names_nodup _ (Ht [] _ eq_refl)) as Hnd. rewrite walk_dir.
    assert (forall c m, (c, m) ∈ es -> tidy m) as Htm
      by (intros c m Hin; apply (tidy_entry es c); [done|by apply assoc_in]).
    enough (exists out, walk_entries path es = Ok out /\ forall x, x ∈ out <-> exists c m q, (c, m) ∈ es
      /\ Forall shown (c :: q) /\ find m q = Some (File x.2) /\ x.1 = below path (c :: q)) as (out & E & Hout).
    { exists out. split; [done|]. intros x. rewrite Hout. split.
      - intros (c & m & q & Hin & Hs & Hq & Hx). exists (c :: q). split_and!; [done| |done]. cbn [find].
        by rewrite (proj2 (assoc_in _ _ _ Hnd) Hin).
      - intros ([|c q] & Hs & Hq & Hx); [done|]. cbn [find] in Hq.
        destruct (assoc c es) as [m|] eqn:Ec; [|done]. exists c, m, q. by rewrite <- assoc_in. }
    clear Ht Hnd. induction es as [|[c m] es IHes]; cbn [walk_entries].
    { exists []. split; [done|]. intros x. split; [by intros ?%elem_of_nil|]. by intros (? & ? & ? & ?%elem_of_nil & _). }
    destruct IHes as (b & -> & Hb); [intros; eapply IH; [by right|done]|intros ? ? ?; eapply Htm; by right|].
    destruct (HasPrefix c ".") eqn:Ec.
    + exists b. split; [done|]. intros x. rewrite Hb. setoid_rewrite elem_of_cons. split; [naive_solver|].
      intros (c' & m' & q & [[= -> ->]|Hin] & Hs & ?); [|by exists c', m', q].
      apply Forall_cons in Hs as [Hs _]. unfold shown in Hs. congruence.
    + destruct (IH c m (list_elem_of_here _ _) (Htm _ _ (list_elem_of_here _ _)) (Join path c)) as (a & -> & Ha).
      exists (a ++ b). split; [done|]. intros x. rewrite elem_of_app, Ha, Hb. setoid_rewrite elem_of_cons. split.
      * intros [(q & Hs & Hq & Hx)|(c' & m' & q & Hin & ?)]; [exists c, m, q|exists c', m', q]; split; auto.
      * intros (c' & m' & q & [[= -> ->]|Hin] & Hs & Hq & Hx); [left|right; by exists c', m', q].
        apply Forall_cons in Hs as [_ Hs]. by exists q.
Qed.

Lemma listFiles_tidy root path n : disk_of root path = Some n -> tidy n ->
  exists fs, listFiles (disk_of root) path = Ok fs
    /\ forall x, x ∈ fs <-> exists q, Forall shown q /\ find n q = Some (File x.2) /\ x.1 = below path q.
Proof.
  intros Hn Ht. unfold listFiles. rewrite Hn. destruct (walk_tidy n Ht path) as (out & -> & Hout).
  eexists. split; [done|]. intros x. rewrite sort_slice_perm. apply Hout.
Qed.

(** ** Changes that keep a tree tidy *)

Lemma update_tidy f p n n' : update f p n = Ok n' -> Forall (fun c => component c = true) p ->
  (forall o r, f o = Ok (Some r) -> tidy r) -> tidy n -> tidy n'.
Proof.
  intros E Hp Hf. revert n n' E. induction p as [|c p IH]; intros n n' E Ht; [by destruct n as [|[|]]|].
  apply Forall_cons in Hp as [Hc Hp]. specialize (IH Hp). clear Hp.
  destruct n as [x|[es|]]; [by destruct p| |by destruct p]. pose proof (Ht [] _ eq_refl) as Hes.
  destruct p as [|d p].
  - cbn [update] in E. apply result_bind_ok in E as (r & Hr & [= <-]).
    apply tidy_dir; [by apply set_fine|]. intros k m. destruct (decide (k = c)) as [->|Hne].
    + rewrite assoc_set_eq. intros ->. by eapply Hf.
    + rewrite assoc_set_ne by done. by apply tidy_entry.
  - change (update f (c :: d :: p) (Dir (Some es))) with
      (match assoc c es with
       | None => Err (missing (d :: p))
       | Some m => mbind (M := result error) (fun m => Ok (Dir (Some (put c m es)))) (update f (d :: p) m)
       end) in E.
    destruct (assoc c es) as [m|] eqn:Ec; [|done]. apply result_bind_ok in E as (m' & Hm & [= <-]).
    apply tidy_dir; [by apply put_fine|]. intros k x. destruct (decide (k = c)) as [->|Hne].
    + rewrite assoc_put_eq. intros [= <-]. eapply IH; [done|]. by eapply tidy_entry.
    + rewrite assoc_put_ne by done. by apply tidy_entry.
Qed.

Lemma mkdir_all_tidy p n n' : mkdir_all p n = Ok n' -> Forall (fun c => component c = true) p -> tidy n -> tidy n'.
Proof.
  revert n n'. induction p as [|c p IH]; intros n n' E Hp Ht; [by destruct n as [f|es]; [|injection E as <-]|].
  apply Forall_cons in Hp as [Hc Hp]. destruct n as [x|[es|]]; [done| |done].
  cbn [mkdir_all] in E. apply result_bind_ok in E as (m & Hm & [= <-]). pose proof (Ht [] _ eq_refl) as Hes.
  apply tidy_dir; [by apply put_fine|]. intros k x. destruct (decide (k = c)) as [->|Hne].
  - rewrite assoc_put_eq. intros [= <-]. eapply IH; [done..|].
    destruct (assoc c es) as [y|] eqn:Ec; [by eapply tidy_entry|apply tidy_empty].
  - rewrite assoc_put_ne by done. by apply tidy_entry.
Qed.

(** What stands at the path after the change is a file with a content. *)
Definition makes_file (f : option node -> result error (option node)) : Prop :=
  forall o r, f o = Ok r -> exists y, r = Some (File y) /\ is_Some (data y).

(** A directory that is made adds no file, a file that is written only itself. *)
Lemma mkdir_all_files p n n' q x : mkdir_all p n = Ok n' -> find n' q = Some (File x) -> find n q = Some (File x).
Proof.
  revert n n' q. induction p as [|c p IH]; intros n n' q E; [by destruct n as [f|es]; [|injection E as <-]|].
  destruct n as [y|[es|]]; [done| |done]. cbn [mkdir_all] in E. apply result_bind_ok in E as (m & Hm & [= <-]).
  destruct q as [|d q]; [done|]. cbn [find]. destruct (decide (d = c)) as [->|Hne]; [|by rewrite assoc_put_ne].
  rewrite assoc_put_eq. intros Hq. apply (IH _ _ _ Hm) in Hq.
  destruct (assoc c es) as [k|]; [done|]. by destruct q.
Qed.
Lemma update_files f p n n' q x : makes_file f -> update f p n = Ok n' ->
  find n' q = Some (File x) -> q = p \/ find n q = Some (File x).
Proof.
  intros Hf [(r & Hr & Hp) Hother]%update_spec Hq. destruct (Hf _ _ Hr) as (y & -> & _).
  destruct (apart_or p q) as [Ha|[[r ->]|[r ->]]].
  - right. by rewrite <- Hother.
  - left. rewrite find_app, Hp in Hq. destruct r as [|c r]; [by rewrite app_nil_r|done].
  - left. rewrite find_app, Hq in Hp. destruct r as [|c r]; [by rewrite app_nil_r|done].
Qed.

(** ** What an action adds below a directory *)

(** Both changes seen from below [d]. *)
Lemma update_at f d s n n' : s <> [] -> update f (d ++ s) n = Ok n' ->
  exists m m', find n d = Some m /\ update f s m = Ok m' /\ find n' d = Some m'.
Proof.
  intros Hs. revert n n'. induction d as [|c d IH]; intros n n' E; [by exists n, n'|].
  destruct (d ++ s) as [|a p] eqn:Ep; [by destruct d, s|].
  cbn [app] in E. rewrite Ep in E. destruct n as [x|[es|]]; [done| |done].
  change (update f (c :: a :: p) (Dir (Some es))) with
    (match assoc c es with
     | None => Err (missing (a :: p))
     | Some m => mbind (M := result error) (fun m => Ok (Dir (Some (put c m es)))) (update f (a :: p) m)
     end) in E.
  destruct (assoc c es) as [k|] eqn:Ec; [|done]. apply result_bind_ok in E as (k' & Hk & [= <-]).
  destruct (IH _ _ Hk) as (m & m' & Hm & Hu & Hm'). exists m, m'. cbn [find]. by rewrite Ec, assoc_put_eq.
Qed.
Definition empty_dir : node := Dir (Some []).
Lemma mkdir_at d s n n' : mkdir_all (d ++ s) n = Ok n' ->
  exists m', mkdir_all s (default empty_dir (find n d)) = Ok m' /\ find n' d = Some m'.
Proof.
  revert n n'. induction d as [|c d IH]; intros n n' E; [by exists n'|].
  destruct n as [x|[es|]]; [done| |done]. cbn [app mkdir_all] in E.
  apply result_bind_ok in E as (k & Hk & [= <-]). destruct (IH _ _ Hk) as (m' & Hm & Hf).
  exists m'. cbn [find]. rewrite assoc_put_eq. split; [|done].
  destruct (assoc c es); [done|]. by destruct d.
Qed.

(** The tree at [d], empty when there is none. *)
Definition tree_at (d : list string) (w : world) : node := default empty_dir (find (root w) d).
(** The action, when it succeeds, keeps the tree at [d] tidy and adds no file
    to it but those of [ps]. *)
Definition grows (d : list string) (ps : list (list string)) (m : IO) : Prop := forall w w', m w = (Ok tt, w') ->
  tidy (tree_at d w) -> tidy (tree_at d w')
    /\ forall q x, find (tree_at d w') q = Some (File x) -> q ∈ ps \/ find (tree_at d w) q = Some (File x).

Lemma MkdirAll_grows d r path : comps path = d ++ r -> Forall (fun c => component c = true) r ->
  grows d [] (MkdirAll path).
Proof.
  intros Hp Hr w w'. unfold MkdirAll. destruct (next w) as [[|t l k] w1] eqn:En; [|done].
  apply next_root in En. unfold finish, tree_at. destruct (mkdir_all _ _) as [n|e] eqn:E; [|done]. intros [= <-] Ht.
  rewrite Hp, En in E. destruct (mkdir_at _ _ _ _ E) as (m & Hm & Hf). cbn [root set_root]. rewrite Hf. cbn [default from_option id].
  split; [by eapply mkdir_all_tidy|]. intros q x Hq. right. by eapply mkdir_all_files.
Qed.
Lemma WriteFile_grows d s path content : comps path = d ++ s -> s <> [] -> Forall (fun c => component c = true) s ->
  grows d [s] (WriteFile path content).
Proof.
  intros Hp Hs Hc w w'. unfold WriteFile. destruct (next w) as [[|t l k] w1] eqn:En; [|done].
  apply next_root in En. unfold finish, tree_at. destruct (write_file _ _ _ _) as [n|e] eqn:E; [|done]. intros [= <-] Ht.
  rewrite Hp, En in E. unfold write_file in E. destruct (update_at _ _ _ _ _ Hs E) as (m & m' & Hm & Hu & Hf).
  cbn [root set_root]. rewrite Hm, Hf in *. cbn [default from_option id] in *.
  assert (makes_file (fun o => match o with Some (Dir _) => Err (isDir (d ++ s))
    | _ => Ok (Some (File (MkFile (Some content) (Z.of_nat (String.length content)) (clock w1)))) end)) as Hf'.
  { intros [[y|es]|] r; [|done|]; intros [= <-]; by eexists. }
  split; [|intros q x Hq].
  { apply (update_tidy _ _ _ _ Hu Hc); [|done]. intros o r Ho. destruct (Hf' _ _ Ho) as (y & [= ->] & Hy). by apply tidy_file. }
  destruct (update_files _ _ _ _ _ _ Hf' Hu Hq) as [->|?]; [left; by left|by right].
Qed.
Lemma grows_seq d ps qs m k : grows d ps m -> grows d qs k -> grows d (ps ++ qs) (seq_io m k).
Proof.
  intros Hm Hk w w' (w1 & H1 & H2)%seq_ok Ht. destruct (Hm _ _ H1 Ht) as [T1 F1], (Hk _ _ H2 T1) as [T2 F2].
  split; [done|]. intros q x Hq. rewrite elem_of_app. destruct (F2 _ _ Hq) as [?|Hq1]; [tauto|].
  destruct (F1 _ _ Hq1); tauto.
Qed.
Lemma grows_wrap d ps f m : grows d ps m -> grows d ps (wrap_io f m).
Proof. intros H w w' E%wrap_ok. by apply H. Qed.
Lemma grows_each {A} d (f : A -> IO) (g : A -> list (list string)) l :
  (forall a, a ∈ l -> grows d (g a) (f a)) -> grows d (concat (map g l)) (each_io f l).
Proof.
  induction l as [|a l IH]; intros Hf; [by intros w w' [= <-]; auto|].
  cbn [map concat]. apply grows_seq; [apply Hf; by left|]. apply IH. intros b Hb. apply Hf. by right.
Qed.
Lemma grows_weaken d ps qs m : (forall p, p ∈ ps -> p ∈ qs) -> grows d ps m -> grows d qs m.
Proof. intros Hs Hm w w' E Ht. destruct (Hm w w' E Ht) as [? F]. split; [done|]. intros q x Hq. destruct (F _ _ Hq); auto. Qed.

(** ** What [write] adds *)

Section written.
Context (enc_sets : gmap string Set_ -> result error string).
Context (enc_live : gmap string string -> result error string).
Context (enc_profile : Profile -> result error string).

Abbreviation generation := (generation enc_sets enc_live enc_profile).
Abbreviation write := (write enc_sets enc_live enc_profile).

Lemma group_iff {A} path text (m : gmap string A) q t :
  (q, t) ∈ group_files path text m <-> exists k a, m !! k = Some a /\ text a = Some t /\ q = path k.
Proof.
  split; [|by intros (k & a & Hk & Ht & ->); eapply group_in].
  intros Hin. unfold group_files in Hin. apply list_elem_of_In, in_concat in Hin as (l & Hl & Hin).
  apply in_map_iff in Hl as ([k a] & <- & Hx%list_elem_of_In%elem_of_map_to_list).
  unfold entry_file in Hin. cbn [fst snd] in Hin. destruct (text a) as [u|] eqn:Eu; [|done].
  destruct Hin as [[= <- <-]|[]]. by exists k, a.
Qed.
Lemma text_iff path text q t : (q, t) ∈ text_file path text <-> q = path /\ text = Ok t.
Proof.
  unfold text_file, ok_text. destruct text as [u|e]; [|by rewrite elem_of_nil; naive_solver].
  rewrite list_elem_of_singleton. naive_solver.
Qed.

Lemma generation_iff d p blobs q t : (q, t) ∈ generation d p blobs <->
  (exists id h, Lists p !! id = Some h /\ blobs !! h = Some t /\ q = list_path d id)
  \/ (exists asn h, Asns p !! asn = Some h /\ blobs !! h = Some t /\ q = asn_path d asn)
  \/ (exists code h, Countries p !! code = Some h /\ blobs !! h = Some t /\ q = country_path d code)
  \/ (q = d ++ ["sets.yaml"] /\ enc_sets (Sets p) = Ok t)
  \/ (q = d ++ ["live.yaml"] /\ enc_live (Live p) = Ok t)
  \/ (exists name pr, Profiles p !! name = Some pr /\ ok_text (enc_profile pr) = Some t /\ q = profile_path d name).
Proof. unfold Apply.generation. by rewrite !elem_of_app, !group_iff, !text_iff. Qed.
Lemma generation_at d p blobs q t : (q, t) ∈ generation [] p blobs -> (d ++ q, t) ∈ generation d p blobs.
Proof.
  rewrite !generation_iff.
  intros [(k & a & ? & ? & ->)|[(k & a & ? & ? & ->)|[(k & a & ? & ? & ->)|[[-> ?]|[[-> ?]|(k & a & ? & ? & ->)]]]]].
  - left. by exists k, a.
  - right; left. by exists k, a.
  - do 2 right; left. by exists k, a.
  - by do 3 right; left.
  - by do 4 right; left.
  - do 5 right. by exists k, a.
Qed.

Lemma component_file name ext : safe name = true -> contains_char "/" ext = false -> (2 < String.length ext)%nat ->
  forall sub, component sub = true -> Forall (fun c => component c = true) [sub; name +:+ ext].
Proof. intros ??? sub ?. repeat (apply Forall_cons; split; [by try apply safe_ext|]). apply Forall_nil_2. Qed.

Lemma writeBlob_grows d s path hash blobs : comps path = d ++ s -> s <> [] -> Forall (fun c => component c = true) s ->
  grows d (match blobs !! hash with Some t => [(s, t)] | None => [] end).*1 (writeBlob path hash blobs).
Proof.
  intros Hp Hs Hc w w'. unfold writeBlob. destruct (blobs !! hash) as [t|]; [|done].
  by apply (WriteFile_grows d s).
Qed.
Lemma write_text_grows d s path text : comps path = d ++ s -> s <> [] -> Forall (fun c => component c = true) s ->
  grows d (text_file s text).*1 (write_text text path).
Proof.
  intros Hp Hs Hc w w'. unfold write_text, text_file, ok_text. destruct text as [t|]; [|done].
  by apply (WriteFile_grows d s).
Qed.

Lemma group_grows {A} d path text (m : gmap string A) f :
  (forall x, x ∈ map_to_list m -> grows d (entry_file path text x).*1 (f x)) ->
  grows d (group_files path text m).*1 (each_io f (map_to_list m)).
Proof.
  intros Hf. unfold group_files.
  assert ((concat (map (entry_file path text) (map_to_list m))).*1
    = concat (map (fun x => (entry_file path text x).*1) (map_to_list m))) as ->; [|by apply grows_each].
  induction (map_to_list m) as [|x l IH]; [done|]. cbn [map concat]. rewrite fmap_app. f_equal. apply IH.
  intros y Hy. apply Hf. by right.
Qed.

Ltac place := first [done | cbn; lia].

(** Nothing but the files of the generation. *)
Lemma write_grows dir p blobs : names_ok p ->
  grows (comps dir) (generation [] p blobs).*1 (write dir p blobs).
Proof.
  intros (Hp & _ & Hl & Hc & Ha & _). unfold Apply.write, Apply.generation. rewrite !fmap_app.
  apply (grows_seq _ []).
  { eapply grows_weaken; [|apply (grows_each _ _ (fun _ => []))]; [by intros q Hq; cbn in Hq|].
    intros sub Hs. assert (component sub = true) as Hsub by (set_unfold; naive_solver).
    eapply MkdirAll_grows; [by apply sub_comps|]. by apply Forall_singleton. }
  repeat apply grows_seq.
  - apply group_grows. intros x Hx%(named_entry _ _ Hl). apply grows_wrap. eapply writeBlob_grows; [apply file_comps; place|done|apply component_file; place].
  - apply group_grows. intros x Hx%(named_entry _ _ Ha). apply grows_wrap. eapply writeBlob_grows; [apply file_comps; place|done|apply component_file; place].
  - apply group_grows. intros x Hx. pose proof (named_entry _ _ Hc Hx) as Hs.
    assert (Forall (fun c => component c = true) ["geo"; x.1]) as Hcs
      by (apply Forall_cons; split; [done|]; apply Forall_singleton; by apply safe_component).
    apply (grows_seq _ []); [eapply MkdirAll_grows; [by apply country_comps|done]|]. apply grows_wrap.
    eapply writeBlob_grows; [by apply ranges_comps|done|].
    by apply (Forall_app_2 _ ["geo"; x.1] ["ranges.txt"]); [|apply Forall_singleton].
  - eapply write_text_grows; [by apply sub_comps|done|by apply Forall_singleton].
  - eapply write_text_grows; [by apply sub_comps|done|by apply Forall_singleton].
  - apply group_grows. intros x Hx%(named_entry _ _ Hp). eapply write_text_grows; [apply file_comps; place|done|apply component_file; place].
Qed.
End written.

(** ** A pack that was applied without a fault *)

(** No call of the file system fails; time may pass. *)
Definition calm (w : world) : Prop := Forall (fun x => x.2 = Works) (plan w).

Lemma calm_next w o w1 : calm w -> next w = (o, w1) -> o = Works /\ calm w1.
Proof.
  unfold calm, next. destruct (plan w) as [|[dt x] l] eqn:E; [by intros _ [= <- <-]; rewrite E|].
  intros [Hx Hl]%Forall_cons [= <- <-]. done.
Qed.
Lemma calm_finish r w x w' : finish r w = (x, w') -> calm w -> calm w'.
Proof. unfold finish. by destruct r; intros [= <- <-]. Qed.
Lemma MkdirAll_calm path w r w' : MkdirAll path w = (r, w') -> calm w -> calm w'.
Proof.
  unfold MkdirAll. destruct (next w) as [o w1] eqn:En. intros E Hc. destruct (calm_next _ _ _ Hc En) as [-> Hc1].
  by eapply calm_finish.
Qed.
Lemma remove_all_total d c n : exists n', remove_all (d ++ [c]) n = Ok n'.
Proof.
  unfold remove_all. destruct (find n (d ++ [c])) as [m|] eqn:E; [|by exists n].
  destruct (find_entry n d c ltac:(congruence)) as [es Hd].
  destruct (update_in (fun _ => Ok None) d c n es None Hd eq_refl) as (n' & Hn & _). by exists n'.
Qed.
Lemma RemoveAll_gone d c path w : calm w -> comps path = d ++ [c] -> find (root (snd (RemoveAll path w))) (d ++ [c]) = None.
Proof.
  intros Hc Hp. unfold RemoveAll. destruct (next w) as [o w1] eqn:En. destruct (calm_next _ _ _ Hc En) as [-> _].
  rewrite Hp. destruct (remove_all_total d c (root w1)) as [n' Hn]. rewrite Hn. cbn [finish snd set_root root].
  by apply remove_all_spec in Hn as [? _].
Qed.

Section exact.
Context `{UnicodeLower}.
Context (enc_sets : gmap string Set_ -> result error string).
Context (enc_live : gmap string string -> result error string).
Context (enc_profile : Profile -> result error string).
Context (ysets : string -> result error (list (string * Policy.fileSet))).
Context (yprofile : string -> result error Policy.fileProfile).
Context (ylive : string -> result error (list (string * string))).
Context (dataDir : string).

Abbreviation live := (TreePath dataDir).
Abbreviation generation := (generation enc_sets enc_live enc_profile).
Abbreviation tree_paths := (Store.MkPaths live (GeoPath live)).

(** The tree has the files of the pack and no others. *)
Record exact (p : Pack) (blobs : gmap string string) (n : node) : Prop := {
  ex_tidy : tidy n;
  ex_texts : all_texts enc_sets enc_live enc_profile p blobs;
  ex_only : forall q x, find n q = Some (File x) -> exists t, (q, t) ∈ generation [] p blobs /\ data x = Some t;
  ex_all : forall q t, (q, t) ∈ generation [] p blobs -> exists x, find n q = Some (File x) /\ data x = Some t }.

Lemma written_exact p blobs staging w w' : names_ok p ->
  write enc_sets enc_live enc_profile staging p blobs w = (Ok tt, w') ->
  find (root w) (comps staging) = None -> exists n, find (root w') (comps staging) = Some n /\ exact p blobs n.
Proof.
  intros Hn E Hgone.
  destruct (write_grows enc_sets enc_live enc_profile staging p blobs Hn w w' E) as [Ht Hf];
    unfold tree_at in *; rewrite Hgone in *; cbn [default from_option id] in *; [apply tidy_empty|].
  destruct (write_writes enc_sets enc_live enc_profile staging p blobs Hn w w' E) as [Hall _].
  pose proof (write_texts _ _ _ _ _ _ _ _ E) as Htexts. destruct (proj1 (proj2 (proj2 (proj2 Htexts)))) as [t Hs].
  assert (forall q t, (q, t) ∈ generation [] p blobs ->
    exists x, find (root w') (comps staging ++ q) = Some (File x) /\ data x = Some t) as Hall'
    by (intros q u Hq; by apply Hall, generation_at).
  assert (exists n, find (root w') (comps staging) = Some n) as [n Hroot].
  { destruct (Hall' ["sets.yaml"] t) as (x & Hx & _).
    - apply generation_iff. do 3 right; left. split; [done|].
      unfold ok_text in Hs. destruct (enc_sets (Sets p)); congruence.
    - rewrite find_app in Hx. destruct (find (root w') (comps staging)); [by eexists|done]. }
  setoid_rewrite find_app in Hall'. rewrite Hroot in *. exists n. split; [done|]. cbn [default from_option id] in *.
  split; [done|done| |done]. intros q x Hq. destruct (Hf _ _ Hq) as [Hin|Hno]; [|by destruct q].
  apply list_elem_of_fmap in Hin as ([q' u] & -> & Hin). exists u. split; [done|].
  destruct (Hall' _ _ Hin) as (y & Hy & Hu). cbn [fst] in Hq. congruence.
Qed.

(** The snapshot that a pack which was applied is served from: it was built
    from a tree with the files of the pack and no others, unless the tree has
    the fingerprint of the one before. *)
Lemma applied_exact p blobs w st w' st' : names_ok p -> calm w ->
  Apply enc_sets enc_live enc_profile ysets yprofile ylive dataDir p blobs w st = (Ok tt, w', st') ->
  Store.gen st' <> Store.gen st ->
  exists wl n snap, disk_of (root wl) live = Some n /\ exact p blobs n
    /\ Store.paths st' = tree_paths /\ Store.cur st' = Some snap
    /\ Store.build ysets yprofile ylive (disk_of (root wl)) (clock wl) tree_paths (Store.gen st) = Ok snap.
Proof.
  intros Hn Hc (w0 & w2 & w3 & w4 & E0 & Ew & H3 & Er & _)%apply_steps Hgen.
  destruct (written_exact _ _ _ _ _ Hn Ew) as (n & Hroot & Hex).
  { rewrite (staging_comps dataDir). apply RemoveAll_gone; [by eapply MkdirAll_calm|apply staging_comps]. }
  unfold reload_from in Er. destruct (next w3) as [o w5] eqn:En. pose proof (next_root _ _ _ En) as Hr5.
  destruct o as [|t l k]; [|done]. exists w5, n. unfold Store.ReloadFrom in Er.
  destruct (Store.reload ysets yprofile ylive _ _ _ _ st) as [[b|e] st1] eqn:El; [|done]. injection Er as <- <-.
  cbn [Store.gen Store.paths Store.cur] in *. rewrite Hr5 in *.
  unfold Store.reload in El. destruct (Store.fingerprint _ _) as [fp|] eqn:Ef; [|done].
  destruct (Store.same_fingerprint st fp) eqn:Es; [by injection El as _ <-|].
  destruct (Store.build _ _ _ _ _ _ _) as [snap|] eqn:Eb; [|done]. exists snap.
  split; [by rewrite H3|]. split; [done|]. split; [done|].
  assert (Store.Fingerprint snap = fp) as Hfp.
  { unfold Store.build in Eb. rewrite Ef in Eb. cbn [mbind result_bind] in Eb. by apply Store.assemble_built in Eb as (_ & _ & ?). }
  rewrite Hfp, Es in El. by injection El as _ <-.
Qed.
End exact.

End Layout.
