(* ===== verification/Watch.v ===== *)
(** * Watching the desired state

    Models [internal/desired/watch.go]: what a published pack does to the
    node, the loop that listens for packs and retries, and the restart from
    the generation on disk. The JetStream watcher is the sequence of its
    events; Redis, the subscriptions and the clock are an environment of each
    event. Log lines are left out. *)

From S2P Require Import Prelude GoStrings NetIP Files Protocol Policy Composition Mirror Store Tree Pack Apply.

#[local] Open Scope Z_scope.

Module Watch.
Import Files Tree Pack Apply.

Record Applied : Type := MkApplied { hash : string; rev : Z; apply : string; names : list string }.
Definition noApplied : Applied := MkApplied "" 0 "" [].
Definition Snapshot (a : option Applied) : Applied := default noApplied a.
(** [set] *)
Definition set_applied (h : string) (r : Z) (a : string) (ns : list string) : Applied := MkApplied h r a ns.

(** What the loop works on: its report, the files, the policy, the live sets
    and the level of the log, when the program has one. *)
Record node : Type := MkNode {
  applied : Applied; files : world; policy : Store.store; live : Mirror.store; log_level : option Z }.

(** The world at one event: Redis, when it is configured; whether NATS is
    there and takes a subscription; the time. *)
Record env : Type := MkEnv {
  rdb : option (list string -> result error (list value)); nc : bool; subscribe : string -> bool; now : Z }.

Definition sync_live (e : env) (want : gmap string string) (st : Mirror.store) : Mirror.store :=
  let '(_, st, _) :=
    Mirror.Sync (fun (_ : unit) s => (subscribe e s, tt)) (now e) (nc e) want (map_to_list want) st tt in
  st.

Section watch.
Context `{UnicodeLower}.
Context (json_pack : string -> result error Pack).
Context (json_set : Set_ -> string) (json_profile : Profile -> string).
Context (parse_level : string -> result error Z).
Context (enc_sets : gmap string Set_ -> result error string).
Context (enc_live : gmap string string -> result error string).
Context (enc_profile : Profile -> result error string).
Context (yaml_sets : string -> result error (list (string * Policy.fileSet))).
Context (yaml_profile : string -> result error Policy.fileProfile).
Context (yaml_live : string -> result error (list (string * string))).
Context (dataDir : string).

Abbreviation ParsePack := (ParsePack json_pack json_set json_profile parse_level).
Abbreviation Apply := (Apply enc_sets enc_live enc_profile yaml_sets yaml_profile yaml_live dataDir).
Abbreviation reload_from := (reload_from yaml_sets yaml_profile yaml_live).

Definition with_applied (s : node) (a : Applied) : node :=
  MkNode a (files s) (policy s) (live s) (log_level s).
(** The report of a pack that failed keeps what was applied before. *)
Definition failed (a : Applied) : Applied := set_applied (hash a) (rev a) ApplyFailed (names a).

Definition handle (e : env) (raw : string) (s : node) : option (bool * node) :=
  match ParsePack raw with
  | Err _ => Some (false, s)
  | Ok p =>
      let a := Snapshot (Some (applied s)) in
      if String.eqb (apply a) ApplyOK && String.eqb (hash a) (SHA256 p) && (rev a =? Rev p) then Some (false, s)
      else match rdb e with
      | None => Some (false, with_applied s (failed a))
      | Some mget =>
          match FetchBlobs mget p with
          | Panic => None
          | Throw _ => Some (true, with_applied s (failed a))
          | Ret blobs =>
              match Apply p blobs (files s) (policy s) with
              | (Err _, w, st) => Some (false, MkNode (failed a) w st (live s) (log_level s))
              | (Ok _, w, st) =>
                  Some (false, MkNode (set_applied (SHA256 p) (Rev p) ApplyOK (Names p)) w st
                    (sync_live e (Live p) (live s)) (apply_level (Settings_ p) (log_level s)))
              end
          end
      end
  end.

(** The loop: the pack that waits for its blobs, and whether the timer is set. *)
Record loop : Type := MkLoop { pending : option string; retry : bool; node_of : node; running : bool }.
Inductive entry : Type := Put (raw : string) | Deleted.
Inductive event : Type :=
| Done
| Timer (e : env)
(** An update of the watcher; the nil entry ends its initial values. *)
| Update (x : option entry) (e : env)
| Closed.

Definition step (l : loop) (ev : event) : option loop :=
  if negb (running l) then Some l else
  match ev with
  | Done | Closed => Some (MkLoop (pending l) (retry l) (node_of l) false)
  | Timer e =>
      if negb (retry l) then Some l else
      match pending l with
      | None => Some (MkLoop None false (node_of l) true)
      | Some raw =>
          match handle e raw (node_of l) with
          | None => None
          | Some (true, s) => Some (MkLoop (Some raw) true s true)
          | Some (false, s) => Some (MkLoop None false s true)
          end
      end
  | Update None _ | Update (Some Deleted) _ => Some l
  | Update (Some (Put raw)) e =>
      match handle e raw (node_of l) with
      | None => None
      | Some (true, s) => Some (MkLoop (Some raw) true s true)
      | Some (false, s) => Some (MkLoop None false s true)
      end
  end.
Fixpoint run (l : loop) (evs : list event) : option loop :=
  match evs with
  | [] => Some l
  | ev :: evs => match step l ev with Some l => run l evs | None => None end
  end.
Definition start (s : node) : loop := MkLoop None false (with_applied s noApplied) true.

(** [Bootstrap]: whether the generation on disk was restored. *)
Definition Bootstrap (e : env) (s : node) : bool * node :=
  if String.eqb dataDir "" then (false, s) else
  match reload_from (TreePath dataDir) (files s) (policy s) with
  | (Err _, w, st) => (false, MkNode (applied s) w st (live s) (log_level s))
  | (Ok _, w, st) =>
      let lv := match Store.cur st with
                | Some snap => sync_live e (Store.Live_ snap) (live s)
                | None => live s
                end in
      (true, MkNode (applied s) w st lv (log_level s))
  end.

(** ** One pack *)

Abbreviation tree := (TreePath dataDir).
(** The file has the content that the hash names. *)
Definition content_of (w : world) (path h : string) : Prop :=
  exists t, ReadFile (disk_of (root w)) path = Ok t /\ hashOf t = h.
(** The node serves the pack: its report, the content of every file that the
    pack names by hash, the store. *)
Record serves_pack (p : Pack) (s : node) : Prop := {
  sp_report : applied s = MkApplied (SHA256 p) (Rev p) ApplyOK (Names p);
  sp_lists : map_Forall (fun id h =>
    content_of (files s) (Join (Join tree "lists") (id +:+ ".txt")) h) (Lists p);
  sp_asns : map_Forall (fun asn h =>
    content_of (files s) (Join (Join tree "asns") (asn +:+ ".txt")) h) (Asns p);
  sp_countries : map_Forall (fun cc h =>
    content_of (files s) (Join (Join (Join tree "geo") cc) "ranges.txt") h) (Countries p);
  sp_sets : exists t, enc_sets (Sets p) = Ok t /\ ReadFile (disk_of (root (files s))) (Join tree "sets.yaml") = Ok t;
  sp_live : exists t, enc_live (Live p) = Ok t /\ ReadFile (disk_of (root (files s))) (Join tree "live.yaml") = Ok t;
  sp_profiles : forall name pr, Profiles p !! name = Some pr -> exists t, enc_profile pr = Ok t
    /\ ReadFile (disk_of (root (files s))) (Join (Join tree "profiles") (name +:+ ".yaml")) = Ok t;
  sp_paths : Store.paths (policy s) = Store.MkPaths tree (GeoPath tree);
  sp_store : exists c, serves (policy s) tree (files s) c }.

Lemma parsed_names raw p : ParsePack raw = Ok p -> names_ok p.
Proof.
  intros (q & s & _ & Hw & _ & _ & ->)%pack_parsed. pose proof (wf_names _ Hw) as Hn.
  unfold kept. by destruct (String.eqb _ _).
Qed.

Lemma content_found (m blobs : gmap string string) w (path : string -> string) :
  map_Forall (fun h b => hashOf b = h) blobs ->
  (forall id h, m !! id = Some h -> exists t, blobs !! h = Some t /\ ReadFile (disk_of (root w)) (path id) = Ok t) ->
  map_Forall (fun id h => content_of w (path id) h) m.
Proof.
  intros Hb Hm id h Hi. destruct (Hm id h Hi) as (t & Ht & Hf). exists t. split; [done|]. by apply Hb.
Qed.

(** C5: A pack that is accepted ends in one of three ways. It was applied
    already, and nothing changes. It is applied: the report names it, every
    list, ASN and country file of the live tree has the SHA-256 that the pack
    says, the sets, the live map and the profiles are there as they were
    encoded, and the store reads and serves that tree. Or it fails: the report
    says so and keeps what was applied before, the live sets and the log level
    stay, a snapshot that came from the live tree stays the current one; and
    only when it is the blobs that failed is it tried again, with nothing
    touched. *)
Theorem desired_applied e raw s again s' p :
  ParsePack raw = Ok p -> handle e raw s = Some (again, s') ->
  (s' = s /\ again = false /\ apply (applied s) = ApplyOK /\ hash (applied s) = SHA256 p /\ rev (applied s) = Rev p)
  \/ (again = false /\ serves_pack p s'
      /\ live s' = sync_live e (Live p) (live s) /\ log_level s' = apply_level (Settings_ p) (log_level s))
  \/ (applied s' = failed (applied s) /\ live s' = live s /\ log_level s' = log_level s
      /\ (forall c, serves (policy s) tree (files s) c -> Store.cur (policy s') = Some c)
      /\ (again = true -> files s' = files s /\ policy s' = policy s)).
Proof.
  intros Hp. unfold handle. rewrite Hp. cbn [Snapshot default].
  destruct (_ && _ && _) eqn:Esame.
  { apply andb_true_iff in Esame as [[?%String.eqb_eq ?%String.eqb_eq]%andb_true_iff ?%Z.eqb_eq].
    intros [= <- <-]. by left. }
  intros E. right. destruct (rdb e) as [mget|].
  2: { injection E as <- <-. right. split_and!; try done. by intros c [? _]. }
  destruct (FetchBlobs mget p) as [|err|blobs] eqn:Ef; [done| |].
  { injection E as <- <-. right. split_and!; try done. by intros c [? _]. }
  destruct (Apply p blobs (files s) (policy s)) as [[r w] st] eqn:Ea.
  pose proof (parsed_names _ _ Hp) as Hn. destruct r as [[]|err]; injection E as <- <-.
  - left. split_and!; try done. apply fetch_ok in Ef.
    destruct (applied_files _ _ _ _ _ _ _ _ _ _ _ _ _ Hn Ea) as (Hl & Ha & Hc & Hs & Hi & Hpr & Hpaths & Hserve).
    split; cbn [applied files policy]; try done.
    + by apply (content_found _ blobs).
    + by apply (content_found _ blobs).
    + by apply (content_found _ blobs).
  - right. split_and!; try done. intros c Hc. cbn [policy].
    by apply (apply_err_serves _ _ _ _ _ _ _ _ _ _ _ _ _ _ c Hn Ea).
Qed.

(** With an answer for every key that is asked for, nothing panics. *)
Lemma handle_returns e raw s :
  (forall mget ks vs, rdb e = Some mget -> mget ks = Ok vs -> length vs = length ks) ->
  is_Some (handle e raw s).
Proof.
  intros Hm. unfold handle. destruct (ParsePack raw) as [p|]; [|by eexists].
  destruct (_ && _ && _); [by eexists|]. destruct (rdb e) as [mget|] eqn:Er; [|by eexists].
  pose proof (fetch_no_panic mget p ltac:(intros; by eapply Hm)).
  destruct (FetchBlobs mget p); [done|by eexists|].
  destruct (Apply p _ _ _) as [[[|] ?] ?]; by eexists.
Qed.

(** ** The loop *)

(** The packs that were published, the oldest first. *)
Definition puts (evs : list event) : list string :=
  omap (fun ev => match ev with Update (Some (Put raw)) _ => Some raw | _ => None end) evs.

(** What the report says after the packs [h]: the last one that was applied,
    if any, and whether the one after it failed. *)
Record report_ok (h : list string) (a : Applied) : Prop := {
  ro_state : apply a = "" \/ apply a = ApplyOK \/ apply a = ApplyFailed;
  ro_source : (hash a = "" /\ rev a = 0 /\ names a = [] /\ apply a <> ApplyOK)
    \/ exists raw p, raw ∈ h /\ ParsePack raw = Ok p
       /\ hash a = SHA256 p /\ rev a = Rev p /\ names a = Names p }.

Lemma report_more h h' a : report_ok h a -> (forall raw, raw ∈ h -> raw ∈ h') -> report_ok h' a.
Proof.
  intros [H1 H2] Hin. split; [done|]. destruct H2 as [?|(raw & p & ? & ?)]; [by left|].
  right. exists raw, p. by split; [apply Hin|].
Qed.

Lemma handle_report e raw s again s' h : handle e raw s = Some (again, s') -> raw ∈ h ->
  report_ok h (applied s) ->
  report_ok h (applied s') /\ (again = true -> apply (applied s') = ApplyFailed).
Proof.
  intros E Hr Ho. assert (report_ok h (failed (applied s))) as Hf.
  { destruct Ho as [H1 H2]. split; cbn; [by right; right|].
    destruct H2 as [(? & ? & ? & ?)|?]; [left; by split_and!|by right]. }
  revert E. unfold handle. destruct (ParsePack raw) as [p|] eqn:Ep; [|by intros [= <- <-]].
  destruct (_ && _ && _); [by intros [= <- <-]|]. destruct (rdb e) as [mget|]; [|by intros [= <- <-]].
  destruct (FetchBlobs mget p) as [|err|blobs]; [done|by intros [= <- <-]|].
  destruct (Apply p blobs _ _) as [[[[]|err] w] st]; intros [= <- <-]; [|by split].
  split; [|done]. split; cbn; [by right; left|]. right. by exists raw, p.
Qed.

Record loop_ok (h : list string) (l : loop) : Prop := {
  lo_report : report_ok h (applied (node_of l));
  lo_timer : retry l = true <-> is_Some (pending l);
  lo_pending : forall raw, pending l = Some raw ->
    raw ∈ h /\ apply (applied (node_of l)) = ApplyFailed /\ (running l = true -> last h = Some raw) }.

Lemma step_handled e raw l h l' : report_ok h (applied (node_of l)) -> last h = Some raw ->
  match handle e raw (node_of l) with
  | None => None
  | Some (true, s) => Some (MkLoop (Some raw) true s true)
  | Some (false, s) => Some (MkLoop None false s true)
  end = Some l' -> loop_ok h l'.
Proof.
  intros Ho Hlast. assert (raw ∈ h) as Hin by by apply last_Some_elem_of.
  destruct (handle e raw (node_of l)) as [[again s]|] eqn:E; [|done].
  destruct (handle_report _ _ _ _ _ h E Hin Ho) as [Hr Ha].
  destruct again; intros [= <-]; split; cbn; try done.
  - intros raw' [= <-]. split_and!; [done|by apply Ha|done].
Qed.

Lemma step_ok h l ev l' : loop_ok h l -> step l ev = Some l' -> loop_ok (h ++ puts [ev]) l'.
Proof.
  intros Hl. unfold step. destruct (running l) eqn:Erun; cbn [negb].
  2: { intros [= <-]. destruct Hl as [H1 H2 H3]. split; [|done|].
       - eapply report_more; [done|]. intros. apply elem_of_app. by left.
       - intros raw Hp. destruct (H3 raw Hp) as (? & ? & _). rewrite elem_of_app, Erun. by split_and!; [left| |]. }
  destruct ev as [|e|[[raw|]|] e|]; cbn [puts omap list_omap]; try rewrite app_nil_r.
  - intros [= <-]. destruct Hl as [H1 H2 H3]. split; [done|done|]. intros raw Hp.
    by destruct (H3 raw Hp) as (? & ? & _).
  - destruct (retry l) eqn:Er; cbn [negb]; [|by intros [= <-]].
    destruct (lo_timer _ _ Hl) as [Ht _]. destruct (pending l) as [raw|] eqn:Ep; [|by destruct (Ht Er)].
    destruct (lo_pending _ _ Hl raw Ep) as (_ & _ & Hlast). apply step_handled; [apply Hl|by apply Hlast].
  - apply step_handled; [|by rewrite last_snoc].
    eapply report_more; [apply Hl|]. intros. apply elem_of_app. by left.
  - by intros [= <-].
  - by intros [= <-].
  - intros [= <-]. destruct Hl as [H1 H2 H3]. split; [done|done|]. intros raw Hp.
    by destruct (H3 raw Hp) as (? & ? & _).
Qed.

Lemma run_snoc l evs ev l' : run l (evs ++ [ev]) = Some l' ->
  exists l1, run l evs = Some l1 /\ step l1 ev = Some l'.
Proof.
  revert l. induction evs as [|e evs IH]; intros l; cbn [app run].
  - destruct (step l ev) as [l1|] eqn:E; [|done]. intros [= <-]. by exists l.
  - destruct (step l e) as [l1|]; [apply IH|done].
Qed.


(** The restart either serves the tree on disk or leaves the store alone. *)
Lemma bootstrap_spec e s b s' : Bootstrap e s = (b, s') ->
  if (b : bool) then Store.paths (policy s') = Store.MkPaths tree (GeoPath tree)
    /\ exists c, serves (policy s') tree (files s') c
  else policy s' = policy s /\ live s' = live s.
Proof.
  unfold Bootstrap. destruct (String.eqb dataDir ""); [by intros [= <- <-]|].
  destruct (reload_from tree (files s) (policy s)) as [[[[]|err] w] st] eqn:E;
    destruct (reload_from_root _ _ _ _ _ _ _ _ _ E) as [Hr Hst]; intros [= <- <-].
  - apply reload_from_ok in E as (Hp & c & Hc & Hf). split; [done|]. exists c. split; [done|].
    cbn [files]. by rewrite (fingerprint_tree _ (root (files s))) by (unfold disk_of; by rewrite Hr).
  - by split; [apply Hst|].
Qed.
End watch.

(** ** Witnesses *)

Definition ex_json (raw : string) : result error Pack := Ok ex_pack.
Definition ex_env (vals : result error (list value)) : env :=
  MkEnv (Some (fun _ => vals)) true (fun _ => true) 0.
Definition ex_node : node := MkNode noApplied (ex_world []) ex_store Mirror.New None.
Definition ex_handle (e : env) :=
  handle (H := ascii_only) ex_json (fun _ => "s") (fun _ => "p") (fun _ => Ok 0)
    ex_text ex_text ex_text (fun _ => Ok []) ex_good (fun _ => Ok []) "data" e "raw" ex_node.
Definition ex_run (evs : list event) :=
  run (H := ascii_only) ex_json (fun _ => "s") (fun _ => "p") (fun _ => Ok 0)
    ex_text ex_text ex_text (fun _ => Ok []) ex_good (fun _ => Ok []) "data" (start ex_node) evs.
Definition ex_parse := ParsePack ex_json (fun _ => "s") (fun _ => "p") (fun _ => Ok 0) "raw".

Lemma desired_applied_witness :
  exists p s', ex_parse = Ok p /\ ex_handle (ex_env (Ok [Str "10.0.0.0/8"])) = Some (false, s')
    /\ apply (applied s') = ApplyOK
    /\ content_of (files s') "data/policy/lists/lab.txt" ex_hash.
Proof.
  destruct ex_parse as [p|err] eqn:Ep.
  2: { assert (is_ok ex_parse = true) as Hp by (vm_compute; reflexivity). rewrite Ep in Hp. discriminate Hp. }
  assert (forall r, ex_handle (ex_env (Ok [Str "10.0.0.0/8"])) = r ->
    match r with Some (again, s') => negb again && String.eqb (apply (applied s')) ApplyOK | None => false end = true)
    as Hr by (intros r <-; vm_compute; reflexivity).
  assert (match ex_parse with Ok p => bool_decide (Lists p !! "lab" = Some ex_hash) | Err _ => false end = true)
    as Hl by (vm_compute; reflexivity).
  rewrite Ep in Hl. apply bool_decide_eq_true in Hl.
  destruct (ex_handle (ex_env (Ok [Str "10.0.0.0/8"]))) as [[again s']|] eqn:E; specialize (Hr _ eq_refl); [|discriminate Hr].
  apply andb_true_iff in Hr as [Ha Ho]. apply String.eqb_eq in Ho. destruct again; [discriminate Ha|].
  exists p, s'. split; [reflexivity|]. split; [reflexivity|]. split; [exact Ho|].
  unfold ex_parse in Ep. unfold ex_handle in E.
  destruct (desired_applied (H := ascii_only) ex_json (fun _ => "s") (fun _ => "p") (fun _ => Ok 0)
    ex_text ex_text ex_text (fun _ => Ok []) ex_good (fun _ => Ok []) "data"
    (ex_env (Ok [Str "10.0.0.0/8"])) "raw" ex_node false s' p Ep E)
    as [(_ & _ & Hno & _)|[(_ & Hs & _)|(Hf & _)]].
  - discriminate Hno.
  - exact (sp_lists _ _ _ _ _ _ Hs "lab" _ Hl).
  - rewrite Hf in Ho. discriminate Ho.
Defined.


End Watch.
