(* ===== verification/Config.v ===== *)
(** * The configuration

    Models [internal/config]: the environment variables, the file
    [inspector.conf], the checks of the result. The environment, the disk and
    the working directory are arguments, and so are [loglevel.Parse]
    (placitum-shared), [net/url.Parse], [time.ParseDuration] and the letters
    and digits of Unicode beyond ASCII. [LogInternalRedis] and [redactURL]
    only write to the log. *)

From S2P Require Import Prelude GoStrings Files Protocol.

#[local] Open Scope Z_scope.

Module Config.
Import Files.

Definition QueueFullDrop : string := "drop".
Definition QueueFullWait : string := "wait".
Definition QueueExpandOff : string := "off".
Definition QueueExpandAsk : string := "ask".
Definition InternalFromExchange : string := "exchange".

(** Times are in nanoseconds. *)
Record Config : Type := MkConfig {
  Servers : list string; Subject : string; Name : string; Queue : string;
  PolicyDir : string; GeoDir : string; DataDir : string; BlobsURL : string; BlobsFrom : string;
  ReloadEvery : Z;
  Workers : Z; QueueDepth : Z; QueueFull : string; QueueExpand : string; ConfPath : string;
  ReserveMS : Z; MinBudgetMS : Z; Versions : list Z; LogLevel : Z; HeartbeatEvery : Z;
  GeoAddr : string; GeoTimeout : Z; GeoNegMax : Z }.
Record queueFile : Type := MkFile {
  Max : option Z; Full : string; Expand : string; RedisURL : string; RedisInternal : string }.
Definition emptyFile : queueFile := MkFile None "" "" "" "".
Record queueSettings : Type := MkSettings { q_Max : Z; q_Full : string; q_Expand : string }.

Definition Supports (c : Config) (v : Z) : bool := existsb (fun known => known =? v) (Versions c).

(** ** The file *)

Section file.
(** Whether [url.Parse] gives a scheme and a host, and which. *)
Context (url_parse : string -> option (string * string)).
(** Whether every rune of a string that is not ASCII is a letter, a digit or
    an underscore. *)
Context (unicode_name : string -> bool).

Definition isRedisURL (s : string) : bool :=
  match url_parse s with
  | None => false
  | Some (scheme, host) =>
      negb (String.eqb host "") && (String.eqb scheme "redis" || String.eqb scheme "rediss")
  end.

Definition confText (line : string) : string := TrimSpace (fst (Cut line "#")).
Definition requireSemicolon (text : string) : result error string :=
  match CutSuffix text ";" with
  | None => Err (errorf "missing semicolon")
  | Some s => Ok (TrimSpace s)
  end.
Definition name_char (c : ascii) : bool :=
  Ascii.eqb c "_" || is_lower c || is_upper c || is_digit c.
Definition isConfName (s : string) : bool :=
  if String.eqb s "" then false
  else if is_ascii s then string_forallb name_char s else unicode_name s.
Definition has_blank (s : string) : bool := contains_char " " s || contains_char "009" s.
Definition splitDirective (stmt : string) : result error (string * string) :=
  let stmt := TrimSpace stmt in
  check reject_if (String.eqb stmt "") (errorf "empty directive");;
  match Cut stmt " " with
  | (_, None) => Err (Errorf "directive %q has no value" [stmt])
  | (key, Some rest) =>
      check reject_if (negb (isConfName key)) (Errorf "invalid directive name %q" [key]);;
      let value := TrimSpace rest in
      check reject_if (String.eqb value "" || has_blank value)
        (Errorf "directive %s expects one value" [key]);;
      Ok (key, value)
  end.

Definition with_url (f : queueFile) (v : string) : queueFile :=
  MkFile (Max f) (Full f) (Expand f) v (RedisInternal f).
Definition with_internal (f : queueFile) (v : string) : queueFile :=
  MkFile (Max f) (Full f) (Expand f) (RedisURL f) v.
Definition parseRedisKey (out : queueFile) (seen : gset string) (text : string)
  : result error (queueFile * gset string) :=
  let* stmt := requireSemicolon text in
  let* '(key, value) := splitDirective stmt in
  let id := "redis." +:+ key in
  check reject_if (bool_decide (id ∈ seen)) (Errorf "redis %s is set twice" [key]);;
  check reject_if (negb (String.eqb key "url") && negb (String.eqb key "internal"))
    (Errorf "unknown key %q in the redis block, want url or internal" [key]);;
  check reject_if (negb (isRedisURL value))
    (Errorf "redis %s must be redis://host:port[/db] or rediss://..., got %q" [key; value]);;
  Ok (if String.eqb key "url" then with_url out value else with_internal out value, {[id]} ∪ seen).

(** The [switch] over the directives. *)
Definition set_directive (out : queueFile) (key value : string) : result error queueFile :=
  if String.eqb key "queue_max" then
    match Atoi value with
    | None => Err (Errorf "queue_max must be a positive integer, got %q" [value])
    | Some v =>
        if v <? 1 then Err (Errorf "queue_max must be a positive integer, got %q" [value])
        else Ok (MkFile (Some v) (Full out) (Expand out) (RedisURL out) (RedisInternal out))
    end
  else if String.eqb key "queue_full" then
    if String.eqb value QueueFullDrop || String.eqb value QueueFullWait
    then Ok (MkFile (Max out) value (Expand out) (RedisURL out) (RedisInternal out))
    else Err (Errorf "queue_full must be drop or wait, got %q" [value])
  else if String.eqb key "queue_expand" then
    if String.eqb value QueueExpandOff || String.eqb value QueueExpandAsk
    then Ok (MkFile (Max out) (Full out) value (RedisURL out) (RedisInternal out))
    else Err (Errorf "queue_expand must be off or ask, got %q" [value])
  else Err (Errorf "unknown directive %q" [key]).

(** The state of the loop over the lines: what was read, the names set so
    far, the open block with the line where it was opened. *)
Record reading : Type := MkReading { out : queueFile; seen : gset string; block : string; opened : Z }.

Definition at_line (name : string) (n : Z) : error -> error := wrapf "%s:%d: " [name; FormatInt n].
Definition read_line (n : Z) (text : string) (r : reading) : result error reading :=
  if String.eqb text "" then Ok r
  else if negb (String.eqb (block r) "") then
    if String.eqb text "}" then Ok (MkReading (out r) (seen r) "" (opened r))
    else
      let* '(o, s) := parseRedisKey (out r) (seen r) text in
      Ok (MkReading o s (block r) (opened r))
  else if String.eqb text "}" then Err (errorf "unexpected }")
  else match CutSuffix text "{" with
  | Some head =>
      let head := TrimSpace head in
      check reject_if (negb (String.eqb head "redis")) (Errorf "unknown block %q" [head]);;
      check reject_if (bool_decide (head ∈ seen r)) (Errorf "%s block is set twice" [head]);;
      Ok (MkReading (out r) ({[head]} ∪ seen r) head n)
  | None =>
      let* stmt := requireSemicolon text in
      let* '(key, value) := splitDirective stmt in
      check reject_if (bool_decide (key ∈ seen r)) (Errorf "%s is set twice" [key]);;
      let* o := set_directive (out r) key value in
      Ok (MkReading o ({[key]} ∪ seen r) (block r) (opened r))
  end.
Fixpoint read_lines (name : string) (n : Z) (lines : list string) (r : reading) : result error reading :=
  match lines with
  | [] => Ok r
  | line :: lines =>
      let* r := map_err (at_line name n) (read_line n (confText line) r) in
      read_lines name (n + 1) lines r
  end.
Definition parseQueueFile (name src : string) : result error queueFile :=
  let* r := read_lines name 1 (Split src "010") (MkReading emptyFile ∅ "" 0) in
  check reject_if (negb (String.eqb (block r) ""))
    (wrapf "%s:%d: " [name; FormatInt (opened r)] (Errorf "%s block is not closed" [block r]));;
  Ok (out r).
Definition loadQueueFile (d : disk) (path : string) : result error queueFile :=
  let* raw := map_err (wrapf "%s: " [path]) (ReadFile d path) in parseQueueFile path raw.

(** ** The environment *)

(** [os.LookupEnv]. *)
Context (getenv : string -> option string).

Definition env (name def : string) : string :=
  match getenv name with
  | Some v => if String.eqb v "" then def else v
  | None => def
  end.
(** The value when it is not empty. *)
Definition set_env (name : string) : option string :=
  match getenv name with
  | Some v => if String.eqb v "" then None else Some v
  | None => None
  end.
Definition badNumber (name raw : string) : error := Errorf "%s: invalid syntax" [name; raw].
Definition envIntIfSet (name : string) (def : Z) : result error Z :=
  match set_env name with
  | None => Ok def
  | Some raw =>
      match Atoi (TrimSpace raw) with
      | Some v => Ok v
      | None => Err (badNumber name raw)
      end
  end.
Definition envInt (name : string) (def : Z) : result error Z := envIntIfSet name def.

Definition splitList (s : string) : list string :=
  List.filter (fun part => negb (String.eqb part "")) (map TrimSpace (Split s ",")).
Fixpoint atoi_all (name : string) (parts : list string) : result error (list Z) :=
  match parts with
  | [] => Ok []
  | part :: parts =>
      match Atoi part with
      | None => Err (badNumber name part)
      | Some v => let* vs := atoi_all name parts in Ok (v :: vs)
      end
  end.
Definition envIntList (name : string) (def : list Z) : result error (list Z) :=
  match set_env name with
  | None => Ok def
  | Some raw => atoi_all name (splitList raw)
  end.

(** [time.ParseDuration] *)
Context (parse_duration : string -> option Z).
Definition envDuration (name : string) (def : Z) : result error Z :=
  match set_env name with
  | None => Ok def
  | Some raw =>
      match parse_duration (TrimSpace raw) with
      | None => Err (Errorf "%s: invalid duration" [name; raw])
      | Some d => check reject_if (d <=? 0) (Errorf "%s must be positive" [name]);; Ok d
      end
  end.

(** The trimmed value when something is left of it. *)
Definition trimmed_env (name : string) : option string :=
  match getenv name with
  | Some v => if String.eqb (TrimSpace v) "" then None else Some (TrimSpace v)
  | None => None
  end.
Definition envOverride (name current : string) : string := default current (trimmed_env name).

Definition internalRedis (path : string) (file : queueFile) (exchange : string) : string * string :=
  match trimmed_env "REDIS_INTERNAL_URL" with
  | Some v => (v, "REDIS_INTERNAL_URL")
  | None =>
      if negb (String.eqb (RedisInternal file) "") then (RedisInternal file, path)
      else if negb (String.eqb exchange "") then (exchange, InternalFromExchange)
      else ("", "")
  end.
Definition noExchangeRedis (path : string) (file : queueFile) : result error unit :=
  reject_if (negb (String.eqb (RedisURL file) ""))
    (Errorf "%s: redis url: this inspector does not read the exchange, remove the key" [path]).
Definition applyQueueFile (c : queueSettings) (file : queueFile) : queueSettings :=
  MkSettings (default (q_Max c) (Max file))
    (if String.eqb (Full file) "" then q_Full c else Full file)
    (if String.eqb (Expand file) "" then q_Expand c else Expand file).

(** ** Paths and levels *)

Context (d : disk).
(** [filepath.Abs] *)
Context (abs : string -> result error string).
(** [loglevel.Parse] *)
Context (parse_level : string -> result error Z).
(** [runtime.GOMAXPROCS(0)] *)
Context (maxprocs : Z).
Context `{UnicodeLower}.

Definition is_file (path : string) : bool := match d path with Some (File _) => true | _ => false end.
Definition confPath (envName : string) : string :=
  match trimmed_env envName with
  | Some v => v
  | None =>
      if is_file "inspector.conf" then "inspector.conf"
      else if is_file "/app/inspector.conf" then "/app/inspector.conf"
      else ""
  end.
Definition parseLevel (s : string) : result error Z :=
  map_err (wrapf "WAF_IP_LOG: " []) (parse_level s).

(** One directory of [validate]: its absolute path. *)
Definition check_dir (name path : string) : result error string :=
  let* a := map_err (wrapf "%s: " [name]) (abs path) in
  match d a with
  | None => Err (wrapf "%s: " [name] (notExist a))
  | Some (File _) => Err (Errorf "%s: %s is not a directory" [name; a])
  | Some (Dir _) => Ok a
  end.
Definition with_dirs (c : Config) (policy geo : string) : Config :=
  MkConfig (Servers c) (Subject c) (Name c) (Queue c) policy geo (DataDir c) (BlobsURL c) (BlobsFrom c)
    (ReloadEvery c) (Workers c) (QueueDepth c) (QueueFull c) (QueueExpand c) (ConfPath c) (ReserveMS c)
    (MinBudgetMS c) (Versions c) (LogLevel c) (HeartbeatEvery c) (GeoAddr c) (GeoTimeout c) (GeoNegMax c).
Definition validate (c : Config) : result error Config :=
  check reject_if (bool_decide (Servers c = [])) (errorf "NATS_URL is empty");;
  check reject_if (String.eqb (Subject c) "" || String.eqb (Name c) "" || String.eqb (Queue c) "")
    (errorf "subject, name and queue must not be empty");;
  check reject_if (Workers c <? 1) (Errorf "WAF_IP_WORKERS must be positive, got %d" [FormatInt (Workers c)]);;
  check reject_if (QueueDepth c <? 1) (Errorf "queue_max must be positive, got %d" [FormatInt (QueueDepth c)]);;
  check reject_if (negb (String.eqb (QueueFull c) QueueFullDrop || String.eqb (QueueFull c) QueueFullWait))
    (Errorf "queue_full must be drop or wait, got %q" [QueueFull c]);;
  check reject_if (negb (String.eqb (QueueExpand c) QueueExpandOff || String.eqb (QueueExpand c) QueueExpandAsk))
    (Errorf "queue_expand must be off or ask, got %q" [QueueExpand c]);;
  check reject_if ((ReserveMS c <? 0) || (MinBudgetMS c <? 0))
    (errorf "WAF_IP_RESERVE_MS and WAF_IP_MIN_BUDGET_MS must not be negative");;
  check reject_if (bool_decide (Versions c = [])) (errorf "WAF_IP_VERSIONS is empty");;
  let* policy := check_dir "WAF_IP_POLICY" (PolicyDir c) in
  let* geo := check_dir "WAF_IP_GEO" (GeoDir c) in
  Ok (with_dirs c policy geo).

(** The file that was found, or none. *)
Definition load_file (path : string) : result error queueFile :=
  if String.eqb path "" then Ok emptyFile else loadQueueFile d path.
Definition second : Z := 1000000000.

Definition Load : result error Config :=
  let name := env "WAF_IP_NAME" "ip" in
  let* workers := envInt "WAF_IP_WORKERS" maxprocs in
  let path := confPath "WAF_IP_CONF" in
  let* file := load_file path in
  let q := applyQueueFile (MkSettings 256 QueueFullDrop QueueExpandOff) file in
  check noExchangeRedis path file;;
  let '(blobs, from) := internalRedis path file "" in
  let* depth := envIntIfSet "WAF_IP_QUEUE_DEPTH" (q_Max q) in
  let full := envOverride "WAF_IP_QUEUE_FULL" (q_Full q) in
  let expand := envOverride "WAF_IP_QUEUE_EXPAND" (q_Expand q) in
  let* reserve := envInt "WAF_IP_RESERVE_MS" 1 in
  let* budget := envInt "WAF_IP_MIN_BUDGET_MS" 1 in
  let* versions := envIntList "WAF_IP_VERSIONS" [2] in
  let* level := parseLevel (env "WAF_IP_LOG" "info") in
  let* heartbeat := envDuration "WAF_HEARTBEAT_EVERY" (4 * second) in
  let* reload := envDuration "WAF_IP_RELOAD_EVERY" second in
  let* geo := envDuration "WAF_IP_GEO_TIMEOUT" (500 * 1000000) in
  let* neg := envInt "WAF_IP_GEO_NEG_MAX" 0 in
  validate
    (MkConfig (splitList (env "NATS_URL" "nats://127.0.0.1:4222")) (env "WAF_IP_SUBJECT" "waf.req.ip") name
       (env "WAF_IP_QUEUE" name) (env "WAF_IP_POLICY" "./policy") (env "WAF_IP_GEO" "./data/geo")
       (env "WAF_IP_DATA" "") blobs from reload workers depth full expand path reserve budget versions level
       heartbeat (env "WAF_IP_GEO_ADDR" "") geo neg).

(** ** The log *)

Definition LogShip : bool :=
  let v := ToLower (TrimSpace (default "" (getenv "WAF_LOG_SHIP"))) in
  negb (existsb (String.eqb v) ["off"; "0"; "no"; "false"]).
(** [hostname] is what [os.Hostname] gives, if it does. *)
Definition LogWriter (hostname : option string) (fallback : string) : string :=
  let v := TrimSpace (default "" (getenv "WAF_LOG_WRITER")) in
  if negb (String.eqb v "") then v
  else match hostname with
       | Some name => if negb (String.eqb name "") then name else fallback
       | None => fallback
       end.
End file.

(** ** A configuration that was accepted *)

(** What the rest of the program relies on. *)
Record usable (d : disk) (c : Config) : Prop := {
  us_servers : Servers c <> [] /\ Forall (fun s => s <> "") (Servers c);
  us_names : Subject c <> "" /\ Name c <> "" /\ Queue c <> "";
  us_workers : 1 <= Workers c;
  us_depth : 1 <= QueueDepth c;
  us_full : QueueFull c = QueueFullDrop \/ QueueFull c = QueueFullWait;
  us_expand : QueueExpand c = QueueExpandOff \/ QueueExpand c = QueueExpandAsk;
  us_budget : 0 <= ReserveMS c /\ 0 <= MinBudgetMS c;
  us_versions : Versions c <> [];
  us_times : 0 < HeartbeatEvery c /\ 0 < ReloadEvery c /\ 0 < GeoTimeout c;
  us_dirs : (exists es, d (PolicyDir c) = Some (Dir es)) /\ (exists es, d (GeoDir c) = Some (Dir es)) }.

Section accepted.
Context (url_parse : string -> option (string * string)) (unicode_name : string -> bool).
Context (getenv : string -> option string) (parse_duration : string -> option Z) (d : disk).
Context (abs : string -> result error string) (parse_level : string -> result error Z) (maxprocs : Z).

Abbreviation Load := (Load url_parse unicode_name getenv parse_duration d abs parse_level maxprocs).

Lemma envDuration_pos name def v : 0 < def -> envDuration getenv parse_duration name def = Ok v -> 0 < v.
Proof.
  intros Hd. unfold envDuration. destruct (set_env getenv name) as [raw|]; [|by intros [= <-]].
  destruct (parse_duration _) as [t|]; [|done]. intros [Ht E]%reject_bind. injection E as <-. lia.
Qed.

Lemma splitList_filled s : Forall (fun part => part <> "") (splitList s).
Proof.
  apply List.Forall_forall. intros part [_ H]%filter_In. intros ->. by rewrite String.eqb_refl in H.
Qed.

Lemma check_dir_ok name path a : check_dir d abs name path = Ok a -> exists es, d a = Some (Dir es).
Proof.
  unfold check_dir. intros (b & _ & H)%result_bind_ok. destruct (d b) as [[f|es]|] eqn:E; [done| |done].
  injection H as <-. by exists es.
Qed.

Lemma config_validated c c' : validate d abs c = Ok c' ->
  Forall (fun s => s <> "") (Servers c) -> 0 < HeartbeatEvery c -> 0 < ReloadEvery c -> 0 < GeoTimeout c ->
  usable d c' /\ exists p g, c' = with_dirs c p g.
Proof.
  unfold validate. rewrite !reject_bind.
  intros (Hs & Hn & Hw & Hq & Hf & He & Hb & Hv & E) Hservers ???.
  apply result_bind_ok in E as (p & Hp%check_dir_ok & E). apply result_bind_ok in E as (g & Hg%check_dir_ok & E).
  injection E as <-. split; [|by exists p, g].
  apply bool_decide_eq_false in Hs, Hv. rewrite !orb_false_iff, !String.eqb_neq in Hn.
  rewrite orb_false_iff in Hb. apply negb_false_iff, orb_true_iff in Hf, He. rewrite !String.eqb_eq in Hf, He.
  destruct Hn as [[? ?] ?], Hb. split; cbn; try done; try lia.
Qed.

(** C27: [Load] returns only a configuration that the program can run with: at
    least one server, names that are not empty, at least one worker and room
    for one request, a policy for a full queue that the pool knows, budgets
    that are not negative, a schema version, positive times, and directories
    that exist. The depth of the queue is the variable's, else the file's,
    else 256, and a file with the exchange's address is refused. *)
Theorem load_usable c : Load = Ok c ->
  usable d c
  /\ exists file, load_file url_parse unicode_name d (ConfPath c) = Ok file /\ RedisURL file = ""
     /\ envIntIfSet getenv "WAF_IP_QUEUE_DEPTH" (default 256 (Max file)) = Ok (QueueDepth c)
     /\ (BlobsURL c, BlobsFrom c) = internalRedis getenv (ConfPath c) file "".
Proof.
  unfold Config.Load. intros (workers & _ & E)%result_bind_ok. apply result_bind_ok in E as (file & Hfile & E).
  apply check_bind in E as [Hurl E]. destruct (internalRedis getenv _ file "") as [blobs from] eqn:Eb.
  apply result_bind_ok in E as (depth & Hdepth & E). apply result_bind_ok in E as (reserve & _ & E).
  apply result_bind_ok in E as (budget & _ & E). apply result_bind_ok in E as (versions & _ & E).
  apply result_bind_ok in E as (level & _ & E). apply result_bind_ok in E as (heartbeat & Hh & E).
  apply result_bind_ok in E as (reload & Hr & E). apply result_bind_ok in E as (geo & Hg & E).
  apply result_bind_ok in E as (neg & _ & E).
  apply envDuration_pos in Hh, Hr, Hg; [|by vm_compute..].
  destruct (config_validated _ _ E (splitList_filled _) Hh Hr Hg) as (Hu & p & g & ->). split; [done|].
  exists file. cbn [ConfPath with_dirs QueueDepth BlobsURL BlobsFrom]. split_and!; [done| |done|done].
  unfold noExchangeRedis in Hurl. apply reject_if_ok, negb_false_iff, String.eqb_eq in Hurl. done.
Qed.
End accepted.

(** ** The grammar of the file *)

Section grammar.
Context (url_parse : string -> option (string * string)) (unicode_name : string -> bool).

(** The lines that say something, without their comments. *)
Definition texts (lines : list string) : list string :=
  List.filter (fun t => negb (String.eqb t "")) (map confText lines).
Definition directive (text : string) : result error (string * string) :=
  let* stmt := requireSemicolon text in splitDirective unicode_name stmt.
Definition valid_directive (key value : string) : Prop :=
  (key = "queue_max" /\ exists v, Atoi value = Some v /\ 1 <= v)
  \/ (key = "queue_full" /\ (value = QueueFullDrop \/ value = QueueFullWait))
  \/ (key = "queue_expand" /\ (value = QueueExpandOff \/ value = QueueExpandAsk)).

(** What the lines set, in their order, from outside ([false]) or inside a
    block of the file. *)
Inductive items : bool -> list string -> list (string * string) -> Prop :=
| it_end : items false [] []
| it_directive text ts key value l :
    text <> "}" -> CutSuffix text "{" = None -> directive text = Ok (key, value) ->
    valid_directive key value -> items false ts l -> items false (text :: ts) ((key, value) :: l)
| it_open text head ts l :
    text <> "}" -> CutSuffix text "{" = Some head -> TrimSpace head = "redis" ->
    items true ts l -> items false (text :: ts) (("redis", "") :: l)
| it_close ts l : items false ts l -> items true ("}" :: ts) l
| it_key text ts key value l :
    text <> "}" -> directive text = Ok (key, value) -> key = "url" \/ key = "internal" ->
    isRedisURL url_parse value = true -> items true ts l ->
    items true (text :: ts) (("redis." +:+ key, value) :: l).

Definition set_item (f : queueFile) (x : string * string) : queueFile :=
  let '(key, value) := x in
  if String.eqb key "queue_max" then
    MkFile (Atoi value) (Full f) (Expand f) (RedisURL f) (RedisInternal f)
  else if String.eqb key "queue_full" then
    MkFile (Max f) value (Expand f) (RedisURL f) (RedisInternal f)
  else if String.eqb key "queue_expand" then
    MkFile (Max f) (Full f) value (RedisURL f) (RedisInternal f)
  else if String.eqb key "redis.url" then with_url f value
  else if String.eqb key "redis.internal" then with_internal f value
  else f.

Lemma set_directive_ok f key value f' :
  set_directive f key value = Ok f' <-> valid_directive key value /\ f' = set_item f (key, value).
Proof.
  unfold set_directive, valid_directive, set_item.
  destruct (String.eqb_spec key "queue_max") as [->|H1].
  { destruct (Atoi value) as [v|] eqn:E.
    - destruct (Z.ltb_spec v 1).
      + split; [done|]. intros [[(_ & w & [= <-] & ?)|[[? _]|[? _]]] _]; [lia|done|done].
      + split; [intros [= <-]; split; [left; split; [done|]; by exists v|done]|]. by intros [_ ->].
    - split; [done|]. intros [[(_ & w & ? & _)|[[? _]|[? _]]] _]; done. }
  destruct (String.eqb_spec key "queue_full") as [->|H2].
  { destruct (String.eqb_spec value QueueFullDrop), (String.eqb_spec value QueueFullWait); cbn [orb];
      naive_solver. }
  destruct (String.eqb_spec key "queue_expand") as [->|H3].
  { destruct (String.eqb_spec value QueueExpandOff), (String.eqb_spec value QueueExpandAsk); cbn [orb];
      naive_solver. }
  naive_solver.
Qed.

Lemma parseRedisKey_ok f seen text f' seen' :
  parseRedisKey url_parse unicode_name f seen text = Ok (f', seen')
  <-> exists key value, directive text = Ok (key, value) /\ (key = "url" \/ key = "internal")
      /\ isRedisURL url_parse value = true /\ (("redis." +:+ key) ∉ seen)
      /\ f' = set_item f ("redis." +:+ key, value) /\ seen' = {["redis." +:+ key]} ∪ seen.
Proof.
  unfold parseRedisKey, directive. destruct (requireSemicolon text) as [stmt|e]; [|naive_solver].
  cbn [mbind result_bind]. destruct (splitDirective _ stmt) as [[key value]|e]; cbn [mbind result_bind]; [|naive_solver].
  rewrite !reject_bind, bool_decide_eq_false, negb_false_iff, andb_false_iff, !negb_false_iff, !String.eqb_eq.
  split.
  - intros (Hs & Hk & Hu & [= <- <-]). exists key, value. split_and!; try done. by destruct Hk as [->| ->].
  - intros (k & v & [= <- <-] & Hk & Hu & Hs & -> & ->). split_and!; try done. by destruct Hk as [->| ->].
Qed.

(** One line that says something, in either direction. *)
Lemma read_line_top n text r r' : text <> "" -> block r = "" ->
  read_line url_parse unicode_name n text r = Ok r' <->
  text <> "}" /\
  ((exists head, CutSuffix text "{" = Some head /\ TrimSpace head = "redis" /\ ("redis" ∉ seen r)
      /\ r' = MkReading (out r) ({["redis"]} ∪ seen r) "redis" n)
   \/ (CutSuffix text "{" = None /\ exists key value, directive text = Ok (key, value)
      /\ valid_directive key value /\ (key ∉ seen r)
      /\ r' = MkReading (set_item (out r) (key, value)) ({[key]} ∪ seen r) "" (opened r))).
Proof.
  intros Ht Hb. unfold read_line. rewrite Hb. rewrite (proj2 (String.eqb_neq _ _) Ht). cbn [String.eqb negb].
  destruct (String.eqb_spec text "}") as [->|Hc]; [naive_solver|].
  destruct (CutSuffix text "{") as [head|].
  - rewrite !reject_bind, negb_false_iff, bool_decide_eq_false, String.eqb_eq. split.
    + intros (Hh & Hs & [= <-]). rewrite Hh in *. split; [done|]. left. by exists head.
    + intros (_ & [(h & [= <-] & Hh & Hs & ->)|[? _]]); [|done]. by rewrite Hh in *.
  - unfold directive. destruct (requireSemicolon text) as [stmt|e]; cbn [mbind result_bind].
    2: { split; [done|]. intros (_ & [(h & ? & _)|(_ & k & v & ? & _)]); done. }
    destruct (splitDirective _ stmt) as [[key value]|e]; cbn [mbind result_bind].
    2: { split; [done|]. intros (_ & [(h & ? & _)|(_ & k & v & ? & _)]); done. }
    rewrite reject_bind, bool_decide_eq_false. split.
    + intros (Hs & (f & Hf & [= <-])%result_bind_ok). apply set_directive_ok in Hf as [Hv ->].
      split; [done|]. right. split; [done|]. by exists key, value.
    + intros (_ & [(h & ? & _)|(_ & k & v & [= <- <-] & Hv & Hs & ->)]); [done|]. split; [done|].
      by rewrite (proj2 (set_directive_ok (out r) key value _) (conj Hv eq_refl)).
Qed.

Lemma read_line_block n text r r' : text <> "" -> block r <> "" ->
  read_line url_parse unicode_name n text r = Ok r' <->
  (text = "}" /\ r' = MkReading (out r) (seen r) "" (opened r))
  \/ (text <> "}" /\ exists key value, directive text = Ok (key, value) /\ (key = "url" \/ key = "internal")
      /\ isRedisURL url_parse value = true /\ (("redis." +:+ key) ∉ seen r)
      /\ r' = MkReading (set_item (out r) ("redis." +:+ key, value)) ({["redis." +:+ key]} ∪ seen r)
                (block r) (opened r)).
Proof.
  intros Ht Hb. unfold read_line.
  rewrite (proj2 (String.eqb_neq _ _) Ht), (proj2 (String.eqb_neq _ _) Hb). cbn [negb].
  destruct (String.eqb_spec text "}") as [->|Hc]; [naive_solver|].
  destruct (parseRedisKey _ _ _ _ _) as [[f s]|e] eqn:E; cbn [mbind result_bind].
  - apply parseRedisKey_ok in E as (key & value & Hd & Hk & Hu & Hs & -> & ->). split.
    + intros [= <-]. right. split; [done|]. by exists key, value.
    + intros [[? _]|(_ & k & v & Hd' & _ & _ & _ & ->)]; [done|]. rewrite Hd in Hd'. by injection Hd' as <- <-.
  - split; [done|]. intros [[? _]|(_ & k & v & Hd & Hk & Hu & Hs & _)]; [done|].
    assert (parseRedisKey url_parse unicode_name (out r) (seen r) text
      = Ok (set_item (out r) ("redis." +:+ k, v), {["redis." +:+ k]} ∪ seen r)) as Hok.
    { apply parseRedisKey_ok. by exists k, v. }
    by rewrite E in Hok.
Qed.

Definition mode (r : reading) : bool := negb (String.eqb (block r) "").
(** The names that the settings [l] set are new to [r], and each is set once. *)
Definition fresh (r : reading) (l : list (string * string)) : Prop :=
  NoDup l.*1 /\ forall k, k ∈ l.*1 -> k ∉ seen r.

Lemma fresh_cons r key value l o b n : (key ∉ seen r) ->
  fresh (MkReading o ({[key]} ∪ seen r) b n) l -> fresh r ((key, value) :: l).
Proof.
  intros Hk [Hnd Hf]. cbn [seen] in Hf. split; cbn [fmap list_fmap fst].
  - apply NoDup_cons. split; [|done]. intros Hin. specialize (Hf key Hin). set_solver.
  - intros k [->|Hin]%elem_of_cons; [done|]. specialize (Hf k Hin). set_solver.
Qed.
Lemma fresh_tail r key value l o b n : fresh r ((key, value) :: l) ->
  (key ∉ seen r) /\ fresh (MkReading o ({[key]} ∪ seen r) b n) l.
Proof.
  intros [Hnd Hf]. cbn [fmap list_fmap fst] in *. apply NoDup_cons in Hnd as [Hk Hnd]. split.
  - apply Hf. by left.
  - split; [done|]. intros k Hin. cbn [seen]. specialize (Hf k ltac:(by right)).
    assert (k <> key) by (intros ->; done). set_solver.
Qed.

Lemma read_lines_items name : forall lines n r r',
  read_lines url_parse unicode_name name n lines r = Ok r' -> block r' = "" ->
  exists l, items (mode r) (texts lines) l /\ fresh r l /\ out r' = fold_left set_item l (out r).
Proof.
  induction lines as [|line lines IH]; intros n r r'.
  { intros [= <-] Hb. exists []. unfold mode. rewrite Hb. split_and!; [constructor| |done].
    split; [constructor|]. by intros k ?%elem_of_nil. }
  cbn [read_lines]. intros (r1 & Hr%map_err_ok & E)%result_bind_ok Hb.
  destruct (IH _ _ _ E Hb) as (l & Hl & Hf & Ho). clear IH E Hb.
  unfold texts. cbn [map List.filter]. fold (texts lines).
  destruct (String.eqb_spec (confText line) "") as [Ht|Ht]; cbn [negb].
  { rewrite Ht in Hr. injection Hr as <-. by exists l. }
  destruct (String.eqb_spec (block r) "") as [Hb|Hb].
  - assert (mode r = false) as -> by (unfold mode; by rewrite Hb).
    apply read_line_top in Hr as (Hc & [(head & Hh & Hr & Hs & ->)|(Hn & key & value & Hd & Hv & Hs & ->)]); [| |done..].
    + exists (("redis", "") :: l). split_and!; [by eapply it_open|by eapply fresh_cons|done].
    + exists ((key, value) :: l). split_and!; [by eapply it_directive|by eapply fresh_cons|done].
  - assert (mode r = true) as -> by (unfold mode; by rewrite (proj2 (String.eqb_neq _ _) Hb)).
    apply read_line_block in Hr as [(-> & ->)|(Hc & key & value & Hd & Hk & Hu & Hs & ->)]; [| |done..].
    + exists l. split_and!; [by apply it_close|exact Hf|done].
    + exists (("redis." +:+ key, value) :: l). split_and!; [| by eapply fresh_cons|done].
      apply it_key; [done..|]. unfold mode in Hl. cbn [block] in Hl.
      by rewrite (proj2 (String.eqb_neq _ _) Hb) in Hl.
Qed.

Lemma items_read_lines name : forall lines n r l,
  items (mode r) (texts lines) l -> fresh r l ->
  exists r', read_lines url_parse unicode_name name n lines r = Ok r' /\ block r' = ""
    /\ out r' = fold_left set_item l (out r).
Proof.
  induction lines as [|line lines IH]; intros n r l Hl Hf.
  { exists r. inversion Hl as [Hm| | | |]. subst. unfold mode in Hm. split_and!; [done| |done].
    by apply eq_sym, negb_false_iff, String.eqb_eq in Hm. }
  revert Hl. unfold texts. cbn [map List.filter]. fold (texts lines). cbn [read_lines].
  destruct (String.eqb_spec (confText line) "") as [Ht|Ht]; cbn [negb].
  { rewrite Ht. intros Hl. apply (IH (n + 1) r l Hl Hf). }
  assert (forall r1 l1, read_line url_parse unicode_name n (confText line) r = Ok r1 ->
    items (mode r1) (texts lines) l1 -> fresh r1 l1 -> fold_left set_item l1 (out r1) = fold_left set_item l (out r) ->
    exists r', mbind (M := result error) (fun r => read_lines url_parse unicode_name name (n + 1) lines r)
        (map_err (at_line name n) (read_line url_parse unicode_name n (confText line) r)) = Ok r'
      /\ block r' = "" /\ out r' = fold_left set_item l (out r)) as Hgo.
  { intros r1 l1 Hr Hl1 Hf1 <-. rewrite Hr. by apply IH. }
  destruct (String.eqb_spec (block r) "") as [Hb|Hb].
  - assert (mode r = false) as -> by (unfold mode; by rewrite Hb). intros Hl. inversion Hl; subst.
    + destruct (fresh_tail _ _ _ _ (set_item (out r) (key, value)) "" (opened r) Hf) as [Hs Hf'].
      refine (Hgo _ _ _ _ Hf' eq_refl); [|done]. apply read_line_top; [done..|].
      split; [done|]. right. split; [done|]. by exists key, value.
    + destruct (fresh_tail _ _ _ _ (out r) "redis" n Hf) as [Hs Hf'].
      refine (Hgo _ _ _ _ Hf' eq_refl); [|done]. apply read_line_top; [done..|].
      split; [done|]. left. by exists head.
  - assert (mode r = true) as -> by (unfold mode; by rewrite (proj2 (String.eqb_neq _ _) Hb)).
    intros Hl. inversion Hl as [| | |ts l' Hl' E1|text ts key value l' Hc Hd Hk Hu Hl']; subst.
    + match goal with H : "}" = confText line |- _ => rewrite H end.
      refine (Hgo (MkReading (out r) (seen r) "" (opened r)) _ _ _ Hf eq_refl); [|done].
      apply read_line_block; [done..|]. by left.
    + destruct (fresh_tail _ _ _ _ (set_item (out r) ("redis." +:+ key, value)) (block r) (opened r) Hf) as [Hs Hf'].
      refine (Hgo _ _ _ _ Hf' eq_refl).
      * apply read_line_block; [done..|]. right. split; [done|]. by exists key, value.
      * unfold mode. cbn [block]. by rewrite (proj2 (String.eqb_neq _ _) Hb).
Qed.

(** C21: The reader of [inspector.conf] accepts exactly the language of its
    directives: known names with valid values, one [redis] block that is
    closed and holds Redis addresses, comments and empty lines anywhere, and
    no name set twice; what it returns is what the lines set. *)
Theorem queue_file_exact name src f :
  parseQueueFile url_parse unicode_name name src = Ok f
  <-> exists l, items false (texts (Split src "010")) l /\ NoDup l.*1 /\ f = fold_left set_item l emptyFile.
Proof.
  unfold parseQueueFile. set (r0 := MkReading emptyFile ∅ "" 0). split.
  - intros (r & Hr & E)%result_bind_ok. apply reject_bind in E as [Hb E]. injection E as <-.
    apply negb_false_iff, String.eqb_eq in Hb.
    destruct (read_lines_items _ _ _ _ _ Hr Hb) as (l & Hl & [Hnd _] & Ho). by exists l.
  - intros (l & Hl & Hnd & ->).
    destruct (items_read_lines name (Split src "010") 1 r0 l Hl) as (r & Hr & Hb & Ho).
    { split; [done|]. intros k _. cbn [seen r0]. apply not_elem_of_empty. }
    rewrite Hr. cbn [mbind result_bind]. rewrite Hb. cbn [String.eqb negb]. by rewrite Ho.
Qed.
End grammar.

(** ** Witnesses *)

Definition ex_url (s : string) : option (string * string) :=
  if HasPrefix s "redis://" then Some ("redis", "host") else None.
Definition newline : string := String "010" "".
Definition ex_conf : string :=
  "# the queue" +:+ newline +:+ "queue_max  64; " +:+ newline +:+ "queue_full wait;" +:+ newline
  +:+ "redis {" +:+ newline +:+ "  internal redis://r:6379; # here" +:+ newline +:+ "}" +:+ newline.
Definition ex_disk : disk := fun path =>
  if String.eqb path "inspector.conf" then Some (File (Files.MkFile (Some ex_conf) 0 0))
  else if String.eqb path "/policy" || String.eqb path "/geo" then Some (Dir (Some [])) else None.
Definition ex_getenv (name : string) : option string :=
  if String.eqb name "WAF_IP_POLICY" then Some "/policy"
  else if String.eqb name "WAF_IP_GEO" then Some "/geo" else None.
Definition ex_load : result error Config :=
  Load ex_url (fun _ => false) ex_getenv (fun _ => None) ex_disk (fun p => Ok p) (fun _ => Ok 0) 4.

Lemma load_usable_witness :
  exists c, ex_load = Ok c /\ QueueDepth c = 64 /\ QueueFull c = "wait" /\ BlobsURL c = "redis://r:6379"
    /\ 1 <= Workers c.
Proof.
  assert (forall r, ex_load = r -> match r with
    | Ok c => (QueueDepth c =? 64) && String.eqb (QueueFull c) "wait" && String.eqb (BlobsURL c) "redis://r:6379"
    | Err _ => false end = true) as H by (intros r <-; vm_compute; reflexivity).
  destruct ex_load as [c|e] eqn:E; specialize (H _ eq_refl); [|discriminate H].
  apply andb_true_iff in H as [H H3]. apply andb_true_iff in H as [H1 H2].
  exists c. split; [reflexivity|]. split; [by apply Z.eqb_eq|]. split; [by apply String.eqb_eq|].
  split; [by apply String.eqb_eq|].
  destruct (load_usable ex_url (fun _ => false) ex_getenv (fun _ => None) ex_disk (fun p => Ok p) (fun _ => Ok 0) 4 c E)
    as [Hu _]. exact (us_workers _ _ Hu).
Defined.

Example file_errors :
  is_ok (parseQueueFile ex_url (fun _ => false) "f" ("queue_max 0;" +:+ newline)) = false
  /\ is_ok (parseQueueFile ex_url (fun _ => false) "f" ("queue_max 1;" +:+ newline +:+ "queue_max 2;")) = false
  /\ is_ok (parseQueueFile ex_url (fun _ => false) "f" "redis {") = false
  /\ is_ok (parseQueueFile ex_url (fun _ => false) "f" "queue_full drop") = false.
Proof. by vm_compute. Qed.

End Config.
