(* ===== verification/Handler.v ===== *)
(** * The handler of messages

    Models [cmd/ip/handler.go] and [cmd/ip/lists.go]: what a message on the
    subject becomes - an answer at once or a task of the pool -, what a task
    becomes, and the list writes on the way. An action is the list of its
    effects in order: answers, writes to live sets, audit records, tasks. The
    JSON encoder and decoder and the network directory (placitum-shared) are
    arguments; a panic may stop an action after any of its effects. *)

From S2P Require Import Prelude GoStrings NetIP Protocol Policy Store Events Decide Composition Mirror Live Queue Config.

#[local] Open Scope Z_scope.

Module Handler.
Import Protocol Events.

Definition codeUnsupportedVersion : string := "IP_UNSUPPORTED_VERSION".
Definition codeMalformed : string := "IP_MALFORMED_REQUEST".
Definition codeInternalError : string := "IP_INTERNAL_ERROR".
Definition codeWrongPhase : string := "IP_PHASE_NOT_SUPPORTED".
Definition codeGeoUnavailable : string := "IP_GEO_UNAVAILABLE".

(** A message of the bus: where to answer, and what it says. *)
Record msg : Type := MkMsg { m_Reply : string; m_Data : string }.
(** The milliseconds of the engine are microseconds here, before the division. *)
Abbreviation Details := (Events.Details Z).
Definition noDetails : Details := MkDetails 0 [] ∅.

Inductive effect : Type :=
| Answer (subject payload : string)
| Write (subject : string) (e : Mirror.event)
| Audit (req : option Request) (reply : Reply) (det : Details)
| Submit (t : Queue.Task).

Section handler.
Context `{UnicodeLower}.
Context (cfg : Config.Config).
(** [json.Unmarshal] of a request, the order of the locators it checks,
    [json.Marshal] of a reply, [err.Error()]. *)
Context (unmarshal : string -> result error Request) (order : list string).
Context (marshal : Reply -> option string) (Error : error -> string).
(** [netinfo.Networked] and the [Write] of a [netinfo.Resolver], over a state. *)
Context {W : Type} (Networked : string -> bool).
Context (geo : string -> string -> W -> result error (list string) * W).
(** The live sets, when there are any, whether they have a connection, and
    the time. *)
Context (live : option Mirror.store) (nc : bool) (now : Z).

(** The sets as the decision asks them. *)
Definition sets_of : Live := match live with Some st => mirror_live st now | None => no_live end.

(** ** Answers *)

Definition send (subject : string) (reply : Reply) (req : option Request) (det : Details) : list effect :=
  if String.eqb subject "" then [] else
  match marshal reply with
  | Some payload => [Answer subject payload; Audit req reply det]
  | None =>
      match marshal (FallbackReply (reply_RID reply) (reply_Inspector reply) codeInternalError) with
      | Some payload => [Answer subject payload; Audit req reply det]
      | None => []
      end
  end.

(** [defer h.recoverInto(subject, rid)]: the body ran to its end, or panicked
    after some of its effects. *)
Definition recoverInto (subject rid : string) (panic : option nat) (body : list effect) : list effect :=
  match panic with
  | None => body
  | Some k =>
      take k body ++
      (if String.eqb subject "" then []
       else send subject (FallbackReply rid (Config.Name cfg) codeInternalError) None noDetails)
  end.

Definition with_version (r : Reply) (v : Z) : Reply :=
  MkReply v (reply_RID r) (reply_Inspector r) (reply_Verdict r) (reply_Reason r) (reply_Response r)
    (reply_Redirect r) (reply_Headers r) (reply_Actions r).

Definition received (m : msg) : list effect :=
  match Protocol.Parse unmarshal order (m_Data m) with
  | Err pe => send (m_Reply m) (FallbackReply (pe_RID pe) (Config.Name cfg) codeMalformed) None noDetails
  | Ok req =>
      if negb (Config.Supports cfg (req_V req)) then
        send (m_Reply m) (with_version (ErrorReply req codeUnsupportedVersion) Protocol.Version) (Some req) noDetails
      else if negb (String.eqb (req_Phase req) PhaseRequest) then
        send (m_Reply m) (ErrorReply req codeWrongPhase) (Some req) noDetails
      else [Submit (Queue.MkTask req (m_Reply m) 0 0)]
  end.
Definition receive (panic : option nat) (m : msg) : list effect :=
  recoverInto (m_Reply m) "" panic (received m).

(** ** List writes *)

(** [lists.PublishMany]: the message, if one is sent; an error is logged. *)
Definition publish (ban : Decide.Ban) (values : list string) (node ray : string) : list effect :=
  match Mirror.PublishMany live nc (Decide.ban_Dataset ban) values (Decide.ban_TTL ban) node
          (Decide.ban_Reason ban) ray with
  | Ok (Some (subject, e)) => [Write subject e]
  | _ => []
  end.
Definition keep_first (failed : option error) (e : error) : option error :=
  match failed with Some e0 => Some e0 | None => Some e end.
Fixpoint writeLists (node ray : string) (bans : list Decide.Ban) (failed : option error) (w : W)
  : option error * list effect * W :=
  match bans with
  | [] => (failed, [], w)
  | ban :: bans =>
      if Networked (Decide.ban_Write ban) then
        match geo (Decide.ban_Write ban) (Decide.ban_Value ban) w with
        | (Err e, w) => writeLists node ray bans (keep_first failed e) w
        | (Ok [], w) => writeLists node ray bans failed w
        | (Ok values, w) =>
            let '(failed, out, w) := writeLists node ray bans failed w in
            (failed, publish ban values node ray ++ out, w)
        end
      else
        let '(failed, out, w) := writeLists node ray bans failed w in
        (failed, publish ban [Decide.ban_Value ban] node ray ++ out, w)
  end.

(** ** A task *)

(** The store's current snapshot when the task runs. *)
Context (snap : option Store.Snapshot).

Definition set_engine (key : string) (v : Events.value) (r : Decide.Result) : Decide.Result :=
  Decide.MkResult (Decide.Verdict r) (Decide.Code r) (Decide.Text r) (Decide.Response r) (Decide.Findings r)
    (Decide.Scope r) (Decide.Subject r) (<[key := v]> (Decide.Engine r)) (Decide.Actions r) (Decide.Bans r).
Definition add_fired (r : Decide.Result) (asks : list Action) (bans : list Decide.Ban) (fired : list string)
  : Decide.Result :=
  set_engine "overload" (VStrings fired)
    (Decide.MkResult (Decide.Verdict r) (Decide.Code r) (Decide.Text r) (Decide.Response r) (Decide.Findings r)
       (Decide.Scope r) (Decide.Subject r) (Decide.Engine r) (Decide.Actions r ++ asks) (Decide.Bans r ++ bans)).
Definition details (elapsed : Z) (r : Decide.Result) : Details :=
  MkDetails elapsed (Decide.Findings r) (Decide.Engine r).

(** The result with what the filling queue fires. *)
Definition decided (req : Request) (fill : Z) : Decide.Result :=
  let profile := route_Profile (req_Route req) in
  let ip := conn_ClientIP (req_Conn req) in
  let result := Decide.Check (H0 := sets_of) snap profile ip in
  let '(asks, bans, fired) := Decide.FireOverload snap profile ip fill false Queue.ReasonQueueLimit in
  match fired with
  | [] => result
  | _ => add_fired result asks bans fired
  end.
Definition inspect (req : Request) (fill elapsed : Z) (w : W) : Reply * Details * list effect * W :=
  let result := decided req fill in
  let reply := Decide.ToReply req result in
  match Decide.Bans result, live with
  | _ :: _, Some _ =>
      match writeLists (req_Node req) (req_Ray req) (Decide.Bans result) None w with
      | (Some e, out, w) =>
          (ErrorReply req codeGeoUnavailable,
           details elapsed (set_engine "geo" (VString (Error e)) result), out, w)
      | (None, out, w) => (reply, details elapsed result, out, w)
      end
  | _, _ => (reply, details elapsed result, [], w)
  end.

Definition with_actions (r : Reply) (actions : list Action) : Reply :=
  MkReply (reply_V r) (reply_RID r) (reply_Inspector r) (reply_Verdict r) (reply_Reason r) (reply_Response r)
    (reply_Redirect r) (reply_Headers r) actions.
(** The reply and the engine section after [overloadOnShed]. *)
Definition overloadOnShed (t : Queue.Task) (shed : string) (reply : Reply) (eng : engine) (w : W)
  : Reply * engine * list effect * W :=
  let req := Queue.Req t in
  if negb (String.eqb shed Queue.ReasonQueueLimit) || negb (String.eqb (req_Phase req) PhaseRequest)
  then (reply, eng, [], w) else
  match Decide.FireOverload snap (route_Profile (req_Route req)) (conn_ClientIP (req_Conn req))
          (Queue.Fill t) true shed with
  | (_, _, []) => (reply, eng, [], w)
  | (asks, bans, fired) =>
      let reply := with_actions reply asks in
      let eng := <["overload" := VStrings fired]> eng in
      match bans, live with
      | _ :: _, Some _ =>
          match writeLists (req_Node req) (req_Ray req) bans None w with
          | (Some e, out, w) => (reply, <["geo" := VString (Error e)]> eng, out, w)
          | (None, out, w) => (reply, eng, out, w)
          end
      | _, _ => (reply, eng, [], w)
      end
  end.

(** [budget] is in nanoseconds. *)
Definition Microseconds (ns : Z) : Z := Z.quot ns 1000.
Definition evaluated (t : Queue.Task) (budget : Z) (shed : string) (elapsed : Z) (w : W) : list effect * W :=
  let req := Queue.Req t in
  if negb (String.eqb shed "") then
    let eng := <["shed" := VString shed]> {["budget_ms" := VMillis (Microseconds budget)]} in
    let '(reply, eng, out, w) := overloadOnShed t shed (ShedReply req shed) eng w in
    (out ++ send (Queue.Reply t) reply (Some req) (MkDetails 0 [] eng), w)
  else
    let '(reply, det, out, w) := inspect req (Queue.Fill t) elapsed w in
    (out ++ send (Queue.Reply t) reply (Some req) det, w).
Definition evaluate (panic : option nat) (t : Queue.Task) (budget : Z) (shed : string) (elapsed : Z) (w : W)
  : list effect * W :=
  let '(body, w) := evaluated t budget shed elapsed w in
  (recoverInto (Queue.Reply t) (req_RID (Queue.Req t)) panic body, w).
End handler.

(** ** Answers *)

Definition is_answer (e : effect) : bool := match e with Answer _ _ => true | _ => false end.
Definition answers (es : list effect) : list effect := List.filter is_answer es.
Definition answered_once (s : string) (es : list effect) : Prop :=
  exists payload, answers es = [Answer s payload].
Definition answered (s : string) (es : list effect) : Prop :=
  answers es <> [] /\ Forall (fun e => exists payload, e = Answer s payload) (answers es).

Lemma answers_app es es' : answers (es ++ es') = answers es ++ answers es'.
Proof. apply List.filter_app. Qed.

Lemma answered_once_answered s es : answered_once s es -> answered s es.
Proof. intros [p E]. unfold answered. rewrite E. split; [done|]. apply Forall_singleton. by exists p. Qed.

(** Only [send] answers. *)
Section silent.
Context {W : Type} (Networked : string -> bool).
Context (geo : string -> string -> W -> result error (list string) * W).
Context (live : option Mirror.store) (nc : bool).

Abbreviation writeLists := (writeLists Networked geo live nc).

Definition is_write (e : effect) : bool := match e with Write _ _ => true | _ => false end.
Definition writes (es : list effect) : Prop := Forall (fun e => is_write e = true) es.

Lemma writes_silent es : writes es -> answers es = [].
Proof. induction 1 as [|e es He _ IH]; [done|]. by destruct e. Qed.

Lemma publish_writes ban values node ray : writes (publish live nc ban values node ray).
Proof. unfold publish. destruct (Mirror.PublishMany _ _ _ _ _ _ _ _) as [[[]|]|]; by repeat constructor. Qed.

Lemma writeLists_writes node ray : forall bans failed w r out w',
  writeLists node ray bans failed w = (r, out, w') -> writes out.
Proof.
  induction bans as [|ban bans IH]; intros failed w r out w'; cbn [Handler.writeLists]; [intros [= _ <- _]; constructor|].
  assert (forall vs failed w, (let '(f, o, w1) := writeLists node ray bans failed w in
    (f, publish live nc ban vs node ray ++ o, w1)) = (r, out, w') -> writes out) as Hgo.
  { intros vs f w0. destruct (writeLists node ray bans f w0) as [[f1 o] w1] eqn:E.
    intros [= _ <- _]. apply Forall_app_2; [apply publish_writes|by eapply IH]. }
  destruct (Networked _); [|apply Hgo]. destruct (geo _ _ w) as [[[|v vs]|e] w1]; [apply IH|apply Hgo|apply IH].
Qed.

End silent.

Section answers.
Context `{UnicodeLower}.
Context (cfg : Config.Config) (unmarshal : string -> result error Request) (order : list string).
Context (marshal : Reply -> option string) (Error : error -> string) {W : Type} (Networked : string -> bool).
Context (geo : string -> string -> W -> result error (list string) * W).
Context (live : option Mirror.store) (nc : bool) (now : Z) (snap : option Store.Snapshot).
(** A reply of a few strings can always be encoded. *)
Context (Hmarshal : forall rid inspector c, is_Some (marshal (FallbackReply rid inspector c))).

Abbreviation send := (send marshal).
Abbreviation receive := (receive cfg unmarshal order marshal).
Abbreviation evaluate := (evaluate cfg marshal Error Networked geo live nc now snap).

Lemma send_once s reply req det : s <> "" -> answered_once s (send s reply req det).
Proof.
  intros Hs. unfold Handler.send. rewrite (proj2 (String.eqb_neq _ _) Hs).
  destruct (marshal reply) as [p|]; [by exists p|].
  destruct (Hmarshal (reply_RID reply) (reply_Inspector reply) codeInternalError) as [p ->]. by exists p.
Qed.

Lemma evaluated_shape t budget shed elapsed w :
  exists out reply det w', evaluated marshal Error Networked geo live nc now snap t budget shed elapsed w
      = (out ++ send (Queue.Reply t) reply (Some (Queue.Req t)) det, w') /\ writes out.
Proof.
  unfold evaluated. destruct (negb (String.eqb shed "")).
  - destruct (overloadOnShed _ _ _ _ _ _ _ _ _ _ w) as [[[reply eng] out] w'] eqn:E.
    eexists out, _, _, _. split; [done|]. revert E. unfold overloadOnShed.
    destruct (_ || _); [intros [= _ _ <- _]; constructor|].
    destruct (Decide.FireOverload _ _ _ _ _ _) as [[asks bans] [|f fired]]; [intros [= _ _ <- _]; constructor|].
    destruct bans as [|b bans], live as [st|]; try (intros [= _ _ <- _]; constructor).
    destruct (Handler.writeLists _ _ _ _ _ _ (b :: bans) None w) as [[[e|] o] w1] eqn:Ew; intros [= _ _ <- _];
      by eapply writeLists_writes.
  - destruct (inspect _ _ _ _ _ _ _ _ _ _ w) as [[[reply det] out] w'] eqn:E.
    eexists out, _, _, _. split; [done|]. revert E. unfold inspect.
    destruct (Decide.Bans _) as [|b bans], live as [st|]; try (intros [= _ _ <- _]; constructor).
    destruct (Handler.writeLists _ _ _ _ _ _ (b :: bans) None w) as [[[e|] o] w1] eqn:Ew; intros [= _ _ <- _];
      by eapply writeLists_writes.
Qed.

Lemma evaluated_once t budget shed elapsed w : Queue.Reply t <> "" ->
  answered_once (Queue.Reply t) (evaluated marshal Error Networked geo live nc now snap t budget shed elapsed w).1.
Proof.
  intros Hr. destruct (evaluated_shape t budget shed elapsed w) as (out & reply & det & w' & -> & Hout).
  destruct (send_once (Queue.Reply t) reply (Some (Queue.Req t)) det Hr) as [p Hp].
  exists p. cbn [fst]. by rewrite answers_app, (writes_silent _ Hout), Hp.
Qed.

(** An answer goes where the message asked, and only if it asked. *)
Lemma send_subject s reply req det s' p : Answer s' p ∈ send s reply req det -> s' = s /\ s <> "".
Proof.
  unfold Handler.send. destruct (String.eqb_spec s "") as [->|Hs]; [by intros Hin%elem_of_nil|].
  destruct (marshal reply); [|destruct (marshal _); [|by intros Hin%elem_of_nil]];
    intros [[= -> _]|[Hin|Hin%elem_of_nil]%elem_of_cons]%elem_of_cons; by split_and!.
Qed.
Lemma recover_subject s rid panic body s' p : (forall p, Answer s' p ∈ body -> s' = s /\ s <> "") ->
  Answer s' p ∈ recoverInto cfg marshal s rid panic body -> s' = s /\ s <> "".
Proof.
  intros Hb. unfold recoverInto. destruct panic as [k|]; [|apply Hb]. intros [Hin|Hin]%elem_of_app.
  - apply (Hb p). rewrite <- (take_drop k body). apply elem_of_app. by left.
  - destruct (String.eqb s ""); [by apply elem_of_nil in Hin|by eapply send_subject].
Qed.
Lemma receive_subject panic m s p : Answer s p ∈ receive panic m -> s = m_Reply m /\ m_Reply m <> "".
Proof.
  apply recover_subject. intros q. unfold received. destruct (Protocol.Parse _ _ _); [|apply send_subject].
  destruct (negb _); [apply send_subject|]. destruct (negb _); [apply send_subject|].
  by intros [= ]%list_elem_of_singleton.
Qed.
Lemma evaluate_subject panic t budget shed elapsed w s p :
  Answer s p ∈ (evaluate panic t budget shed elapsed w).1 -> s = Queue.Reply t /\ Queue.Reply t <> "".
Proof.
  unfold Handler.evaluate. destruct (evaluated_shape t budget shed elapsed w) as (out & reply & det & w' & -> & Hout).
  apply recover_subject. intros q [Hin|Hin]%elem_of_app; [|by eapply send_subject].
  unfold writes in Hout. rewrite Forall_forall in Hout. by specialize (Hout _ Hin).
Qed.

(** A recovered panic answers too. *)
Lemma recover_answered s rid panic body : s <> "" ->
  Forall (fun e => exists payload, e = Answer s payload) (answers body) ->
  (panic = None -> answers body <> []) -> answered s (recoverInto cfg marshal s rid panic body).
Proof.
  intros Hs Hall Hsome. unfold recoverInto. destruct panic as [k|]; [|by split; [apply Hsome|]].
  rewrite (proj2 (String.eqb_neq _ _) Hs).
  destruct (send_once s (FallbackReply rid (Config.Name cfg) codeInternalError) None noDetails Hs) as [p Hp].
  unfold answered. rewrite answers_app, Hp. split; [by destruct (answers (take k body))|].
  apply Forall_app. split; [|apply Forall_singleton; by exists p].
  rewrite <- (take_drop k body), answers_app in Hall. by apply Forall_app in Hall as [? _].
Qed.

(** C14: Every message that can be answered is answered, and only where it
    asked. When nothing panics there is exactly one answer: at once, or, when
    the message became a task of the pool, from that task, however the pool
    hands it over - in time or shed, with any budget and any fill. When
    something panics, wherever it does, there is still an answer. *)
Theorem every_message_answered m : m_Reply m <> "" ->
  (answered_once (m_Reply m) (receive None m)
   \/ exists req, Protocol.Parse unmarshal order (m_Data m) = Ok req
      /\ receive None m = [Submit (Queue.MkTask req (m_Reply m) 0 0)])
  /\ (forall k, answered (m_Reply m) (receive (Some k) m))
  /\ forall t panic budget shed elapsed w, Queue.Reply t = m_Reply m ->
       answered (m_Reply m) (evaluate panic t budget shed elapsed w).1
       /\ (panic = None -> answered_once (m_Reply m) (evaluate panic t budget shed elapsed w).1).
Proof.
  intros Hr. assert (forall reply req det, answered_once (m_Reply m) (send (m_Reply m) reply req det)) as Hsend
    by (intros; by apply send_once).
  assert (answered_once (m_Reply m) (received cfg unmarshal order marshal m)
    \/ exists req, Protocol.Parse unmarshal order (m_Data m) = Ok req
      /\ received cfg unmarshal order marshal m = [Submit (Queue.MkTask req (m_Reply m) 0 0)]) as Hrec.
  { unfold received. destruct (Protocol.Parse _ _ _) as [req|pe] eqn:Ep; [|left; apply Hsend].
    destruct (negb (Config.Supports _ _)); [left; apply Hsend|].
    destruct (negb (String.eqb _ _)); [left; apply Hsend|]. right. by exists req. }
  split_and!; [exact Hrec| |].
  - intros k. apply recover_answered; [done| |done].
    destruct Hrec as [Ho|(req & _ & ->)]; [by apply answered_once_answered in Ho as [_ ?]|constructor].
  - intros t panic budget shed elapsed w Ht. unfold Handler.evaluate.
    pose proof (evaluated_once t budget shed elapsed w ltac:(congruence)) as Ho.
    destruct (evaluated _ _ _ _ _ _ _ _ t budget shed elapsed w) as [body w']. cbn [fst] in *. rewrite Ht in *.
    destruct (answered_once_answered _ _ Ho) as [Hne Hall].
    split; [by apply recover_answered|]. by intros ->.
Qed.
End answers.

(** ** The writes *)

Section writes.
Context `{UnicodeLower}.
Context (Error : error -> string) {W : Type} (Networked : string -> bool).
Context (geo : string -> string -> W -> result error (list string) * W).
Context (live : option Mirror.store) (nc : bool) (now : Z) (snap : option Store.Snapshot).

(** What each ban is to write: its own value, or what the directory says of
    it, asked in the order of the bans. *)
Fixpoint lookups (bans : list Decide.Ban) (w : W) : list (result error (list string)) * W :=
  match bans with
  | [] => ([], w)
  | ban :: bans =>
      let '(r, w) :=
        if Networked (Decide.ban_Write ban) then geo (Decide.ban_Write ban) (Decide.ban_Value ban) w
        else (Ok [Decide.ban_Value ban], w) in
      let '(rs, w) := lookups bans w in (r :: rs, w)
  end.
Definition write_of (node ray : string) (ban : Decide.Ban) (r : result error (list string)) : list effect :=
  match r with
  | Ok (v :: vs) => publish live nc ban (v :: vs) node ray
  | _ => []
  end.
Definition first_error (rs : list (result error (list string))) : option error :=
  foldr (fun r rest => match r with Err e => Some e | Ok _ => rest end) None rs.

Lemma writeLists_spec node ray : forall bans failed w,
  writeLists Networked geo live nc node ray bans failed w =
  let '(rs, w') := lookups bans w in
  (match failed with Some e => Some e | None => first_error rs end,
   concat (zip_with (write_of node ray) bans rs), w').
Proof.
  induction bans as [|ban bans IH]; intros failed w; cbn [writeLists lookups]; [by destruct failed|].
  destruct (Networked _).
  - destruct (geo _ _ w) as [[[|v vs]|e] w1]; rewrite IH; destruct (lookups bans w1) as [rs w2]; cbn.
    + by destruct failed.
    + by destruct failed.
    + by destruct failed.
  - rewrite IH. destruct (lookups bans w) as [rs w2]. cbn. by destruct failed.
Qed.

End writes.

Section inspected.
Context `{UnicodeLower}.
Context (Error : error -> string) {W : Type} (Networked : string -> bool).
Context (geo : string -> string -> W -> result error (list string) * W).
Context (st : Mirror.store) (nc : bool) (now : Z) (snap : option Store.Snapshot).

End inspected.

(** ** Witnesses *)

Definition ex_cfg : Config.Config :=
  Config.MkConfig ["nats"] "waf.req.ip" "ip" "ip" "" "" "" "" "" 1 4 16 "drop" "off" "" 1 1 [2] 0 1 "" 1 0.
Definition ex_marshal (r : Reply) : option string := Some (reply_Verdict r).
Definition ex_unmarshal (payload : string) : result error Request :=
  if String.eqb payload "ok" then Ok example_request else Err (errorf "bad").
Definition ex_geo (write addr : string) (w : unit) : result error (list string) * unit := (Err (errorf "down"), w).
Definition ex_task : Queue.Task := Queue.MkTask example_request "inbox" 40 7.
Definition ex_evaluate (panic : option nat) (shed : string) : list effect :=
  (evaluate (H := ascii_only) ex_cfg ex_marshal format (fun _ => false) ex_geo None true 0 None
     panic ex_task 5000000 shed 3 tt).1.

Lemma every_message_answered_witness :
  let order := [NeedHeaders; NeedArgs; NeedBody] in
  receive ex_cfg ex_unmarshal order ex_marshal None (MkMsg "inbox" "ok")
    = [Submit (Queue.MkTask example_request "inbox" 0 0)]
  /\ answers (ex_evaluate None "IP_QUEUE_LIMIT") = [Answer "inbox" "error"]
  /\ answered_once "inbox" (ex_evaluate None "")
  /\ answered "inbox" (ex_evaluate (Some 1%nat) "").
Proof.
  cbv zeta. split; [reflexivity|]. split; [reflexivity|].
  destruct (every_message_answered (H := ascii_only) ex_cfg ex_unmarshal [NeedHeaders; NeedArgs; NeedBody] ex_marshal
    format (fun _ => false) ex_geo None true 0 None (fun _ _ _ => ex_intro _ _ eq_refl) (MkMsg "inbox" "ok")
    ltac:(discriminate)) as (_ & _ & Hev).
  split.
  - exact (proj2 (Hev ex_task None 5000000 "" 3 tt eq_refl) eq_refl).
  - exact (proj1 (Hev ex_task (Some 1%nat) 5000000 "" 3 tt eq_refl)).
Defined.

End Handler.
