(* ===== verification/Sink.v ===== *)
(** * The audit sink

    Models [internal/audit/sink.go]: events wait in a bounded list and leave
    in batches, one message of the bus for each subject of a batch. [Add] runs
    on any thread; one loop takes, groups and sends. The machine below steps
    at the mutex, so adds interleave with a flush as they do in the program;
    its labels say what happened. The JSON encoder is an argument, and what
    NATS makes of a message is only logged. *)

From S2P Require Import Prelude GoStrings Protocol Events.

#[local] Open Scope Z_scope.

Module Sink.
Import Events.

Definition KindBatch : string := "batch".
Definition maxItems : nat := 256.
Definition maxSize : Z := Z.shiftl 512 10.
Definition maxPending : Z := 50000.

Record item : Type := MkItem { subject : string; body : string }.
Record sink : Type := MkSink { pending : list item; size : Z; dropped : Z }.
Definition NewSink : sink := MkSink [] 0 0.

Definition weight (it : item) : Z := Z.of_nat (String.length (body it)) + 2.
Definition sizeOf (items : list item) : Z := fold_left (fun n it => i64 (n + weight it)) items 0.

(** ** Sections under the mutex *)

(** The first section of [Add]: the sink, what it dropped, whether it is full. *)
Definition add (it : item) (s : sink) : sink * list item * bool :=
  let p := pending s ++ [it] in
  let n := i64 (size s + weight it) in
  let '(s, out) :=
    if maxPending <? Z.of_nat (length p) then
      let cut := Z.to_nat (Z.of_nat (length p) - maxPending) in
      (MkSink (drop cut p) (sizeOf (drop cut p)) (u64 (dropped s + Z.of_nat cut)), take cut p)
    else (MkSink p n (dropped s), []) in
  (s, out, (maxItems <=? length (pending s))%nat || (maxSize <=? size s)).
(** One round of [flush]. *)
Definition take_batch (s : sink) : sink * list item :=
  let n := Nat.min (length (pending s)) maxItems in
  let rest := drop n (pending s) in
  (MkSink rest (sizeOf rest) (dropped s), take n (pending s)).

(** What [Add] puts in the list, if anything. *)
Section events.
Context {float : Type} (marshal : Events.Event float -> option string).
Definition audit_item (ts : string) (req : option Protocol.Request) (reply : option Protocol.Reply)
  (det : Events.Details float) : option item :=
  match req, reply with
  | Some r, Some _ =>
      match Protocol.req_AuditSubject r with
      | Some s =>
          if String.eqb s "" then None
          else match marshal (Events.Build ts req reply det) with
               | Some b => Some (MkItem s b)
               | None => None
               end
      | None => None
      end
  | _, _ => None
  end.
End events.

(** ** Sending *)

(** The loop of [groupBySubject]. *)
Definition group_step (acc : list string * gmap string (list item)) (it : item)
  : list string * gmap string (list item) :=
  let '(order, m) := acc in
  (if bool_decide (is_Some (m !! subject it)) then order else order ++ [subject it],
   <[subject it := default [] (m !! subject it) ++ [it]]> m).
Definition groupBySubject (items : list item) : list string * gmap string (list item) :=
  fold_left group_step items ([], ∅).
(** [publish]: the calls of [send], in order. *)
Definition publish (items : list item) : list (string * list item) :=
  match items with
  | [it] => [(subject it, [it])]
  | _ =>
      let '(order, m) := groupBySubject items in
      map (fun s => (s, default [] (m !! s))) order
  end.

Record envelope : Type := MkEnvelope { e_V : Z; e_Kind : string; e_Items : list string }.
Definition pack (items : list item) : envelope := MkEnvelope Events.Version KindBatch (map body items).
(** The message of a call of [send], when its envelope can be encoded. *)
Definition send (encode : envelope -> option string) (x : string * list item) : option (string * string) :=
  match encode (pack x.2) with Some b => Some (x.1, b) | None => None end.

(** ** The machine *)

(** Where the loop is; a flush that is the last one ends the loop. *)
Inductive pc : Type := Idle | Flush (last : bool) | Publishing (items : list item) (last : bool) | Stopped.
(** [kicks] are the adds that found the sink full and have not kicked yet;
    [wake] is the channel of one place; [stop] is closed by [Close]. *)
Record state : Type := MkState { sk : sink; kicks : nat; wake : bool; stop : bool; loop : pc }.
Definition start : state := MkState NewSink 0 false false Idle.

Inductive label : Type :=
| Added (it : item)
| Dropped (items : list item)
| Took (items : list item)
| Sent (x : string * list item).

Inductive step : state -> list label -> state -> Prop :=
| step_add it s out full k w st l : forall s', add it s = (s', out, full) ->
    step (MkState s k w st l) [Added it; Dropped out] (MkState s' (if full then S k else k) w st l)
| step_kick s k w st l : step (MkState s (S k) w st l) [] (MkState s k true st l)
| step_wake s k st : step (MkState s k true st Idle) [] (MkState s k false st (Flush false))
| step_tick s k w st : step (MkState s k w st Idle) [] (MkState s k w st (Flush false))
| step_close s k w st l : step (MkState s k w st l) [] (MkState s k w true l)
| step_stop s k w : step (MkState s k w true Idle) [] (MkState s k w true (Flush true))
| step_empty s k w st last : pending s = [] ->
    step (MkState s k w st (Flush last)) [] (MkState s k w st (if last then Stopped else Idle))
| step_take s k w st last items : forall s', pending s <> [] -> take_batch s = (s', items) ->
    step (MkState s k w st (Flush last)) [Took items] (MkState s' k w st (Publishing items last))
| step_publish s k w st items last :
    step (MkState s k w st (Publishing items last)) (map Sent (publish items))
      (MkState s k w st (Flush last)).

(** What the machine does next by itself, adds apart, executably. *)
Inductive move : Type := MKick | MWake | MTick | MStop | MFlush | MPublish.
Definition exec (x : state) (m : move) : option (list label * state) :=
  match m, x with
  | MKick, MkState s (S k) _ st l => Some ([], MkState s k true st l)
  | MWake, MkState s k true st Idle => Some ([], MkState s k false st (Flush false))
  | MTick, MkState s k w st Idle => Some ([], MkState s k w st (Flush false))
  | MStop, MkState s k w true Idle => Some ([], MkState s k w true (Flush true))
  | MFlush, MkState s k w st (Flush last) =>
      match pending s with
      | [] => Some ([], MkState s k w st (if last then Stopped else Idle))
      | _ => let '(s', items) := take_batch s in Some ([Took items], MkState s' k w st (Publishing items last))
      end
  | MPublish, MkState s k w st (Publishing items last) =>
      Some (map Sent (publish items), MkState s k w st (Flush last))
  | _, _ => None
  end.

(** A run from a state, with its labels in order. *)
Inductive runs (x : state) : list label -> state -> Prop :=
| runs_nil : runs x [] x
| runs_step h y l z : runs x h y -> step y l z -> runs x (h ++ l) z.

(** ** What a history says *)

Definition added (h : list label) : list item :=
  omap (fun l => match l with Added it => Some it | _ => None end) h.
(** The items that left the list, in order, and whether to be sent. *)
Definition left_list (h : list label) : list (bool * item) :=
  concat (map (fun l => match l with
    | Dropped items => map (pair false) items
    | Took items => map (pair true) items
    | _ => [] end) h).
Definition taken (h : list label) : list item :=
  concat (map (fun l => match l with Took items => items | _ => [] end) h).
Definition lost (h : list label) : list item :=
  concat (map (fun l => match l with Dropped items => items | _ => [] end) h).
Definition sent (h : list label) : list (string * list item) :=
  omap (fun l => match l with Sent x => Some x | _ => None end) h.
(** Everything that was sent to a subject, and what of a list is for it. *)
Definition sent_to (s : string) (xs : list (string * list item)) : list item :=
  concat (map snd (List.filter (fun x => String.eqb x.1 s) xs)).
Definition for_subject (s : string) (items : list item) : list item :=
  List.filter (fun it => String.eqb (subject it) s) items.

(** ** Grouping *)

Lemma for_subject_app s a b : for_subject s (a ++ b) = for_subject s a ++ for_subject s b.
Proof. apply List.filter_app. Qed.
Lemma sent_to_app s a b : sent_to s (a ++ b) = sent_to s a ++ sent_to s b.
Proof. unfold sent_to. by rewrite List.filter_app, map_app, concat_app. Qed.

Lemma group_spec items order m : groupBySubject items = (order, m) ->
  NoDup order /\ (forall s, s ∈ order <-> is_Some (m !! s))
  /\ (forall s, default [] (m !! s) = for_subject s items)
  /\ (forall s l, m !! s = Some l -> l <> []).
Proof.
  revert order m. induction items as [|it items IH] using rev_ind; intros order m.
  { intros [= <- <-]. split_and!; [constructor| | |].
    - intros s. rewrite lookup_empty. split; [by intros ?%elem_of_nil|by intros []].
    - intros s. by rewrite lookup_empty.
    - intros s l. by rewrite lookup_empty. }
  unfold groupBySubject. rewrite fold_left_app. cbn [fold_left]. fold (groupBySubject items).
  destruct (groupBySubject items) as [o m0]. destruct (IH o m0 eq_refl) as (Hnd & Hin & Hget & Hne). cbn [group_step].
  intros [= <- <-]. split_and!.
  - case_bool_decide as Hs; [done|]. apply NoDup_app. split_and!; [done| |apply NoDup_singleton].
    intros s Hs1 ->%list_elem_of_singleton. by apply Hs, Hin.
  - intros s. destruct (decide (s = subject it)) as [->|Hn].
    + rewrite lookup_insert_eq. split; [by eexists|]. intros _. case_bool_decide as Hs; [by apply Hin|].
      apply elem_of_app. right. by left.
    + rewrite lookup_insert_ne by done. case_bool_decide; [apply Hin|]. rewrite elem_of_app, Hin.
      split; [intros [?|?%list_elem_of_singleton]; done|by left].
  - intros s. rewrite for_subject_app. cbn [for_subject List.filter].
    destruct (String.eqb_spec (subject it) s) as [<-|Hn].
    + rewrite lookup_insert_eq. cbn [default]. by rewrite Hget.
    + rewrite lookup_insert_ne by done. by rewrite Hget, app_nil_r.
  - intros s l. destruct (decide (s = subject it)) as [->|Hn].
    + rewrite lookup_insert_eq. intros [= <-]. by destruct (default [] _).
    + rewrite lookup_insert_ne by done. apply Hne.
Qed.

Lemma sent_to_order s (m : gmap string (list item)) order : NoDup order ->
  sent_to s (map (fun s => (s, default [] (m !! s))) order)
  = if bool_decide (s ∈ order) then default [] (m !! s) else [].
Proof.
  induction order as [|t order IH]; intros Hnd; [done|]. apply NoDup_cons in Hnd as [Ht Hnd].
  specialize (IH Hnd). unfold sent_to in *. cbn [map List.filter fst].
  destruct (String.eqb_spec t s) as [->|Hne]; cbn [map concat snd]; rewrite IH.
  - rewrite bool_decide_eq_false_2, bool_decide_eq_true_2, app_nil_r; [done|by left|done].
  - apply bool_decide_ext_if. rewrite elem_of_cons. naive_solver.
Qed.

(** One batch: each subject gets its items in their order, in one message
    that is not empty. *)
Lemma publish_spec items :
  (forall s, sent_to s (publish items) = for_subject s items)
  /\ (forall s l, (s, l) ∈ publish items -> l <> [] /\ l = for_subject s items)
  /\ NoDup (publish items).*1.
Proof.
  assert (forall order m, groupBySubject items = (order, m) ->
    let out := map (fun s => (s, default [] (m !! s))) order in
    (forall s, sent_to s out = for_subject s items)
    /\ (forall s l, (s, l) ∈ out -> l <> [] /\ l = for_subject s items) /\ NoDup out.*1) as Hgroup.
  { intros order m E. destruct (group_spec _ _ _ E) as (Hnd & Hin & Hget & Hne). cbv zeta. split_and!.
    - intros s. rewrite sent_to_order by done. rewrite <- Hget. case_bool_decide as Hs; [done|].
      rewrite Hin in Hs. by rewrite (proj2 (eq_None_not_Some _) Hs).
    - intros s l (t & [= <- ->] & Ht)%list_elem_of_fmap_1. split; [|apply Hget].
      apply Hin in Ht as [l Hl]. rewrite Hl. by apply (Hne s).
    - rewrite <- list_fmap_compose. unfold compose. cbn. by rewrite list_fmap_id. }
  unfold publish. destruct items as [|it [|it2 items]]; [by apply (Hgroup [] ∅)| |].
  - split_and!.
    + intros s. unfold sent_to, for_subject. cbn. destruct (String.eqb_spec (subject it) s); by cbn.
    + intros s l [= -> ->]%list_elem_of_singleton. split; [done|]. cbn. by rewrite String.eqb_refl.
    + apply NoDup_singleton.
  - destruct (groupBySubject (it :: it2 :: items)) as [order m] eqn:E. by apply Hgroup.
Qed.

(** ** The invariant of a run *)

Lemma sizeOf_snoc p it : sizeOf (p ++ [it]) = i64 (sizeOf p + weight it).
Proof. unfold sizeOf. by rewrite fold_left_app. Qed.

#[local] Opaque i64.

Lemma add_spec it s s' out full : add it s = (s', out, full) -> size s = sizeOf (pending s) ->
  Z.of_nat (length (pending s)) <= maxPending ->
  pending s ++ [it] = out ++ pending s' /\ size s' = sizeOf (pending s')
  /\ Z.of_nat (length (pending s')) <= maxPending
  /\ dropped s' = (if bool_decide (out = []) then dropped s else u64 (dropped s + Z.of_nat (length out))).
Proof.
  unfold add. intros E Hsize Hlen. set (p := pending s ++ [it]) in *.
  destruct (Z.ltb_spec maxPending (Z.of_nat (length p))) as [Hl|Hl]; injection E as <- <- _.
  - set (cut := Z.to_nat (Z.of_nat (length p) - maxPending)). cbn [pending size dropped].
    assert (length (take cut p) = cut) as Hc by (rewrite length_take; lia).
    split_and!; [by rewrite take_drop|done|rewrite length_drop; lia|].
    rewrite Hc. rewrite bool_decide_eq_false_2; [done|]. intros E%(f_equal length). rewrite Hc in E.
    cbn in E. lia.
  - cbn [pending size dropped]. split_and!; [done|by rewrite Hsize; symmetry; apply sizeOf_snoc|done|].
    by rewrite bool_decide_eq_true_2.
Qed.

Lemma take_batch_spec s s' items : take_batch s = (s', items) -> pending s <> [] ->
  pending s = items ++ pending s' /\ size s' = sizeOf (pending s') /\ dropped s' = dropped s
  /\ (1 <= length items <= maxItems)%nat /\ (length (pending s') < length (pending s))%nat.
Proof.
  unfold take_batch. intros [= <- <-] Hne. cbn [pending size dropped].
  assert (0 < length (pending s))%nat by (destruct (pending s); [done|cbn; lia]).
  unfold maxItems. rewrite take_drop, length_take, length_drop. split_and!; try done; lia.
Qed.

(** Histories, one label after another. *)
Lemma added_app h l : added (h ++ l) = added h ++ added l.
Proof. apply omap_app. Qed.
Lemma left_app h l : left_list (h ++ l) = left_list h ++ left_list l.
Proof. unfold left_list. by rewrite map_app, concat_app. Qed.
Lemma taken_app h l : taken (h ++ l) = taken h ++ taken l.
Proof. unfold taken. by rewrite map_app, concat_app. Qed.
Lemma lost_app h l : lost (h ++ l) = lost h ++ lost l.
Proof. unfold lost. by rewrite map_app, concat_app. Qed.
Lemma sent_app h l : sent (h ++ l) = sent h ++ sent l.
Proof. apply omap_app. Qed.

Lemma map_Sent xs : added (map Sent xs) = [] /\ left_list (map Sent xs) = [] /\ taken (map Sent xs) = []
  /\ lost (map Sent xs) = [] /\ sent (map Sent xs) = xs.
Proof.
  induction xs as [|x xs (H1 & H2 & H3 & H4 & H5)]; [done|]. split_and!; [done..|].
  cbn. by f_equal.
Qed.
Lemma left_tags (b : bool) (items : list item) : map snd (map (pair b) items) = items.
Proof. rewrite map_map. apply map_id. Qed.

Record run_ok (h : list label) (x : state) : Prop := {
  ro_fifo : added h = map snd (left_list h) ++ pending (sk x);
  ro_taken : taken h = map snd (List.filter fst (left_list h));
  ro_lost : lost h = map snd (List.filter (fun y => negb (fst y)) (left_list h));
  ro_bound : Z.of_nat (length (pending (sk x))) <= maxPending;
  ro_size : size (sk x) = sizeOf (pending (sk x));
  ro_dropped : dropped (sk x) = u64 (Z.of_nat (length (lost h)));
  ro_sent : forall s, sent_to s (sent h)
    ++ match loop x with Publishing items _ => for_subject s items | _ => [] end = for_subject s (taken h);
  ro_batches : forall s l, (s, l) ∈ sent h ->
    l <> [] /\ (length l <= maxItems)%nat /\ Forall (fun it => subject it = s) l;
  ro_hand : match loop x with Publishing items _ => (length items <= maxItems)%nat | _ => True end }.

Lemma filter_tags (f : bool * item -> bool) b (items : list item) : (forall it, f (b, it) = f (b, MkItem "" "")) ->
  List.filter f (map (pair b) items) = if f (b, MkItem "" "") then map (pair b) items else [].
Proof.
  intros Hf. induction items as [|it items IH]; [by destruct (f _)|]. cbn. rewrite Hf, IH.
  by destruct (f (b, MkItem "" "")).
Qed.

Lemma for_subject_all s items : Forall (fun it => subject it = s) (for_subject s items).
Proof. apply List.Forall_forall. intros it [_ H]%filter_In. by apply String.eqb_eq. Qed.
Lemma for_subject_length s items : (length (for_subject s items) <= length items)%nat.
Proof. apply filter_length_le. Qed.

(** What an add, and what a take, say. *)
Lemma add_history it out : let l := [Added it; Dropped out] in
  added l = [it] /\ left_list l = map (pair false) out /\ taken l = [] /\ lost l = out /\ sent l = [].
Proof. unfold left_list, lost. cbn. by rewrite !app_nil_r. Qed.
Lemma take_history items : let l := [Took items] in
  added l = [] /\ left_list l = map (pair true) items /\ taken l = items /\ lost l = [] /\ sent l = [].
Proof. unfold left_list, taken. cbn. by rewrite !app_nil_r. Qed.

Lemma u64_add a b : u64 (u64 a + b) = u64 (a + b).
Proof. unfold wrap. by rewrite Zplus_mod_idemp_l. Qed.

Lemma sink_step_ok h x l y : run_ok h x -> step x l y -> run_ok (h ++ l) y.
Proof.
  intros [F T L B S D N A H] Hstep.
  destruct Hstep as [it s out full k w st l s' E|s k w st l|s k st|s k w st|s k w st l|s k w|s k w st last E
    |s k w st last items s' Hne E|s k w st items last]; cbn [sk loop] in *;
    try (rewrite app_nil_r; split; cbn [sk loop]; try done; by destruct last).
  - destruct (add_spec _ _ _ _ _ E S B) as (Hp & Hs & Hb & Hd). destruct (add_history it out) as (A1 & A2 & A3 & A4 & A5).
    split; cbn [sk loop]; rewrite ?added_app, ?left_app, ?taken_app, ?lost_app, ?sent_app, ?A1, ?A2, ?A3, ?A4, ?A5,
      ?app_nil_r; try done.
    + by rewrite map_app, left_tags, F, <- !app_assoc, Hp.
    + rewrite List.filter_app, filter_tags by done. cbn [fst negb]. by rewrite app_nil_r.
    + rewrite List.filter_app, filter_tags by done. cbn [fst negb]. by rewrite map_app, left_tags, <- L.
    + rewrite Hd, D, length_app, Nat2Z.inj_add, u64_add. case_bool_decide as Ho; [|done].
      by rewrite Ho, Z.add_0_r.
  - destruct (take_batch_spec _ _ _ E Hne) as (Hp & Hs & Hd & Hl & _). destruct (take_history items) as (A1 & A2 & A3 & A4 & A5).
    split; cbn [sk loop]; rewrite ?added_app, ?left_app, ?taken_app, ?lost_app, ?sent_app, ?A1, ?A2, ?A3, ?A4, ?A5,
      ?app_nil_r; try done.
    + by rewrite map_app, left_tags, F, <- !app_assoc, Hp.
    + rewrite List.filter_app, filter_tags by done. cbn [fst negb]. by rewrite map_app, left_tags, <- T.
    + rewrite List.filter_app, filter_tags by done. cbn [fst negb]. by rewrite app_nil_r.
    + apply (f_equal length) in Hp. rewrite length_app in Hp. lia.
    + by rewrite Hd.
    + intros s0. by rewrite for_subject_app, <- N, app_nil_r.
    + lia.
  - destruct (map_Sent (publish items)) as (A1 & A2 & A3 & A4 & A5). destruct (publish_spec items) as (P1 & P2 & _).
    split; cbn [sk loop]; rewrite ?added_app, ?left_app, ?taken_app, ?lost_app, ?sent_app, ?A1, ?A2, ?A3, ?A4, ?A5,
      ?app_nil_r; try done.
    + intros s0. by rewrite app_nil_r, sent_to_app, P1.
    + intros s0 l [?|Hin]%elem_of_app; [by apply A|]. destruct (P2 s0 l Hin) as [? ->].
      pose proof (for_subject_length s0 items). split_and!; [done|lia|apply for_subject_all].
Qed.

Lemma runs_ok h0 x h y : run_ok h0 x -> runs x h y -> run_ok (h0 ++ h) y.
Proof.
  intros H0. induction 1 as [|h y l z _ IH Hs]; [by rewrite app_nil_r|].
  rewrite app_assoc. by eapply sink_step_ok.
Qed.
Lemma runs_app x h y k z : runs x h y -> runs y k z -> runs x (h ++ k) z.
Proof.
  intros H1. induction 1 as [|k y' l z _ IH Hs]; [by rewrite app_nil_r|].
  rewrite app_assoc. by eapply runs_step.
Qed.

Lemma start_ok : run_ok [] start.
Proof.
  split; try done.
  intros s l Hin. by apply elem_of_nil in Hin.
Qed.

(** A flush that is left alone takes everything and ends. *)
Lemma flush_ends n : forall s k w st last, (length (pending s) <= n)%nat ->
  exists h s', runs (MkState s k w st (Flush last)) h (MkState s' k w st (if last then Stopped else Idle))
    /\ pending s' = [] /\ added h = [] /\ lost h = [].
Proof.
  induction n as [|n IH]; intros s k w st last Hn.
  { assert (pending s = []) as Hp by (by destruct (pending s); [|cbn in Hn; lia]).
    exists [], s. split_and!; try done. rewrite <- (app_nil_l []). eapply runs_step; [apply runs_nil|by apply step_empty]. }
  destruct (decide (pending s = [])) as [Hp|Hp].
  { exists [], s. split_and!; try done. rewrite <- (app_nil_l []). eapply runs_step; [apply runs_nil|by apply step_empty]. }
  destruct (take_batch s) as [s1 items] eqn:E. destruct (take_batch_spec _ _ _ E Hp) as (_ & _ & _ & _ & Hl).
  destruct (IH s1 k w st last ltac:(lia)) as (h & s' & Hr & Hs' & Ha & Hl').
  destruct (map_Sent (publish items)) as (A1 & _ & _ & A4 & _).
  exists (([] ++ [Took items]) ++ map Sent (publish items) ++ h), s'. split_and!; [|done| |].
  - rewrite app_assoc. eapply runs_app; [|exact Hr].
    eapply runs_step; [|apply step_publish]. eapply runs_step; [apply runs_nil|by eapply step_take].
  - by rewrite !added_app, A1, Ha.
  - by rewrite !lost_app, A4, Hl'.
Qed.

(** A move is a step, adds nothing and closes nothing. *)
Lemma move_sound x m l y : exec x m = Some (l, y) -> step x l y /\ added l = [] /\ stop y = stop x.
Proof.
  destruct m, x as [s k w st lp]; cbn [exec].
  - destruct k; [done|]. intros [= <- <-]. split; [constructor|done].
  - destruct w, lp; try done. intros [= <- <-]. split; [constructor|done].
  - destruct lp; try done. intros [= <- <-]. split; [constructor|done].
  - destruct st, lp; try done. intros [= <- <-]. split; [constructor|done].
  - destruct lp as [|last| |]; try done. destruct (pending s) as [|it p] eqn:Ep.
    + intros [= <- <-]. split; [by apply step_empty|done].
    + destruct (take_batch s) as [s' items] eqn:Et. intros [= <- <-]. split; [|done].
      apply step_take; [congruence|done].
  - destruct lp as [| |items last|]; try done. intros [= <- <-].
    destruct (map_Sent (publish items)) as [Ha _]. split; [constructor|done].
Qed.

(** The loop ends only after [Close], and with nothing waiting. *)
Definition last_flush (l : pc) : bool := match l with Flush b | Publishing _ b => b | Stopped => true | Idle => false end.
Lemma last_needs_stop x l y : step x l y -> (last_flush (loop x) = true -> stop x = true) ->
  last_flush (loop y) = true -> stop y = true.
Proof. by destruct 1 as [| | | | | |? ? ? ? [] ?| |]; cbn [last_flush loop stop]. Qed.
Lemma stops_empty x l y : step x l y -> loop y = Stopped -> loop x = Stopped \/ (pending (sk y) = [] /\ l = []).
Proof. destruct 1 as [| | | | | |? ? ? ? [] ?| |]; cbn [loop sk]; intros; try done; auto. Qed.

Lemma stopped_stays x l y : step x l y -> loop x = Stopped -> loop y = Stopped.
Proof. by destruct 1. Qed.

(** C16: The audit sink is a bounded queue that loses only its oldest events
    and counts them. In every run, at every moment, the events added are those
    that left, in order, followed by those that wait; of those that left each
    was dropped and counted or taken; at most 50000 wait; what was taken has
    been sent, or is in the hands of the loop, to its own subject and in the
    order it was added, in messages of one subject with 1 to 256 events. And
    a flush - the last one after [Close] too - ends with nothing waiting. *)
Theorem sink_delivers h x : runs start h x ->
  run_ok h x
  /\ forall last, loop x = Flush last -> exists k y, runs x k y
     /\ loop y = (if last then Stopped else Idle) /\ pending (sk y) = [] /\ added k = [] /\ lost k = []
     /\ forall s, sent_to s (sent (h ++ k)) = for_subject s (taken h ++ pending (sk x)).
Proof.
  intros Hr. pose proof (runs_ok [] _ _ _ start_ok Hr) as Hx. cbn [app] in Hx. split; [done|]. intros last Hl.
  destruct x as [s k w st l]. cbn [loop sk] in *. subst l.
  destruct (flush_ends (length (pending s)) s k w st last (Nat.le_refl _)) as (h' & s' & Hr' & Hp & Ha & Hlost).
  exists h', (MkState s' k w st (if last then Stopped else Idle)). cbn [loop sk]. split_and!; try done.
  pose proof (runs_ok _ _ _ _ Hx Hr') as Hy. intros t. pose proof (ro_sent _ _ Hy t) as Hs.
  assert (taken (h ++ h') = taken h ++ pending s) as <-.
  { pose proof (ro_fifo _ _ Hx) as Fx. pose proof (ro_fifo _ _ Hy) as Fy. cbn [sk] in *.
    rewrite added_app, Ha, Hp, !app_nil_r, Fx, left_app, map_app in Fy. apply app_inv_head in Fy.
    rewrite (ro_taken _ _ Hx), (ro_taken _ _ Hy), left_app, List.filter_app, map_app. f_equal.
    rewrite Fy. pose proof (ro_lost _ _ Hx) as Lx. pose proof (ro_lost _ _ Hy) as Ly.
    rewrite lost_app, Hlost, app_nil_r, left_app, List.filter_app, map_app, <- Lx in Ly.
    rewrite <- (app_nil_r (lost h)) in Ly at 1. apply app_inv_head, eq_sym, map_eq_nil in Ly.
    clear -Ly. induction (left_list h') as [|[[] it] ys IH]; [done| |done].
    cbn in *. by rewrite (IH Ly). }
  rewrite <- Hs. by destruct last; rewrite app_nil_r.
Qed.

Lemma sink_delivers_witness :
  let a := MkItem "s1" "x" in
  let x := MkState (MkSink [a] 3 0) 0 false true (Flush true) in
  runs start [Added a; Dropped []] x
  /\ exists k y, runs x k y /\ loop y = Stopped /\ sent_to "s1" (sent ([Added a; Dropped []] ++ k)) = [a].
Proof.
  cbv zeta. set (a := MkItem "s1" "x").
  assert (runs start [Added a; Dropped []] (MkState (MkSink [a] 3 0) 0 false true (Flush true))) as Hr.
  { change [Added a; Dropped []] with ((([] ++ [Added a; Dropped []]) ++ []) ++ [] : list label).
    eapply runs_step; [|apply step_stop]. eapply runs_step; [|apply step_close].
    eapply runs_step; [apply runs_nil|]. apply (step_add a _ [] false). vm_compute. reflexivity. }
  split; [exact Hr|]. destruct (sink_delivers _ _ Hr) as [_ Hf].
  destruct (Hf true eq_refl) as (k & y & Hk & Hl & _ & _ & _ & Hs). exists k, y.
  split; [exact Hk|]. split; [exact Hl|]. rewrite (Hs "s1"). reflexivity.
Defined.

End Sink.
