(* ===== verification/Program.v ===== *)
(** * The program: start, presence, signals, health check

    Models what [cmd/ip/main.go] and [cmd/probe/main.go] do themselves: the
    policy the program starts with, the presence frame, the signals, and the
    message of the health check. The order of the start and of the shutdown is
    in [Startup], what runs in between in [Node]; the frame's envelope
    ([placitum-shared/pulse]) is left out. *)

From S2P Require Import Prelude GoStrings Files Protocol Policy Store Mirror Queue Tree Pack Apply Watch Config Handler.

#[local] Open Scope Z_scope.

Module Program.

(** ** Texts *)

(** [joined] *)
Fixpoint joined_go (first : bool) (servers : list string) : string :=
  match servers with
  | [] => ""
  | s :: servers => (if first then "" else ",") +:+ s +:+ joined_go false servers
  end.
Definition joined (servers : list string) : string := joined_go true servers.

(** [sub.SetPendingLimits]: how many messages the client keeps. *)
Definition pending_limit (c : Config.Config) : Z := Config.QueueDepth c + Config.Workers c + 2.
(** [queue.New] with the settings. *)
Definition new_pool (c : Config.Config) : Queue.Pool :=
  Queue.New (Config.QueueDepth c) (Config.ReserveMS c) (Config.MinBudgetMS c) (Config.QueueFull c).

(** ** Start *)

Section start.
Context `{UnicodeLower}.
Context (yaml_sets : string -> result error (list (string * Policy.fileSet))).
Context (yaml_profile : string -> result error Policy.fileProfile).
Context (yaml_live : string -> result error (list (string * string))).

(** The part of [startDesired] that acts at once: nothing without a data
    directory, the generation on disk otherwise; then the loop of [Watch]
    starts. *)
Definition startDesired (c : Config.Config) (e : Watch.env) (s : Watch.node) : Watch.node :=
  if String.eqb (Config.DataDir c) "" then s
  else snd (Watch.Bootstrap yaml_sets yaml_profile yaml_live (Config.DataDir c) e s).
(** What [run] does with the policy before it takes messages: it loads the
    configured tree, then the generation on disk, and attaches the live sets
    of what it serves. *)
Definition boot (c : Config.Config) (e : Watch.env) (w : Tree.world) : result error Watch.node :=
  let* data := Store.Load yaml_sets yaml_profile yaml_live (Tree.disk_of (Tree.root w)) (Tree.clock w)
                 (Store.MkPaths (Config.PolicyDir c) (Config.GeoDir c)) in
  let s := startDesired c e
             (Watch.MkNode Watch.noApplied w data Mirror.New (Some (Config.LogLevel c))) in
  Ok match Store.cur (Watch.policy s) with
     | Some snap =>
         Watch.MkNode (Watch.applied s) (Watch.files s) (Watch.policy s)
           (Watch.sync_live e (Store.Live_ snap) (Watch.live s)) (Watch.log_level s)
     | None => s
     end.

(** ** Signals *)

Inductive signal : Type := SIGINT | SIGTERM | SIGHUP.
(** [waitForSignal]: [SIGHUP] reloads the policy, any other signal ends the
    wait. Every signal comes with the disk and the time; what is left of the
    signals is not read. *)
Fixpoint waitForSignal (sigs : list (signal * (Files.disk * Z))) (st : Store.store) : option Store.store :=
  match sigs with
  | [] => None
  | (SIGHUP, (d, now)) :: sigs =>
      waitForSignal sigs (snd (Store.Reload yaml_sets yaml_profile yaml_live d d now st))
  | _ :: _ => Some st
  end.
End start.

(** ** Presence *)

Record liveSet : Type := MkLiveSet { l_UUID : string; l_Seq : Z; l_Base : Z; l_Live : Z; l_Ready : bool }.
Definition liveStats (stats : list Mirror.StatsRow) : list liveSet :=
  map (fun st => MkLiveSet (Mirror.stUUID st) (Mirror.stSeq st) (Mirror.stBase st) (Mirror.stLive st)
    (Mirror.stReady st)) stats.

Record Work : Type := MkWork {
  w_Workers : Z; w_QueueDepth : Z; w_Queued : Z; w_Accepted : Z; w_Shed : Z; w_Expired : Z }.
(** The fields that [beat] sets in the frame. *)
Record frame : Type := MkFrame {
  f_Work : Work; f_Rev : Z; f_ConfigHash : string; f_Apply : string; f_Profiles : list string;
  f_Live : list liveSet }.
(** [applied] is nil when generations are off. *)
Definition beat (c : Config.Config) (pool : Queue.Pool) (cur : option Store.Snapshot)
  (applied : option Watch.Applied) (stats : list Mirror.StatsRow) : frame :=
  let work := MkWork (Config.Workers c) (Config.QueueDepth c) (Queue.len pool) (Queue.Accepted pool)
                (Queue.Shed pool) (Queue.Expired pool) in
  let '(rev, hash, apply, profiles) :=
    match cur with
    | Some snap =>
        let st := Store.Stats (Some snap) in
        (i64 (Store.st_Gen st), Store.st_Fingerprint st, "ok", Store.st_Profiles st)
    | None => (0, "", "", [])
    end in
  let a := Watch.Snapshot applied in
  if String.eqb (Watch.apply a) "" then MkFrame work rev hash apply profiles (liveStats stats)
  else MkFrame work (Watch.rev a) (Watch.hash a) (Watch.apply a)
         (match Watch.names a with [] => profiles | names => names end) (liveStats stats).

(** ** The health check *)

(** [request] of the probe; [nanos] is the time, [timeout] in nanoseconds. *)
Definition probe_request (name uri method clientIP profile : string) (timeout nanos : Z) : Protocol.Request :=
  let '(path, args) := Cut uri "?" in
  Protocol.MkRequest Protocol.Version (hex016 nanos) "" Protocol.PhaseRequest 0 name (Z.quot timeout 1000000)
    None "probe" (Protocol.MkConn clientIP 12345 "127.0.0.1" 8080 None)
    (Protocol.MkHTTP method "http" "probe.local" path (Z.of_nat (String.length (default "" args))) "HTTP/1.1")
    ∅ [] (Protocol.MkStore None None None) (Protocol.MkRoute "probe.local" "/" profile)
    (Protocol.MkScore 0 100) [] None.
(** What the probe says of the reply it got. *)
Definition probe_verdict (expect : string) (reply : result error Protocol.Reply) : result error unit :=
  let* r := map_err (wrapf "malformed reply: " []) reply in
  reject_if (negb (String.eqb expect "") && negb (String.eqb (Protocol.reply_Verdict r) expect))
    (Errorf "verdict is %q, expected %q" [Protocol.reply_Verdict r; expect]).

(** ** A program that has started *)

Section started.
Context `{UnicodeLower}.
Context (ysets : string -> result error (list (string * Policy.fileSet))).
Context (yprofile : string -> result error Policy.fileProfile).
Context (ylive : string -> result error (list (string * string))).

(** There is a snapshot, and it has the default profile. *)
Definition serving (st : Store.store) : Prop :=
  exists snap, Store.cur st = Some snap /\ is_Some (Store.Profiles snap !! Policy.DefaultName).

Lemma reload_serving d1 d2 now p st r st' :
  Store.reload ysets yprofile ylive d1 d2 now p st = (r, st') -> serving st -> serving st'.
Proof.
  intros E (old & Ho & Hd). revert E. unfold Store.reload.
  destruct (Store.fingerprint d1 p) as [fp|]; [|intros [= _ <-]; by exists old].
  destruct (Store.same_fingerprint st fp); [intros [= _ <-]; by exists old|].
  destruct (Store.build _ _ _ d2 now p _) as [snap|] eqn:Eb; [|intros [= _ <-]; by exists old].
  destruct (Store.same_fingerprint st _); intros [= _ <-]; [by exists old|].
  exists snap. split; [done|]. by eapply Store.build_default.
Qed.

Lemma load_serving d now p st : Store.Load ysets yprofile ylive d now p = Ok st ->
  serving st /\ Store.paths st = p.
Proof.
  unfold Store.Load. intros (snap & Eb & E)%result_bind_ok. injection E as <-. split; [|done].
  exists snap. split; [done|]. by eapply Store.build_default.
Qed.

Lemma reload_from_serving tree w st r w' st' : Apply.reload_from ysets yprofile ylive tree w st = (r, w', st') ->
  serving st -> serving st' /\ (Store.paths st' = Store.paths st
    \/ Store.paths st' = Store.MkPaths tree (Apply.GeoPath tree)).
Proof.
  unfold Apply.reload_from. destruct (Tree.next w) as [[|d l k] w1]; [|intros [= _ _ <-]; by auto].
  unfold Store.ReloadFrom. destruct (Store.reload _ _ _ _ _ _ _ st) as [[b|e] st1] eqn:E; intros [= _ _ <-] Hs.
  - destruct (reload_serving _ _ _ _ _ _ _ E Hs) as (snap & ? & ?). split; [by exists snap|by right].
  - apply Store.reload_keeps_err in E as ->. by auto.
Qed.

Lemma startDesired_serving c e s : serving (Watch.policy s) ->
  let s' := startDesired ysets yprofile ylive c e s in
  serving (Watch.policy s')
  /\ (Store.paths (Watch.policy s') = Store.paths (Watch.policy s)
      \/ (Config.DataDir c <> "" /\ Store.paths (Watch.policy s')
          = Store.MkPaths (Apply.TreePath (Config.DataDir c)) (Apply.GeoPath (Apply.TreePath (Config.DataDir c))))).
Proof.
  intros Hs. cbv zeta. unfold startDesired, Watch.Bootstrap.
  destruct (String.eqb_spec (Config.DataDir c) "") as [_|Hd]; [by auto|].
  destruct (Apply.reload_from _ _ _ _ _ _) as [[[[]|err] w] st] eqn:E;
    destruct (reload_from_serving _ _ _ _ _ _ E Hs) as [? [?|?]]; cbn [snd Watch.policy]; auto.
Qed.

Lemma signals_serving : forall sigs st st', waitForSignal ysets yprofile ylive sigs st = Some st' ->
  serving st -> serving st'.
Proof.
  induction sigs as [|[[] [d now]] sigs IH]; intros st st'; [done|by intros [= <-]|by intros [= <-]|].
  cbn [waitForSignal]. intros E Hs. apply (IH _ _ E).
  destruct (Store.Reload _ _ _ d d now st) as [r st1] eqn:Er. by eapply reload_serving.
Qed.

Lemma ticks_serving : forall ticks st, serving st -> serving (Store.Watch ysets yprofile ylive ticks st).
Proof.
  induction ticks as [|[d now] ticks IH]; intros st Hs; cbn [Store.Watch]; [done|]. apply IH.
  destruct (Store.Reload _ _ _ d d now st) as [r st1] eqn:Er. by eapply reload_serving.
Qed.

(** C28: A program that starts has a policy to serve: a snapshot with the
    default profile, read from the generation on disk when generations are on
    and there is one that loads, else from the configured tree; its live sets
    are those of this snapshot; and no reload that a tick or a signal asks for
    ever leaves it without one. *)
Theorem boot_serves c e w s : boot ysets yprofile ylive c e w = Ok s ->
  serving (Watch.policy s)
  /\ (Store.paths (Watch.policy s) = Store.MkPaths (Config.PolicyDir c) (Config.GeoDir c)
      \/ (Config.DataDir c <> "" /\ Store.paths (Watch.policy s)
          = Store.MkPaths (Apply.TreePath (Config.DataDir c)) (Apply.GeoPath (Apply.TreePath (Config.DataDir c)))))
  /\ (exists snap lv, Store.cur (Watch.policy s) = Some snap /\ Watch.live s = Watch.sync_live e (Store.Live_ snap) lv)
  /\ forall ticks, let ticked := Store.Watch ysets yprofile ylive ticks (Watch.policy s) in
       serving ticked /\ forall sigs st, waitForSignal ysets yprofile ylive sigs ticked = Some st -> serving st.
Proof.
  unfold boot. intros (data & Hd & E)%result_bind_ok. destruct (load_serving _ _ _ _ Hd) as [Hs Hp].
  pose proof (startDesired_serving c e
    (Watch.MkNode Watch.noApplied w data Mirror.New (Some (Config.LogLevel c))) Hs) as [Hs' Hp'].
  cbn [Watch.policy] in Hp'. rewrite Hp in Hp'. injection E as <-.
  remember (startDesired _ _ _ c e _) as s1. destruct Hs' as (snap & Hc & Hdef). rewrite Hc. cbn [Watch.policy Watch.live].
  assert (serving (Watch.policy s1)) as Hs1 by by exists snap.
  split_and!; [done|done| |].
  - by exists snap, (Watch.live s1).
  - intros ticks. assert (serving (Store.Watch ysets yprofile ylive ticks (Watch.policy s1))) as Ht by by apply ticks_serving.
    split; [done|]. intros sigs st Hw. by eapply signals_serving.
Qed.
End started.

(** ** The health check of a running program *)

Lemma digits_filled base : forall fuel n acc, acc <> "" -> digits fuel base n acc <> "".
Proof.
  induction fuel as [|fuel IH]; intros n acc Ha; cbn [digits]; [done|].
  destruct (n <? base); [done|]. by apply IH.
Qed.
Lemma hex016_filled n : hex016 n <> "".
Proof.
  unfold hex016. assert (FormatHex n <> "") as Hf.
  { unfold FormatHex. cbn [digits]. destruct (n <? 16); [done|]. by apply (digits_filled 16 15). }
  destruct (16 - String.length (FormatHex n))%nat; done.
Qed.

Section probed.
Context (cfg : Config.Config) (unmarshal : string -> result error Protocol.Request) (order : list string).
Context (marshal : Protocol.Reply -> option string).

(** The probe's message is one that the program takes: when its path and
    method are not empty and the program takes this version of the schema, it
    becomes a task of the pool and is answered like any other; and the probe
    passes exactly when the answer is a reply with the verdict it expects, or
    any reply when it expects none. *)
Theorem probe_taken name uri method clientIP profile timeout nanos inbox payload :
  order ≡ₚ [Protocol.NeedHeaders; Protocol.NeedArgs; Protocol.NeedBody] ->
  let req := probe_request name uri method clientIP profile timeout nanos in
  unmarshal payload = Ok req ->
  name <> "" -> method <> "" -> (Cut uri "?").1 <> "" -> Config.Supports cfg Protocol.Version = true ->
  Handler.receive cfg unmarshal order marshal None (Handler.MkMsg inbox payload)
    = [Handler.Submit (Queue.MkTask req inbox 0 0)]
  /\ forall expect reply, probe_verdict expect reply = Ok tt <->
       exists r, reply = Ok r /\ (expect = "" \/ Protocol.reply_Verdict r = expect).
Proof.
  intros Ho req Hu Hn Hm Hp Hv. split.
  - assert (Protocol.Parse unmarshal order payload = Ok req) as Hparse.
    { apply Protocol.parse_request_ok; [done..|]. unfold req, probe_request in *.
      destruct (Cut uri "?") as [path args]. cbn [fst] in Hp. unfold Protocol.request_ok. cbn.
      split_and!; try done. apply hex016_filled. }
    unfold Handler.receive, Handler.recoverInto, Handler.received. cbn [Handler.m_Data Handler.m_Reply].
    rewrite Hparse. unfold req, probe_request in *. destruct (Cut uri "?") as [path args]. cbn [Protocol.req_V].
    by rewrite Hv.
  - intros expect reply. unfold probe_verdict. destruct reply as [r|err]; cbn [map_err mbind result_bind].
    2: { split; [done|]. by intros (r & ? & _). }
    rewrite reject_if_ok, andb_false_iff, !negb_false_iff, !String.eqb_eq. naive_solver.
Qed.
End probed.

(** ** Witnesses *)

(** A node with an empty state directory and a configured tree. *)
Definition ex_cfg : Config.Config :=
  Config.MkConfig ["nats"] "waf.req.ip" "ip" "ip" "boot" "boot/geo" "state" "" "" 1 4 16 "drop" "off" "" 1 1 [2]
    0 1 "" 1 0.
Definition ex_boot_world : Tree.world :=
  Tree.MkWorld (Files.Dir (Some [("boot", Files.Dir (Some
    [("geo", Files.Dir (Some []));
     ("profiles", Files.Dir (Some [("default.yaml", Files.File (Files.MkFile (Some "text") 4 1))]))]))])) 5 [].
Definition ex_boot : result error Watch.node :=
  boot (H := ascii_only) (fun _ => Ok []) Apply.ex_good (fun _ => Ok []) ex_cfg (Watch.ex_env (Ok [])) ex_boot_world.

Lemma boot_serves_witness :
  exists s, ex_boot = Ok s /\ serving (Watch.policy s).
Proof.
  assert (forall r, ex_boot = r -> is_ok r = true) as H by (intros r <-; vm_compute; reflexivity).
  destruct ex_boot as [s|e] eqn:E; specialize (H _ eq_refl); [|discriminate H].
  exists s. split; [reflexivity|]. unfold ex_boot in E.
  exact (proj1 (boot_serves (H := ascii_only) (fun _ => Ok []) Apply.ex_good (fun _ => Ok [])
    ex_cfg (Watch.ex_env (Ok [])) ex_boot_world s E)).
Defined.

Lemma probe_taken_witness :
  let req := probe_request "ip" "/healthcheck?a=1" "GET" "127.0.0.1" "default" 1000000000 77 in
  Handler.receive ex_cfg (fun _ => Ok req) [Protocol.NeedHeaders; Protocol.NeedArgs; Protocol.NeedBody]
    (fun _ => Some "") None (Handler.MkMsg "inbox" "payload") = [Handler.Submit (Queue.MkTask req "inbox" 0 0)].
Proof.
  cbv zeta.
  apply (probe_taken ex_cfg (fun _ => Ok (probe_request "ip" "/healthcheck?a=1" "GET" "127.0.0.1" "default" 1000000000 77))
    [Protocol.NeedHeaders; Protocol.NeedArgs; Protocol.NeedBody] (fun _ => Some "")
    "ip" "/healthcheck?a=1" "GET" "127.0.0.1" "default" 1000000000 77 "inbox" "payload").
  - reflexivity.
  - reflexivity.
  - discriminate.
  - discriminate.
  - discriminate.
  - reflexivity.
Defined.

End Program.
