(* ===== verification/Served.v ===== *)
(** * From the files to the answer

    The decision of a node read off the files of its policy directory. The
    compiled tables, the merged intervals, the binary search, the order of
    the rows and the path of a message through the handler are all behind
    it: [answer_from_files] speaks of the lines of list files, the sets and
    the rules as they were decoded, and the verdict in the reply. *)

From S2P Require Import Prelude GoStrings NetIP NetSet Files Protocol Policy Composition Mirror Live Store Events Decide Queue Config Handler.

#[local] Open Scope Z_scope.

Module Served.
Import Files Protocol.

(** ** What the files say *)

(** An address as the decision handles it: checked, unmapped, without zone. *)
Definition client (ip : Addr) : Prop := addr_ok ip /\ IsValid ip = true /\ Zone ip = "" /\ Unmap ip = ip.

(** A line of the text is a network, or an address, that contains it. *)
Definition text_holds (content : string) (ip : Addr) : Prop :=
  exists line net, line ∈ lines_of content /\ ParsePrefix (drop_cr line) = Ok net /\ in_cidr net ip = true.
(** No line of the text is a mapped IPv4 network. *)
Definition text_regular (content : string) : bool := prefixes_regular (omap line_prefix (lines_of content)).
Definition file_holds (f : file) (ip : Addr) : Prop := exists content, data f = Some content /\ text_holds content ip.
Definition file_regular (f : file) : bool :=
  match data f with Some content => text_regular content | None => true end.

(** What a policy is read from: the addresses of a list, of an autonomous
    system, of a country, each by its name. *)
Record source : Type := MkSource {
  in_list : string -> Addr -> Prop; in_asn : string -> Addr -> Prop; in_country : string -> Addr -> Prop }.

Section source.
Context `{Live} (src : source).

(** The country of an address: the first by name that holds it. *)
Definition country_of (ip : Addr) (country : option string) : Prop :=
  match country with
  | Some c => in_country src c ip /\ forall c', in_country src c' ip -> string_less c' c = false
  | None => forall c, ~ in_country src c ip
  end.
Definition match_holds (m : Policy.Match) (ip : Addr) : Prop :=
  (exists name, name ∈ Policy.m_Lists m /\ in_list src name ip)
  \/ (exists n, n ∈ Policy.m_Asns m /\ in_asn src (FormatUint n) ip)
  \/ (exists uuid, uuid ∈ Policy.m_Live m /\ live_contains uuid ip = true)
  \/ (exists c, c ∈ Policy.m_Countries m /\ country_of ip (Some c)).
Definition set_holds (s : Policy.Set_) (ip : Addr) : Prop :=
  let in_ := match_holds (Policy.set_Match s) ip /\ ~ match_holds (Policy.set_Exclude s) ip in
  if Policy.set_Inverse s then ~ in_ else in_.
(** Some row with the action has a set that holds the address. *)
Definition row_holds (sets : gmap string Policy.Set_) (rules : list Policy.Rule) (action : string) (ip : Addr) : Prop :=
  exists r s, r ∈ rules /\ Policy.r_Action r = action /\ sets !! Policy.r_Set r = Some s /\ set_holds s ip.

Lemma country_of_unique ip a b : country_of ip a -> country_of ip b -> a = b.
Proof.
  destruct a as [a|], b as [b|]; cbn; [| | |done].
  - intros [Ha Hla] [Hb Hlb]. destruct (string_less_total a b) as [Hl|[->|Hl]]; [|done|].
    + by rewrite (Hlb _ Ha) in Hl.
    + by rewrite (Hla _ Hb) in Hl.
  - intros [Ha _] Hn. by destruct (Hn a).
  - intros Hn [Hb _]. by destruct (Hn b).
Qed.
End source.

(** Two sources of the same addresses decide the same. *)
#[export] Instance source_equiv : Equiv source := fun a b =>
  forall name ip, (in_list a name ip <-> in_list b name ip) /\ (in_asn a name ip <-> in_asn b name ip)
    /\ (in_country a name ip <-> in_country b name ip).
#[export] Instance country_of_proper : Proper ((≡) ==> (=) ==> (=) ==> iff) country_of.
Proof.
  intros a b Hab ip ? <- country ? <-. unfold country_of.
  assert (forall c, in_country a c ip <-> in_country b c ip) as Hc by (intros c; apply Hab).
  destruct country; by setoid_rewrite Hc.
Qed.
#[export] Instance match_holds_proper `{Live} : Proper ((≡) ==> (=) ==> (=) ==> iff) match_holds.
Proof.
  intros a b Hab m ? <- ip ? <-. unfold match_holds.
  assert (forall c, country_of a ip c <-> country_of b ip c) as Hc by (intros c; by rewrite Hab).
  assert (forall name, in_list a name ip <-> in_list b name ip) as Hl by (intros n; apply Hab).
  assert (forall name, in_asn a name ip <-> in_asn b name ip) as Ha by (intros n; apply Hab).
  setoid_rewrite Hl. setoid_rewrite Ha. by setoid_rewrite Hc.
Qed.
#[export] Instance set_holds_proper `{Live} : Proper ((≡) ==> (=) ==> (=) ==> iff) set_holds.
Proof. intros a b Hab s ? <- ip ? <-. unfold set_holds. cbv zeta. destruct (Policy.set_Inverse s); by rewrite Hab. Qed.
#[export] Instance row_holds_proper `{Live} : Proper ((≡) ==> (=) ==> (=) ==> (=) ==> (=) ==> iff) row_holds.
Proof. intros a b Hab m ? <- rs ? <- act ? <- ip ? <-. unfold row_holds.
  assert (forall s, set_holds a s ip <-> set_holds b s ip) as Hs by (intros s; by rewrite Hab). by setoid_rewrite Hs.
Qed.

Section tree.
Context `{UnicodeLower} `{Live}.
Context (d : disk) (p : Store.Paths).

Definition files_of (root : string) : list (string * file) :=
  match listFiles d root with Ok fs => fs | Err _ => [] end.
Definition countries_dir : list (string * node) :=
  match ReadDir d (Store.Geo_ p) with Ok es => es | Err _ => [] end.
Abbreviation lists_root := (Join (Store.Policy_ p) Store.listsDir).
Abbreviation asns_root := (Join (Store.Policy_ p) Store.asnsDir).
Definition tree_regular : bool :=
  forallb (fun root => forallb (fun x => file_regular x.2) (files_of root))
    (lists_root :: asns_root :: map (fun e => Join (Store.Geo_ p) e.1) countries_dir).

(** A file with that name under the directory holds the address. *)
Definition list_holds (root name : string) (ip : Addr) : Prop :=
  exists x, x ∈ files_of root /\ ToLower (stem (Base x.1)) = name /\ file_holds x.2 ip.
Definition country_holds (c : string) (ip : Addr) : Prop :=
  exists e x, e ∈ countries_dir /\ Store.geo_entry e.1 e.2 = true /\ ToLower e.1 = c
    /\ x ∈ files_of (Join (Store.Geo_ p) e.1) /\ file_holds x.2 ip.
Definition tree_source : source := MkSource (list_holds lists_root) (list_holds asns_root) country_holds.

(** ** Tables *)

Lemma file_holds_in content ip f : data f = Some content ->
  file_holds f ip <-> exists net, net ∈ omap line_prefix (lines_of content) /\ in_cidr net ip = true.
Proof.
  intros Hd. unfold file_holds, text_holds. rewrite Hd. setoid_rewrite line_prefix_in. naive_solver.
Qed.

(** The table of some files holds what one of them holds. *)
Lemma read_all_holds fs ps n ip :
  Store.readAll fs = Ok (ps, n) -> forallb (fun x => file_regular x.2) fs = true -> client ip ->
  Contains (Some (Build ps)) ip = true <-> exists x, x ∈ fs /\ file_holds x.2 ip.
Proof.
  intros E Hreg (Ha & Hv & Hz & Hu).
  assert (Forall regular ps /\ forall net, net ∈ ps <-> exists x content, x ∈ fs /\ data x.2 = Some content
    /\ net ∈ omap line_prefix (lines_of content)) as [Hps Hin].
  { clear Ha Hv Hz Hu. revert ps n E Hreg. induction fs as [|[path f] fs IH]; intros ps n E; cbn [Store.readAll forallb] in *.
    { injection E as <- _. intros _. split; [apply Forall_nil_2|]. setoid_rewrite elem_of_nil. naive_solver. }
    apply result_bind_ok in E as ([a k] & Ea%map_err_ok & E). apply result_bind_ok in E as ([b m] & Eb & [= <- _]).
    intros [Hf Hfs]%andb_true_iff. destruct (IH _ _ Eb Hfs) as [IHr IHi]. clear IH.
    unfold Store.LoadFile in Ea. unfold file_regular in Hf. cbn [snd] in Hf.
    destruct (data f) as [content|] eqn:Ed; [|done]. destruct (rd_err _) eqn:Er; [done|]. injection Ea as <- _.
    rewrite read_prefixes_fit by (by eapply read_lines_fits).
    split; [apply Forall_app_2; [by apply prefixes_regular_spec|done]|]. intros net.
    rewrite elem_of_app, IHi. setoid_rewrite elem_of_cons. split.
    - intros [Hn|(x & c & ? & ?)]; [exists (path, f), content|exists x, c]; split; auto.
    - intros (x & c & [->|?] & Hc & ?); [left|right; by exists x, c]. cbn [snd] in Hc. by simplify_eq. }
  rewrite build_contains_cidr by (done || by eapply Store.readAll_ok). rewrite Hu. setoid_rewrite Hin. split.
  - intros (net & (x & c & Hx & Hc & Hn) & Hi). exists x. split; [done|]. apply (file_holds_in c); [done|]. by exists net.
  - intros (x & Hx & c & Hc & line & net & Hl & Hp & Hi). exists net. split; [|done]. exists x, c.
    split_and!; [done|done|]. apply line_prefix_in. by exists line.
Qed.

Lemma index_files_spec root idx name paths :
  Store.indexFiles d root = Ok idx -> idx !! name = Some paths ->
  forall x, x ∈ paths <-> x ∈ files_of root /\ ToLower (stem (Base x.1)) = name.
Proof.
  unfold Store.indexFiles, files_of. destruct (listFiles d root) as [fs|e].
  2: { destruct (IsNotExist e); [|done]. by intros [= <-] [=]. }
  intros [= <-].
  assert (forall m : gmap string (list (string * file)), default [] (fold_left Store.index_add fs m !! name)
    = default [] (m !! name) ++ filter (fun x => ToLower (stem (Base x.1)) = name) fs) as Hf.
  { induction fs as [|x fs IH]; intros m; cbn [fold_left]; [by rewrite app_nil_r|].
    rewrite IH. unfold Store.index_add, Store.index. rewrite filter_cons.
    destruct (decide (ToLower (stem (Base x.1)) = name)) as [->|Hne].
    - rewrite lookup_insert_eq. cbn [from_option id]. by rewrite <- app_assoc.
    - by rewrite lookup_insert_ne by done. }
  intros Hp x. specialize (Hf ∅). unfold Store.index in *. rewrite Hp, lookup_empty in Hf.
  cbn [from_option id app] in Hf. rewrite Hf, list_elem_of_filter. naive_solver.
Qed.

(** ** Compiled matches *)

Lemma regular_part (fs paths : list (string * file)) :
  (forall x, x ∈ paths -> x ∈ fs) -> forallb (fun x => file_regular x.2) fs = true ->
  forallb (fun x => file_regular x.2) paths = true.
Proof. rewrite !forallb_forall. setoid_rewrite <- list_elem_of_In. auto. Qed.

Lemma sources_hold root idx kind names srcs ip :
  Store.indexFiles d root = Ok idx -> forallb (fun x => file_regular x.2) (files_of root) = true -> client ip ->
  Forall2 (fun name src => Store.nt_Kind src = kind /\ Store.nt_Name src = name
    /\ exists paths ps skip, idx !! name = Some paths /\ Store.readAll paths = Ok (ps, skip)
       /\ Store.nt_Table src = Build ps) names srcs ->
  existsb (fun src => Contains (Some (Store.nt_Table src)) ip) srcs = true
  <-> exists name, name ∈ names /\ list_holds root name ip.
Proof.
  intros Hi Hreg Hc. induction 1 as [|name src names srcs (_ & _ & paths & ps & skip & Hl & Hr & Ht) _ IH].
  { setoid_rewrite elem_of_nil. naive_solver. }
  pose proof (index_files_spec _ _ _ _ Hi Hl) as Hp.
  cbn [existsb]. rewrite orb_true_iff, IH, Ht, (read_all_holds _ _ _ _ Hr); [|by eapply regular_part; [|done]; naive_solver|done].
  setoid_rewrite elem_of_cons. unfold list_holds. setoid_rewrite Hp. naive_solver.
Qed.

Lemma geo_entries_hold ip : client ip -> forall es out k,
  Store.geo_entries d (Store.Geo_ p) es = Ok (out, k) ->
  forallb (fun e => forallb (fun x => file_regular x.2) (files_of (Join (Store.Geo_ p) e.1))) es = true ->
  forall c, (exists g, g ∈ out /\ Store.nt_Name g = c /\ Contains (Some (Store.nt_Table g)) ip = true)
    <-> exists e x, e ∈ es /\ Store.geo_entry e.1 e.2 = true /\ ToLower e.1 = c
          /\ x ∈ files_of (Join (Store.Geo_ p) e.1) /\ file_holds x.2 ip.
Proof.
  intros Hc. induction es as [|[fname n] es IH]; intros out k E; cbn [Store.geo_entries forallb] in *.
  { injection E as <- _. intros _ c. setoid_rewrite elem_of_nil. naive_solver. }
  intros [Hf Hfs]%andb_true_iff c. setoid_rewrite elem_of_cons.
  destruct (Store.geo_entry fname n) eqn:Eg.
  2: { rewrite (IH _ _ E Hfs c). split; intros (e & x & He & Hge & Hrest); exists e, x; (split; [|done]).
       - by right.
       - destruct He as [->|He]; [cbn [fst snd] in Hge; congruence|done]. }
  apply result_bind_ok in E as (files & El%map_err_ok & E). apply result_bind_ok in E as ([tab skip] & Et%map_err_ok & E).
  apply result_bind_ok in E as ([rest m] & Er & [= <- _]). specialize (IH _ _ Er Hfs c).
  unfold Store.loadFileList in Et. apply result_bind_ok in Et as ([ps n'] & Ea & [= <- _]).
  assert (files_of (Join (Store.Geo_ p) fname) = files) as Efs by (unfold files_of; by rewrite El).
  cbn [fst] in Hf. rewrite Efs in Hf. pose proof (read_all_holds _ _ _ _ Ea Hf Hc) as Hh.
  setoid_rewrite elem_of_cons. split.
  - intros (g & [->|Hg] & Hn & Hcon).
    + cbn in Hn, Hcon. apply Hh in Hcon as (x & Hx & Hx'). exists (fname, n), x. cbn [fst snd].
      rewrite Efs. split_and!; [by left|done..].
    + destruct (proj1 IH) as (e & x & ? & ?); [by exists g|]. exists e, x. split; [by right|done].
  - intros (e & x & [->|He] & Hge & Hn & Hx & Hh').
    + cbn [fst snd] in *. rewrite Efs in Hx. eexists. split; [by left|]. split; [done|]. apply Hh. by exists x.
    + destruct (proj2 IH) as (g & ? & ?); [by exists e, x|]. exists g. split; [by right|done].
Qed.

Lemma lookup_geo_first geo ip :
  StronglySorted (not_less (fun a b => string_less (Store.nt_Name a) (Store.nt_Name b))) geo ->
  match Store.lookup_geo geo ip with
  | Some c => (exists g, g ∈ geo /\ Store.nt_Name g = c /\ Contains (Some (Store.nt_Table g)) ip = true)
      /\ forall g, g ∈ geo -> Contains (Some (Store.nt_Table g)) ip = true -> string_less (Store.nt_Name g) c = false
  | None => forall g, g ∈ geo -> Contains (Some (Store.nt_Table g)) ip = false
  end.
Proof.
  induction 1 as [|g geo Hs IH Hg]; cbn [Store.lookup_geo]; [by intros g ?%elem_of_nil|].
  rewrite Forall_forall in Hg. destruct (Contains (Some (Store.nt_Table g)) ip) eqn:Ec.
  - split; [exists g; split_and!; [by left|done|done]|].
    intros h [->|Hh]%elem_of_cons _; [apply string_less_irrefl|by apply Hg].
  - destruct (Store.lookup_geo geo ip) as [c|].
    + destruct IH as [(h & ? & ? & ?) Hall]. split; [exists h; split_and!; [by right|done|done]|].
      intros k [->|Hk]%elem_of_cons Hc; [congruence|by apply Hall].
    + intros k [->|Hk]%elem_of_cons; [done|by apply IH].
Qed.

Lemma regular_parts : tree_regular = true ->
  forallb (fun x => file_regular x.2) (files_of lists_root) = true
  /\ forallb (fun x => file_regular x.2) (files_of asns_root) = true
  /\ forallb (fun e => forallb (fun x => file_regular x.2) (files_of (Join (Store.Geo_ p) e.1))) countries_dir = true.
Proof.
  unfold tree_regular. cbn [forallb]. rewrite !andb_true_iff. intros (H1 & H2 & H3).
  split_and!; [done|done|]. rewrite forallb_forall in H3 |- *. intros e He.
  apply (H3 (Join (Store.Geo_ p) e.1)). by apply (in_map (fun e => Join (Store.Geo_ p) e.1)).
Qed.

(** The country that the snapshot finds is the country that the files say. *)
Lemma geo_country geo k ip :
  Store.loadGeo d (Store.Geo_ p) = Ok (geo, k) -> tree_regular = true -> client ip ->
  country_of tree_source ip (Store.lookup_geo geo ip).
Proof.
  intros E (_ & _ & Hreg)%regular_parts Hc. unfold Store.loadGeo in E.
  apply result_bind_ok in E as (es & Ees & E). apply result_bind_ok in E as ([out m] & Eg & [= <- _]).
  assert (countries_dir = es) as Ed by (unfold countries_dir; by rewrite Ees). rewrite Ed in Hreg.
  assert (forall c, in_country tree_source c ip <-> exists g, g ∈ sort_slice
    (fun a b => string_less (Store.nt_Name a) (Store.nt_Name b)) out /\ Store.nt_Name g = c
    /\ Contains (Some (Store.nt_Table g)) ip = true) as Hh.
  { intros c. setoid_rewrite sort_slice_perm. rewrite (geo_entries_hold ip Hc _ _ _ Eg Hreg c).
    cbn [in_country tree_source]. unfold country_holds. by rewrite Ed. }
  pose proof (lookup_geo_first _ ip (sort_names_sorted Store.nt_Name out)) as Hf. unfold country_of.
  destruct (Store.lookup_geo _ ip) as [c|].
  - destruct Hf as [Hg Hall]. split; [by apply Hh|]. intros c' (g & Hg' & <- & Hcon)%Hh. by apply Hall.
  - intros c (g & Hg & _ & Hcon)%Hh. by rewrite (Hf g Hg) in Hcon.
Qed.

Lemma compiled_holds spec lists asns live m n ip country :
  Store.indexFiles d lists_root = Ok lists -> Store.indexFiles d asns_root = Ok asns ->
  Store.compileMatch spec lists asns live = Ok (m, n) ->
  tree_regular = true -> client ip -> country_of tree_source ip country ->
  Store.in_match m ip country = true <-> match_holds tree_source spec ip.
Proof.
  intros El Ea (s1 & s2 & Hs & H1 & H2 & Hl & Hcc & _)%Store.compileMatch_ok (R1 & R2 & _)%regular_parts Hc Hcountry.
  unfold Store.in_match, match_holds. rewrite Hs, existsb_app, !orb_true_iff, Hl, Hcc.
  rewrite (sources_hold _ _ _ _ _ _ El R1 Hc H1), (sources_hold _ _ _ _ _ _ Ea R2 Hc H2).
  rewrite existsb_exists. setoid_rewrite <- list_elem_of_In.
  assert ((exists name, name ∈ map FormatUint (Policy.m_Asns spec) /\ list_holds asns_root name ip)
    <-> exists n, n ∈ Policy.m_Asns spec /\ list_holds asns_root (FormatUint n) ip) as ->.
  { setoid_rewrite list_elem_of_fmap. naive_solver. }
  assert ((match country with Some c => existsb (fun cc => String.eqb cc c) (Policy.m_Countries spec) | None => false end
      = true) <-> exists c, c ∈ Policy.m_Countries spec /\ country_of tree_source ip (Some c)) as ->; [|tauto].
  split.
  - destruct country as [c|]; [|done]. intros (cc & Hin & ->%String.eqb_eq)%existsb_exists.
    exists c. by rewrite list_elem_of_In.
  - intros (c & Hin & Hof). rewrite (country_of_unique _ _ _ _ Hcountry Hof). apply existsb_exists.
    exists c. by rewrite <- list_elem_of_In, String.eqb_refl.
Qed.

(** ** A snapshot and its files *)

Context (ysets : string -> result error (list (string * Policy.fileSet))).
Context (yprofile : string -> result error Policy.fileProfile).

(** The sets as their file has them; there may be no file. *)
Definition specs_of : gmap string Policy.Set_ :=
  match Store.LoadSets ysets d (Join (Store.Policy_ p) Store.setsFile) with Ok specs => specs | Err _ => ∅ end.

Record read_from (snap : Store.Snapshot) : Prop := {
  rf_sets : exists lists asns live, Store.indexFiles d lists_root = Ok lists /\ Store.indexFiles d asns_root = Ok asns
    /\ forall name s, Store.Sets snap !! name = Some s ->
         exists spec m1 n1 m2 n2, specs_of !! name = Some spec
           /\ Store.compileMatch (Policy.set_Match spec) lists asns live = Ok (m1, n1)
           /\ Store.compileMatch (Policy.set_Exclude spec) lists asns live = Ok (m2, n2)
           /\ s = Store.MkSet name m1 (Policy.set_Inverse spec) m2;
  rf_geo : exists k, Store.loadGeo d (Store.Geo_ p) = Ok (Store.Geo snap, k);
  rf_profiles : exists raw live, Store.loadProfiles yprofile d (Join (Store.Policy_ p) Store.profilesDir)
    (Store.Sets snap) raw live = Ok (Store.Profiles snap) }.

Lemma assemble_reads ylive now g fp snap :
  Store.assemble ysets yprofile ylive d now p g fp = Ok snap -> read_from snap.
Proof.
  unfold Store.assemble. intros E.
  apply result_bind_ok in E as (lists & Hl%map_err_ok & E). apply result_bind_ok in E as (asns & Ha%map_err_ok & E).
  apply result_bind_ok in E as (live & _ & E). apply result_bind_ok in E as (specs & Hspecs & E).
  apply result_bind_ok in E as ([sets k1] & Es & E). apply result_bind_ok in E as ([raw k2] & _ & E).
  apply result_bind_ok in E as (profiles & Hp%map_err_ok & E). apply reject_bind in E as [_ E].
  apply result_bind_ok in E as ([geo k3] & Hg%map_err_ok & [= <-]).
  assert (specs_of = specs) as <-.
  { unfold specs_of. destruct (Store.LoadSets _ _ _) as [x|e]; [congruence|].
    destruct (IsNotExist e); congruence. }
  split; cbn [Store.Sets Store.Geo Store.Profiles].
  - exists lists, asns, live. split_and!; [done|done|]. intros name s Hs.
    destruct (Store.compileSets_ok _ _ _ _ _ _ Es _ _ Hs) as (spec & m1 & n1 & m2 & n2 & Hin & ? & ? & ?).
    exists spec, m1, n1, m2, n2. split; [by apply elem_of_map_to_list|done].
  - by exists k3.
  - by exists raw, live.
Qed.

(** A set of the snapshot holds what the files say it holds. *)
Lemma set_matches_files snap name ip :
  read_from snap -> tree_regular = true -> client ip ->
  Decide.set_matches snap ip (Store.LookupGeo (Some snap) ip) name = true
  <-> is_Some (Store.Sets snap !! name) /\ exists s, specs_of !! name = Some s /\ set_holds tree_source s ip.
Proof.
  intros [(lists & asns & live & Hl & Ha & Hsets) (k & Hg) _] Hreg Hc. cbn [Store.LookupGeo].
  pose proof (geo_country _ _ _ Hg Hreg Hc) as Hcountry.
  unfold Decide.set_matches. destruct (Store.Sets snap !! name) as [s|] eqn:Es.
  2: { split; [done|]. by intros [[? ?] _]. }
  destruct (Hsets _ _ Es) as (spec & m1 & n1 & m2 & n2 & Hspec & H1 & H2 & ->). cbn [Store.se_Inverse Store.se_Match Store.se_Exclude].
  pose proof (compiled_holds _ _ _ _ _ _ _ _ Hl Ha H1 Hreg Hc Hcountry) as E1.
  pose proof (compiled_holds _ _ _ _ _ _ _ _ Hl Ha H2 Hreg Hc Hcountry) as E2.
  assert (xorb (Policy.set_Inverse spec) (Store.in_match m1 ip (Store.lookup_geo (Store.Geo snap) ip)
    && negb (Store.in_match m2 ip (Store.lookup_geo (Store.Geo snap) ip))) = true <-> set_holds tree_source spec ip) as ->.
  { unfold set_holds. cbv zeta.
    destruct (Policy.set_Inverse spec), (Store.in_match m1 _ _), (Store.in_match m2 _ _); cbn; naive_solver. }
  rewrite Hspec. split; [intros Hh; split; [by eexists|by exists spec]|]. by intros (_ & s & [= <-] & ?).
Qed.

(** A profile of the snapshot is one of the profile files. *)
Lemma load_entries_from root sets raw live : forall es out r name pr,
  Store.load_entries yprofile d root es sets raw live out = Ok r -> r !! name = Some pr ->
  out !! name = Some pr \/ exists fname n, (fname, n) ∈ es /\ Store.profile_entry fname n = true
    /\ Store.profile_name fname = name /\ Store.load_profile yprofile d (Join root fname) name sets raw live = Ok pr.
Proof.
  induction es as [|[fname n] es IH]; intros out r name pr E Hr; cbn [Store.load_entries] in E.
  { injection E as <-. by left. }
  assert (forall P : Prop, (P \/ exists fname0 n0, (fname0, n0) ∈ es /\ Store.profile_entry fname0 n0 = true
      /\ Store.profile_name fname0 = name
      /\ Store.load_profile yprofile d (Join root fname0) name sets raw live = Ok pr) ->
    P \/ exists fname0 n0, (fname0, n0) ∈ (fname, n) :: es /\ Store.profile_entry fname0 n0 = true
      /\ Store.profile_name fname0 = name
      /\ Store.load_profile yprofile d (Join root fname0) name sets raw live = Ok pr) as Hmore.
  { intros P [?|(f & m & ? & ?)]; [by left|]. right. exists f, m. split; [by right|done]. }
  destruct (Store.profile_entry fname n) eqn:Ee; [|by eapply Hmore, IH].
  apply result_bind_ok in E as (pr' & Ep & E). destruct (Hmore _ (IH _ _ _ _ E Hr)) as [Ho|?]; [|by right].
  destruct (decide (Store.profile_name fname = name)) as [Hn|Hn].
  - right. exists fname, n. split; [by left|]. rewrite Hn, lookup_insert_eq in Ho. injection Ho as <-. by rewrite Hn in Ep.
  - left. by rewrite lookup_insert_ne in Ho.
Qed.

(** A file of the directory of profiles is decoded as the profile [name]. *)
Definition profile_file (name : string) (spec : Policy.Profile) : Prop :=
  exists es fname n text, ReadDir d (Join (Store.Policy_ p) Store.profilesDir) = Ok es
    /\ (fname, n) ∈ es /\ Store.profile_entry fname n = true /\ Store.profile_name fname = name
    /\ ReadFile d (Join (Join (Store.Policy_ p) Store.profilesDir) fname) = Ok text
    /\ Policy.ParseProfile yprofile text name = Ok spec.

Lemma profile_from_file snap name pr : read_from snap -> Store.Profiles snap !! name = Some pr ->
  exists spec, profile_file name spec /\ Store.pr_Rules pr = Policy.p_Rules spec
    /\ Store.pr_Default pr = Policy.p_Default spec.
Proof.
  intros [_ _ (raw & live & E)] Hp. unfold Store.loadProfiles in E. apply result_bind_ok in E as (es & Hes & E).
  destruct (load_entries_from _ _ _ _ _ _ _ _ _ E Hp) as [Hn|(fname & n & Hin & He & Hn & El)]; [by rewrite lookup_empty in Hn|].
  unfold Store.load_profile, Store.LoadProfile in El.
  apply result_bind_ok in El as (spec & (text & Ht & Hs)%result_bind_ok & El). apply result_bind_ok in El as ([] & _ & El).
  apply result_bind_ok in El as ([] & _ & [= <-]). exists spec. split; [by exists es, fname, n, text|done].
Qed.
End tree.

(** ** The answer *)

Section answer.
Context `{UnicodeLower}.
Context (cfg : Config.Config) (unmarshal : string -> result error Request) (order : list string).
Context (marshal : Reply -> option string) (Error : error -> string) {W : Type} (Networked : string -> bool).
Context (geo : string -> string -> W -> result error (list string) * W).
Context (live : option Mirror.store) (nc : bool) (now : Z).
Context (ysets : string -> result error (list (string * Policy.fileSet))).
Context (yprofile : string -> result error Policy.fileProfile).
Context (ylive : string -> result error (list (string * string))).
Context (d : disk) (loaded : Z) (p : Store.Paths) (g : Z) (fp : string) (snap : Store.Snapshot).

Abbreviation row_holds := (row_holds (H := Handler.sets_of live now) (tree_source d p) (specs_of d p ysets)).

Hypothesis built : Store.assemble ysets yprofile ylive d loaded p g fp = Ok snap.
Hypothesis regular_files : tree_regular d p = true.

Lemma some_row_holds name prof action a :
  Store.Profiles snap !! name = Some prof -> Policy.Terminal action = true -> client a ->
  existsb (Decide.selects (H := Handler.sets_of live now) action snap a (Store.LookupGeo (Some snap) a)) (Store.pr_Rules prof)
    = true
  <-> row_holds (Store.pr_Rules prof) action a.
Proof.
  intros Hp Ht Hc. pose proof (Store.assemble_profiles_ok _ _ _ _ _ _ _ _ _ built _ _ Hp) as Hok.
  pose proof (Store.po_resolved _ _ _ _ _ Hok) as Hres. rewrite Forall_forall in Hres.
  pose proof (assemble_reads d p ysets yprofile _ _ _ _ _ built) as Hf.
  rewrite existsb_exists. unfold Decide.selects, Served.row_holds. split.
  - intros (r & Hr%list_elem_of_In & [Ha%String.eqb_eq Hm]%andb_true_iff).
    apply (set_matches_files (H0 := Handler.sets_of live now)) with (1 := Hf) in Hm as (_ & s & Hs & Hh); [|done..].
    by exists r, s.
  - intros (r & s & Hr & Ha & Hs & Hh). exists r. split; [by apply list_elem_of_In|].
    apply andb_true_iff. split; [by apply String.eqb_eq|].
    apply (set_matches_files (H0 := Handler.sets_of live now)) with (1 := Hf); [done..|].
    split; [|by exists s]. apply (Hres r Hr). by rewrite Ha.
Qed.

Lemma decided_verdict req fill :
  Decide.Verdict (Handler.decided live now (Some snap) req fill)
  = Decide.Verdict (Decide.Check (H0 := Handler.sets_of live now) (Some snap) (route_Profile (req_Route req))
      (conn_ClientIP (req_Conn req))).
Proof. unfold Handler.decided. by destruct (Decide.FireOverload _ _ _ _ _ _) as [[asks bans] [|f fired]]. Qed.

(** The network directory answers, and every reply can be encoded. *)
Hypothesis directory : forall write addr w, is_ok (geo write addr w).1 = true.
Hypothesis encodes : forall reply, is_Some (marshal reply).

Lemma lookups_fine : forall bans w, Handler.first_error (Handler.lookups Networked geo bans w).1 = None.
Proof.
  induction bans as [|ban bans IH]; intros w; cbn [Handler.lookups]; [done|].
  destruct (if Networked _ then _ else _) as [r w1] eqn:E. specialize (IH w1).
  destruct (Handler.lookups Networked geo bans w1) as [rs w2]. cbn [fst Handler.first_error foldr] in *.
  pose proof (directory (Decide.ban_Write ban) (Decide.ban_Value ban) w) as Hd.
  destruct (Networked _); [rewrite E in Hd; by destruct r|by injection E as <- _].
Qed.

Lemma inspect_answers req fill elapsed w :
  exists det out w', Handler.inspect Error Networked geo live nc now (Some snap) req fill elapsed w
    = (Decide.ToReply req (Handler.decided live now (Some snap) req fill), det, out, w')
    /\ Handler.answers out = [].
Proof.
  unfold Handler.inspect. set (result := Handler.decided live now (Some snap) req fill).
  pose proof (lookups_fine (Decide.Bans result) w) as Hf.
  destruct (Decide.Bans result) as [|b bans] eqn:Eb, live as [st|]; try (by eexists _, _, _).
  destruct (Handler.writeLists _ _ _ _ _ _ (b :: bans) None w) as [[failed out] w1] eqn:Ew.
  pose proof (Handler.writes_silent _ (Handler.writeLists_writes _ _ _ _ _ _ _ _ _ _ _ _ Ew)) as Hs.
  rewrite Handler.writeLists_spec in Ew. destruct (Handler.lookups _ _ _ w) as [rs w2].
  injection Ew as <- _ _. cbn [fst] in Hf. rewrite Hf. by eexists _, _, _.
Qed.

(** What the handler sends for a task that the pool lets through. *)
Lemma task_answered t budget elapsed w : Queue.Reply t <> "" ->
  let reply := Decide.ToReply (Queue.Req t) (Handler.decided live now (Some snap) (Queue.Req t) (Queue.Fill t)) in
  exists payload, marshal reply = Some payload
    /\ Handler.answers (Handler.evaluate cfg marshal Error Networked geo live nc now (Some snap) None t budget "" elapsed w).1
       = [Handler.Answer (Queue.Reply t) payload].
Proof.
  intros Hr. cbv zeta. unfold Handler.evaluate, Handler.evaluated. cbn [String.eqb negb].
  destruct (inspect_answers (Queue.Req t) (Queue.Fill t) elapsed w) as (det & out & w' & -> & Hs).
  destruct (encodes (Decide.ToReply (Queue.Req t) (Handler.decided live now (Some snap) (Queue.Req t) (Queue.Fill t))))
    as [payload Hp].
  exists payload. split; [done|]. cbn [fst Handler.recoverInto]. rewrite Handler.answers_app, Hs.
  unfold Handler.send. apply String.eqb_neq in Hr. by rewrite Hr, Hp.
Qed.

(** Allow rows come before deny rows, and those before the default. *)
Definition decides (allow deny : Prop) (default verdict : string) : Prop :=
  (allow -> verdict = "allow") /\ (~ allow -> deny -> verdict = "deny") /\ (~ allow -> ~ deny -> verdict = default).

(** The name under which a request finds its profile. *)
Definition profile_key (req : Request) : string :=
  ToLower (if String.eqb (route_Profile (req_Route req)) "" then Policy.DefaultName
           else route_Profile (req_Route req)).

Lemma received_task m req :
  Protocol.Parse unmarshal order (Handler.m_Data m) = Ok req -> Config.Supports cfg (req_V req) = true ->
  req_Phase req = PhaseRequest ->
  Handler.receive cfg unmarshal order marshal None m = [Handler.Submit (Queue.MkTask req (Handler.m_Reply m) 0 0)].
Proof.
  intros Hparse Hv Hphase. unfold Handler.receive, Handler.recoverInto, Handler.received. by rewrite Hparse, Hv, Hphase.
Qed.

(** What a task with an address of its own is answered. *)
Definition answered (spec : Policy.Profile) (ip : Addr) (t : Queue.Task) (budget : Z) : Prop :=
  forall elapsed w, exists reply payload,
    Handler.answers (Handler.evaluate cfg marshal Error Networked geo live nc now (Some snap) None t budget "" elapsed w).1
      = [Handler.Answer (Queue.Reply t) payload]
    /\ marshal reply = Some payload /\ reply_RID reply = req_RID (Queue.Req t)
    /\ decides (row_holds (Policy.p_Rules spec) "allow" ip) (row_holds (Policy.p_Rules spec) "deny" ip)
         (Policy.p_Default spec) (reply_Verdict reply).

Lemma task_verdict t prof spec a budget :
  Store.pr_Rules prof = Policy.p_Rules spec -> Store.pr_Default prof = Policy.p_Default spec -> Queue.Reply t <> "" -> Store.ProfileOf (Some snap) (route_Profile (req_Route (Queue.Req t))) = Some prof ->
  ParseAddr (conn_ClientIP (req_Conn (Queue.Req t))) = Some a -> Zone a = "" ->
  Decide.missing (Some snap) (Store.pr_Rules prof) = None ->
  answered spec (Unmap a) t budget.
Proof.
  intros Erules Edef Hr Hprof Ha Hz Hm elapsed w. pose proof Hprof as Hname. unfold Store.ProfileOf in Hname.
  destruct (task_answered t budget elapsed w Hr) as (payload & Hp & Hsent).
  eexists _, payload. split_and!; [exact Hsent|exact Hp|done|]. unfold decides.
  cbn [Decide.ToReply reply_Verdict]. rewrite decided_verdict.
  rewrite (proj1 (Decide.check_spec snap (Store.assemble_sets_ok _ _ _ _ _ _ _ _ _ built) _ _ _ _ Hprof Ha Hm)).
  destruct (parse_addr_ok _ _ Ha) as [Oa Va].
  assert (client (Unmap a)) as Hc by (split_and!; [by apply unmap_ok|by rewrite unmap_valid|by apply unmap_zone|apply unmap_idem]).
  rewrite <- Erules, <- !(some_row_holds _ _ _ _ Hname) by done. unfold Decide.where_of. split_and!.
  - intros Hal. unfold Policy.ActionAllow. by rewrite Hal.
  - intros Hal%not_true_is_false Hde. unfold Policy.ActionAllow, Policy.ActionDeny. by rewrite Hal, Hde.
  - intros Hal%not_true_is_false Hde%not_true_is_false. unfold Policy.ActionAllow, Policy.ActionDeny. rewrite Hal, Hde.
    pose proof (Store.po_default _ _ _ _ _ (Store.assemble_profiles_ok _ _ _ _ _ _ _ _ _ built _ _ Hname)) as Hd.
    rewrite Edef in *. by apply orb_true_iff in Hd as [->%String.eqb_eq | ->%String.eqb_eq].
Qed.

End answer.

(** ** Witness *)

(** The policy of [Store.ex_disk] and a client that it knows. *)
Definition ex_geo (write addr : string) (w : unit) : result error (list string) * unit := (Ok [addr], w).
Definition ex_ready : bool :=
  match Store.ProfileOf (H := ascii_only) (Some Store.ex_snap) "" with
  | Some prof => bool_decide (Decide.missing (Some Store.ex_snap) (Store.pr_Rules prof) = None)
  | None => false
  end.


End Served.
