(* ===== verification/Delivered.v ===== *)
(** * From the console's pack to the answer

    The longest path of the program: the console publishes a pack, the node
    fetches its blobs, writes them as a tree of files, swaps the trees and
    compiles the new one; a request comes and is answered. [pack_decides] says
    what the answer is in terms of the pack and of its blobs alone. [Layout]
    says which files there are, [Served] what a decision reads from them, and
    [Carry] how the structures of a pack are those of the policy. *)

From S2P Require Import Prelude GoStrings NetIP NetSet Files Protocol Policy Composition Mirror Live Store Events Decide Queue Tree Pack Carry Apply Layout Watch Config Handler Served.

#[local] Open Scope Z_scope.

Module Delivered.
Import Files Tree Pack Apply Layout Served.

(** ** What a pack says *)

Section pack.
Context `{UnicodeLower}.
Context (p : Pack) (blobs : gmap string string).

(** An entry with that name, not hidden by a dot, has a blob with a line that
    contains the address. *)
Definition entry_holds (m : gmap string string) (name : string) (ip : Addr) : Prop :=
  exists id h t, m !! id = Some h /\ blobs !! h = Some t /\ shown id /\ ToLower id = name /\ text_holds t ip.
Definition pack_source : source := MkSource (entry_holds (Lists p)) (entry_holds (Asns p)) (entry_holds (Countries p)).
(** The sets of the pack as the policy reads them. *)
Definition pack_sets : gmap string Policy.Set_ :=
  match Policy.sets_go (Carry.file_sets p) ∅ with Ok sets => sets | Err _ => ∅ end.
(** A row of the profile with that action has a set that holds the address. *)
Definition pack_row `{Live.Live} (pr : Profile) (action : string) (ip : Addr) : Prop :=
  exists r s, r ∈ pr_Rules pr /\ Policy.lower_trim (ru_Action r) = action /\ pack_sets !! Policy.lower_trim (ru_Set r) = Some s
    /\ set_holds pack_source s ip.
Definition pack_default (pr : Profile) : string :=
  if String.eqb (pr_Default pr) "" then Policy.ActionAllow else pr_Default pr.
End pack.

(** ** Names of files *)

Lemma Join_app a b : Join a b = a +:+ String "/" b.
Proof. done. Qed.
Lemma Base_join a b : contains_char "/" b = false -> Base (Join a b) = b.
Proof. intros Hb. unfold Base. by rewrite Join_app, CutLast_app. Qed.
Lemma stem_txt id : stem (id +:+ ".txt") = id.
Proof. unfold stem. change ".txt" with (String "." "txt"). by rewrite CutLast_app. Qed.
Lemma safe_slash id : safe id = true -> contains_char "/" id = false.
Proof. unfold safe. rewrite negb_true_iff, !orb_false_iff. tauto. Qed.
Lemma shown_file id ext : id <> "" -> shown (id +:+ ext) <-> shown id.
Proof.
  destruct id as [|c id]; [done|]. intros _. unfold shown.
  change (String c id +:+ ext) with (String c (id +:+ ext)). cbn [HasPrefix].
  assert (forall s, HasPrefix s "" = true) as Hn by (by intros []). by rewrite !Hn.
Qed.
Lemma safe_filled id : safe id = true -> id <> "".
Proof. by intros Hs ->. Qed.

(** ** The tree of a pack as a source *)

Section tree.
Context `{UnicodeLower}.
Context (enc_sets : gmap string Set_ -> result error string).
Context (enc_live : gmap string string -> result error string).
Context (enc_profile : Profile -> result error string).
Context (dataDir : string) (p : Pack) (blobs : gmap string string) (top n : node).
Abbreviation live := (TreePath dataDir).
Abbreviation paths := (Store.MkPaths live (GeoPath live)).
Abbreviation d := (disk_of top).
Abbreviation generation := (generation enc_sets enc_live enc_profile [] p blobs).

Hypothesis names : names_ok p.
Hypothesis here : d live = Some n.
Hypothesis pack_files : exact enc_sets enc_live enc_profile p blobs n.

Lemma found_at path r : comps path = comps live ++ r -> d path = find n r.
Proof. intros Hp. unfold disk_of in *. by rewrite Hp, find_app, here. Qed.

(** The files that [listFiles] finds below a path. *)
Lemma files_below path r : comps path = comps live ++ r -> forall x,
  x ∈ files_of d path <-> exists q, Forall shown q /\ find n (r ++ q) = Some (File x.2) /\ x.1 = below path q.
Proof.
  intros Hp x. unfold files_of. pose proof (found_at _ _ Hp) as Hf. setoid_rewrite find_app.
  destruct (find n r) as [m|] eqn:Em.
  - destruct (listFiles_tidy top path m Hf) as (fs & -> & Hfs); [|apply Hfs].
    eapply tidy_below; [apply pack_files|done].
  - unfold listFiles. rewrite Hf. rewrite elem_of_nil. split; [done|]. by intros (q & _ & ? & _).
Qed.

(** A directory of files that are named after the entries of a map. *)
Lemma entries_hold sub (m : gmap string string) name ip :
  component sub = true -> names_safe m ->
  (forall q t, (sub :: q, t) ∈ generation <->
     exists id h, m !! id = Some h /\ blobs !! h = Some t /\ q = [id +:+ ".txt"]) ->
  list_holds d (Join live sub) name ip <-> entry_holds blobs m name ip.
Proof.
  intros Hsub Hsafe Hgen. unfold list_holds, entry_holds. setoid_rewrite (files_below _ [sub]); [|by apply sub_comps].
  split.
  - intros (x & (q & Hq & Hx & Hpath) & Hname & t & Ht & Hh).
    destruct (ex_only _ _ _ _ _ _ pack_files _ _ Hx) as (u & Hu & Hdata).
    apply Hgen in Hu as (id & h & Hid & Hb & ->). pose proof (Hsafe _ _ Hid) as Hs. exists id, h, t.
    rewrite Hpath in Hname. cbn [below fold_left] in Hname.
    rewrite Base_join, stem_txt in Hname by (by rewrite contains_app, safe_slash).
    split_and!; [done|congruence| |done|done]. apply Forall_cons in Hq as [Hq _]. by apply shown_file in Hq; [|apply safe_filled].
  - intros (id & h & t & Hid & Hb & Hs & Hname & Hh). pose proof (Hsafe _ _ Hid) as Hsf.
    destruct (ex_all _ _ _ _ _ _ pack_files (sub :: [id +:+ ".txt"]) t) as (x & Hx & Hdata); [by apply Hgen; exists id, h|].
    exists (Join (Join live sub) (id +:+ ".txt"), x). cbn [fst snd]. split_and!.
    + exists [id +:+ ".txt"]. split_and!; [|done|done]. apply Forall_singleton, shown_file; [by apply safe_filled|done].
    + by rewrite Base_join, stem_txt by (by rewrite contains_app, safe_slash).
    + by exists t.
Qed.

Ltac only_group := rewrite generation_iff; split;
  [intros [(k & h & ? & ? & E)|[(k & h & ? & ? & E)|[(k & h & ? & ? & E)|[[E ?]|[[E ?]|(k & h & ? & ? & E)]]]]];
     try discriminate E; injection E as ->; by exists k, h
  |intros (k & h & ? & ? & ->)].

Lemma lists_hold name ip : list_holds d (Join live "lists") name ip <-> entry_holds blobs (Lists p) name ip.
Proof. apply entries_hold; [done|apply names|]. intros q t. only_group. left. by exists k, h. Qed.
Lemma asns_hold name ip : list_holds d (Join live "asns") name ip <-> entry_holds blobs (Asns p) name ip.
Proof. apply entries_hold; [done|apply names|]. intros q t. only_group. right; left. by exists k, h. Qed.

Lemma geo_files q t : ("geo" :: q, t) ∈ generation <->
  exists code h, Countries p !! code = Some h /\ blobs !! h = Some t /\ q = [code; "ranges.txt"].
Proof. only_group. do 2 right; left. by exists k, h. Qed.

Lemma geo_dir : comps (GeoPath live) = comps live ++ ["geo"].
Proof. by apply comps_join. Qed.

(** The entries of the directory of countries. *)
Lemma country_entry e : e ∈ countries_dir d paths ->
  find n ["geo"; e.1] = Some e.2 /\ comps (Join (GeoPath live) e.1) = comps live ++ ["geo"; e.1].
Proof.
  unfold countries_dir, ReadDir. cbn [Store.Geo_]. rewrite (found_at _ _ geo_dir). intros He.
  destruct (find n ["geo"]) as [[f|[es|]]|] eqn:Eg; try (by apply elem_of_nil in He).
  pose proof (ex_tidy _ _ _ _ _ _ pack_files _ _ Eg) as Hf. destruct (Hf) as [_ Hcs]. rewrite Forall_forall in Hcs.
  assert (component e.1 = true) as Hc by (by apply Hcs, list_elem_of_fmap_2). split.
  - change ["geo"; e.1] with (["geo"] ++ [e.1]). rewrite find_app, Eg. cbn [find].
    rewrite (proj2 (assoc_in es e.1 e.2 (names_nodup _ Hf))); [done|by destruct e].
  - rewrite comps_join, geo_dir by done. by rewrite <- app_assoc.
Qed.
Lemma country_listed code m : find n ["geo"; code] = Some m -> (code, m) ∈ countries_dir d paths.
Proof.
  change ["geo"; code] with (["geo"] ++ [code]). rewrite find_app. unfold countries_dir, ReadDir. cbn [Store.Geo_].
  rewrite (found_at _ _ geo_dir). destruct (find n ["geo"]) as [[f|[es|]]|] eqn:Eg; try done. cbn [find].
  intros Hm. apply assoc_in; [|by destruct (assoc code es)].
  by apply names_nodup, (ex_tidy _ _ _ _ _ _ pack_files _ _ Eg).
Qed.

Lemma countries_hold name ip : country_holds d paths name ip <-> entry_holds blobs (Countries p) name ip.
Proof.
  pose proof names as (_ & _ & _ & Hsafe & _). unfold country_holds, entry_holds. cbn [Store.Geo_]. split.
  - intros (e & x & He & Hentry & Hname & Hx & t & Ht & Hh). destruct (country_entry _ He) as [_ Hcomps].
    apply (files_below _ _ Hcomps) in Hx as (q & Hq & Hx & _).
    destruct (ex_only _ _ _ _ _ _ pack_files _ _ Hx) as (u & Hu & Hdata).
    apply (geo_files (e.1 :: q)) in Hu as (code & h & Hcode & Hb & [= Ecode ->]). rewrite <- Ecode in Hcode. exists e.1, h, t.
    split_and!; [done|congruence| |done|done]. unfold Store.geo_entry in Hentry. unfold shown.
    destruct e.2; [done|]. by apply negb_true_iff in Hentry.
  - intros (code & h & t & Hcode & Hb & Hs & Hname & Hh).
    destruct (ex_all _ _ _ _ _ _ pack_files ["geo"; code; "ranges.txt"] t) as (x & Hx & Hdata);
      [by apply geo_files; exists code, h|].
    change ["geo"; code; "ranges.txt"] with (["geo"; code] ++ ["ranges.txt"]) in Hx. rewrite find_app in Hx.
    destruct (find n ["geo"; code]) as [m|] eqn:Em; [|done]. pose proof (country_listed _ _ Em) as He.
    destruct (country_entry _ He) as [_ Hcomps]. cbn [fst] in Hcomps.
    exists (code, m), (Join (Join (GeoPath live) code) "ranges.txt", x). cbn [fst snd]. split_and!; [done| |done| |].
    + destruct m as [f|es]; [done|]. unfold Store.geo_entry. by rewrite Hs.
    + apply (files_below _ _ Hcomps). exists ["ranges.txt"]. split_and!; [by apply Forall_singleton| |done].
      by rewrite find_app, Em.
    + by exists t.
Qed.

Lemma tree_is_pack : tree_source d paths ≡ pack_source p blobs.
Proof.
  intros name ip. cbn [in_list in_asn in_country tree_source pack_source Store.Policy_].
  split_and!; [apply lists_hold|apply asns_hold|apply countries_hold].
Qed.

Lemma pack_regular : map_Forall (fun _ t => text_regular t = true) blobs -> tree_regular d paths = true.
Proof.
  intros Hb. unfold tree_regular. apply forallb_forall. intros root Hroot. apply forallb_forall. intros x Hx%list_elem_of_In.
  assert (exists sub r, sub ∈ ["lists"; "asns"; "geo"] /\ comps root = comps live ++ sub :: r) as (sub & r & Hsub & Hcomps).
  { cbn [Store.Policy_ Store.Geo_ In] in Hroot. destruct Hroot as [<-|[<-|Hroot]].
    - exists "lists", []. split; [by left|by apply sub_comps].
    - exists "asns", []. split; [right; by left|by apply sub_comps].
    - apply in_map_iff in Hroot as (e & <- & He%list_elem_of_In). destruct (country_entry _ He) as [_ ->].
      exists "geo", [e.1]. split; [do 2 right; by left|done]. }
  destruct (proj1 (files_below _ _ Hcomps x) Hx) as (q & _ & Hfx & _).
  destruct (ex_only _ _ _ _ _ _ pack_files _ _ Hfx) as (t & Hgen & Hdata). unfold file_regular. rewrite Hdata.
  apply generation_iff in Hgen as [(k & h & ? & ? & E)|[(k & h & ? & ? & E)|[(k & h & ? & ? & E)|[[E ?]|[[E ?]|(k & h & ? & ? & E)]]]]];
    try (by eapply Hb); cbn [app] in E; injection E as Es Er; set_unfold in Hsub; naive_solver.
Qed.

(** ** Its sets and its profiles *)

Context (ysets : string -> result error (list (string * Policy.fileSet))).
Context (yprofile : string -> result error Policy.fileProfile).

(** What was encoded as YAML is decoded as it was: the keys that the two
    structures share have the same values. *)
Record decodes : Prop := {
  de_sets : forall t, enc_sets (Sets p) = Ok t ->
    t <> "" /\ exists l, ysets t = Ok l /\ l ≡ₚ Carry.file_sets p;
  de_profile : forall name pr t, Profiles p !! name = Some pr -> enc_profile pr = Ok t ->
    t <> "" /\ yprofile t = Ok (Carry.file_profile pr) }.
Hypothesis round_trip : decodes.

Lemma sets_permuted l : l ≡ₚ Carry.file_sets p ->
  match Policy.sets_go l ∅ with Ok sets => sets | Err _ => ∅ end = pack_sets p.
Proof.
  intros Hl. unfold pack_sets. destruct (Policy.sets_go l ∅) as [r|e] eqn:E.
  - by destruct (Policy.sets_order _ _ _ Hl E) as [-> _].
  - destruct (Policy.sets_go (Carry.file_sets p) ∅) as [r|e'] eqn:E'; [|done].
    destruct (Policy.sets_order _ _ _ (symmetry Hl) E') as [E2 _]. congruence.
Qed.

Lemma file_at path r x : comps path = comps live ++ r -> find n r = Some (File x) ->
  ReadFile d path = match data x with Some t => Ok t | None => Err (unreadable path) end.
Proof. intros Hp Hr. unfold ReadFile. by rewrite (found_at _ _ Hp), Hr. Qed.

Lemma sets_are_pack : specs_of d paths ysets = pack_sets p.
Proof.
  destruct (ex_texts _ _ _ _ _ _ pack_files) as (_ & _ & _ & [t Ht] & _).
  assert (enc_sets (Sets p) = Ok t) as Henc by (unfold ok_text in Ht; destruct (enc_sets _); congruence).
  destruct (ex_all _ _ _ _ _ _ pack_files ["sets.yaml"] t) as (x & Hx & Hdata).
  { apply generation_iff. do 3 right; left. by split. }
  destruct (de_sets round_trip _ Henc) as (Hne & l & Hl & Hperm). rewrite <- (sets_permuted _ Hperm).
  unfold specs_of, Store.LoadSets. cbn [Store.Policy_].
  rewrite (file_at (Join live Store.setsFile) ["sets.yaml"] x) by (by apply sub_comps || done).
  rewrite Hdata. cbn [mbind result_bind]. unfold Policy.ParseSets. destruct t; [done|]. by rewrite Hl.
Qed.

(** The file of a profile is the profile of the pack with that name. *)
Lemma profile_is_pack name spec : profile_file d paths yprofile name spec ->
  exists pn pr, Profiles p !! pn = Some pr /\ ToLower pn = name /\ Policy.p_Default spec = pack_default pr
    /\ Forall2 (fun a b => Policy.normalizeRule (Carry.file_rule a) = Ok b) (pr_Rules pr) (Policy.p_Rules spec).
Proof.
  intros (es & fname & m & text & Hes & Hin & Hentry & Hname & Htext & Hparse).
  cbn [Store.Policy_] in *. change Store.profilesDir with "profiles" in *. pose proof (sub_comps live "profiles" eq_refl) as Hdir.
  unfold ReadDir in Hes. rewrite (found_at _ _ Hdir) in Hes.
  destruct (find n ["profiles"]) as [[f|[es'|]]|] eqn:Ep; try done. injection Hes as ->.
  pose proof (ex_tidy _ _ _ _ _ _ pack_files _ _ Ep) as Hfine. destruct (Hfine) as [_ Hcs]. rewrite Forall_forall in Hcs.
  assert (component fname = true) as Hc by (by apply Hcs; by apply (list_elem_of_fmap_2 fst) in Hin).
  apply assoc_in in Hin; [|by apply names_nodup].
  unfold Store.profile_entry in Hentry. destruct m as [x|]; [|done].
  assert (find n ["profiles"; fname] = Some (File x)) as Hx.
  { change ["profiles"; fname] with (["profiles"] ++ [fname]). rewrite find_app, Ep. cbn [find]. by rewrite Hin. }
  rewrite (file_at _ ["profiles"; fname] x) in Htext; [|by rewrite comps_join, Hdir, <- app_assoc|done].
  destruct (ex_only _ _ _ _ _ _ pack_files _ _ Hx) as (t & Hgen & Hdata). rewrite Hdata in Htext. injection Htext as <-.
  apply generation_iff in Hgen as [(k & h & ? & ? & E)|[(k & h & ? & ? & E)|[(k & h & ? & ? & E)|[[E ?]|[[E ?]|(pn & pr & Hpr & Ht & E)]]]]];
    try discriminate E. injection E as ->. exists pn, pr. split; [done|].
  assert (enc_profile pr = Ok t) as Henc by (unfold ok_text in Ht; destruct (enc_profile pr); congruence).
  destruct (de_profile round_trip _ _ _ Hpr Henc) as [Hne Hdec].
  apply (Policy.parse_profile_iff yprofile t _ name spec Hne Hdec) in Hparse as (_ & _ & _ & Hdef & Hrules & _).
  split; [|split; [done|by apply Forall2_fmap_l in Hrules]].
  rewrite <- Hname. unfold Store.profile_name. rewrite length_app_string.
  change (String.length Store.profileSufix) with (String.length ".yaml"). rewrite Nat.add_sub.
  by rewrite substring_prefix.
Qed.
End tree.

Lemma rows_are_pack `{UnicodeLower, Live.Live} p blobs pr rules action ip :
  Forall2 (fun a b => Policy.normalizeRule (Carry.file_rule a) = Ok b) (pr_Rules pr) rules ->
  row_holds (pack_source p blobs) (pack_sets p) rules action ip <-> pack_row p blobs pr action ip.
Proof.
  intros Hrules. unfold row_holds, pack_row. split.
  - intros (r & s & Hr & Ha & Hs & Hh). apply list_elem_of_lookup in Hr as (i & Hi).
    destruct (Forall2_lookup_r _ _ _ _ _ Hrules Hi) as (a & Hai & Hn). exists a, s.
    destruct (Policy.normalizeRule_ok _ _ Hn) as (_ & Hact & _). rewrite Hact in Ha.
    rewrite (Policy.normalizeRule_set _ _ Hn) in Hs. split_and!; [by eapply list_elem_of_lookup_2|done..].
  - intros (a & s & Ha & Hact & Hs & Hh). apply list_elem_of_lookup in Ha as (i & Hi).
    destruct (Forall2_lookup_l _ _ _ _ _ Hrules Hi) as (r & Hri & Hn). exists r, s.
    destruct (Policy.normalizeRule_ok _ _ Hn) as (_ & Hact' & _).
    split_and!; [by eapply list_elem_of_lookup_2|by rewrite Hact'|by rewrite (Policy.normalizeRule_set _ _ Hn)|done].
Qed.

(** ** The answer *)

Section answer.
Context `{UnicodeLower}.
Context (json_pack : string -> result error Pack).
Context (json_set : Set_ -> string) (json_profile : Profile -> string).
Context (parse_level : string -> result error Z).
Context (enc_sets : gmap string Set_ -> result error string).
Context (enc_live : gmap string string -> result error string).
Context (enc_profile : Profile -> result error string).
Context (ysets : string -> result error (list (string * Policy.fileSet))).
Context (yprofile : string -> result error Policy.fileProfile).
Context (ylive : string -> result error (list (string * string))).
Context (dataDir : string).
Context (cfg : Config.Config) (unmarshal : string -> result error Protocol.Request) (order : list string).
Context (marshal : Protocol.Reply -> option string) (Error : error -> string) {W : Type} (Networked : string -> bool).
Context (geo : string -> string -> W -> result error (list string) * W).

(** The network directory answers, and every reply can be encoded. *)
Hypothesis directory : forall write addr w, is_ok (geo write addr w).1 = true.
Hypothesis encodes : forall reply, is_Some (marshal reply).

Abbreviation handle := (Watch.handle json_pack json_set json_profile parse_level enc_sets enc_live enc_profile
  ysets yprofile ylive dataDir).

(** A pack that was handled and is reported as applied, with a new snapshot. *)
Lemma handled_exact e raw p s s' again mget blobs :
  ParsePack json_pack json_set json_profile parse_level raw = Ok p -> calm (Watch.files s) ->
  Watch.rdb e = Some mget -> FetchBlobs mget p = Ret blobs ->
  handle e raw s = Some (again, s') -> Watch.apply (Watch.applied s') = ApplyOK ->
  Store.gen (Watch.policy s') <> Store.gen (Watch.policy s) ->
  names_ok p /\ exists wl n snap, disk_of (root wl) (TreePath dataDir) = Some n
    /\ exact enc_sets enc_live enc_profile p blobs n /\ Store.cur (Watch.policy s') = Some snap
    /\ Store.build ysets yprofile ylive (disk_of (root wl)) (clock wl)
         (Store.MkPaths (TreePath dataDir) (GeoPath (TreePath dataDir))) (Store.gen (Watch.policy s)) = Ok snap.
Proof.
  intros Hp Hcalm Hrdb Hblobs E Hok Hgen. pose proof (Watch.parsed_names _ _ _ _ _ _ Hp) as Hnames. split; [done|].
  unfold Watch.handle in E. rewrite Hp in E. destruct (_ && _ && _); [by injection E as _ <-|]. rewrite Hrdb, Hblobs in E.
  destruct (Apply.Apply _ _ _ _ _ _ dataDir p blobs (Watch.files s) (Watch.policy s)) as [[[[]|err] w] st] eqn:Ea.
  - injection E as _ <-. cbn [Watch.policy] in *.
    destruct (applied_exact _ _ _ _ _ _ _ _ _ _ _ _ _ Hnames Hcalm Ea Hgen) as (wl & n & snap & ? & ? & _ & ? & ?).
    by exists wl, n, snap.
  - by injection E as _ <-.
Qed.

End answer.

(** ** Witness *)

(** A pack that denies the addresses of one list, by way of a set. *)
Definition ex_rule : Rule :=
  MkRule "Lab" "" false "deny" "" "LAB_DENIED" "" "" "" None None "" "" "" None None None [] "" "" "".
Definition ex_profile : Profile := MkProfile [ex_rule] "" "" [].
(** [Apply.ex_hash] is its hash. *)
Definition ex_text : string := "10.0.0.0/8".
Definition ex_pack : Pack :=
  MkPack 1 "ip-pack" 7 "sha256:3145aa6710a3ada32c9b371229442179db0c9e44c6ffbb3bf5bded3a3b475381" "waf.blob."
    {["Lab" := ex_hash]} ∅ ∅ ∅
    {["Lab" := MkSet (MkMatch ["Lab"] [] [] []) false None]} {["default" := ex_profile]} 0 0 None.
Definition ex_json (raw : string) : result error Pack := Ok ex_pack.
Definition ex_parse : result error Pack := ParsePack ex_json (fun _ => "s") (fun _ => "p") (fun _ => Ok 0) "raw".
(** An encoder and a decoder that know these values. *)
Definition ex_ysets (text : string) : result error (list (string * Policy.fileSet)) := Ok (Carry.file_sets ex_pack).
Definition ex_yprofile (text : string) : result error Policy.fileProfile := Ok (Carry.file_profile ex_profile).
Definition ex_mget (keys : list string) : result error (list value) := Ok (map (fun _ => Str ex_text) keys).
Definition ex_env : Watch.env := Watch.MkEnv (Some ex_mget) true (fun _ => true) 0.
Definition ex_handle : option (bool * Watch.node) :=
  Watch.handle (H := ascii_only) ex_json (fun _ => "s") (fun _ => "p") (fun _ => Ok 0) Apply.ex_text Apply.ex_text
    Apply.ex_text ex_ysets ex_yprofile (fun _ => Ok []) "data" ex_env "raw" Watch.ex_node.
Definition ex_request : Protocol.Request :=
  Protocol.MkRequest 2 "ab12" "" "request" 0 "ip" 50 None "" (Protocol.MkConn "10.1.2.3" 1 "" 443 None)
    (Protocol.MkHTTP "GET" "https" "h" "/" 0 "1.1") ∅ [] (Protocol.MkStore None None None) (Protocol.MkRoute "" "" "")
    (Protocol.MkScore 0 0) [] None.
Definition after_or (d : Watch.node) (r : option (bool * Watch.node)) : Watch.node :=
  match r with Some (_, s) => s | None => d end.
Definition again_or (d : bool) (r : option (bool * Watch.node)) : bool := match r with Some (b, _) => b | None => d end.
Definition ready `{UnicodeLower} (o : option Store.Snapshot) (name : string) : bool :=
  match Store.ProfileOf o name with
  | Some prof => bool_decide (Decide.missing o (Store.pr_Rules prof) = None)
  | None => false
  end.
Definition ex_blobs : gmap string string := {[ex_hash := ex_text]}.
Definition ex_after : Watch.node := after_or Watch.ex_node ex_handle.
Definition ex_snap : option Store.Snapshot := Store.cur (Watch.policy ex_after).
Definition ex_applied : bool :=
  negb (again_or true ex_handle) && String.eqb (Watch.apply (Watch.applied ex_after)) ApplyOK
  && negb (Store.gen (Watch.policy ex_after) =? 0) && ready (H := ascii_only) ex_snap "".

Lemma ex_parsed : ex_parse = Ok ex_pack.
Proof. vm_cast_no_check (@eq_refl (result error Pack) (Ok ex_pack)). Qed.
Lemma ex_fetched : FetchBlobs ex_mget ex_pack = Ret ex_blobs.
Proof. vm_cast_no_check (@eq_refl (run error (gmap string string)) (Ret ex_blobs)). Qed.
Lemma ex_decodes : decodes Apply.ex_text Apply.ex_text ex_pack ex_ysets ex_yprofile.
Proof.
  split.
  - intros t [= <-]. split; [done|]. by exists (Carry.file_sets ex_pack).
  - intros name pr t Hpr [= <-]. split; [done|]. cbn [Profiles ex_pack] in Hpr. by apply lookup_singleton_Some in Hpr as [_ <-].
Qed.

Section ex_rows.
#[local] Existing Instance ascii_only.
Context `{Live.Live}.

Lemma ex_no_allow ip : ~ pack_row ex_pack ex_blobs ex_profile "allow" ip.
Proof. intros (r & s & Hr & Ha & _). apply list_elem_of_singleton in Hr as ->. by vm_compute in Ha. Qed.
Lemma ex_denied : pack_row ex_pack ex_blobs ex_profile "deny" (Addr4 167838211).
Proof.
  exists ex_rule, (Policy.MkSet "lab" (Policy.MkMatch ["lab"] [] [] []) false Policy.emptyMatch).
  split_and!; [by left|by vm_compute|by vm_compute|]. split.
  - left. exists "lab". split; [by left|]. exists "Lab", ex_hash, ex_text.
    split_and!; [by vm_compute|by vm_compute|done|done|].
    exists ex_text, (MkPrefix (Addr4 167772160) 8). split_and!; [by left|by vm_compute|by vm_compute].
  - unfold match_holds. cbn. intros [(? & Hin & _)|[(? & Hin & _)|[(? & Hin & _)|(? & Hin & _)]]];
      by apply elem_of_nil in Hin.
Qed.
End ex_rows.


End Delivered.
