(* ===== verification/Node.v ===== *)
(** * The running node

    The composition that [run] of [cmd/ip/main.go] sets up: messages of the
    bus reach the handler, the handler gives tasks to the pool, the threads of
    the pool call the handler back, and audit records go to the sink. Actions
    of the handler run effect by effect, between the sections of the pool and
    of the sink, so anything may happen in the middle of one. At the end [run]
    closes the pool, waits for its threads, and closes the sink. A call
    of the handler finds some policy and some live sets among those it may see
    ([sees]): any at all for what is proved here, those of the moment in
    [System]. The network directory and the time are whatever they are. *)

From S2P Require Import Prelude GoStrings Protocol Store Mirror Events Decide Queue Config Handler Sink.

#[local] Open Scope Z_scope.

Module Node.
Import Protocol Events Handler.

(** An action of the handler that has begun: the thread of the pool that
    called it, none for a message of the bus, and the effects to come. *)
Record call : Type := MkCall { on : option nat; todo : list effect }.
(** Where [run] is: before the signal, in [pool.Close], in [auditSink.Close],
    returned. *)
Inductive phase : Type := Serving | Draining | Flushing | Exited.
(** [executed] and [received] are the past: the effects with the time of each,
    and the messages. *)
Record node : Type := MkNode {
  pool : Queue.sys; calls : list call; executed : list (string * effect); received : list msg;
  sink : Sink.state; history : list Sink.label; stage : phase }.

Definition start (workers : nat) (p : Queue.Pool) : node :=
  MkNode (Queue.start workers p) [] [] [] Sink.start [] Serving.

(** A thread of the pool is in the handler until its action has ended. *)
Definition busy (i : nat) (cs : list call) : bool :=
  existsb (fun c => match on c, todo c with Some j, _ :: _ => (i =? j)%nat | _, _ => false end) cs.

(** The calls of the handler among the events of a section. *)
Definition handed (es : list Queue.event) : list (Queue.Task * Z * string) :=
  omap (fun e => match e with Queue.Called t budget shed => Some (t, budget, shed) | _ => None end) es.

(** What an effect does to the pool and to the sink. *)
Definition pool_after (e : effect) (s : Queue.sys) : Queue.sys :=
  match e with
  | Submit t => Queue.MkSys (Queue.pool s) (Queue.stopped s) (Queue.threads s ++ [Queue.PSubmit t])
                  (Queue.submitted s ++ [t]) (Queue.log s)
  | _ => s
  end.
Definition sink_after (it : option Sink.item) (x : Sink.state) : Sink.state * list Sink.label :=
  match it with
  | None => (x, [])
  | Some it =>
      let '(s, out, full) := Sink.add it (Sink.sk x) in
      (Sink.MkState s (if full then S (Sink.kicks x) else Sink.kicks x) (Sink.wake x) (Sink.stop x) (Sink.loop x),
       [Sink.Added it; Sink.Dropped out])
  end.

(** [wg.Wait] of the pool: its workers and its sweeper have returned. *)
Definition returned (workers : nat) (n : node) : Prop :=
  forall i, (i <= workers)%nat -> busy i (calls n) = false
    /\ exists c, Queue.threads (pool n) !! i = Some c /\ Queue.finished c = true.

Section node.
Context `{UnicodeLower}.
Context (cfg : Config.Config) (unmarshal : string -> result error Request) (order : list string).
Context (marshal : Reply -> option string) (Error : error -> string) {W : Type} (Networked : string -> bool).
Context (geo : string -> string -> W -> result error (list string) * W).
(** [json.Marshal] of an event. *)
Context (event_json : Events.Event Z -> option string).
Context (workers : nat).
(** Whether actions may panic. *)
Context (panics : bool).
(** The policies and live sets that a call of the handler may find. *)
Context (sees : option Store.Snapshot -> option Mirror.store -> Prop).

Definition recorded (ts : string) (e : effect) : option Sink.item :=
  match e with Audit req reply det => Sink.audit_item event_json ts req (Some reply) det | _ => None end.

Definition may_panic (panic : option nat) : Prop := panics = false -> panic = None.
(** The effects of a call of [evaluate], in some world. *)
Definition evaluates (x : Queue.Task * Z * string) (out : list effect) : Prop :=
  exists panic elapsed live nc now snap w,
    may_panic panic /\ sees snap live
    /\ out = (evaluate cfg marshal Error Networked geo live nc now snap panic x.1.1 x.1.2 x.2 elapsed w).1.

Inductive step : node -> node -> Prop :=
| step_receive n m panic : may_panic panic ->
    step n (MkNode (pool n) (calls n ++ [MkCall None (receive cfg unmarshal order marshal panic m)])
      (executed n) (received n ++ [m]) (sink n) (history n) (stage n))
| step_run n i c now1 now2 now3 tick p' c' w es ths outs :
    Queue.threads (pool n) !! i = Some c -> busy i (calls n) = false ->
    Queue.run now1 now2 now3 tick (Queue.stopped (pool n)) (Queue.pool (pool n)) c = Some (p', c', w, es) ->
    Queue.wakes w (<[i := c']> (Queue.threads (pool n))) ths -> Forall2 evaluates (handed es) outs ->
    step n (MkNode (Queue.MkSys p' (Queue.stopped (pool n)) ths (Queue.submitted (pool n)) (Queue.log (pool n) ++ es))
      (calls n ++ map (MkCall (Some i)) outs) (executed n) (received n) (sink n) (history n) (stage n))
| step_timer n i c c' :
    Queue.threads (pool n) !! i = Some c -> Queue.timeout c = Some c' ->
    step n (MkNode (Queue.MkSys (Queue.pool (pool n)) (Queue.stopped (pool n))
        (map Queue.wake (<[i := c']> (Queue.threads (pool n)))) (Queue.submitted (pool n)) (Queue.log (pool n)))
      (calls n) (executed n) (received n) (sink n) (history n) (stage n))
| step_effect n j o e es ts :
    calls n !! j = Some (MkCall o (e :: es)) ->
    step n (MkNode (pool_after e (pool n)) (<[j := MkCall o es]> (calls n)) (executed n ++ [(ts, e)]) (received n)
      (sink_after (recorded ts e) (sink n)).1 (history n ++ (sink_after (recorded ts e) (sink n)).2) (stage n))
| step_sink n l y : Sink.step (sink n) l y -> Sink.added l = [] -> Sink.stop y = Sink.stop (sink n) ->
    step n (MkNode (pool n) (calls n) (executed n) (received n) y (history n ++ l) (stage n))
| step_signal n : stage n = Serving -> Queue.stopped (pool n) = false ->
    step n (MkNode (Queue.MkSys (Queue.pool (pool n)) true (Queue.threads (pool n) ++ [Queue.CLock])
        (Queue.submitted (pool n)) (Queue.log (pool n)))
      (calls n) (executed n) (received n) (sink n) (history n) Draining)
| step_flush n : stage n = Draining -> returned workers n ->
    step n (MkNode (pool n) (calls n) (executed n) (received n)
      (Sink.MkState (Sink.sk (sink n)) (Sink.kicks (sink n)) (Sink.wake (sink n)) true (Sink.loop (sink n)))
      (history n) Flushing)
| step_exit n : stage n = Flushing -> Sink.loop (sink n) = Sink.Stopped ->
    step n (MkNode (pool n) (calls n) (executed n) (received n) (sink n) (history n) Exited).

Definition reachable (p : Queue.Pool) : node -> Prop := rtc step (start workers p).

(** ** Parts of a run are runs of the parts *)

Lemma pool_step n n' : step n n' -> rtc Queue.step (pool n) (pool n').
Proof.
  destruct 1 as [n m panic _|n i c now1 now2 now3 tick p' c' w es ths outs Hi _ Hr Hw _|n i c c' Hi Ht|n j o e es ts _
    |n l y _ _ _|n _ Hs|n _ _|n _ _]; cbn [pool]; try apply rtc_refl.
  - by eapply rtc_once, Queue.step_run.
  - by eapply rtc_once, Queue.step_timer.
  - destruct e; try apply rtc_refl. apply rtc_once, Queue.step_submit.
  - by apply rtc_once, Queue.step_close.
Qed.

Lemma sink_step n n' : step n n' ->
  exists l, history n' = history n ++ l /\ Sink.runs (sink n) l (sink n').
Proof.
  assert (forall n : node, exists l, history n = history n ++ l /\ Sink.runs (sink n) l (sink n)) as Hid.
  { intros n0. exists []. split; [by rewrite app_nil_r|constructor]. }
  assert (forall x l y, Sink.step x l y -> Sink.runs x l y) as Hone.
  { intros x l y Hs. rewrite <- (app_nil_l l). eapply Sink.runs_step; [constructor|done]. }
  destruct 1 as [n m panic _|n i c now1 now2 now3 tick p' c' w es ths outs _ _ _ _ _|n i c c' _ _|n j o e es ts _
    |n l y Hs _ _|n _ _|n _ _|n _ _]; cbn [history sink]; try apply Hid.
  - destruct (recorded ts e) as [it|]; [|exists []; split; [done|constructor]]. cbn [sink_after].
    destruct (sink n) as [s k w st lp] eqn:Es. cbn [Sink.sk Sink.kicks Sink.wake Sink.stop Sink.loop].
    destruct (Sink.add it s) as [[s' out] full] eqn:Ea. eexists. split; [done|]. by apply Hone, Sink.step_add.
  - exists l. split; [done|by apply Hone].
  - exists []. split; [by rewrite app_nil_r|]. destruct (sink n) as [s k w st lp]. apply Hone, Sink.step_close.
Qed.

Lemma reachable_parts p n : reachable p n ->
  Queue.reachable workers p (pool n) /\ Sink.runs Sink.start (history n) (sink n).
Proof.
  intros Hr. refine (rtc_ind_r (fun n => Queue.reachable workers p (pool n)
    /\ Sink.runs Sink.start (history n) (sink n)) _ _ _ _ Hr); [split; constructor|].
  intros n1 n2 _ Hs [Hq Hk]. split.
  - unfold Queue.reachable in *. transitivity (pool n1); [done|by apply pool_step].
  - destruct (sink_step _ _ Hs) as (l & -> & Hl). by apply (Sink.runs_app _ _ (sink n1)).
Qed.

(** ** Who is owed an answer *)

Definition owes (subject : string) : list string := if String.eqb subject "" then [] else [subject].
Definition owed_by (e : effect) : list string :=
  match e with Answer s _ => [s] | Submit t => owes (Queue.Reply t) | _ => [] end.
Definition answered_by (e : effect) : list string := match e with Answer s _ => [s] | _ => [] end.
Definition owed (es : list effect) : list string := concat (map owed_by es).
(** The subjects that were answered, one occurrence for each answer. *)
Definition settled (l : list (string * effect)) : list string := concat (map (fun x => answered_by x.2) l).
Definition replies (ts : list Queue.Task) : list string := concat (map (fun t => owes (Queue.Reply t)) ts).
Definition asked (ms : list msg) : list string := concat (map (fun m => owes (m_Reply m)) ms).
Definition ahead (cs : list call) : list effect := concat (map todo cs).

(** Without panics nobody is answered twice; with them somebody may be. *)
Definition covers (a b : list string) : Prop := if panics then a ⊆+ b else a ≡ₚ b.

Lemma covers_refl a : covers a a.
Proof. unfold covers. by destruct panics. Qed.
Lemma covers_perm a a' b b' : a ≡ₚ a' -> b ≡ₚ b' -> covers a b -> covers a' b'.
Proof. unfold covers. intros Ha Hb. destruct panics; by rewrite Ha, Hb. Qed.
Lemma covers_app a b c d : covers a b -> covers c d -> covers (a ++ c) (b ++ d).
Proof. unfold covers. destruct panics; intros H1 H2; [by apply submseteq_app|by rewrite H1, H2]. Qed.
Lemma covers_cancel k a b : covers (k ++ a) (k ++ b) -> covers a b.
Proof. unfold covers. destruct panics; [apply submseteq_app_inv_l|apply Permutation_app_inv_l]. Qed.
#[local] Instance covers_proper : Proper ((≡ₚ) ==> (≡ₚ) ==> iff) covers.
Proof. intros a a' Ha b b' Hb. split; by apply covers_perm. Qed.

Lemma owed_app a b : owed (a ++ b) = owed a ++ owed b.
Proof. unfold owed. by rewrite map_app, concat_app. Qed.
Lemma settled_app a b : settled (a ++ b) = settled a ++ settled b.
Proof. unfold settled. by rewrite map_app, concat_app. Qed.
Lemma replies_app a b : replies (a ++ b) = replies a ++ replies b.
Proof. unfold replies. by rewrite map_app, concat_app. Qed.
Lemma asked_app a b : asked (a ++ b) = asked a ++ asked b.
Proof. unfold asked. by rewrite map_app, concat_app. Qed.
Lemma ahead_app a b : ahead (a ++ b) = ahead a ++ ahead b.
Proof. unfold ahead. by rewrite map_app, concat_app. Qed.

Lemma same_replies a b : Queue.same_messages a b -> replies a ≡ₚ replies b.
Proof.
  unfold Queue.same_messages. intros Hp. unfold replies.
  assert (forall l, concat (map (fun t => owes (Queue.Reply t)) l) = concat (map (fun x => owes x.2) (map Queue.message l))) as E
    by (intros l; by rewrite map_map). rewrite !E, <- !flat_map_concat_map. by rewrite Hp.
Qed.

(** Only a message that is received submits. *)
Definition is_submit (e : effect) : bool := match e with Submit _ => true | _ => false end.
Definition no_submit (es : list effect) : Prop := Forall (fun e => is_submit e = false) es.

Lemma owed_answers es : no_submit es -> owed es = concat (map answered_by (answers es)).
Proof.
  induction 1 as [|e es He _ IH]; [done|]. unfold owed in *. cbn [map concat]. rewrite IH.
  by destruct e.
Qed.

Lemma send_no_submit s reply req det : no_submit (send marshal s reply req det).
Proof.
  unfold send. destruct (String.eqb s ""); [constructor|].
  destruct (marshal reply); [by repeat constructor|]. destruct (marshal _); by repeat constructor.
Qed.

Lemma evaluated_no_submit live nc now snap t budget shed elapsed w :
  no_submit (evaluated marshal Error Networked geo live nc now snap t budget shed elapsed w).1.
Proof.
  destruct (evaluated_shape marshal Error Networked geo live nc now snap t budget shed elapsed w)
    as (out & reply & det & w' & -> & Hout).
  apply Forall_app_2; [|apply send_no_submit]. eapply Forall_impl; [exact Hout|]. by intros [].
Qed.

Lemma recover_no_submit s rid panic body : no_submit body -> no_submit (recoverInto cfg marshal s rid panic body).
Proof.
  intros Hb. unfold recoverInto. destruct panic as [k|]; [|done]. apply Forall_app_2; [by apply Forall_take|].
  destruct (String.eqb _ _); [constructor|apply send_no_submit].
Qed.
Lemma evaluate_no_submit live nc now snap panic t budget shed elapsed w :
  no_submit (evaluate cfg marshal Error Networked geo live nc now snap panic t budget shed elapsed w).1.
Proof.
  unfold evaluate. pose proof (evaluated_no_submit live nc now snap t budget shed elapsed w) as Hno.
  destruct (evaluated _ _ _ _ _ _ _ _ t budget shed elapsed w) as [body w']. by apply recover_no_submit.
Qed.
Lemma no_submit_elem t es : no_submit es -> Submit t ∉ es.
Proof. intros Hno Hin. unfold no_submit in Hno. rewrite Forall_forall in Hno. by specialize (Hno _ Hin). Qed.

(** A reply of a few strings can always be encoded. *)
Context (Hfallback : forall rid inspector c, is_Some (marshal (FallbackReply rid inspector c))).

Lemma send_owed s reply req det : owed (send marshal s reply req det) = owes s.
Proof.
  rewrite owed_answers by apply send_no_submit. unfold owes. destruct (String.eqb_spec s "") as [->|Hs]; [done|].
  by destruct (send_once marshal Hfallback s reply req det Hs) as [p ->].
Qed.

(** What a recovered panic adds. *)
Lemma recover_owed s rid panic body : may_panic panic -> owed body = owes s ->
  covers (owes s) (owed (recoverInto cfg marshal s rid panic body)).
Proof.
  intros Hp Hb. unfold recoverInto. destruct panic as [k|]; [|rewrite Hb; apply covers_refl].
  unfold covers, may_panic in *. destruct panics; [|by specialize (Hp eq_refl)].
  rewrite owed_app. apply submseteq_inserts_l. destruct (String.eqb_spec s "") as [->|Hs]; [done|].
  by rewrite send_owed.
Qed.

Lemma receive_owed panic m : may_panic panic ->
  covers (owes (m_Reply m)) (owed (receive cfg unmarshal order marshal panic m)).
Proof.
  intros Hp. apply recover_owed; [done|]. unfold Handler.received.
  destruct (Protocol.Parse unmarshal order (m_Data m)) as [req|pe]; [|by rewrite send_owed].
  destruct (negb _); [by rewrite send_owed|]. destruct (negb _); [by rewrite send_owed|].
  unfold owed. cbn. apply app_nil_r.
Qed.

Lemma evaluates_owed x out : evaluates x out ->
  covers (owes (Queue.Reply x.1.1)) (owed out) /\ no_submit out.
Proof.
  destruct x as [[t budget] shed]. intros (panic & elapsed & live & nc & now & snap & w & Hp & _ & ->). cbn [fst snd].
  split; [|apply evaluate_no_submit].
  destruct (evaluated_shape marshal Error Networked geo live nc now snap t budget shed elapsed w)
    as (o & reply & det & w' & E & Hout).
  unfold evaluate. rewrite E. cbn [fst].
  apply recover_owed; [done|]. rewrite owed_app, send_owed, owed_answers, (writes_silent _ Hout); [done|].
  eapply Forall_impl; [exact Hout|]. by intros [].
Qed.

(** ** The ledger *)

Lemma handed_called es : Queue.called es = map (fun x => x.1.1) (handed es).
Proof.
  unfold Queue.called, handed. induction es as [|[t b s|t|t] es IH]; cbn; [done|by f_equal|done|done].
Qed.

Lemma ahead_calls i outs : ahead (map (MkCall (Some i)) outs) = concat outs.
Proof. unfold ahead. by rewrite map_map, map_id. Qed.

Lemma evaluates_all es outs : Forall2 evaluates (handed es) outs ->
  covers (replies (Queue.called es)) (owed (concat outs)).
Proof.
  rewrite handed_called. induction 1 as [|x out xs outs Hx _ IH]; [apply covers_refl|].
  cbn [map concat]. rewrite owed_app. unfold replies in *. cbn [map concat].
  apply covers_app; [by apply evaluates_owed|done].
Qed.

(** One more effect executed. *)
Lemma ahead_pop (cs : list call) (j : nat) o e es :
  cs !! j = Some (MkCall o (e :: es)) -> ahead cs ≡ₚ e :: ahead (<[j := MkCall o es]> cs).
Proof.
  intros Hj. unfold ahead. destruct (Queue.concat_at todo cs j _ Hj) as (rest & -> & Hr). by rewrite (Hr (MkCall o es)).
Qed.
Lemma owed_perm a b : a ≡ₚ b -> owed a ≡ₚ owed b.
Proof. intros Hab. unfold owed. rewrite <- !flat_map_concat_map. by rewrite Hab. Qed.

(** Every subject of a message has been answered, is about to be by an action
    that has begun, or is that of a task the pool still has. *)
Definition ledger (n : node) : Prop :=
  covers (asked (received n) ++ replies (Queue.called (Queue.log (pool n))))
    (settled (executed n) ++ owed (ahead (calls n)) ++ replies (Queue.submitted (pool n))).

Lemma ledger_step n n' : step n n' -> ledger n -> ledger n'.
Proof.
  unfold ledger. destruct 1 as [n m panic Hp|n i c now1 now2 now3 tick p' c' w es ths outs _ _ _ _ Hout|n i c c' _ _
    |n j o e es ts Hj|n l y _ _ _|n _ _|n _ _|n _ _]; cbn [pool calls executed received Queue.log Queue.submitted]; try done.
  - intros Hl. rewrite asked_app, ahead_app, owed_app.
    assert (ahead [MkCall None (receive cfg unmarshal order marshal panic m)] = receive cfg unmarshal order marshal panic m)
      as -> by apply app_nil_r.
    assert (asked [m] = owes (m_Reply m)) as -> by apply app_nil_r.
    pose proof (covers_app _ _ _ _ Hl (receive_owed _ m Hp)) as Hc. revert Hc. apply covers_perm; solve_Permutation.
  - intros Hl. pose proof (covers_app _ _ _ _ Hl (evaluates_all _ _ Hout)) as Hc.
    unfold Queue.called in *. rewrite omap_app, replies_app, ahead_app, ahead_calls, owed_app.
    revert Hc. apply covers_perm; solve_Permutation.
  - apply covers_perm; [by destruct e|]. rewrite settled_app, (owed_perm _ _ (ahead_pop _ _ _ _ _ Hj)).
    unfold settled at 3, owed at 1. cbn [map concat snd]. fold (owed (ahead (<[j:=MkCall o es]> (calls n)))).
    destruct e as [s pl|s ev|r rp dt|t]; cbn [pool_after answered_by owed_by Queue.submitted]; try solve_Permutation.
    rewrite replies_app. unfold replies at 3. cbn [map concat]. solve_Permutation.
Qed.

(** ** The audit *)

Definition audits (l : list (string * effect)) : list Sink.item := omap (fun x => recorded x.1 x.2) l.
Definition audited (n : node) : Prop := Sink.added (history n) = audits (executed n).

Lemma sink_after_added it x : Sink.added (sink_after it x).2 = match it with Some it => [it] | None => [] end.
Proof. destruct it as [it|]; [|done]. cbn [sink_after]. by destruct (Sink.add it (Sink.sk x)) as [[s out] full]. Qed.
Lemma sink_after_loop it x : Sink.loop (sink_after it x).1 = Sink.loop x /\ Sink.stop (sink_after it x).1 = Sink.stop x.
Proof. destruct it as [it|]; [|done]. cbn [sink_after]. by destruct (Sink.add it (Sink.sk x)) as [[s out] full]. Qed.

Lemma audited_step n n' : step n n' -> audited n -> audited n'.
Proof.
  unfold audited, audits. destruct 1 as [n m panic _|n i c now1 now2 now3 tick p' c' w es ths outs _ _ _ _ _|n i c c' _ _
    |n j o e es ts _|n l y _ Ha _|n _ _|n _ _|n _ _]; cbn [history executed]; try done.
  - intros Hn. rewrite Sink.added_app, sink_after_added, omap_app, Hn. by f_equal.
  - intros Hn. by rewrite Sink.added_app, Ha, app_nil_r.
Qed.

(** The sink is closed when [run] closes it. *)
Definition sink_open (n : node) : Prop :=
  (stage n = Serving \/ stage n = Draining -> Sink.stop (sink n) = false)
  /\ (Sink.last_flush (Sink.loop (sink n)) = true -> Sink.stop (sink n) = true).

Lemma sink_open_step n n' : step n n' -> sink_open n -> sink_open n'.
Proof.
  unfold sink_open. destruct 1 as [n m panic _|n i c now1 now2 now3 tick p' c' w es ths outs _ _ _ _ _|n i c c' _ _
    |n j o e es ts _|n l y Hs _ Hst|n Hsg _|n _ _|n _ _]; cbn [stage sink]; intros [H1 H2]; try done.
  - destruct (sink_after_loop (recorded ts e) (sink n)) as [-> ->]. done.
  - rewrite Hst. split; [done|]. rewrite <- Hst. by eapply Sink.last_needs_stop.
  - split; [|done]. intros _. apply H1. by left.
  - split; [by intros [|]|done].
  - split; [by intros [|]|done].
Qed.

(** What was audited before the sink was closed has left it when it stops. *)
Definition left_behind (pre : list Sink.item) (n : node) : Prop :=
  pre `prefix_of` Sink.added (history n)
  /\ (Sink.loop (sink n) = Sink.Stopped -> pre `prefix_of` map snd (Sink.left_list (history n))).

Lemma left_behind_step pre n n' : Sink.runs Sink.start (history n') (sink n') ->
  step n n' -> left_behind pre n -> left_behind pre n'.
Proof.
  intros Hr Hs [H1 H2]. destruct (sink_step _ _ Hs) as (l & El & _).
  assert (pre `prefix_of` Sink.added (history n')) as Ha by (rewrite El, Sink.added_app; by apply prefix_app_r).
  split; [done|]. intros Hstop.
  assert (Sink.loop (sink n) = Sink.Stopped \/ Sink.pending (Sink.sk (sink n')) = []) as [Hn|Hp].
  { clear -Hs Hstop. destruct Hs; cbn [sink] in *; auto.
    - destruct (sink_after_loop (recorded ts e) (sink n)) as [E _]. rewrite E in Hstop. by left.
    - destruct (Sink.stops_empty _ _ _ H0 Hstop) as [?|[? _]]; auto. }
  - rewrite El, Sink.left_app, map_app. by apply prefix_app_r, H2.
  - pose proof (Sink.runs_ok [] _ _ _ Sink.start_ok Hr) as Hok. cbn [app] in Hok.
    rewrite (Sink.ro_fifo _ _ Hok), Hp, app_nil_r in Ha. done.
Qed.

(** ** Shutting down *)

(** What the threads of the pool, and the actions that have begun, can still
    do: no new message, no timer, no tick of the sweeper. *)
Inductive work : node -> node -> Prop :=
| work_section n i c now1 now2 now3 p' c' w es ths outs :
    Queue.threads (pool n) !! i = Some c -> busy i (calls n) = false ->
    Queue.run now1 now2 now3 false (Queue.stopped (pool n)) (Queue.pool (pool n)) c = Some (p', c', w, es) ->
    Queue.wakes w (<[i := c']> (Queue.threads (pool n))) ths -> Forall2 evaluates (handed es) outs ->
    work n (MkNode (Queue.MkSys p' (Queue.stopped (pool n)) ths (Queue.submitted (pool n)) (Queue.log (pool n) ++ es))
      (calls n ++ map (MkCall (Some i)) outs) (executed n) (received n) (sink n) (history n) (stage n))
| work_effect n j o e es ts :
    calls n !! j = Some (MkCall o (e :: es)) ->
    work n (MkNode (pool_after e (pool n)) (<[j := MkCall o es]> (calls n)) (executed n ++ [(ts, e)]) (received n)
      (sink_after (recorded ts e) (sink n)).1 (history n ++ (sink_after (recorded ts e) (sink n)).2) (stage n)).

Lemma work_step n n' : work n n' -> step n n'.
Proof. destruct 1; [by eapply step_run|by apply step_effect]. Qed.
Lemma work_received n n' : work n n' -> received n' = received n.
Proof. by destruct 1. Qed.

Definition submits (es : list effect) : nat := length (List.filter is_submit es).
(** What is left to do: sections of the pool, with those of the tasks about to
    be submitted; then effects. *)
Definition sections_left (n : node) : nat := Queue.measure (pool n) + 7 * submits (ahead (calls n)).
Definition effects_left (n : node) : nat := length (ahead (calls n)).
Definition closing (n : node) : Prop := Queue.closing workers (pool n).

Lemma submits_perm a b : a ≡ₚ b -> submits a = submits b.
Proof.
  unfold submits. induction 1 as [|e a b _ IH|e f a|a b c _ IH1 _ IH2]; cbn; [done| | |by rewrite IH1].
  - by destruct (is_submit e); cbn; rewrite IH.
  - by destruct (is_submit e), (is_submit f).
Qed.
Lemma submits_cons e es : submits (e :: es) = ((if is_submit e then 1 else 0) + submits es)%nat.
Proof. unfold submits. cbn. by destruct (is_submit e). Qed.
Lemma submits_none es : no_submit es -> submits es = 0%nat.
Proof. unfold submits. induction 1 as [|e es He _ IH]; [done|]. cbn. by rewrite He. Qed.
Lemma outs_no_submit xs outs : Forall2 evaluates xs outs -> no_submit (concat outs).
Proof.
  induction 1 as [|x out xs outs Hx _ IH]; [constructor|]. cbn [concat].
  apply Forall_app_2; [by apply (evaluates_owed x)|done].
Qed.

(** A task that is submitted to a closed pool. *)
Lemma spawn_closing t s : Queue.closing workers s ->
  Queue.closing workers (pool_after (Submit t) s)
  /\ Queue.measure (pool_after (Submit t) s) = (Queue.measure s + 6)%nat.
Proof.
  intros (Hinv & Hcl & Hst). split; [split_and!; [by apply Queue.inv_spawn|done|done]|].
  unfold Queue.measure. cbn [pool_after Queue.pool Queue.threads].
  assert (forall l, foldr (fun c n => Queue.weight c + n) 0 (l ++ [Queue.PSubmit t])
    = foldr (fun c n => Queue.weight c + n) 0 l + 6)%nat as ->; [|lia].
  induction l as [|c l IH]; cbn; [done|]. rewrite IH. lia.
Qed.

Lemma work_progress n n' : closing n -> work n n' ->
  closing n' /\ ((sections_left n' < sections_left n)%nat
    \/ (sections_left n' = sections_left n /\ (effects_left n' < effects_left n)%nat)).
Proof.
  unfold closing, sections_left, effects_left. intros Hc Hw.
  destruct Hw as [n i c now1 now2 now3 p' c' w es ths outs Hi _ Hr Hw Hout|n j o e es ts Hj]; cbn [pool calls].
  - destruct (Queue.work_closing _ _ _ Hc (Queue.work_run _ _ _ _ _ _ _ _ _ _ _ Hi Hr Hw)) as (Hc' & Hlt & _).
    split; [done|]. left. rewrite ahead_app, ahead_calls. unfold submits at 1. rewrite List.filter_app, length_app.
    fold (submits (ahead (calls n))). fold (submits (concat outs)). rewrite (submits_none _ (outs_no_submit _ _ Hout)). lia.
  - pose proof (ahead_pop _ _ _ _ _ Hj) as Hp. set (rest := ahead (<[j:=MkCall o es]> (calls n))) in *.
    rewrite (submits_perm _ _ Hp), (Permutation_length Hp), submits_cons. cbn [length].
    destruct (is_submit e) eqn:Ee.
    2: { assert (pool_after e (pool n) = pool n) as -> by (by destruct e). split; [exact Hc|]. right. lia. }
    destruct e as [| | |t]; try discriminate Ee. destruct (spawn_closing t _ Hc) as [Hc' Hm].
    split; [exact Hc'|]. left. rewrite Hm. lia.
Qed.

Lemma work_terminates n : closing n -> Acc (flip work) n.
Proof.
  remember (sections_left n) as a eqn:Ea. remember (effects_left n) as b eqn:Eb. revert b n Ea Eb.
  induction a as [a IHa] using lt_wf_ind. induction b as [b IHb] using lt_wf_ind.
  intros n -> -> Hc. constructor. intros n' Hw. destruct (work_progress _ _ Hc Hw) as [Hc' [Hlt|[He Hlt]]].
  - by eapply IHa.
  - by eapply IHb.
Qed.

Lemma node_closing n n' : rtc work n n' -> closing n -> closing n' /\ received n' = received n.
Proof.
  induction 1 as [n|n1 n2 n3 H1 _ IH]; [done|]. intros Hc.
  destruct (work_progress _ _ Hc H1) as [Hc2 _]. destruct (IH Hc2) as [? ->]. split; [done|by apply work_received].
Qed.

Lemma busy_ahead i cs : ahead cs = [] -> busy i cs = false.
Proof.
  unfold ahead. induction cs as [|[o es] cs IH]; [done|]. cbn [map concat todo]. intros [-> Hcs]%app_nil.
  unfold busy in *. cbn [existsb on todo]. rewrite (IH Hcs). by destruct o.
Qed.

Context `{!Inhabited W} (Hsees : exists snap live, sees snap live).
Lemma some_evaluation x : exists out, evaluates x out.
Proof.
  destruct Hsees as (snap & live & Hs). eexists. exists None, 0, live, false, 0, snap, inhabitant. by split_and!.
Qed.

Lemma node_stuck n : closing n -> (forall n', ~ work n n') ->
  ahead (calls n) = [] /\ forallb Queue.finished (Queue.threads (pool n)) = true.
Proof.
  intros Hc Hno. assert (ahead (calls n) = []) as Ha.
  { unfold ahead. apply concat_nil_Forall, Forall_fmap, Forall_lookup. intros j [o [|e es]] Hj; [done|].
    exfalso. by apply (Hno _ (work_effect n j o e es "" Hj)). }
  split; [done|]. apply (Queue.work_stuck workers); [done|]. intros s' Hs. remember (pool n) as s eqn:Es.
  destruct Hs as [s i c now1 now2 now3 p' c' w es ths Hi Hr Hw]. subst s.
  assert (exists outs, Forall2 evaluates (handed es) outs) as (outs & Hout).
  { induction (handed es) as [|x xs (outs & IH)]; [by exists []|]. destruct (some_evaluation x) as (out & Ho).
    exists (out :: outs). by constructor. }
  eapply Hno. eapply work_section; try done. by apply busy_ahead.
Qed.

(** ** Running a schedule *)

(** What happens next, without panics; [pick] is the thread that a [Signal]
    wakes, [snap] the policy that a call of the handler finds. *)
Inductive choice : Type :=
| AReceive (m : msg)
| ARun (i : nat) (now : Z) (tick : bool) (pick : nat) (snap : option Store.Snapshot)
| AEffect (j : nat) (ts : string)
| ASink (m : Sink.move)
| ASignal
| AFlush
| AExit.

Definition all_returned (n : node) : bool :=
  forallb (fun i => negb (busy i (calls n))
    && match Queue.threads (pool n) !! i with Some c => Queue.finished c | None => false end) (seq 0 (S workers)).
Definition output (snap : option Store.Snapshot) (x : Queue.Task * Z * string) : list effect :=
  (evaluate cfg marshal Error Networked geo None false 0 snap None x.1.1 x.1.2 x.2 0 inhabitant).1.
Definition exec1 (n : node) (a : choice) : option node :=
  match a with
  | AReceive m =>
      Some (MkNode (pool n) (calls n ++ [MkCall None (receive cfg unmarshal order marshal None m)]) (executed n)
              (received n ++ [m]) (sink n) (history n) (stage n))
  | ARun i now tick pick snap =>
      if busy i (calls n) then None else
      c ← Queue.threads (pool n) !! i;
      '(p', c', w, es) ← Queue.run now now now tick (Queue.stopped (pool n)) (Queue.pool (pool n)) c;
      ths ← Queue.wake_list w pick (<[i := c']> (Queue.threads (pool n)));
      Some (MkNode (Queue.MkSys p' (Queue.stopped (pool n)) ths (Queue.submitted (pool n)) (Queue.log (pool n) ++ es))
              (calls n ++ map (MkCall (Some i)) (map (output snap) (handed es)))
              (executed n) (received n) (sink n) (history n) (stage n))
  | AEffect j ts =>
      match calls n !! j with
      | Some (MkCall o (e :: es)) =>
          Some (MkNode (pool_after e (pool n)) (<[j := MkCall o es]> (calls n)) (executed n ++ [(ts, e)]) (received n)
                  (sink_after (recorded ts e) (sink n)).1 (history n ++ (sink_after (recorded ts e) (sink n)).2) (stage n))
      | _ => None
      end
  | ASink m =>
      '(l, y) ← Sink.exec (sink n) m;
      Some (MkNode (pool n) (calls n) (executed n) (received n) y (history n ++ l) (stage n))
  | ASignal =>
      match stage n, Queue.stopped (pool n) with
      | Serving, false =>
          Some (MkNode (Queue.MkSys (Queue.pool (pool n)) true (Queue.threads (pool n) ++ [Queue.CLock])
                          (Queue.submitted (pool n)) (Queue.log (pool n)))
                  (calls n) (executed n) (received n) (sink n) (history n) Draining)
      | _, _ => None
      end
  | AFlush =>
      match stage n, all_returned n with
      | Draining, true =>
          Some (MkNode (pool n) (calls n) (executed n) (received n)
                  (Sink.MkState (Sink.sk (sink n)) (Sink.kicks (sink n)) (Sink.wake (sink n)) true (Sink.loop (sink n)))
                  (history n) Flushing)
      | _, _ => None
      end
  | AExit =>
      match stage n, Sink.loop (sink n) with
      | Flushing, Sink.Stopped =>
          Some (MkNode (pool n) (calls n) (executed n) (received n) (sink n) (history n) Exited)
      | _, _ => None
      end
  end.
Fixpoint exec (n : node) (l : list choice) : option node :=
  match l with
  | [] => Some n
  | a :: l => match exec1 n a with Some n' => exec n' l | None => None end
  end.

Lemma all_returned_sound n : all_returned n = true -> returned workers n.
Proof.
  unfold all_returned. rewrite forallb_forall. intros Hall i Hi.
  specialize (Hall i ltac:(apply in_seq; lia)). apply andb_true_iff in Hall as [Hb%negb_true_iff Hc].
  split; [done|]. destruct (Queue.threads (pool n) !! i) as [c|]; [by exists c|done].
Qed.

(** The policy that a choice gives to a call, without live sets. *)
Definition sighted (a : choice) : Prop := match a with ARun _ _ _ _ snap => sees snap None | _ => True end.

Lemma exec1_sound n a n' : sighted a -> exec1 n a = Some n' -> step n n'.
Proof.
  intros Hsight.
  destruct a as [m|i now tick pick snap|j ts|m| | |]; cbn [exec1].
  - intros [= <-]. by apply (step_receive n m None).
  - destruct (busy i (calls n)) eqn:Eb; [done|]. intros E. apply bind_Some in E as (c & Hc & E).
    apply bind_Some in E as ([[[p' c'] w] es] & Hr & E). apply bind_Some in E as (ths & Hw & [= <-]).
    eapply step_run; [done|done|done|by eapply Queue.wake_list_sound|].
    apply Forall2_fmap_r, Forall_Forall2_diag, Forall_true. intros x. by exists None, 0, None, false, 0, snap, inhabitant.
  - destruct (calls n !! j) as [[o [|e es]]|] eqn:Ej; try done. intros [= <-]. by apply step_effect.
  - intros E. apply bind_Some in E as ([l y] & Hx & [= <-]). apply Sink.move_sound in Hx as (? & ? & ?).
    by apply step_sink.
  - destruct (stage n) eqn:Es, (Queue.stopped (pool n)) eqn:Et; try done. intros [= <-]. by apply step_signal.
  - destruct (stage n) eqn:Es, (all_returned n) eqn:Et; try done. intros [= <-].
    by apply step_flush; [|apply all_returned_sound].
  - destruct (stage n) eqn:Es, (Sink.loop (sink n)) eqn:Et; try done. intros [= <-]. by apply step_exit.
Qed.

Lemma schedule_sound : forall l n n', Forall sighted l -> exec n l = Some n' -> rtc step n n'.
Proof.
  induction l as [|a l IH]; intros n n' Hl E; cbn [exec] in E; [by injection E as <-|].
  apply Forall_cons in Hl as [Ha Hl]. destruct (exec1 n a) as [n1|] eqn:Ea; [|done]. eapply rtc_l; [by eapply exec1_sound|by apply IH].
Qed.

(** ** Properties *)

Lemma reachable_inv p n : reachable p n -> ledger n /\ audited n /\ sink_open n.
Proof.
  intros Hr. refine (rtc_ind_r (fun n => ledger n /\ audited n /\ sink_open n) _ _ _ _ Hr).
  - split_and!; [apply covers_refl|done|done].
  - intros n1 n2 _ Hs (Hl & Ha & Ho).
    split_and!; [by eapply ledger_step|by eapply audited_step|by eapply sink_open_step].
Qed.

Definition held (n : node) : list Queue.Task := concat (map Queue.holds (Queue.threads (pool n))).

Lemma balance n : Queue.inv workers (pool n) -> ledger n ->
  covers (asked (received n))
    (settled (executed n) ++ owed (ahead (calls n)) ++ replies (Queue.q (Queue.pool (pool n))) ++ replies (held n)).
Proof.
  intros Hinv Hl. pose proof (same_replies _ _ (Queue.inv_tasks _ _ Hinv)) as Ht. rewrite !replies_app in Ht.
  apply (covers_cancel (replies (Queue.called (Queue.log (pool n))))). revert Hl. unfold ledger. rewrite Ht.
  apply covers_perm; unfold held; solve_Permutation.
Qed.

(** C7: Every request is answered, through the whole node. At every moment
    of every run - with any messages, any interleaving of the actions of the
    handler with the threads of the pool, the sweeper, the timers and the
    sink - the messages that asked for an answer are those that have been
    answered, those whose answer an action that has begun still owes, and
    those whose task the pool still has: each exactly once when nothing
    panics, at least once otherwise. And once the pool is closed what has
    begun ends, in any order of running, and then every message has been
    answered on its subject. *)
Theorem every_request_answered d reserveMS minBudgetMS full n :
  reachable (Queue.New d reserveMS minBudgetMS full) n -> (0 < workers)%nat ->
  covers (asked (received n))
    (settled (executed n) ++ owed (ahead (calls n)) ++ replies (Queue.q (Queue.pool (pool n))) ++ replies (held n))
  /\ (Queue.stopped (pool n) = true -> Queue.closed (Queue.pool (pool n)) = true ->
      Acc (flip work) n
      /\ forall n', rtc work n n' -> (forall n2, ~ work n' n2) ->
           received n' = received n /\ covers (asked (received n)) (settled (executed n'))).
Proof.
  intros Hr Hw. destruct (reachable_parts _ _ Hr) as [Hq _]. pose proof (Queue.inv_reachable _ _ _ _ _ _ Hq) as Hinv.
  destruct (reachable_inv _ _ Hr) as (Hl & _ & _). split; [by apply balance|]. intros Hst Hcl.
  assert (closing n) as Hc by (by split_and!). split; [by apply work_terminates|]. intros n' Hn Hno.
  destruct (node_closing _ _ Hn Hc) as [Hc' Erec]. split; [done|].
  destruct (node_stuck _ Hc' Hno) as [Ha Hf]. destruct Hc' as (Hinv' & _ & _).
  destruct (Queue.finished_empty _ _ Hinv' Hf) as [Hh Hq']. specialize (Hq' Hw).
  assert (reachable (Queue.New d reserveMS minBudgetMS full) n') as Hr'.
  { unfold reachable in *. transitivity n; [done|]. eapply rtc_subrel; [|exact Hn]. apply work_step. }
  destruct (reachable_inv _ _ Hr') as (Hl' & _ & _). pose proof (balance _ Hinv' Hl') as Hb.
  unfold held in Hb. rewrite Ha, Hq', Hh, Erec in Hb. cbn in Hb. by rewrite !app_nil_r in Hb.
Qed.

(** The first threads of the pool are its sweeper and its workers, for ever. *)
Definition placed (s : Queue.sys) : Prop :=
  forall i, (1 <= i <= workers)%nat -> exists c, Queue.threads s !! i = Some c /\ Queue.is_worker c = true.

Lemma placed_map (l l' : list Queue.pc) : map Queue.is_worker l' = map Queue.is_worker l ->
  forall i, (exists c, l !! i = Some c /\ Queue.is_worker c = true) ->
  exists c, l' !! i = Some c /\ Queue.is_worker c = true.
Proof.
  intros Hm i (c & Hi & Hc). assert (map Queue.is_worker l' !! i = Some true) as Hx.
  { rewrite Hm, list_lookup_fmap, Hi. cbn. by rewrite Hc. }
  rewrite list_lookup_fmap in Hx. destruct (l' !! i) as [c'|]; [|done]. exists c'. by injection Hx.
Qed.
Lemma insert_worker (l : list Queue.pc) i c c' : l !! i = Some c -> Queue.is_worker c' = Queue.is_worker c ->
  map Queue.is_worker (<[i := c']> l) = map Queue.is_worker l.
Proof.
  intros Hi Hc. change (Queue.is_worker <$> <[i := c']> l = Queue.is_worker <$> l). rewrite list_fmap_insert.
  apply list_insert_id. rewrite list_lookup_fmap, Hi. cbn. by rewrite Hc.
Qed.

Lemma timeout_worker c : forall c', Queue.timeout c = Some c' -> Queue.is_worker c' = Queue.is_worker c.
Proof.
  induction c as [| | |t b|t b| | |dead k IH| | | | | | |]; intros c'; cbn [Queue.timeout]; try done; [by intros [= <-]..|].
  destruct (Queue.timeout k) as [k'|]; [|done]. intros [= <-]. cbn. by apply IH.
Qed.

Lemma placed_step s s' : Queue.step s s' -> placed s -> placed s'.
Proof.
  intros Hs Hp i Hi. specialize (Hp i Hi). destruct Hs as [s t|s _|s j c n1 n2 n3 tick p' c' w es ths Hj Hr Hw|s j c c' Hj Ht];
    cbn [Queue.threads].
  - destruct Hp as (c & Hc & ?). exists c. split; [by apply lookup_app_l_Some|done].
  - destruct Hp as (c & Hc & ?). exists c. split; [by apply lookup_app_l_Some|done].
  - revert Hp. apply placed_map. rewrite (Queue.wakes_map _ _ _ _ Queue.wake_worker Hw).
    eapply insert_worker; [done|]. by eapply Queue.run_worker.
  - revert Hp. apply placed_map. rewrite map_map, (map_ext _ _ Queue.wake_worker).
    eapply insert_worker; [done|by apply timeout_worker].
Qed.

Lemma placed_reachable p s : Queue.reachable workers p s -> placed s.
Proof.
  intros Hr. refine (rtc_ind_r placed _ _ _ _ Hr).
  - intros [|i] Hi; [lia|]. exists Queue.WPop. split; [|done]. cbn. apply lookup_replicate_2. lia.
  - intros s1 s2 _ Hs. by apply placed_step.
Qed.

(** So a pool whose workers have returned has no task left in its queue. *)
Lemma returned_empty p n : (0 < workers)%nat -> Queue.reachable workers p (pool n) -> Queue.inv workers (pool n) ->
  returned workers n -> Queue.q (Queue.pool (pool n)) = [].
Proof.
  intros Hw Hr Hinv Hret. destruct (placed_reachable _ _ Hr 1%nat ltac:(lia)) as (c & Hc & Hwk).
  destruct (Hret 1%nat ltac:(lia)) as (_ & c' & Hc' & Hf). rewrite Hc in Hc'. injection Hc' as <-.
  destruct (Forall_lookup_1 _ _ _ _ (Queue.inv_threads _ _ Hinv) Hc) as (_ & Hex & _). apply Hex.
  by destruct c as [| | | | | | | | | | | | | |[]].
Qed.

Definition stopped_at_exit (n : node) : Prop := stage n = Exited -> Sink.loop (sink n) = Sink.Stopped.
Lemma stopped_step n n' : step n n' -> stopped_at_exit n -> stopped_at_exit n'.
Proof.
  unfold stopped_at_exit. destruct 1 as [n m panic _|n i c now1 now2 now3 tick p' c' w es ths outs _ _ _ _ _|n i c c' _ _
    |n j o e es ts _|n l y Hs _ _|n _ _|n _ _|n _ Hx]; cbn [stage sink]; try done.
  - by destruct (sink_after_loop (recorded ts e) (sink n)) as [-> _].
  - intros Hx E. eapply Sink.stopped_stays; [done|by apply Hx].
Qed.

(** C12: The audit survives the shutdown. [run] closes the sink only when the
    workers of the pool have returned from their last calls, and every task
    that was queued has been given to the handler. When [run] returns, all
    that was audited until then has left the sink, in order: each event was
    sent, to its own subject and in order, or was among the oldest beyond
    50000 that were dropped and counted. *)
Theorem audit_survives d reserveMS minBudgetMS full n1 n2 n3 :
  reachable (Queue.New d reserveMS minBudgetMS full) n1 -> (0 < workers)%nat ->
  stage n1 = Draining -> step n1 n2 -> stage n2 = Flushing -> rtc step n2 n3 -> stage n3 = Exited ->
  returned workers n1 /\ Queue.q (Queue.pool (pool n1)) = []
  /\ (exists more, map snd (Sink.left_list (history n3)) = audits (executed n1) ++ more)
  /\ (forall s, Sink.sent_to s (Sink.sent (history n3)) = Sink.for_subject s (Sink.taken (history n3)))
  /\ Sink.taken (history n3) = map snd (List.filter fst (Sink.left_list (history n3)))
  /\ Sink.dropped (Sink.sk (sink n3)) = u64 (Z.of_nat (length (Sink.lost (history n3)))).
Proof.
  intros Hr Hw Hst Hs Hst2 H23 Hex. destruct (reachable_parts _ _ Hr) as [Hq _].
  pose proof (Queue.inv_reachable _ _ _ _ _ _ Hq) as Hinv. destruct (reachable_inv _ _ Hr) as (_ & Ha & Ho & Ho2).
  pose proof (rtc_r _ _ _ Hr Hs) as Hr2.
  assert (returned workers n1 /\ left_behind (audits (executed n1)) n2 /\ stopped_at_exit n2) as (Hret & Hleft & Hsx).
  { destruct Hs; cbn [stage] in *; try congruence. split; [done|]. split; [|by intros E; cbn in E].
    split; cbn [history sink Sink.loop]; [by rewrite Ha|]. intros E.
    rewrite E in Ho2. cbn in Ho2. rewrite Ho in Ho2 by auto. by specialize (Ho2 eq_refl). }
  assert (reachable (Queue.New d reserveMS minBudgetMS full) n3
    /\ left_behind (audits (executed n1)) n3 /\ stopped_at_exit n3) as (Hr3 & Hleft3 & Hsx3).
  { clear -H23 Hr2 Hleft Hsx Hfallback. induction H23 as [n|n2 n4 n3 H24 _ IH]; [done|]. apply IH.
    - by eapply rtc_r.
    - eapply left_behind_step; [|exact H24|done]. by destruct (reachable_parts _ _ (rtc_r _ _ _ Hr2 H24)).
    - by eapply stopped_step. }
  destruct (reachable_parts _ _ Hr3) as [_ Hsr]. pose proof (Sink.runs_ok [] _ _ _ Sink.start_ok Hsr) as Hok. cbn [app] in Hok.
  destruct Hleft3 as [_ Hl]. specialize (Hsx3 Hex). specialize (Hl Hsx3). split_and!; [done|by eapply returned_empty| | |apply Hok|apply Hok].
  - destruct Hl as [more ->]. by exists more.
  - intros s. pose proof (Sink.ro_sent _ _ Hok s) as Hsent. rewrite Hsx3 in Hsent. by rewrite app_nil_r in Hsent.
Qed.
End node.

(** ** Witnesses *)

Section example.
#[local] Existing Instance ascii_only.

Definition ex_request : Request :=
  MkRequest 2 "ab12" "" "request" 0 "ip" 50 (Some "waf.audit.ip") "" (MkConn "192.0.2.1" 1 "" 443 None)
    (MkHTTP "GET" "https" "h" "/" 0 "1.1") ∅ [] (MkStore None None None) (MkRoute "" "" "")
    (MkScore 0 0) [] None.
Definition ex_unmarshal (payload : string) : result error Request := Ok ex_request.
Definition ex_json (e : Events.Event Z) : option string := Some "event".
Definition ex_pool : Queue.Pool := Queue.New 1 0 0 Queue.FullWait.
Definition ex_order : list string := [NeedHeaders; NeedArgs; NeedBody].
Definition ex_exec : node -> list choice -> option node :=
  exec Handler.ex_cfg ex_unmarshal ex_order Handler.ex_marshal format (fun _ => false) Handler.ex_geo ex_json 1.
Definition anything (snap : option Store.Snapshot) (live : option Mirror.store) : Prop := True.
Abbreviation ex_step := (step Handler.ex_cfg ex_unmarshal ex_order Handler.ex_marshal format (fun _ => false)
  Handler.ex_geo ex_json 1 false anything).
Definition run1 (i : nat) : choice := ARun i 0 false 9 None.
(** A message becomes a task. *)
Definition ex_begin : list choice := [AReceive (MkMsg "inbox" "ok"); AEffect 0 "t0"].
(** The task is queued and handled, its answer and its record leave. *)
Definition ex_served : list choice := ex_begin ++ [run1 2; run1 2; run1 2; run1 1; run1 1; AEffect 1 "t1"; AEffect 1 "t2"].
(** The pool is closed and its threads return. *)
Definition ex_drained : list choice := ex_served ++ [ASignal; run1 3; run1 1; run1 0].
Definition ex_flush : list choice := [ASink Sink.MStop; ASink Sink.MFlush; ASink Sink.MPublish; ASink Sink.MFlush; AExit].
Definition ex_run (n : node) (l : list choice) : node := default n (ex_exec n l).
Definition ex_runs (n : node) (l : list choice) : bool := Queue.is_some (ex_exec n l).

Lemma ex_run_steps n l : ex_runs n l = true -> rtc ex_step n (ex_run n l).
Proof.
  unfold ex_runs, ex_run, ex_exec. intros Hr. destruct (exec _ _ _ _ _ _ _ _ _ n l) as [n'|] eqn:E; [|done].
  eapply schedule_sound; [|done]. apply Forall_true. by intros [].
Qed.

(** A message whose task is on its way when the pool is closed. *)
Definition ex_late : node := ex_run (start 1 ex_pool) (ex_begin ++ [ASignal; run1 3]).
Lemma every_request_answered_witness :
  asked (received ex_late) = ["inbox"]
  /\ ["inbox"] ≡ₚ settled (executed ex_late) ++ owed (ahead (calls ex_late))
       ++ replies (Queue.q (Queue.pool (pool ex_late))) ++ replies (held ex_late)
  /\ Acc (flip (work Handler.ex_cfg Handler.ex_marshal format (fun _ => false) Handler.ex_geo ex_json false anything)) ex_late.
Proof.
  destruct (every_request_answered Handler.ex_cfg ex_unmarshal ex_order Handler.ex_marshal format (fun _ => false)
    Handler.ex_geo ex_json 1 false anything (fun _ _ _ => ex_intro _ _ eq_refl) (ex_intro _ None (ex_intro _ None I))
    1 0 0 Queue.FullWait ex_late) as [Hb Hc].
  - apply ex_run_steps. vm_compute. reflexivity.
  - apply le_n.
  - split; [vm_compute; reflexivity|]. split; [exact Hb|].
    apply Hc; vm_compute; reflexivity.
Defined.

Definition ex_before : node := ex_run (start 1 ex_pool) ex_drained.
Definition ex_closed : node := ex_run ex_before [AFlush].
Definition ex_exited : node := ex_run ex_closed ex_flush.
Lemma audit_survives_witness :
  audits ex_json (executed ex_before) = [Sink.MkItem "waf.audit.ip" "event"]
  /\ exists more, map snd (Sink.left_list (history ex_exited)) = audits ex_json (executed ex_before) ++ more.
Proof.
  split; [vm_compute; reflexivity|].
  refine (proj1 (proj2 (proj2 (audit_survives Handler.ex_cfg ex_unmarshal ex_order Handler.ex_marshal format
    (fun _ => false) Handler.ex_geo ex_json 1 false anything (fun _ _ _ => ex_intro _ _ eq_refl) 1 0 0 Queue.FullWait
    ex_before ex_closed ex_exited _ _ _ _ _ _ _)))).
  - apply ex_run_steps. vm_compute. reflexivity.
  - apply le_n.
  - vm_compute. reflexivity.
  - eapply (exec1_sound Handler.ex_cfg ex_unmarshal ex_order Handler.ex_marshal format (fun _ => false) Handler.ex_geo
      ex_json 1 false anything ex_before AFlush _ I). vm_compute. reflexivity.
  - vm_compute. reflexivity.
  - apply ex_run_steps. vm_compute. reflexivity.
  - vm_compute. reflexivity.
Defined.
End example.
End Node.
