(* ===== verification/Reloads.v ===== *)
(** * Reloads that run at once

    [internal/store/store.go] without a lock: the ticker of [Watch], a
    [SIGHUP] and a generation that is applied may all reload at the same time,
    and share only three atomic variables. Here a reload stops before each use
    of one of them and before it looks at the disk. What it sees of the disk
    is arbitrary at each look, so a tree that is swapped in the meantime, or
    half of it, is among what it may see. *)

From S2P Require Import Prelude GoStrings Protocol Files Policy Store.

#[local] Open Scope Z_scope.

Module Reloads.
Import Files Store.

(** The variables of the store; [issued] is ghost: every snapshot that was
    ever built, in order. *)
Record vars : Type := MkVars { v_paths : Paths; v_cur : option Snapshot; v_gen : Z; issued : list Snapshot }.

(** Where a call of [Reload], or of [ReloadFrom] a pair of paths, is. *)
Inductive pc : Type :=
| Begin (to : option Paths)                              (* about to load the paths *)
| Print (to : option Paths) (p : Paths)                  (* about to take the fingerprint *)
| Compare (to : option Paths) (p : Paths) (fp : string)  (* about to compare it with the current one *)
| Again (to : option Paths) (p : Paths)                  (* in build, about to take it again *)
| Read (to : option Paths) (p : Paths) (fp : string)     (* about to read the files *)
| Check_ (to : option Paths) (p : Paths) (snap : Snapshot)   (* about to compare once more *)
| Swap (to : option Paths) (p : Paths) (snap : Snapshot)    (* about to store the snapshot *)
| Keep (p : Paths) (changed : bool)                      (* ReloadFrom, about to store the paths *)
| Done (r : result error bool).

Section reloads.
Context `{UnicodeLower}.
Context (ysets : string -> result error (list (string * Policy.fileSet))).
Context (yprofile : string -> result error Policy.fileProfile).
Context (ylive : string -> result error (list (string * string))).

Definition succeed (to : option Paths) (p : Paths) (changed : bool) : pc :=
  match to with Some _ => Keep p changed | None => Done (Ok changed) end.
Definition same_as (cur : option Snapshot) (fp : string) : bool :=
  match cur with Some c => String.eqb (Fingerprint c) fp | None => false end.

(** The next section of a reload, with what it sees of the disk and the time. *)
Definition run (view : disk) (now : Z) (s : vars) (c : pc) : option (vars * pc) :=
  match c with
  | Begin to => Some (s, Print to (default (v_paths s) to))
  | Print to p =>
      match fingerprint view p with
      | Err e => Some (s, Done (Err e))
      | Ok fp => Some (s, Compare to p fp)
      end
  | Compare to p fp => Some (s, if same_as (v_cur s) fp then succeed to p false else Again to p)
  | Again to p =>
      match fingerprint view p with
      | Err e => Some (s, Done (Err e))
      | Ok fp => Some (s, Read to p fp)
      end
  | Read to p fp =>
      match assemble ysets yprofile ylive view now p (v_gen s) fp with
      | Err e => Some (s, Done (Err e))
      | Ok snap => Some (MkVars (v_paths s) (v_cur s) (Gen snap) (issued s ++ [snap]), Check_ to p snap)
      end
  | Check_ to p snap =>
      Some (s, if same_as (v_cur s) (Fingerprint snap) then succeed to p false else Swap to p snap)
  | Swap to p snap => Some (MkVars (v_paths s) (Some snap) (v_gen s) (issued s), succeed to p true)
  | Keep p changed => Some (MkVars p (v_cur s) (v_gen s) (issued s), Done (Ok changed))
  | Done _ => None
  end.

Record sys : Type := MkSys { vars_of : vars; threads : list pc }.
Inductive step : sys -> sys -> Prop :=
| step_call s to : step s (MkSys (vars_of s) (threads s ++ [Begin to]))
| step_run s i c view now v' c' :
    threads s !! i = Some c -> run view now (vars_of s) c = Some (v', c') ->
    step s (MkSys v' (<[i := c']> (threads s))).

(** What [Load] leaves. *)
Definition start (st : store) : sys :=
  MkSys (MkVars (paths st) (cur st) (gen st) (match cur st with Some c => [c] | None => [] end)) [].

(** ** What holds in any interleaving *)

(** A snapshot that was read whole: some paths, some look at the disk. *)
Definition whole (snap : Snapshot) : Prop :=
  exists view now p g fp, assemble ysets yprofile ylive view now p g fp = Ok snap.

Definition in_hand (c : pc) : option Snapshot :=
  match c with Check_ _ _ snap | Swap _ _ snap => Some snap | _ => None end.
(** The paths that a call may leave behind. *)
Definition aims (c : pc) (p : Paths) : Prop :=
  match c with
  | Begin (Some q) => p = q
  | Print (Some _) q | Compare (Some _) q _ | Again (Some _) q | Read (Some _) q _
  | Check_ (Some _) q _ | Swap (Some _) q _ | Keep q _ => p = q
  | _ => False
  end.

Record inv (s : sys) : Prop := {
  inv_cur : exists snap, v_cur (vars_of s) = Some snap /\ snap ∈ issued (vars_of s);
  inv_whole : Forall whole (issued (vars_of s));
  inv_hand : forall c snap, c ∈ threads s -> in_hand c = Some snap -> snap ∈ issued (vars_of s);
  inv_gens : forall i snap, issued (vars_of s) !! i = Some snap -> Gen snap = u64 (Z.of_nat i + 1);
  inv_gen : v_gen (vars_of s) = u64 (Z.of_nat (length (issued (vars_of s)))) }.

Lemma load_inv d now p st : Load ysets yprofile ylive d now p = Ok st -> inv (start st).
Proof.
  unfold Load. intros (snap & Eb & E)%result_bind_ok. injection E as <-.
  destruct (build_built _ _ _ _ _ _ _ _ Eb) as (_ & Hg & _).
  split; cbn [start vars_of threads v_cur v_gen issued cur gen].
  - exists snap. split; [done|by left].
  - apply Forall_singleton. unfold build in Eb. apply result_bind_ok in Eb as (fp & _ & Eb). by exists d, now, p, 0, fp.
  - intros c x Hc. by apply elem_of_nil in Hc.
  - intros [|i] x Hx; [|done]. by injection Hx as <-.
  - done.
Qed.

Lemma run_issued view now v c v' c' : run view now v c = Some (v', c') ->
  (exists more, issued v' = issued v ++ more)
  /\ (v_cur v' = v_cur v \/ (exists snap, in_hand c = Some snap /\ v_cur v' = Some snap))
  /\ (forall snap, in_hand c' = Some snap -> in_hand c = Some snap \/ snap ∈ issued v').
Proof.
  assert (forall to p b, in_hand (succeed to p b) = None) as Hs by (by intros []).
  assert (exists more, issued v = issued v ++ more) as Hv by (exists []; by rewrite app_nil_r).
  destruct c; cbn [run]; go_cases.
  all: intros [= <- <-]; split_and!; eauto; cbn [in_hand]; try (by rewrite ?Hs); try done.
  all: intros x; try (destruct (same_as _ _)); rewrite ?Hs; cbn [in_hand]; try done; auto.
  intros [= <-]. right. cbn [issued]. apply elem_of_app. right. by left.
Qed.

Lemma run_gens view now v c v' c' : run view now v c = Some (v', c') ->
  (issued v' = issued v /\ v_gen v' = v_gen v)
  \/ exists snap, issued v' = issued v ++ [snap] /\ v_gen v' = Gen snap /\ Gen snap = u64 (v_gen v + 1) /\ whole snap.
Proof.
  destruct c; cbn [run]; go_cases; intros [= <- <-]; auto. right.
  match goal with Ha : assemble _ _ _ _ _ _ _ _ = Ok ?snap |- _ =>
    exists snap; destruct (assemble_built _ _ _ _ _ _ _ _ _ Ha) as (_ & Hg & _) end.
  split_and!; [done..|]. unfold whole. eauto 10.
Qed.

Lemma u64_succ a : u64 (u64 a + 1) = u64 (a + 1).
Proof. unfold wrap. by rewrite Zplus_mod_idemp_l. Qed.

Lemma inv_step s s' : step s s' -> inv s -> inv s'.
Proof.
  destruct 1 as [s to|s i c view now v' c' Hi Hr]; intros [(cu & Hc & Hci) Hw Hh Hg Hn].
  - split; cbn [vars_of threads]; try done; [by exists cu|].
    intros c snap [Hx| ->%list_elem_of_singleton]%elem_of_app; [by apply Hh|done].
  - destruct (run_issued _ _ _ _ _ _ Hr) as ((more & Em) & Hcur & Hhand).
    assert (c ∈ threads s) as Hin by (by eapply list_elem_of_lookup_2).
    assert (forall x, x ∈ issued (vars_of s) -> x ∈ issued v') as Hsub by (intros x Hx; rewrite Em; apply elem_of_app; by left).
    split; cbn [vars_of threads].
    + destruct Hcur as [-> | (x & Hx & ->)]; [exists cu; auto|]. exists x. split; [done|]. apply Hsub. by eapply Hh.
    + destruct (run_gens _ _ _ _ _ _ Hr) as [[-> _]|(x & -> & _ & _ & Hx)]; [done|].
      apply Forall_app_2; [done|by apply Forall_singleton].
    + intros d x Hd Hx. apply list_elem_of_lookup in Hd as (j & Hj). apply list_lookup_insert_Some in Hj as [(<- & <- & _)|[_ Hj]].
      * destruct (Hhand x Hx) as [Hold|]; [|done]. apply Hsub. by eapply Hh.
      * apply Hsub. eapply Hh; [by eapply list_elem_of_lookup_2|done].
    + destruct (run_gens _ _ _ _ _ _ Hr) as [[-> _]|(x & -> & _ & Egen & _)]; [done|].
      intros j y [Hj|[Hle Hj]]%lookup_app_Some; [by apply Hg|].
      apply list_lookup_singleton_Some in Hj as [Hj <-]. rewrite Egen, Hn, u64_succ. do 2 f_equal. lia.
    + destruct (run_gens _ _ _ _ _ _ Hr) as [[-> ->]|(x & -> & -> & -> & _)]; [done|].
      rewrite Hn, u64_succ, length_app. cbn [length]. f_equal. lia.
Qed.

(** ** A reload that runs alone *)

Fixpoint alone (fuel : nat) (view : disk) (now : Z) (v : vars) (c : pc) : vars * pc :=
  match fuel with
  | O => (v, c)
  | S fuel => match run view now v c with Some (v', c') => alone fuel view now v' c' | None => (v, c) end
  end.
(** No call has more than seven sections. *)
Definition sections : nat := 7.

Definition store_of (v : vars) : store := MkStore (v_paths v) (v_cur v) (v_gen v).

(** It is the function of [Store]. *)
Lemma alone_reload view now v :
  let '(v', c) := alone sections view now v (Begin None) in
  exists r, c = Done r /\ reload ysets yprofile ylive view view now (v_paths v) (store_of v) = (r, store_of v').
Proof.
  unfold sections. cbn [alone run default]. unfold reload, build, same_fingerprint, same_as, store_of. cbn [cur gen paths].
  destruct (fingerprint view (v_paths v)) as [fp|e] eqn:Ef; cbn [alone run]; [|by eexists].
  unfold same_as. destruct (match v_cur v with Some c => String.eqb (Fingerprint c) fp | None => false end) eqn:Es;
    cbn [alone run succeed]; [by eexists|]. rewrite Ef. cbn [alone run mbind result_bind].
  destruct (assemble _ _ _ view now (v_paths v) (v_gen v) fp) as [snap|e] eqn:Ea; cbn [alone run]; [|by eexists].
  destruct (assemble_built _ _ _ _ _ _ _ _ _ Ea) as (_ & _ & ->). unfold same_as. cbn [v_cur]. rewrite Es.
  cbn [alone run succeed v_paths v_gen]. by eexists.
Qed.

(** ** Properties *)

(** C13: Reloads may run at once. However the calls of the ticker, of signals
    and of applied generations interleave, and whatever each sees of a disk
    that is being changed, there is always a current snapshot, and it is one
    that was built whole, with every check passed and a default profile;
    every snapshot that was built has a generation number of its own, up to
    2^64 of them. And a wrong order mends itself: a reload that runs while
    the others rest is the reload of the store, so when it succeeds the
    current snapshot has the fingerprint of the files the store points to. *)
Theorem reloads_concurrent d0 now0 p0 st s :
  Load ysets yprofile ylive d0 now0 p0 = Ok st -> rtc step (start st) s ->
  let v := vars_of s in
  (exists snap, v_cur v = Some snap /\ whole snap /\ is_Some (Profiles snap !! Policy.DefaultName))
  /\ (Z.of_nat (length (issued v)) < 2 ^ 64 -> forall i j a b,
        issued v !! i = Some a -> issued v !! j = Some b -> Gen a = Gen b -> i = j)
  /\ forall view now, let '(v', c) := alone sections view now v (Begin None) in
       exists r, c = Done r /\ reload ysets yprofile ylive view view now (v_paths v) (store_of v) = (r, store_of v')
         /\ (is_ok r = true -> exists snap, v_cur v' = Some snap /\ fingerprint view (v_paths v) = Ok (Fingerprint snap)).
Proof.
  intros Hl Hr. cbv zeta.
  assert (inv s) as [(snap & Hc & Hin) Hw _ Hg _].
  { refine (rtc_ind_r inv _ _ _ _ Hr); [by eapply load_inv|]. intros s1 s2 _ Hs. by apply inv_step. }
  split_and!.
  - exists snap. rewrite Forall_forall in Hw. split_and!; [done|by apply Hw|].
    destruct (Hw _ Hin) as (view & now & p & g & fp & Ha).
    destruct (assemble_built _ _ _ _ _ _ _ _ _ Ha) as ((dcl & sp & ls & asn & _ & Hb) & _). apply Hb.
  - intros Hlen i j a b Ha Hb E. pose proof (lookup_lt_Some _ _ _ Ha). pose proof (lookup_lt_Some _ _ _ Hb).
    rewrite (Hg _ _ Ha), (Hg _ _ Hb) in E. unfold wrap in E.
    destruct (decide (Z.of_nat i + 1 = 2 ^ 64)) as [Ei|Ei], (decide (Z.of_nat j + 1 = 2 ^ 64)) as [Ej|Ej]; try lia.
    rewrite !Z.mod_small in E by lia. lia.
  - intros view now. pose proof (alone_reload view now (vars_of s)) as Ha.
    destruct (alone sections view now (vars_of s) (Begin None)) as [v' c]. destruct Ha as (r & -> & Er).
    exists r. split_and!; [done|done|]. destruct r as [b|e]; [intros _|done].
    destruct (reload_fingerprint _ _ _ _ _ _ _ _ _ Er) as (c & Hcur & Hfp). by exists c.
Qed.
End reloads.

(** ** Running a schedule *)

Inductive choice : Type :=
| ACall (to : option Paths)
| ARun (i : nat) (view : disk).

Section example.
#[local] Existing Instance ascii_only.

Abbreviation ex_step := (step ex_sets ex_profile ex_live).
Definition exec1 (s : sys) (a : choice) : option sys :=
  match a with
  | ACall to => Some (MkSys (vars_of s) (threads s ++ [Begin to]))
  | ARun i view =>
      c ← threads s !! i;
      '(v', c') ← run ex_sets ex_profile ex_live view 0 (vars_of s) c;
      Some (MkSys v' (<[i := c']> (threads s)))
  end.
Fixpoint exec (s : sys) (l : list choice) : option sys :=
  match l with
  | [] => Some s
  | a :: l => match exec1 s a with Some s' => exec s' l | None => None end
  end.
Lemma moves_sound : forall l s s', exec s l = Some s' -> rtc ex_step s s'.
Proof.
  induction l as [|a l IH]; intros s s' E; cbn [exec] in E; [by injection E as <-|].
  destruct (exec1 s a) as [s1|] eqn:Ea; [|done]. eapply rtc_l; [|by apply IH].
  destruct a as [to|i view]; cbn [exec1] in Ea; [injection Ea as <-; constructor|].
  apply bind_Some in Ea as (c & Hc & Ea). apply bind_Some in Ea as ([v' c'] & Hr & [= <-]). by eapply step_run.
Qed.

(** The configured tree before its geo directory was filled, and a second tree
    that is applied. *)
Definition ex_before : disk := fun path => if String.eqb path "/g" then Some (Dir (Some [])) else ex_disk path.
Definition ex_after : disk := fun path =>
  match path with
  | String "/" (String "q" rest) => ex_disk ("/p" +:+ rest)
  | _ => ex_disk path
  end.
Definition ex_store : store :=
  match Load ex_sets ex_profile ex_live ex_before 0 ex_paths with Ok st => st | Err _ => MkStore ex_paths None 0 end.
Definition ex_tree : Paths := MkPaths "/q" "/g".
(** The ticker reads the configured tree, the second tree is applied, the
    ticker goes on. *)
Definition ex_schedule : list choice :=
  [ACall None; ACall (Some ex_tree)] ++ repeat (ARun 0 ex_after) 6 ++ repeat (ARun 1 ex_after) 8 ++ [ARun 0 ex_after].
Definition ex_end : option sys := exec (start ex_store) ex_schedule.
Definition gens_of (s : sys) : option Z * list Z := (option_map Gen (v_cur (vars_of s)), map Gen (issued (vars_of s))).

(** A reload can put an older snapshot over a newer one: both calls succeed,
    the store points to the applied tree, and serves the one before it. *)
Theorem stale_swap :
  exists s, rtc ex_step (start ex_store) s
    /\ threads s = [Done (Ok true); Done (Ok true)] /\ v_paths (vars_of s) = ex_tree
    /\ gens_of s = (Some 2, [1; 2; 3]).
Proof.
  assert (option_map (fun s => (threads s, v_paths (vars_of s), gens_of s)) ex_end
    = Some ([Done (Ok true); Done (Ok true)], ex_tree, (Some 2, [1; 2; 3]))) as Hend by (vm_compute; reflexivity).
  destruct ex_end as [s|] eqn:E; [|discriminate Hend]. injection Hend as Ht Hp Hg Hi. exists s.
  split; [exact (moves_sound _ _ _ E)|]. split; [exact Ht|]. split; [exact Hp|]. unfold gens_of. by rewrite Hg, Hi.
Qed.

Lemma ex_store_load : Load ex_sets ex_profile ex_live ex_before 0 ex_paths = Ok ex_store.
Proof.
  unfold ex_store. assert (is_ok (Load ex_sets ex_profile ex_live ex_before 0 ex_paths) = true) as H by (by vm_compute).
  by destruct (Load _ _ _ _ _ _).
Qed.

Lemma reloads_concurrent_witness :
  exists s snap, rtc ex_step (start ex_store) s /\ threads s = [Begin None]
    /\ v_cur (vars_of s) = Some snap /\ is_Some (Profiles snap !! "default").
Proof.
  set (s := MkSys (vars_of (start ex_store)) [Begin None]).
  assert (rtc ex_step (start ex_store) s) as Hr by (eapply rtc_l; [apply step_call|apply rtc_refl]).
  destruct (reloads_concurrent (H := ascii_only) _ _ _ _ _ _ _ _ ex_store_load Hr) as ((snap & Hc & _ & Hd) & _).
  exists s, snap. split; [exact Hr|]. split; [reflexivity|]. split; [exact Hc|exact Hd].
Defined.
End example.

End Reloads.
