(* ===== verification/System.v ===== *)
(** * The whole program

    What [run] of [cmd/ip/main.go] starts, all of it at once: the node of
    [Node] (handler, pool, audit), the policy of [Reloads] with its ticker,
    signals and applied generations, and the live sets of [Mirrors], three
    parts that share nothing but what a call of the handler reads when it
    begins - the current snapshot and the live sets. [answers_justified] says
    where every answer that was ever sent comes from. *)

From S2P Require Import Prelude GoStrings NetIP Files Protocol Policy Composition Mirror Mirrors Live Store Events Decide Queue Config Handler Sink Served Node Reloads.

#[local] Open Scope Z_scope.

Module System.
Import Protocol Handler Served.

Record system : Type := MkSystem { node : Node.node; policy : Reloads.sys; mirrors : option Mirror.store }.

Section system.
Context `{UnicodeLower}.
Context (cfg : Config.Config) (unmarshal : string -> result error Request) (order : list string).
Context (marshal : Reply -> option string) (Error : error -> string) {W : Type} (Networked : string -> bool).
Context (geo : string -> string -> W -> result error (list string) * W).
Context (event_json : Events.Event Z -> option string) (workers : nat) (panics : bool).
Context (ysets : string -> result error (list (string * Policy.fileSet))).
Context (yprofile : string -> result error Policy.fileProfile).
Context (ylive : string -> result error (list (string * string))).
(** What NATS and Redis answer to the handlers of a live set, and the frames
    that the bus may deliver to it. *)
Context {V : Type} (env : string -> Mirror.Env V) (sent : string -> Mirror.frame -> Prop).

(** A call of the handler finds the current snapshot and the live sets. *)
Definition sees (s : system) (snap : option Store.Snapshot) (live : option Mirror.store) : Prop :=
  snap = Reloads.v_cur (Reloads.vars_of (policy s)) /\ live = mirrors s.

Abbreviation node_step := (Node.step cfg unmarshal order marshal Error Networked geo event_json workers panics).
Abbreviation receive := (receive cfg unmarshal order marshal).

Inductive step : system -> system -> Prop :=
| step_node s n : node_step (sees s) (node s) n -> step s (MkSystem n (policy s) (mirrors s))
| step_policy s p : Reloads.step ysets yprofile ylive (policy s) p -> step s (MkSystem (node s) p (mirrors s))
| step_mirror s st st' : mirrors s = Some st -> Mirrors.step env sent st st' ->
    step s (MkSystem (node s) (policy s) (Some st')).

Definition start (p : Queue.Pool) (st : Store.store) (live : option Mirror.store) : system :=
  MkSystem (Node.start workers p) (Reloads.start st) live.

(** ** Its parts run as they do alone *)

Definition any (snap : option Store.Snapshot) (live : option Mirror.store) : Prop := True.

Lemma node_step_any sees' n n' : node_step sees' n n' -> node_step any n n'.
Proof.
  destruct 1 as [n m panic Hp|n i c now1 now2 now3 tick p' c' w es ths outs Hi Hb Hr Hw Ho|n i c c' Hi Ht|n j o e es ts Hj
    |n l y Hs Ha He|n Hst Hs|n Hst Hr|n Hst Hl].
  - by apply Node.step_receive.
  - eapply Node.step_run; try done. eapply Forall2_impl; [exact Ho|]. unfold Node.evaluates.
    intros x out (panic & elapsed & live & nc & now & snap & w0 & ? & _ & ->).
    by exists panic, elapsed, live, nc, now, snap, w0.
  - by eapply Node.step_timer.
  - by apply Node.step_effect.
  - by apply Node.step_sink.
  - by apply Node.step_signal.
  - by apply Node.step_flush.
  - by apply Node.step_exit.
Qed.

Lemma node_part s s' : rtc step s s' -> rtc (node_step any) (node s) (node s').
Proof.
  induction 1 as [s|s1 s2 s3 [s n Hn|s p _|s st st' _ _] _ IH]; [done| |exact IH|exact IH].
  eapply rtc_l; [by eapply node_step_any|exact IH].
Qed.
Lemma policy_part s s' : rtc step s s' -> rtc (Reloads.step ysets yprofile ylive) (policy s) (policy s').
Proof. induction 1 as [s|s1 s2 s3 [s n _|s p Hp|s st st' _ _] _ IH]; [done|exact IH|by eapply rtc_l|exact IH]. Qed.
Lemma mirror_part s s' : rtc step s s' ->
  match mirrors s, mirrors s' with
  | Some st, Some st' => rtc (Mirrors.step env sent) st st'
  | None, None => True
  | _, _ => False
  end.
Proof.
  induction 1 as [s|s1 s2 s3 [s n _|s p _|s st st' Hst Hs] _ IH]; [by destruct (mirrors s)|exact IH|exact IH|].
  rewrite Hst. cbn [mirrors] in IH. destruct (mirrors s3); [|done]. by eapply rtc_l.
Qed.

Lemma received_step sees' n n' : node_step sees' n n' -> forall m, m ∈ Node.received n -> m ∈ Node.received n'.
Proof. destruct 1; intros k Hk; cbn [Node.received]; try done. apply elem_of_app. by left. Qed.

(** ** Where an effect comes from *)

(** A message that becomes a task. *)
Definition accepted (m : msg) (req : Request) : Prop :=
  Protocol.Parse unmarshal order (m_Data m) = Ok req /\ Config.Supports cfg (req_V req) = true
  /\ req_Phase req = PhaseRequest.
(** What the pool hands back when a message has become a task: the task, the
    time that is left, and why it was shed, if it was. *)
Record handing : Type := MkHanding { task : Queue.Task; budget : Z; shed : string }.
Definition for_message (x : handing) (m : msg) (req : Request) : Prop :=
  Queue.Req (task x) = req /\ Queue.Reply (task x) = m_Reply m.
(** The call of the handler for it, made at a moment. *)
Record calling : Type := MkCalling { panic : option nat; elapsed : Z; nc : bool; now : Z; world : W }.
Definition effects (s : system) (x : handing) (c : calling) : list effect :=
  (evaluate cfg marshal Error Networked geo (mirrors s) (nc c) (now c) (Reloads.v_cur (Reloads.vars_of (policy s)))
     (panic c) (task x) (budget x) (shed x) (elapsed c) (world c)).1.

(** An effect comes from a message that was received, at once, or by way of
    its task from a call that was made at a moment [s0] of the run. *)
Inductive origin (from s : system) (e : effect) : Prop :=
| at_once m p : m ∈ Node.received (node s) -> Node.may_panic panics p -> e ∈ receive p m -> origin from s e
| by_task m req s0 x c :
    rtc step from s0 -> rtc step s0 s -> m ∈ Node.received (node s0) -> accepted m req -> for_message x m req ->
    Node.may_panic panics (panic c) -> e ∈ effects s0 x c -> origin from s e.

Lemma origin_step from s s' e : step s s' -> origin from s e -> origin from s' e.
Proof.
  intros Hs [m p Hm Hp He|m req s0 x c H1 H2 Hm Ha Hx Hp He].
  - eapply at_once; [|done|done]. destruct Hs; [by eapply received_step|done|done].
  - eapply by_task; try done. by eapply rtc_r.
Qed.

(** Every task of the pool was made from a message. *)
Definition made (ms : list msg) (t : Queue.Task) : Prop :=
  exists m req, m ∈ ms /\ accepted m req /\ Queue.message t = (req, m_Reply m).

Lemma made_step sees' n n' t : node_step sees' n n' -> made (Node.received n) t -> made (Node.received n') t.
Proof. intros Hs (m & req & Hm & Hr). exists m, req. split; [by eapply received_step|done]. Qed.

Lemma submit_accepted p m t : Submit t ∈ receive p m -> exists req, accepted m req /\ t = Queue.MkTask req (m_Reply m) 0 0.
Proof.
  assert (forall s reply req det, Submit t ∉ send marshal s reply req det) as Hsend
    by (intros; apply Node.no_submit_elem, Node.send_no_submit).
  assert (Submit t ∈ received cfg unmarshal order marshal m ->
    exists req, accepted m req /\ t = Queue.MkTask req (m_Reply m) 0 0) as Hrec.
  { unfold received. destruct (Protocol.Parse _ _ _) as [req|pe] eqn:Ep; [|by intros ?%Hsend].
    destruct (Config.Supports cfg (req_V req)) eqn:Es; cbn [negb]; [|by intros ?%Hsend].
    destruct (String.eqb_spec (req_Phase req) PhaseRequest) as [Eq|]; cbn [negb]; [|by intros ?%Hsend].
    intros [= ->]%list_elem_of_singleton. by exists req. }
  unfold Handler.receive, recoverInto. destruct p as [k|]; [|done]. intros [Hk|Hk]%elem_of_app.
  - apply Hrec. rewrite <- (take_drop k (received _ _ _ _ m)). apply elem_of_app. by left.
  - destruct (String.eqb _ _); [by apply elem_of_nil in Hk|by apply Hsend in Hk].
Qed.

Lemma effects_no_submit s x c t : Submit t ∉ effects s x c.
Proof. apply Node.no_submit_elem, Node.evaluate_no_submit. Qed.

Lemma effects_subject s x c subject payload : Answer subject payload ∈ effects s x c ->
  subject = Queue.Reply (task x) /\ Queue.Reply (task x) <> "".
Proof. apply evaluate_subject. Qed.

Definition past (n : Node.node) : list effect := map snd (Node.executed n) ++ Node.ahead (Node.calls n).
Record traced (from s : system) : Prop := {
  tr_past : forall e, e ∈ past (node s) -> origin from s e;
  tr_made : Forall (made (Node.received (node s))) (Queue.submitted (Node.pool (node s))) }.

(** A task that is handed to the handler was made from a message. *)
Lemma handed_made n x : Queue.inv workers (Node.pool n) -> Forall (made (Node.received n)) (Queue.submitted (Node.pool n)) ->
  x ∈ Node.handed (Queue.log (Node.pool n)) -> made (Node.received n) x.1.1.
Proof.
  intros Hinv Hm Hx. pose proof (Queue.inv_tasks _ _ Hinv) as Ht. unfold Queue.same_messages in Ht.
  assert (Queue.message x.1.1 ∈ map Queue.message (Queue.submitted (Node.pool n))) as Hin.
  { rewrite Ht, map_app, Node.handed_called. apply elem_of_app. left.
    apply list_elem_of_fmap. exists x.1.1. split; [done|]. apply list_elem_of_fmap. by exists x. }
  apply list_elem_of_fmap in Hin as (t & Et & Hin). rewrite Forall_forall in Hm.
  destruct (Hm t Hin) as (m & req & ? & ? & E). exists m, req. split_and!; [done..|]. by rewrite <- E.
Qed.

Lemma evaluated_origin from s n x out : rtc step from s -> made (Node.received (node s)) x.1.1 ->
  Node.evaluates cfg marshal Error Networked geo panics (sees s) x out ->
  step s (MkSystem n (policy s) (mirrors s)) -> forall e, e ∈ out -> origin from (MkSystem n (policy s) (mirrors s)) e.
Proof.
  destruct x as [[t b] sh]. intros Hf (m & req & Hm & Ha & Et) (p & el & live & nc0 & now0 & snap & w0 & Hp & [-> ->] & ->) Hs e He.
  injection Et as E1 E2. by apply (by_task _ _ _ m req s (MkHanding t b sh) (MkCalling p el nc0 now0 w0)); [|apply rtc_once|..].
Qed.

Lemma traced_node from s n : rtc step from s -> Queue.inv workers (Node.pool n) -> traced from s ->
  node_step (sees s) (node s) n -> traced from (MkSystem n (policy s) (mirrors s)).
Proof.
  intros Hf Hinv [Hpast Hmade] Hn. pose proof (step_node _ _ Hn) as Hs.
  assert (forall e, e ∈ past (node s) -> origin from (MkSystem n (policy s) (mirrors s)) e) as Hold
    by (intros e He; eapply origin_step; [done|by apply Hpast]).
  assert (Forall (made (Node.received n)) (Queue.submitted (Node.pool (node s)))) as Hkeep
    by (eapply Forall_impl; [exact Hmade|]; intros t; by eapply made_step).
  unfold past in Hold, Hpast. remember (sees s) as se eqn:Ese. remember (node s) as k0 eqn:Ek in Hn, Hold, Hpast, Hmade, Hkeep.
  destruct Hn as [k m p Hp|k i c now1 now2 now3 tick p' c' w es ths outs Hi Hb Hr Hw Ho|k i c c' Hi Ht
    |k j o e es ts Hj|k l y Hy Ha He|k Hst Hsg|k Hst Hr|k Hst Hl]; split; cbn [node Node.executed Node.calls Node.pool Queue.submitted]; try done.
  - intros e. unfold past. cbn [node Node.executed Node.calls]. rewrite Node.ahead_app, app_assoc.
    intros [He|He]%elem_of_app; [by apply Hold|]. unfold Node.ahead in He. cbn in He. rewrite app_nil_r in He.
    apply (at_once _ _ _ m p); [|done|done]. cbn. apply elem_of_app. right. by left.
  - intros e. unfold past. cbn [node Node.executed Node.calls]. rewrite Node.ahead_app, Node.ahead_calls, app_assoc.
    intros [He|He]%elem_of_app; [by apply Hold|]. apply list_elem_of_In, in_concat in He as (out & Hout & He%list_elem_of_In).
    apply list_elem_of_In, list_elem_of_lookup in Hout as (q & Hq). destruct (Forall2_lookup_r _ _ _ _ _ Ho Hq) as (x & Hx & Hev).
    rewrite Ese in Hev. eapply evaluated_origin; [done| |exact Hev|done|done].
    rewrite <- Ek. apply (handed_made _ x Hinv Hkeep). cbn. unfold Node.handed. rewrite omap_app. apply elem_of_app. right.
    by eapply list_elem_of_lookup_2.
  - intros f. unfold past. cbn [node Node.executed Node.calls]. rewrite map_app. cbn [map snd]. intros Hin. apply Hold.
    rewrite (Node.ahead_pop _ _ _ _ _ Hj). by rewrite <- app_assoc in Hin.
  - destruct e as [sub pl|sub ev|rq rp dt|t]; cbn [Node.pool_after Queue.submitted]; try done.
    apply Forall_app_2; [done|]. apply Forall_singleton.
    assert (Submit t ∈ map snd (Node.executed k) ++ Node.ahead (Node.calls k)) as He.
    { apply elem_of_app. right. rewrite (Node.ahead_pop _ _ _ _ _ Hj). by left. }
    destruct (Hpast _ He) as [m p Hm Hp Hin|m req s0 x c _ _ _ _ _ _ Hin]; [|by apply effects_no_submit in Hin].
    apply submit_accepted in Hin as (req & Ha & ->). rewrite <- Ek in Hm. by exists m, req.
Qed.

(** ** Properties *)

Section justified.
Context (d0 : Files.disk) (now0 : Z) (paths0 : Store.Paths) (st0 : Store.store).
Context (depth reserveMS minBudgetMS : Z) (full : string) (live0 : option Mirror.store).
Hypothesis loaded : Store.Load ysets yprofile ylive d0 now0 paths0 = Ok st0.
(** No live sets are wanted, or none is attached yet. *)
Hypothesis no_sets : live0 = None \/ live0 = Some Mirror.New.
(** The keepers of each live set, and what they publish. *)
Context (K : string -> Mirror.keeper -> Prop).
Hypothesis K_ok : forall uuid k, K uuid k -> Mirror.keeper_ok k.
Hypothesis K_epochs : forall uuid k k',
  K uuid k -> K uuid k' -> Mirror.k_epoch k = Mirror.k_epoch k' -> k = k'.
Hypothesis env_delivers : forall uuid b,
  Mirror.blobs (env uuid) = Some b -> Mirror.delivers (Mirror.published (K uuid)) b.
Hypothesis sent_good : forall uuid f, sent uuid f -> Mirror.frame_good (Mirror.published (K uuid)) f.

Abbreviation first := (start (Queue.New depth reserveMS minBudgetMS full) st0 live0).

Lemma running_inv s : rtc step first s -> Queue.inv workers (Node.pool (node s)).
Proof.
  intros Hr%node_part. destruct (Node.reachable_parts _ _ _ _ _ _ _ _ _ _ _ _ _ Hr) as [Hq _].
  by eapply Queue.inv_reachable.
Qed.

Lemma running_traced s : rtc step first s -> traced first s.
Proof.
  intros Hr. refine (rtc_ind_r (traced first) _ _ _ _ Hr).
  { split; [by intros e He%elem_of_nil|constructor]. }
  intros s1 s2 H1 Hs Ht. pose proof (running_inv s2 (rtc_r _ _ _ H1 Hs)) as Hinv. destruct Hs as [s1 n Hn|s1 p Hp|s1 st st' Hst Hm].
  - by apply traced_node.
  - destruct Ht as [Hp1 Hp2]. split; [|done]. intros e He. eapply origin_step; [by apply step_policy|by apply Hp1].
  - destruct Ht as [Hp1 Hp2]. split; [|done]. intros e He. eapply origin_step; [by eapply step_mirror|by apply Hp1].
Qed.

Lemma running_policy s : rtc step first s -> exists snap,
  Reloads.v_cur (Reloads.vars_of (policy s)) = Some snap /\ Reloads.whole ysets yprofile ylive snap.
Proof.
  intros Hr%policy_part.
  assert (Reloads.inv ysets yprofile ylive (policy s)) as [(snap & Hc & Hin) Hw _ _ _].
  { refine (rtc_ind_r _ _ _ _ _ Hr); [by eapply Reloads.load_inv|]. intros s1 s2 _ Hs. by apply Reloads.inv_step. }
  exists snap. split; [done|]. rewrite Forall_forall in Hw. by apply Hw.
Qed.

Lemma running_mirrors s st : rtc step first s -> mirrors s = Some st -> Mirrors.synced K st.
Proof.
  intros Hr%mirror_part Hs. rewrite Hs in Hr. cbn [mirrors start] in Hr. destruct no_sets as [-> | ->]; [done|].
  eapply Mirrors.synced_steps; [exact K_ok|exact K_epochs|exact env_delivers|exact sent_good|exact Hr|apply Mirrors.synced_new].
Qed.

(** An answer to a task that was not shed, by an action that did not panic
    and whose writes the network directory could resolve, is read off the
    files [view] that the snapshot was made from. *)
Definition undisturbed (x : handing) (c : calling) : Prop :=
  panic c = None /\ shed x = "" /\ (forall write addr w, is_ok (geo write addr w).1 = true)
  /\ forall reply, is_Some (marshal reply).
Definition read_off (s0 : system) (x : handing) (c : calling) (req : Request) (payload : string)
  (snap : Store.Snapshot) (view : Files.disk) (p : Store.Paths) : Prop :=
  undisturbed x c -> tree_regular view p = true ->
  forall prof a, Store.ProfileOf (Some snap) (route_Profile (req_Route req)) = Some prof ->
    ParseAddr (conn_ClientIP (req_Conn req)) = Some a -> Zone a = "" ->
    Decide.missing (Some snap) (Store.pr_Rules prof) = None ->
  exists spec reply, profile_file view p yprofile (profile_key req) spec
    /\ marshal reply = Some payload /\ reply_RID reply = req_RID req
    /\ let holds action := row_holds (H := sets_of (mirrors s0) (now c)) (tree_source view p) (specs_of view p ysets)
         (Policy.p_Rules spec) action (Unmap a) in
       decides (holds "allow") (holds "deny") (Policy.p_Default spec) (reply_Verdict reply).

Lemma effects_read s0 x c req subject payload snap view loaded1 p g fp :
  Queue.Req (task x) = req -> Answer subject payload ∈ effects s0 x c ->
  Reloads.v_cur (Reloads.vars_of (policy s0)) = Some snap ->
  Store.assemble ysets yprofile ylive view loaded1 p g fp = Ok snap -> read_off s0 x c req payload snap view p.
Proof.
  intros <- Hin Hcur Hasm (Hp & Hsh & directory & encodes) Hreg prof a Hprof Ha Hz Hm. destruct (effects_subject _ _ _ _ _ Hin) as [_ Hr].
  unfold effects in Hin. rewrite Hcur, Hp, Hsh in Hin.
  pose proof Hprof as Hname. unfold Store.ProfileOf in Hname.
  destruct (profile_from_file _ _ ysets yprofile _ _ _ (assemble_reads _ _ ysets yprofile _ _ _ _ _ Hasm) Hname)
    as (spec & Hfile & Hrules & Hdef).
  destruct (task_verdict cfg marshal Error Networked geo (mirrors s0) (nc c) (now c) ysets yprofile ylive view loaded1 p g fp
    snap Hasm Hreg directory encodes (task x) prof spec a (budget x) Hrules Hdef Hr Hprof Ha Hz Hm (elapsed c) (world c))
    as (reply & payload' & Hans & Hmar & Hrid & Hdec).
  exists spec, reply. split; [exact Hfile|]. split; [|split; [exact Hrid|exact Hdec]].
  assert (Answer subject payload ∈ Handler.answers (evaluate cfg marshal Error Networked geo (mirrors s0) (nc c) (now c)
    (Some snap) None (task x) (budget x) "" (elapsed c) (world c)).1) as Hx.
  { apply list_elem_of_In, filter_In. split; [by apply list_elem_of_In|done]. }
  rewrite Hans in Hx. apply list_elem_of_singleton in Hx as [= _ ->]. exact Hmar.
Qed.

(** The live sets that a call finds hold what their keepers have. *)
Lemma running_live s now uuid ip : rtc step first s -> addr_ok ip ->
  @live_contains (sets_of (mirrors s) now) uuid ip = true
  <-> exists st, mirrors s = Some st /\ Mirrors.keeper_holds K st uuid ip now.
Proof.
  intros Hr Hip. unfold sets_of. destruct (mirrors s) as [st|] eqn:Es; cbn [mirror_live no_live live_contains].
  - rewrite (Mirrors.synced_contains K) by (done || by eapply running_mirrors). split; [by exists st|].
    by intros (? & [= <-] & ?).
  - by split; [|intros (? & ? & _)].
Qed.

End justified.
End system.

(** ** Witness *)

Section example.
#[local] Existing Instance ascii_only.

(** The policy of [Store.ex_disk], one worker, no live sets: a request
    arrives, is queued, taken and answered. *)
Definition ex_store : Store.store := Store.MkStore Store.ex_paths (Some Store.ex_snap) (Store.Gen Store.ex_snap).
Lemma ex_loaded : Store.Load Store.ex_sets Store.ex_profile Store.ex_live Store.ex_disk 0 Store.ex_paths = Ok ex_store.
Proof. pose proof Store.ex_build_ok as E. unfold Store.ex_build in E. unfold Store.Load. by rewrite E. Qed.

Definition ex_run (i : nat) : Node.choice := Node.ARun i 0 false 9 (Some Store.ex_snap).
Definition ex_schedule : list Node.choice :=
  Node.ex_begin ++ [ex_run 2; ex_run 2; ex_run 2; ex_run 1; ex_run 1; Node.AEffect 1 "t1"].
Definition ex_exec : option Node.node :=
  Node.exec Handler.ex_cfg Node.ex_unmarshal Node.ex_order Handler.ex_marshal format (fun _ => true) Served.ex_geo
    Node.ex_json 1 (Node.start 1 Node.ex_pool) ex_schedule.
Definition ex_env (uuid : string) : Mirror.Env unit := Mirror.demo_env.
Definition ex_sent (uuid : string) (f : Mirror.frame) : Prop := f = Mirror.demo_frame.
Abbreviation ex_step := (step Handler.ex_cfg Node.ex_unmarshal Node.ex_order Handler.ex_marshal format (fun _ => true)
  Served.ex_geo Node.ex_json 1 false Store.ex_sets Store.ex_profile Store.ex_live ex_env ex_sent).
Abbreviation ex_sees := (sees (start 1 Node.ex_pool ex_store None)).

(** A run of the node alone is a run of the whole. *)
Lemma ex_steps n : rtc (Node.step Handler.ex_cfg Node.ex_unmarshal Node.ex_order Handler.ex_marshal format (fun _ => true)
    Served.ex_geo Node.ex_json 1 false ex_sees) (Node.start 1 Node.ex_pool) n ->
  rtc ex_step (start 1 Node.ex_pool ex_store None) (MkSystem n (Reloads.start ex_store) None).
Proof.
  intros Hr. refine (rtc_ind_r (fun n => rtc ex_step (start 1 Node.ex_pool ex_store None)
    (MkSystem n (Reloads.start ex_store) None)) _ _ _ _ Hr); [done|].
  intros n1 n2 _ Hs IH. eapply rtc_r; [exact IH|]. by apply (step_node _ _ _ _ _ _ _ _ _ _ _ _ _ _ _ (MkSystem n1 _ None)).
Qed.

(** There is an answer after it, and only one message came. *)
Definition to_inbox (x : string * effect) : bool :=
  match x.2 with Answer subject _ => String.eqb subject "inbox" | _ => false end.
Definition is_hello (m : msg) : bool := String.eqb (m_Reply m) "inbox" && String.eqb (m_Data m) "ok".
Definition answers_hello (o : option Node.node) : bool :=
  match o with
  | Some n => existsb to_inbox (Node.executed n) && forallb is_hello (Node.received n)
  | None => false
  end.

Lemma answers_hello_some o : answers_hello o = true -> exists n, o = Some n
  /\ (exists ts payload, (ts, Answer "inbox" payload) ∈ Node.executed n)
  /\ forall m, m ∈ Node.received n -> m = MkMsg "inbox" "ok".
Proof.
  destruct o as [n|]; [|done]. cbn [answers_hello]. intros [Ha Hr]%andb_true_iff. exists n. split; [done|]. split.
  - apply existsb_exists in Ha as ([ts e] & Hin & He). unfold to_inbox in He. destruct e as [s pl| | |]; try done.
    apply String.eqb_eq in He as ->. exists ts, pl. by apply list_elem_of_In.
  - intros m Hm. rewrite forallb_forall in Hr. apply list_elem_of_In, Hr in Hm as [E1%String.eqb_eq E2%String.eqb_eq]%andb_true_iff.
    destruct m. by f_equal.
Qed.

Lemma ex_sighted : Forall (Node.sighted ex_sees) ex_schedule.
Proof. unfold ex_schedule, Node.ex_begin. cbn [app]. repeat apply Forall_cons_2; try apply Forall_nil_2; by cbn. Qed.
Lemma ex_reaches n : ex_exec = Some n ->
  rtc ex_step (start 1 Node.ex_pool ex_store None) (MkSystem n (Reloads.start ex_store) None).
Proof. unfold ex_exec. intros E. eapply ex_steps, Node.schedule_sound; [exact ex_sighted|exact E]. Qed.
Lemma ex_accepted : accepted Handler.ex_cfg Node.ex_unmarshal Node.ex_order (MkMsg "inbox" "ok") Node.ex_request.
Proof. by split_and!. Qed.
Lemma ex_answered : answers_hello ex_exec = true.
Proof. vm_compute. reflexivity. Qed.

End example.
End System.
