(* ===== verification/Startup.v ===== *)
(** * What runs around the node

    The rest of [run] in [cmd/ip/main.go]: what is opened in which order,
    which failures end the start and which are only logged, and what the
    deferred calls close; [Ensure] of [internal/audit/audit.go]; and [run] of
    [cmd/probe/main.go]. The results of the calls that leave the program are
    arguments. *)

From S2P Require Import Prelude GoStrings Protocol Store Config Program.

#[local] Open Scope Z_scope.

Module Startup.

(** ** The audit stream *)

(** [audit.Ensure]: [jetstream] and [add] are what the client answers, and
    [in_use] is [errors.Is(err, nats.ErrStreamNameAlreadyInUse)]. *)
Definition Ensure (nc : bool) (jetstream add : option error) (in_use : error -> bool) : option error :=
  if negb nc then Some (errorf "nats connection is nil") else
  match jetstream with
  | Some e => Some e
  | None =>
      match add with
      | None => None
      | Some e => if in_use e then None else Some e
      end
  end.

(** ** [run] *)

Inductive resource : Type := Logs | Bus | Blobs | LiveSets | Resolver | Ticker | Heartbeat.
(** What [run] does that is seen from outside. *)
Inductive act : Type :=
| Open (r : resource)
| Close (r : resource)
| Tolerated (what : string) (e : error)   (* an error that is only logged *)
| SyncLive | Subscribe | AwaitSignal | StopTicker | Drain | ClosePool | CloseAudit.

(** The answers of the calls of [run]; none is an error that was not there.
    [c_snapshot] is whether [data.Current()] is there after [startDesired]. *)
Record calls : Type := MkCalls {
  c_config : result error Config.Config; c_ship : bool; c_load : result error Store.store;
  c_connect : option error; c_jetstream : option error; c_stream : option error; c_in_use : error -> bool;
  c_logs : option error; c_blobs : option error; c_watch : option error;
  c_snapshot : bool; c_sync : option error;
  c_resolver : option error; c_subscribe : option error; c_limits : option error; c_drain : option error }.

(** A body of statements: what it does, and the error it returns. *)
Definition body : Type := list act * option error.
Definition fail (e : error) : body := ([], Some e).
Definition acts (l : list act) (b : body) : body := (l ++ b.1, b.2).
(** Opening something with [defer x.Close()]: it is closed when the rest of
    the function has ended, whichever way. *)
Definition deferred (r : resource) (b : body) : body := (Open r :: b.1 ++ [Close r], b.2).
Definition deferred_if (cond : bool) (r : resource) (b : body) : body := if cond then deferred r b else b.
Definition must (e : option error) (b : body) : body := match e with Some e => fail e | None => b end.
Definition warn (what : string) (e : option error) : list act :=
  match e with Some e => [Tolerated what e] | None => [] end.

(** From [waitForSignal] to the return. *)
Definition serve (c : calls) : body :=
  (AwaitSignal :: StopTicker :: Drain :: warn "drain failed" (c_drain c) ++ [ClosePool; CloseAudit], None).
(** From the pool to the return. *)
Definition subscribe (c : calls) : body :=
  must (c_subscribe c) (acts [Subscribe]
    (must (c_limits c)
      (deferred Ticker (deferred Heartbeat (serve c))))).
Definition run (c : calls) : body :=
  match c_config c with
  | Err e => fail e
  | Ok cfg =>
      deferred_if (c_ship c) Logs
        match c_load c with
        | Err e => fail e
        | Ok data =>
            must (c_connect c) (deferred Bus
              (acts (warn "audit stream" (Ensure true (c_jetstream c) (c_stream c) (c_in_use c))
                     ++ (if c_ship c then warn "log stream" (c_logs c) else []))
                (must (if String.eqb (Config.BlobsURL cfg) "" then None else c_blobs c)
                  (deferred_if (negb (String.eqb (Config.BlobsURL cfg) "")) Blobs
                    (deferred LiveSets
                      (must (if String.eqb (Config.DataDir cfg) "" then None else c_watch c)
                        (acts (if c_snapshot c then SyncLive :: warn "live datasets sync failed" (c_sync c) else [])
                          (must (if String.eqb (Config.GeoAddr cfg) "" then None
                                 else option_map (wrapf "geo resolver: %w" []) (c_resolver c))
                            (deferred_if (negb (String.eqb (Config.GeoAddr cfg) "")) Resolver
                              (subscribe c))))))))))
        end
  end.

(** ** The probe *)

(** [run] of the probe: what it prints and its error. *)
Definition probe_run (connect marshal : option error) (reply : result error (result error Protocol.Reply))
  (subject expect : string) (quiet : bool) (print : Protocol.Reply -> string) : list string * option error :=
  match connect, marshal with
  | Some e, _ | None, Some e => ([], Some e)
  | None, None =>
      match reply with
      | Err e => ([], Some (wrapf "no verdict from %s: %w" [subject] e))
      | Ok msg =>
          (match msg with Ok r => if quiet then [] else [print r] | Err _ => [] end,
           match Program.probe_verdict expect msg with Ok _ => None | Err e => Some e end)
      end
  end.

(** ** The start as a list *)

(** A step of the start: the error that would end it, and what it opens. *)
Record stage : Type := MkStage { st_error : option error; st_open : option resource }.
Definition opens (b : bool) (r : resource) : option resource := if b then Some r else None.
Definition stages (c : calls) (cfg : Config.Config) : list stage :=
  let blobs := negb (String.eqb (Config.BlobsURL cfg) "") in
  let geo := negb (String.eqb (Config.GeoAddr cfg) "") in
  [MkStage None (opens (c_ship c) Logs);
   MkStage (match c_load c with Err e => Some e | Ok _ => None end) None;
   MkStage (c_connect c) (Some Bus);
   MkStage (if String.eqb (Config.BlobsURL cfg) "" then None else c_blobs c) (opens blobs Blobs);
   MkStage None (Some LiveSets);
   MkStage (if String.eqb (Config.DataDir cfg) "" then None else c_watch c) None;
   MkStage (if String.eqb (Config.GeoAddr cfg) "" then None
            else option_map (wrapf "geo resolver: %w" []) (c_resolver c)) (opens geo Resolver);
   MkStage (c_subscribe c) None;
   MkStage (c_limits c) (Some Ticker);
   MkStage None (Some Heartbeat)].
(** The first error, and what was opened before it. *)
Fixpoint first_failure (l : list stage) : list resource * option error :=
  match l with
  | [] => ([], None)
  | s :: l =>
      match st_error s with
      | Some e => ([], Some e)
      | None => let '(rs, e) := first_failure l in (option_list (st_open s) ++ rs, e)
      end
  end.

Definition opened (l : list act) : list resource := omap (fun a => match a with Open r => Some r | _ => None end) l.
Definition closed (l : list act) : list resource := omap (fun a => match a with Close r => Some r | _ => None end) l.
Definition is_open (a : act) : bool := match a with Open _ => true | _ => false end.
Definition is_close (a : act) : bool := match a with Close _ => true | _ => false end.
(** What [run] does once it has started, apart from what it closes. *)
Definition at_end (l : list act) : list act :=
  List.filter (fun a => match a with AwaitSignal | StopTicker | Drain | ClosePool | CloseAudit => true | _ => false end) l.

(** A body that opens [rs] in order, closes them in reverse, and then is over. *)
Record opens_then (rs : list resource) (served : bool) (l : list act) : Prop := {
  ot_opened : opened l = rs;
  ot_closed : closed l = rev rs;
  ot_end : at_end l = if served then [AwaitSignal; StopTicker; Drain; ClosePool; CloseAudit] else [];
  (** Nothing is opened after something was closed, and the end comes between. *)
  ot_order : exists a b, l = a ++ b /\ closed a = [] /\ opened b = [] /\ at_end b = [] }.

Lemma opened_app a b : opened (a ++ b) = opened a ++ opened b.
Proof. apply omap_app. Qed.
Lemma closed_app a b : closed (a ++ b) = closed a ++ closed b.
Proof. apply omap_app. Qed.
Lemma at_end_app a b : at_end (a ++ b) = at_end a ++ at_end b.
Proof. apply List.filter_app. Qed.

Lemma warn_silent what e : opened (warn what e) = [] /\ closed (warn what e) = [] /\ at_end (warn what e) = [].
Proof. by destruct e. Qed.

Lemma opens_none : opens_then [] false [].
Proof. split; try done. by exists [], []. Qed.
Lemma opens_acts rs served l m : opened l = [] -> closed l = [] -> at_end l = [] ->
  opens_then rs served m -> opens_then rs served (l ++ m).
Proof.
  intros H1 H2 H3 [Ho Hc He (a & b & -> & Ha & Hb & Hb')].
  split; rewrite ?opened_app, ?closed_app, ?at_end_app, ?H1, ?H2, ?H3 in *; try done.
  exists (l ++ a), b. rewrite closed_app, H2, Ha, <- app_assoc. done.
Qed.
Lemma opens_deferred rs served r l : opens_then rs served l -> opens_then (r :: rs) served (Open r :: l ++ [Close r]).
Proof.
  intros [Ho Hc He (a & b & -> & Ha & Hb & Hb')].
  split; cbn [opened closed at_end omap list_omap List.filter].
  - change (r :: opened ((a ++ b) ++ [Close r]) = r :: rs). by rewrite opened_app, Ho, app_nil_r.
  - change (closed ((a ++ b) ++ [Close r]) = rev (r :: rs)). by rewrite closed_app, Hc.
  - change (at_end ((a ++ b) ++ [Close r]) = if served then [AwaitSignal; StopTicker; Drain; ClosePool; CloseAudit] else []).
    by rewrite at_end_app, He, app_nil_r.
  - exists (Open r :: a), (b ++ [Close r]). rewrite <- app_assoc. split; [done|]. split; [exact Ha|].
    by rewrite opened_app, at_end_app, Hb, Hb'.
Qed.

Definition none {A} (o : option A) : bool := match o with None => true | Some _ => false end.
Definition meets (b : body) (l : list stage) : Prop :=
  b.2 = (first_failure l).2 /\ opens_then (first_failure l).1 (none (first_failure l).2) b.1.

Lemma meets_stage e cond r b l : meets b l -> meets (must e (deferred_if cond r b)) (MkStage e (opens cond r) :: l).
Proof.
  unfold meets. cbn [first_failure st_error st_open]. destruct e as [e|]; [by split; [|apply opens_none]|].
  destruct (first_failure l) as [rs e]. cbn [must fst snd]. intros [He Ho].
  destruct cond; cbn [deferred_if opens deferred option_list app fst snd]; [by split; [|apply opens_deferred]|done].
Qed.
Lemma meets_must e b l : meets b l -> meets (must e b) (MkStage e None :: l).
Proof. exact (meets_stage e false Logs b l). Qed.
Lemma meets_deferred e r b l : meets b l -> meets (must e (deferred r b)) (MkStage e (Some r) :: l).
Proof. exact (meets_stage e true r b l). Qed.
Lemma meets_acts a b l : opened a = [] -> closed a = [] -> at_end a = [] -> meets b l -> meets (acts a b) l.
Proof. intros H1 H2 H3 [He Ho]. split; [done|]. by apply opens_acts. Qed.

Lemma meets_serve c : meets (serve c) [].
Proof.
  split; [done|]. cbn [serve fst snd first_failure none]. destruct (warn_silent "drain failed" (c_drain c)) as (H1 & H2 & H3).
  set (w := warn "drain failed" (c_drain c)) in *.
  split.
  - change (opened ([AwaitSignal; StopTicker; Drain] ++ w ++ [ClosePool; CloseAudit]) = []). by rewrite !opened_app, H1.
  - change (closed ([AwaitSignal; StopTicker; Drain] ++ w ++ [ClosePool; CloseAudit]) = []). by rewrite !closed_app, H2.
  - change (at_end ([AwaitSignal; StopTicker; Drain] ++ w ++ [ClosePool; CloseAudit])
      = [AwaitSignal; StopTicker; Drain; ClosePool; CloseAudit]). by rewrite !at_end_app, H3.
  - exists ([AwaitSignal; StopTicker; Drain] ++ w ++ [ClosePool; CloseAudit]), []. rewrite app_nil_r.
    split_and!; [done| |done|done]. by rewrite !closed_app, H2.
Qed.


(** ** Witness *)

(** A node whose subscription limits are refused. *)
Definition ex_calls : calls :=
  MkCalls (Ok Program.ex_cfg) true (Ok (Store.MkStore (Store.MkPaths "boot" "boot/geo") None 0)) None
    (Some (errorf "no JetStream")) None (fun _ => false) None None None true None None None (Some (errorf "closed")) None.

End Startup.
